(* ===== verification/_CoqProject ===== *)
-Q . S2P
Prelude.v
Bytes.v
Json.v
JsonTheory.v
Models.v
LogCodec.v
Fs.v
JsonAny.v
JsonEncode.v
JsonCompact.v
Payloads.v
Storage.v
StorageTheory.v
StorageProps.v
Compaction.v
Queries.v
RaftState.v
RaftNode.v
RaftElection.v
RaftReplication.v
RaftCatchup.v
RaftTransfer.v
RaftSafety.v
RaftLogs.v
RaftBoot.v
RaftClient.v
Arbiter.v
SchedState.v
SchedExterns.v
SchedJobs.v
SchedService.v
SchedAnswers.v
SchedStream.v
SchedPacker.v
SchedReserve.v
SchedRaft.v
SchedRound.v
Commits.v
JobDirs.v
Environment.v
Paths.v
FileHandler.v
LogWriter.v
LogDelivery.v
LogAstray.v
RaftConfig.v
SchedConfig.v
SchedBoot.v
ClusterJobs.v
ClusterConfig.v
EnvWalk.v
ClusterQueue.v
ClusterContainer.v
ClusterPool.v
ClusterPacker.v
ClusterExamples.v
ClusterSafety.v
ClusterLimits.v
ClusterRun.v
ClusterResults.v
ClusterService.v
StatusStream.v
MirrorWorker.v
TestClient.v
JobTest.v
ClusterNode.v
