(* ===== verification/Prelude.v ===== *)
(** * NotAHivemind: a verification library

    NotAHivemind runs jobs on clusters of containers. Three kinds of processes
    cooperate over gRPC:

    - consensus nodes ([src/internal/consensus]) keep a replicated log with a
      protocol in the style of Raft: a log on disk with snapshots, elections with
      a pre-vote, replication, and an interface for clients;
    - schedulers ([src/internal/scheduler]) take jobs, keep them in a priority
      queue, pack them on their clusters, commit every assignment to the consensus
      group, and shed load to peer schedulers;
    - clusters ([src/internal/cluster]) run the jobs in containers.

    The queue ([src/internal/arbiter]) and the payloads ([src/internal/models])
    are shared.

    ** How Go is modelled

    A function with an [error] result returns an [outcome]: a value, an error, or
    [Panic] where a run-time check of Go fails. Integers keep their width:
    [wrap64], [u16] and the like stand where Go wraps. Code that threads a state
    and fails half way is written in the monad [io], a failed run keeping what was
    done. Shared objects are indices in an explicit heap. A mutex held from the
    first line to the last of a method makes that method one atomic step; where
    code releases a lock or runs goroutines, what others do in between is a
    function on the state, an argument of the definition, and so are the answers
    of remote calls, the clock and random numbers. Loops over Go maps take the
    order of iteration as an argument ([MapOrder]), [sort.Slice] is any sorting
    function ([SliceSort]): theorems hold for every choice.

    ** The consensus engine

    - [Bytes], [Json]: slices and little-endian integers; [encoding/json] as far as
      the program decodes with it. [JsonTheory]: the grammar as relations without
      fuel, which the parser decides. [JsonEncode], [JsonCompact]: [json.Marshal] of
      what the program encodes, which the parser reads back, and the compacting of
      embedded values, which changes no value. [JsonAny]: what a decoded [interface]
      accepts. [Models]: [models/models.go],
      [models/uuid.go]; [Payloads]: the payloads as they are written, and that
      reading returns what was written.
    - [LogCodec]: [filesystem/interpreter.go], the binary format of the log.
      Theorems: the decoder accepts exactly the encodings, the reader of a log
      returns exactly the entries of a well-formed file and refuses a torn one.
    - [Fs]: files, directories and the operations of package [os] that the storage
      uses, with a list of faults to come. [Storage]: the [Handler] of
      [filesystem/{entry,handler,reader,snapshot,writer}.go]. [StorageTheory]: its
      invariant and the preservation lemmas, and what a disk that fails leaves of
      it; [StorageProps]: what it promises (no gaps, recovery of everything
      acknowledged, truncation, rotation, installation in chunks) and where it does
      not keep it. [Append] checks no terms: contiguity holds for any ([grown]),
      recovery for terms that do not fall within a process and across its
      restarts ([reachable]), and [falling_terms_recover_old_log] shows why. [Compaction] and
      [Queries]: [createSnapshot] and [QueryEntries] against declarative
      descriptions.
    - [RaftState]: [consensus/state]. [RaftNode]: the node, its messages and its
      request registry ([service/{node,registry,connections}.go]).
      [RaftElection]: [service/election.go]; one vote per term, leaders have a
      majority, a split vote is final. [RaftReplication]:
      [service/{append,add,retention}.go]; the follower's log after an append on a
      disk that may fail, the leader's commit rule, terms never fall. [AddLog] is
      [addLog_begin], then steps in which the goroutines of its peers end while
      others do anything to the node, then [addLog_decide]; [ended_catchups_commit]
      shows what counts there as an acknowledgement. [RaftCatchup]: the catch-up loop
      run against a follower, from any failed index, with its termination.
      [RaftTransfer]: the transfer of a snapshot, frame by frame, and the catch-up
      that begins with it, which never ends when the snapshot is empty. [RaftSafety]:
      the nodes of a cluster and the messages between them as a step relation; one
      leader per term as long as winners have registered all other nodes and no
      append reaches a node that voted in its term; runs in which one of the two
      fails and two nodes lead. [RaftLogs]: one leader and followers that start with
      parts of its history, with requests and snapshots that are delayed, repeated
      and reordered, on disks with faults; their logs keep agreeing with the
      leader's, and a run in which heartbeats cut a committed entry from the logs.
      [RaftBoot]: the loops of
      [cmd/consensus_node]; elections start by silence only. [RaftClient]:
      [service/serve.go]; what clients are told, the guard against concurrent claims.
      [TestClient]: the client of [cmd/consensus_test] against these answers, which
      it misreads.

    ** The scheduler

    - [Arbiter]: [arbiter/packer.go], for any type of items; a client whose items
      are pointers passes the accessors of its current heap. [PopBestFit]
      returns the best of what is [queued]: for a live id, the item that was pushed
      when the id was not live.
    - [SchedState], [SchedExterns]: the two files of [scheduler/states], over heaps
      of jobs and of cluster states. [SchedJobs]: an abstract scheduler, a map from
      job ids to phases, and the refinement theorem: every operation of the detailed
      state, called as the program calls it, is a transition of the abstract one, so
      no job is lost, and only one that was assigned after its completion (phase
      [Revived]) is in two places.
    - [SchedService]: the handlers of [service/coordinate], the connections to
      clusters ([service/cluster]) and the control plane ([service/serve.go]).
      [SchedAnswers]: how long a scheduler answers for a finished job.
    - [SchedStream]: the goroutine that watches the status stream of a cluster
      ([service/cluster/client.go]), as an automaton over what it sees: how often it
      calls, and that it ends.
    - [SchedPacker]: [packer/operations.go]; a worker settles its job whatever the
      network answers and whatever runs beside it. [SchedReserve]: a round of the
      packer promises no cluster more than it has, unless a job asks for a negative
      amount. [SchedRaft]: the client of the
      consensus group ([service/consensus]) and the rounds of [packer/monitor.go].
    - [SchedRound]: the ticks of [packer/pack.go], which compose these parts: every
      job a tick takes is in good hands. [SchedBoot]: what [cmd/scheduler_node] sets
      up, and that it is what the rounds rely on.
    - [Commits]: the scheduler against a consensus node. What one scheduler commits
      another fetches, of two claims of one job the second is refused, and a job
      that was claimed once can not be assigned again.
    - [JobTest]: [cmd/job_scheduling_test], the goroutines that submit jobs and
      collect them, in any interleaving: each job is collected once, the test ends
      when all are, and a tick that sees all outstanding jobs ends it.

    ** The cluster

    - [JobDirs]: the directories a cluster exchanges with its containers
      ([path/filepath] and the calls of package [os] on a tree, with faults).
      [ClusterJobs]: the images and jobs of [cluster/core], and the queue of
      [cluster/scheduler/queue.go], over [Arbiter]. [ClusterQueue]: its abstract
      specification, a map from ids to phases, which every operation refines.
    - [ClusterContainer]: [cluster/container/{container,container_state,monitor}.go],
      one container in the states [Reserved], [Running], [Free], on a world of a
      Docker daemon (the type class [Docker], third-party code), a disk, a clock and
      a heap of containers. [ClusterPool]: [container/pool.go]. [ClusterPacker]:
      [cluster/scheduler/{packer,health}.go] against an interface, the class
      [ContainerPool] with its laws [PoolLaws]; [ClusterService]: the handlers of [cluster/service] and the loop
      that watches the scheduler.
    - [ClusterSafety]: the pool of [container] keeps the laws, two packing rounds
      that succeed reserve different containers. [ClusterLimits]: one round takes
      no more than what was free when it looked; what a failed round leaves behind;
      two rounds that look before either reserves overcommit. [ClusterRun]: a job
      handed to a container is on the disk for it, an assignment settles the job, a
      job deleted while it runs is reported as completed. [ClusterResults]: the
      goroutine that collects the results of a container, what it delivers and what
      ends it. [MirrorWorker]: the example workload
      ([build/simple_go_echo/mirror_worker.go]) on the other side of the directories;
      a job handed to it comes back as its result. [ClusterNode]:
      [cmd/cluster_node], the ticks of its loops: a tick of the packer brings the
      job it starts to an end, with the result that its own container gave, a health
      check spares what is busy.
      [ClusterExamples]: a toy daemon for the witnesses.
    - [ClusterService] ends with the composition: what a scheduler sends reaches
      the queue of the cluster, what the cluster reports reaches the scheduler.
      [StatusStream] is the stream of completed jobs as a system of its two ends:
      every job arrives once and in order while the stream lasts, and a job taken
      for a broken stream is lost.

    ** Files, logs and configuration

    - [Environment]: [environment/env_loader.go], the walk over a directory and the
      import of JSON files, on the trees of [JobDirs]. [Paths]: text of paths.
      [EnvWalk]: the walk finds every file, the import keeps what it should as long
      as excluded texts are in names only, and where it does not.
    - [RaftConfig], [SchedConfig], [ClusterConfig]: the three [config.go].
    - [FileHandler]: [filehandler/{file_handler,files_manager,json_handler}.go].
      [LogWriter]: [filehandler/logger.go] and the streaming of a container's log.
      [LogDelivery]: the writer and its producers as a step relation, what is added
      reaches its file in order. [LogAstray]: where it does not.

    ** Fuel

    [Json.parse_value] and its mutual functions take twice the length of the text
    and one more: every call consumes a byte or descends one production, and
    [JsonTheory.parse_value_fuel] shows that more changes nothing.
    [LogCodec.readLoop] takes the length of the stream and one more, and
    [readLoop_fuel] shows that more changes nothing. [Fs.digits] takes more digits
    than an int64 has. [Environment.walk] takes the size of the tree and one more,
    and [EnvWalk.walk_finds] shows that this is enough. [RaftReplication.snapshot_requests] takes the length of what
    is left to send. [RaftReplication.resolvePeerLag] may run for ever in the
    source: [None] means that its fuel ran out, [resolvePeerLag_catches_up] gives
    the fuel that suffices and [old_term_entry_livelock] a case where none does.
    A cluster operation that may wait for ever on a channel is in the monad [bio],
    [None] being the wait that nobody ends. Retry loops with a bound in the source
    (five reads of a status file) recurse on that bound.

    ** Not modelled

    Left out for good: resource statistics of containers (floating-point numbers that
    nothing asks for), gRPC set-up, tickers and [go] statements that only
    start the modelled rounds, symbolic links and permissions of files, generated
    code; of the binaries under [src/cmd] the flags, the log files and the handling
    of signals; the workload under [src/build] that is written in Python. *)

From Stdlib Require Import ZArith Lia.
From stdpp Require Export base tactics option list gmap strings fin_maps sorting.

#[global] Open Scope Z_scope.

(** ** Notation scope and outcomes of Go code

    A Go function that returns an [error] returns [Err e]; one that trips a
    run-time check (slice bounds, nil dereference, closed channel) returns
    [Panic]. *)

Inductive outcome (E A : Type) : Type :=
| Ok (a : A)
| Err (e : E)
| Panic.
Arguments Ok {E A} a.
Arguments Err {E A} e.
Arguments Panic {E A}.

#[export] Instance outcome_ret E : MRet (outcome E) := λ A a, Ok a.
#[export] Instance outcome_bind E : MBind (outcome E) := λ A B f m,
  match m with Ok a => f a | Err e => Err e | Panic => Panic end.

Lemma bind_Ok {E A B} (a : A) (f : A → outcome E B) : (Ok a ≫= f) = f a.
Proof. done. Qed.

Definition is_ok {E A} (m : outcome E A) : bool :=
  match m with Ok _ => true | _ => false end.

(** ** Stateful code that can fail

    A method that returns [(A, error)] and changes the state [S] on the way; the
    changes made before an error stay. *)

Definition io (E S A : Type) : Type := S → outcome E A * S.
#[export] Instance io_ret E S : MRet (io E S) := λ A a s, (Ok a, s).
#[export] Instance io_bind E S : MBind (io E S) := λ A B f m s,
  match m s with
  | (Ok a, s') => f a s'
  | (Err e, s') => (Err e, s')
  | (Panic, s') => (Panic, s')
  end.

Section io.
Context {E S : Type}.

Definition ret {A} (a : A) : io E S A := λ s, (Ok a, s).
Definition throw {A} (e : E) : io E S A := λ s, (Err e, s).
Definition panic {A} : io E S A := λ s, (Panic, s).
Definition of_outcome {A} (r : outcome E A) : io E S A := λ s, (r, s).
Definition get : io E S S := λ s, (Ok s, s).
Definition modify (f : S → S) : io E S unit := λ s, (Ok tt, f s).

(** [if err := m(); err != nil { return f(err) }] *)
Definition wrap_err {A} (f : E → E) (m : io E S A) : io E S A := λ s,
  match m s with (Err e, s') => (Err (f e), s') | r => r end.

(** [_ = m()] *)
Definition ignore {A} (m : io E S A) : io E S unit := λ s,
  match m s with
  | (Ok _, s') | (Err _, s') => (Ok tt, s')
  | (Panic, s') => (Panic, s')
  end.

(** The outcome as a value, for code that looks at the error. *)
Definition try_ {A} (m : io E S A) : io E S (A + E) := λ s,
  match m s with
  | (Ok a, s') => (Ok (inl a), s')
  | (Err e, s') => (Ok (inr e), s')
  | (Panic, s') => (Panic, s')
  end.

Fixpoint for_each {A} (f : A → io E S unit) (l : list A) : io E S unit :=
  match l with
  | [] => ret tt
  | x :: l => λ s, match f x s with
                   | (Ok _, s') => for_each f l s'
                   | r => r
                   end
  end.
End io.

Lemma io_bind_Ok {E S A B} (m : io E S A) (f : A → io E S B) s a s' :
  m s = (Ok a, s') → (m ≫= f) s = f a s'.
Proof. unfold mbind, io_bind. by intros ->. Qed.
Lemma io_bind_Err {E S A B} (m : io E S A) (f : A → io E S B) s e s' :
  m s = (Err e, s') → (m ≫= f) s = (Err e, s').
Proof. unfold mbind, io_bind. by intros ->. Qed.
Lemma wrap_err_Ok {E S A} (g : E → E) (m : io E S A) s a s' :
  m s = (Ok a, s') → wrap_err g m s = (Ok a, s').
Proof. unfold wrap_err. by intros ->. Qed.
Lemma wrap_err_Err {E S A} (g : E → E) (m : io E S A) s e s' :
  m s = (Err e, s') → wrap_err g m s = (Err (g e), s').
Proof. unfold wrap_err. by intros ->. Qed.

(** ** Relations that every run keeps

    [Keeps R m]: the state after a run of [m], failed or not, is related to the
    one before. Instances follow the shape of the code, so that it is found by
    resolution. *)

Class Keeps {E S A} (R : relation S) (m : io E S A) := keeps : ∀ s, R s (m s).2.

Section keeps.
Context {E S : Type} (R : relation S) `{!PreOrder R}.

#[export] Instance keeps_ret {A} (a : A) : Keeps R (ret (E:=E) a).
Proof using PreOrder0. by intros s. Qed.
#[export] Instance keeps_throw {A} (e : E) : Keeps R (throw (A:=A) e).
Proof using PreOrder0. by intros s. Qed.
#[export] Instance keeps_panic {A} : Keeps R (panic (E:=E) (A:=A)).
Proof using PreOrder0. by intros s. Qed.
#[export] Instance keeps_get : Keeps R (get (E:=E)).
Proof using PreOrder0. by intros s. Qed.
#[export] Instance keeps_bind {A B} (m : io E S A) (f : A → io E S B) :
  Keeps R m → (∀ a, Keeps R (f a)) → Keeps R (m ≫= f).
Proof using PreOrder0.
  intros Hm Hf s. unfold mbind, io_bind. pose proof (Hm s) as H.
  destruct (m s) as [[a|e|] s']; [|done..]. etrans; [exact H | apply Hf].
Qed.
#[export] Instance keeps_if {A} (b : bool) (m n : io E S A) :
  Keeps R m → Keeps R n → Keeps R (if b then m else n).
Proof using. by destruct b. Qed.
#[export] Instance keeps_try {A} (m : io E S A) : Keeps R m → Keeps R (try_ m).
Proof using. intros Hm s. unfold try_. specialize (Hm s). by destruct (m s) as [[]]. Qed.
#[export] Instance keeps_ignore {A} (m : io E S A) : Keeps R m → Keeps R (ignore m).
Proof using. intros Hm s. unfold ignore. specialize (Hm s). by destruct (m s) as [[]]. Qed.
#[export] Instance keeps_for_each {A} (f : A → io E S unit) l :
  (∀ x, Keeps R (f x)) → Keeps R (for_each f l).
Proof using PreOrder0.
  intros Hf. induction l as [|x l IH]; simpl; [apply _|]. intros s.
  pose proof (Hf x s) as H. destruct (f x s) as [[a|e|] s']; [|done..].
  etrans; [exact H | apply IH].
Qed.
Lemma keeps_modify (f : S → S) : (∀ s, R s (f s)) → Keeps R (modify (E:=E) f).
Proof using. intros Hf s. apply Hf. Qed.

(** Using it on a run. *)
Lemma keeps_run {A} (m : io E S A) `{!Keeps R m} s r s' : m s = (r, s') → R s s'.
Proof using. intros Hm. pose proof (keeps s) as H. by rewrite Hm in H. Qed.
End keeps.

(** Following the shape of the code; [leaf] proves what is left. *)
Ltac keeps_by leaf :=
  repeat first
    [ apply _
    | leaf
    | apply keeps_bind
    | apply keeps_if
    | progress intros
    | match goal with |- Keeps _ (match ?x with _ => _ end) => destruct x end ].

(** Code in which no run-time check fails. *)
Class NoPanic {E S A} (m : io E S A) := no_panic : ∀ s, (m s).1 ≠ Panic.

Section no_panic.
Context {E S : Type}.

#[export] Instance no_panic_ret {A} (a : A) : NoPanic (ret (E:=E) (S:=S) a).
Proof. done. Qed.
#[export] Instance no_panic_throw {A} (e : E) : NoPanic (throw (S:=S) (A:=A) e).
Proof. done. Qed.
#[export] Instance no_panic_get : NoPanic (get (E:=E) (S:=S)).
Proof. done. Qed.
#[export] Instance no_panic_modify (f : S → S) : NoPanic (modify (E:=E) f).
Proof. done. Qed.
#[export] Instance no_panic_bind {A B} (m : io E S A) (f : A → io E S B) :
  NoPanic m → (∀ a, NoPanic (f a)) → NoPanic (m ≫= f).
Proof.
  intros Hm Hf s. unfold mbind, io_bind. specialize (Hm s).
  destruct (m s) as [[a|e|] s']; [apply Hf | done | done].
Qed.
#[export] Instance no_panic_if {A} (b : bool) (m n : io E S A) :
  NoPanic m → NoPanic n → NoPanic (if b then m else n).
Proof. by destruct b. Qed.
#[export] Instance no_panic_ignore {A} (m : io E S A) : NoPanic m → NoPanic (ignore m).
Proof. intros Hm s. unfold ignore. specialize (Hm s). by destruct (m s) as [[]]. Qed.
#[export] Instance no_panic_for_each {A} (f : A → io E S unit) l :
  (∀ x, NoPanic (f x)) → NoPanic (for_each f l).
Proof.
  intros Hf. induction l as [|x l IH]; simpl; [apply _|]. intros s. specialize (Hf x s).
  destruct (f x s) as [[a|e|] s']; [apply IH | done | done].
Qed.
End no_panic.

Ltac no_panic_by leaf :=
  repeat first
    [ apply _
    | leaf
    | apply no_panic_bind
    | apply no_panic_if
    | progress intros
    | match goal with |- NoPanic (match ?x with _ => _ end) => destruct x end ].

(** A run that may also wait for ever: on a channel that nobody empties, say. *)
Definition bio (E S A : Type) : Type := S → option (outcome E A * S).
#[export] Instance bio_ret E S : MRet (bio E S) := λ A a s, Some (Ok a, s).
#[export] Instance bio_bind E S : MBind (bio E S) := λ A B f m s,
  match m s with
  | Some (Ok a, s') => f a s'
  | Some (Err e, s') => Some (Err e, s')
  | Some (Panic, s') => Some (Panic, s')
  | None => None
  end.

Lemma bio_bind_inv {E S A B} (m : bio E S A) (f : A → bio E S B) s r s' :
  (m ≫= f) s = Some (r, s') →
  ∃ r1 s1, m s = Some (r1, s1) ∧
    match r1 with
    | Ok a => f a s1 = Some (r, s')
    | Err e => r = Err e ∧ s' = s1
    | Panic => r = Panic ∧ s' = s1
    end.
Proof.
  unfold mbind, bio_bind. destruct (m s) as [[[a|e|] s1]|]; [| | |done];
    intros H; eexists _, _; (split; [done|]); naive_solver.
Qed.

(** Code that does not wait, on a part of the state. *)
Definition lift_io {E S T A} (proj : S → T) (upd : T → S → S) (m : io E T A) : bio E S A :=
  λ s, let '(r, t) := m (proj s) in Some (r, upd t s).

(** Code on a part of the state. *)
Definition zoom {E S T A} (proj : S → T) (upd : T → S → S) (m : io E T A) : io E S A :=
  λ s, let '(r, t) := m (proj s) in (r, upd t s).

Declare Scope go_scope.
Delimit Scope go_scope with go.
Notation "x >=? y" := (Z.geb x y) (at level 70) : go_scope.
Notation "s == t" := (bool_decide (s = t)) (at level 70) : go_scope.
Notation "s != t" := (negb (bool_decide (s = t))) (at level 70) : go_scope.

(** ** Machine integers

    Go's [int64] (and [int] on the 64-bit targets of the build files) wraps
    around; so do the unsigned types. *)

Definition wrap64 (z : Z) : Z := (z + 2 ^ 63) mod 2 ^ 64 - 2 ^ 63.
Definition wrap32 (z : Z) : Z := (z + 2 ^ 31) mod 2 ^ 32 - 2 ^ 31.
Definition wrap16 (z : Z) : Z := (z + 2 ^ 15) mod 2 ^ 16 - 2 ^ 15.
Definition u64 (z : Z) : Z := z mod 2 ^ 64.
Definition u32 (z : Z) : Z := z mod 2 ^ 32.
Definition u16 (z : Z) : Z := z mod 2 ^ 16.

Definition int64_ok (z : Z) : Prop := - 2 ^ 63 ≤ z < 2 ^ 63.
#[export] Instance int64_ok_dec z : Decision (int64_ok z).
Proof. unfold int64_ok. apply _. Defined.

Lemma wrap64_id z : int64_ok z → wrap64 z = z.
Proof. unfold int64_ok, wrap64. intros. rewrite Z.mod_small; lia. Qed.

Lemma wrap64_ok z : int64_ok (wrap64 z).
Proof.
  unfold int64_ok, wrap64. pose proof (Z.mod_pos_bound (z + 2 ^ 63) (2 ^ 64)). lia.
Qed.

Lemma wrap64_u64 z : int64_ok z → wrap64 (u64 z) = z.
Proof.
  unfold int64_ok, wrap64, u64. intros Hz.
  rewrite Zplus_mod_idemp_l, Z.mod_small; lia.
Qed.

Lemma u64_wrap64 z : 0 ≤ z < 2 ^ 64 → u64 (wrap64 z) = z.
Proof.
  unfold u64, wrap64. intros. rewrite Zminus_mod_idemp_l.
  replace (z + 2 ^ 63 - 2 ^ 63) with z by lia. by apply Z.mod_small.
Qed.

Lemma u32_small z : 0 ≤ z < 2 ^ 32 → u32 z = z.
Proof. apply Z.mod_small. Qed.
Lemma u16_small z : 0 ≤ z < 2 ^ 16 → u16 z = z.
Proof. apply Z.mod_small. Qed.

#[global] Arguments wrap64 : simpl never.
#[global] Arguments u64 : simpl never.
#[global] Arguments u32 : simpl never.
#[global] Arguments u16 : simpl never.

(** ** Tactics *)

(** Case analysis on every [match]/[if] of the goal and the hypotheses. *)
Ltac split_matches :=
  repeat match goal with
  | |- context [match ?x with _ => _ end] => destruct x eqn:?
  | H : context [match ?x with _ => _ end] |- _ => destruct x eqn:?
  end.

(** Turn boolean tests of the code into propositions. *)
Ltac bool_to_prop :=
  repeat match goal with
  | H : (_ && _)%bool = true |- _ => apply andb_true_iff in H as [? ?]
  | H : (_ || _)%bool = false |- _ => apply orb_false_iff in H as [? ?]
  | H : negb _ = true |- _ => apply negb_true_iff in H
  | H : negb _ = false |- _ => apply negb_false_iff in H
  | H : bool_decide _ = true |- _ => apply bool_decide_eq_true_1 in H
  | H : bool_decide _ = false |- _ => apply bool_decide_eq_false_1 in H
  | H : (_ <=? _) = true |- _ => apply Z.leb_le in H
  | H : (_ <=? _) = false |- _ => apply Z.leb_gt in H
  | H : (_ <? _) = true |- _ => apply Z.ltb_lt in H
  | H : (_ <? _) = false |- _ => apply Z.ltb_ge in H
  | H : (_ =? _) = true |- _ => apply Z.eqb_eq in H
  | H : (_ =? _) = false |- _ => apply Z.eqb_neq in H
  | H : (_ >? _) = true |- _ => rewrite Z.gtb_ltb in H
  | H : (_ >? _) = false |- _ => rewrite Z.gtb_ltb in H
  end.

(** One step of a computation whose first action is known to succeed. *)
Tactic Notation "step" "by" uconstr(H) :=
  erewrite io_bind_Ok by (first [apply H | apply wrap_err_Ok, H]; eauto).

Create HintDb hive discriminated.
Create Rewrite HintDb hive.

(** ** Iteration order of Go maps

    [range] over a Go map visits the bindings in an unspecified order, which
    may differ from one loop to the next. Every operation that ranges over a
    map takes the order of that loop as an argument, so a theorem about it
    holds for every order. *)

Record MapOrder := {
  range : ∀ {V}, gmap string V → list (string * V);
  range_perm : ∀ V (m : gmap string V), range m ≡ₚ map_to_list m
}.

Program Definition default_order : MapOrder := {| range := λ V m, map_to_list m |}.
Next Obligation. done. Qed.

Section range.
Context (ord : MapOrder) {V : Type}.
Implicit Types m : gmap string V.

Lemma elem_of_range m k v : (k, v) ∈ range ord m ↔ m !! k = Some v.
Proof. rewrite range_perm. apply elem_of_map_to_list. Qed.

Lemma length_range m : length (range ord m) = size m.
Proof. rewrite range_perm. apply length_map_to_list. Qed.

Lemma NoDup_range_keys m : NoDup (range ord m).*1.
Proof. rewrite range_perm. apply NoDup_fst_map_to_list. Qed.

Lemma elem_of_range_vals m v : v ∈ (range ord m).*2 ↔ ∃ k, m !! k = Some v.
Proof.
  rewrite list_elem_of_fmap. setoid_rewrite <- elem_of_range.
  split; [intros ([k w] & -> & ?); eauto | intros [k ?]; eexists (k, v); eauto].
Qed.

Lemma elem_of_range_keys m k : k ∈ (range ord m).*1 ↔ is_Some (m !! k).
Proof.
  rewrite list_elem_of_fmap. unfold is_Some. setoid_rewrite <- elem_of_range.
  split; [intros ([k' w] & -> & ?); eauto | intros [v ?]; eexists (k, v); eauto].
Qed.
End range.

(** ** Stable sorting

    [sort.SliceStable] returns the only permutation that is sorted and keeps
    the order of equivalent elements; insertion sort computes it. *)

Section stable_sort.
Context {A : Type} (less : A → A → bool).

Fixpoint insert_stable (x : A) (l : list A) : list A :=
  match l with
  | [] => [x]
  | y :: ys => if less y x then y :: insert_stable x ys else x :: y :: ys
  end.

Definition stable_sort (l : list A) : list A := foldr insert_stable [] l.

(** [x] may stand before [y]. *)
Definition before (x y : A) : Prop := less y x = false.

Lemma insert_stable_perm x l : insert_stable x l ≡ₚ x :: l.
Proof.
  induction l as [|y l IH]; simpl; [done|].
  destruct (less y x); [rewrite IH; apply Permutation_swap | done].
Qed.

Lemma stable_sort_perm l : stable_sort l ≡ₚ l.
Proof. induction l as [|x l IH]; simpl; [done|]. by rewrite insert_stable_perm, IH. Qed.

Context (less_asym : ∀ x y, less x y = true → less y x = false).
Context (before_trans : ∀ x y z, before x y → before y z → before x z).

Lemma insert_stable_sorted x l :
  StronglySorted before l → StronglySorted before (insert_stable x l).
Proof.
  induction 1 as [|y l Hl IH Hy]; simpl; [by repeat constructor|].
  destruct (less y x) eqn:E.
  - constructor; [done|]. rewrite insert_stable_perm.
    constructor; [by apply less_asym | done].
  - constructor; [by constructor|]. constructor; [done|].
    eapply Forall_impl; [exact Hy|]. intros z Hz. by eapply before_trans.
Qed.

Lemma stable_sort_sorted l : StronglySorted before (stable_sort l).
Proof. induction l; simpl; [constructor | by apply insert_stable_sorted]. Qed.

(** Elements of which none precedes another keep their order. *)
Lemma stable_sort_stable (P : A → Prop) `{∀ x, Decision (P x)} l :
  (∀ x y, P x → P y → less x y = false) →
  filter P (stable_sort l) = filter P l.
Proof.
  intros HP. induction l as [|x l IH]; simpl; [done|].
  rewrite (filter_cons P x l), <- IH. clear IH.
  induction (stable_sort l) as [|y l' IH]; simpl.
  - by rewrite filter_cons.
  - destruct (less y x) eqn:E.
    + rewrite !filter_cons, IH.
      destruct (decide (P x)), (decide (P y)); try done.
      by rewrite HP in E.
    + by rewrite (filter_cons P x).
Qed.
End stable_sort.

(** [sort.Slice] promises no order between equivalent elements: any permutation
    that is sorted for the comparison it was given. *)
Record SliceSort := {
  slice_sort : ∀ {A}, (A → A → bool) → list A → list A;
  slice_sort_perm : ∀ A (less : A → A → bool) l, slice_sort less l ≡ₚ l;
  slice_sort_sorted : ∀ A (less : A → A → bool) l,
    (∀ x y, less x y = true → less y x = false) →
    (∀ x y z, before less x y → before less y z → before less x z) →
    StronglySorted (before less) (slice_sort less l)
}.

Program Definition insertion_slice_sort : SliceSort := {| slice_sort := @stable_sort |}.
Next Obligation. intros. apply stable_sort_perm. Qed.
Next Obligation. intros. by apply stable_sort_sorted. Qed.

(** ** Searching a list for the first element that passes a test *)

Fixpoint pop_first {A} (p : A → bool) (l : list A) : option (A * list A) :=
  match l with
  | [] => None
  | x :: xs =>
      if p x then Some (x, xs)
      else match pop_first p xs with
           | Some (y, ys) => Some (y, x :: ys)
           | None => None
           end
  end.

Section pop_first.
Context {A : Type} (p : A → bool).
Implicit Types l : list A.

Lemma pop_first_Some l x l' :
  pop_first p l = Some (x, l') →
  ∃ l1 l2, l = l1 ++ x :: l2 ∧ l' = l1 ++ l2 ∧ p x = true
           ∧ Forall (λ y, p y = false) l1.
Proof.
  revert l'. induction l as [|y l IH]; intros l' H; simplify_eq/=.
  destruct (p y) eqn:Hp.
  - simplify_eq. by exists [], l'.
  - destruct (pop_first p l) as [[z zs]|] eqn:E; simplify_eq.
    destruct (IH _ eq_refl) as (l1 & l2 & -> & -> & ? & ?).
    exists (y :: l1), l2. by repeat constructor.
Qed.

Lemma pop_first_None l : pop_first p l = None ↔ Forall (λ y, p y = false) l.
Proof.
  induction l as [|y l IH]; simpl; [done|]. rewrite Forall_cons.
  rewrite <- IH. destruct (p y); [by split; [|intros [? ?]]|].
  by destruct (pop_first p l) as [[? ?]|]; split; [|intros [? ?]| |].
Qed.

Lemma pop_first_ext (p' : A → bool) l :
  (∀ x, p x = p' x) → pop_first p l = pop_first p' l.
Proof. intros Hp. induction l as [|x l IH]; simpl; [done|]. by rewrite Hp, IH. Qed.
End pop_first.

(** In a sorted list the first element that passes a test stands before every
    other that does. *)
Lemma StronglySorted_app_cons {A} (R : A → A → Prop) l1 x l2 :
  StronglySorted R (l1 ++ x :: l2) → Forall (R x) l2.
Proof. induction l1; simpl; inversion 1; subst; auto. Qed.

Lemma pop_first_best {A} (R : A → A → Prop) (p : A → bool) l x l' y :
  StronglySorted R l → pop_first p l = Some (x, l') →
  y ∈ l → p y = true → y = x ∨ R x y.
Proof.
  intros Hs (l1 & l2 & -> & -> & Hx & Hl1)%pop_first_Some Hy Hp.
  apply StronglySorted_app_cons in Hs. rewrite Forall_forall in Hl1, Hs.
  apply elem_of_app in Hy as [Hy | [-> | Hy]%elem_of_cons]; auto.
  by rewrite Hl1 in Hp.
Qed.

(** ** Lists *)

Lemma NoDup_fmap_filter {A B} (f : A → B) (P : A → Prop) `{∀ x, Decision (P x)} l :
  NoDup (f <$> l) → NoDup (f <$> filter P l).
Proof.
  induction l as [|x l IH]; simpl; [done|]. rewrite NoDup_cons, filter_cons.
  intros [Hx Hl]. case_decide; simpl; [|auto]. apply NoDup_cons. split; [|auto].
  intros (y & Hy & [_ Hin]%list_elem_of_filter)%list_elem_of_fmap.
  apply Hx, list_elem_of_fmap; eauto.
Qed.

Lemma fmap_perm_NoDup {A B} (f : A → B) l l' : l ≡ₚ l' → NoDup (f <$> l) → NoDup (f <$> l').
Proof. by intros ->. Qed.

Lemma StronglySorted_app_remove {A} (R : A → A → Prop) l1 x l2 :
  StronglySorted R (l1 ++ x :: l2) → StronglySorted R (l1 ++ l2).
Proof.
  induction l1 as [|y l1 IH]; simpl; inversion 1; subst; [done|].
  constructor; [auto|]. match goal with H : Forall _ (_ ++ _) |- _ =>
    rewrite Forall_app, Forall_cons in H end.
  apply Forall_app. tauto.
Qed.

Lemma NoDup_fmap_inj_in {A B} (f : A → B) l x y :
  NoDup (f <$> l) → x ∈ l → y ∈ l → f x = f y → x = y.
Proof.
  intros Hn [i Hi]%list_elem_of_lookup [j Hj]%list_elem_of_lookup Hf.
  assert (i = j) as ->; [|congruence].
  apply (NoDup_lookup _ i j (f x) Hn); rewrite list_lookup_fmap.
  - by rewrite Hi.
  - rewrite Hj. simpl. by rewrite Hf.
Qed.

Lemma NoDup_fmap_middle {A B} (f : A → B) l1 x l2 :
  NoDup (f <$> l1 ++ x :: l2) →
  NoDup (f <$> l1 ++ l2) ∧ ∀ y, y ∈ l1 ++ l2 → f y ≠ f x.
Proof.
  rewrite <- Permutation_middle, fmap_cons, NoDup_cons. intros [Hx Hn].
  split; [done|]. intros y Hy Heq. apply Hx. rewrite <- Heq.
  by apply list_elem_of_fmap_2.
Qed.

Lemma StronglySorted_snoc {A} (R : A → A → Prop) l x :
  StronglySorted R l → (∀ y, y ∈ l → R y x) → StronglySorted R (l ++ [x]).
Proof.
  induction 1 as [|y l Hl IH Hy]; intros Hx; simpl; [by repeat constructor|].
  constructor; [apply IH; intros; apply Hx; by right|].
  apply Forall_app. split; [done|]. constructor; [apply Hx; by left | done].
Qed.

Lemma StronglySorted_app_lt {A} (R : A → A → Prop) l x y :
  StronglySorted R (l ++ [x]) → y ∈ l → R y x.
Proof.
  intros Hs Hy. apply list_elem_of_split in Hy as (l1 & l2 & ->).
  rewrite <- app_assoc in Hs. apply StronglySorted_app_cons in Hs.
  rewrite Forall_app, Forall_singleton in Hs. tauto.
Qed.

Lemma StronglySorted_app_r {A} (R : A → A → Prop) l k :
  StronglySorted R (l ++ k) → StronglySorted R k.
Proof. induction l as [|x l IH]; [done|]. simpl. inversion 1; subst. auto. Qed.

Lemma StronglySorted_app_l {A} (R : A → A → Prop) l k :
  StronglySorted R (l ++ k) → StronglySorted R l.
Proof.
  induction l as [|x l IH]; [constructor|]. simpl. inversion 1 as [|? ? ? Hx]; subst.
  apply Forall_app in Hx as [? _]. constructor; auto.
Qed.

Lemma try_Ok {E S A} (m : io E S A) s a s' : m s = (Ok a, s') → try_ m s = (Ok (inl a), s').
Proof. unfold try_. by intros ->. Qed.
Lemma try_Err {E S A} (m : io E S A) s e s' : m s = (Err e, s') → try_ m s = (Ok (inr e), s').
Proof. unfold try_. by intros ->. Qed.
Lemma ignore_Ok {E S A} (m : io E S A) s a s' : m s = (Ok a, s') → ignore m s = (Ok tt, s').
Proof. unfold ignore. by intros ->. Qed.

Lemma filter_Forall_true {A} (P : A → Prop) `{∀ x, Decision (P x)} l :
  Forall P l → filter P l = l.
Proof. induction 1; [done|]. rewrite filter_cons_True by done. by f_equal. Qed.

Lemma filter_Forall_false {A} (P : A → Prop) `{∀ x, Decision (P x)} l :
  Forall (λ x, ¬ P x) l → filter P l = [].
Proof. induction 1; [done|]. by rewrite filter_cons_False. Qed.

(** A run is its outcome and the state it ends in. *)
Lemma run_eq {A B} (r : A * B) a : r.1 = a → r = (a, r.2).
Proof. destruct r. by intros <-. Qed.

Lemma filter_ext_in {A} (P Q : A → Prop) `{∀ x, Decision (P x)} `{∀ x, Decision (Q x)}
    (l : list A) :
  (∀ x, x ∈ l → P x ↔ Q x) → filter P l = filter Q l.
Proof.
  induction l as [|x l IH]; intros HPQ; [done|]. rewrite !filter_cons.
  rewrite IH by (intros; apply HPQ; by right).
  assert (P x ↔ Q x) by (apply HPQ; by left).
  destruct (decide (P x)), (decide (Q x)); tauto.
Qed.

Lemma StronglySorted_impl_in {A} (R R' : A → A → Prop) l :
  (∀ x y, x ∈ l → y ∈ l → R x y → R' x y) → StronglySorted R l → StronglySorted R' l.
Proof.
  intros HR. induction 1 as [|x l Hl IH Hx]; constructor.
  - apply IH. intros. apply HR; [by right | by right | done].
  - rewrite Forall_forall in Hx |- *. intros y Hy. apply HR; [by left | by right | auto].
Qed.
