(* ===== verification/Bytes.v ===== *)
(** * Bytes, little-endian integers and slices

    The parts of Go's [encoding/binary], slice expressions and
    string/[]byte conversions that the storage code uses. A [[]byte] is a
    [list byte]; a Go string is a Stdlib [string], one character per byte. *)

From Stdlib Require Import Strings.Byte Strings.String.
From S2P Require Import Prelude.

#[global] Open Scope Z_scope.

Definition Z_of_byte (b : byte) : Z := Z.of_N (Byte.to_N b).

Definition byte_of_Z (z : Z) : byte :=
  match Byte.of_N (Z.to_N (z mod 256)) with Some b => b | None => x00 end.

Lemma Z_of_byte_bound b : 0 ≤ Z_of_byte b < 256.
Proof. unfold Z_of_byte. pose proof (Byte.to_N_bounded b). lia. Qed.

Lemma Z_of_byte_of_Z z : Z_of_byte (byte_of_Z z) = z mod 256.
Proof.
  unfold byte_of_Z, Z_of_byte. pose proof (Z.mod_pos_bound z 256).
  destruct (Byte.of_N _) as [b|] eqn:E.
  - apply Byte.to_of_N in E. rewrite E. lia.
  - apply Byte.of_N_None_iff in E. lia.
Qed.

Lemma byte_of_Z_of_byte b : byte_of_Z (Z_of_byte b) = b.
Proof.
  unfold byte_of_Z. rewrite Z.mod_small by apply Z_of_byte_bound.
  unfold Z_of_byte. by rewrite N2Z.id, Byte.of_to_N.
Qed.

#[export] Instance byte_eq_dec : EqDecision byte := Byte.byte_eq_dec.

(** [binary.LittleEndian.PutUintN] and [binary.LittleEndian.UintN]. *)
Fixpoint le_bytes (n : nat) (z : Z) : list byte :=
  match n with
  | O => []
  | S n => byte_of_Z z :: le_bytes n (z / 256)
  end.

Fixpoint le_value (bs : list byte) : Z :=
  match bs with
  | [] => 0
  | b :: bs => Z_of_byte b + 256 * le_value bs
  end.

Lemma length_le_bytes n z : length (le_bytes n z) = n.
Proof. revert z. induction n; simpl; auto. Qed.

Lemma le_value_le_bytes n z : le_value (le_bytes n z) = z mod 256 ^ Z.of_nat n.
Proof.
  revert z. induction n as [|n IH]; intros z; simpl le_value.
  - by rewrite Z.mod_1_r.
  - rewrite Z_of_byte_of_Z, IH, Nat2Z.inj_succ, Z.pow_succ_r by lia.
    pose proof (Z.pow_pos_nonneg 256 (Z.of_nat n)).
    rewrite Z.rem_mul_r by lia. lia.
Qed.

Lemma le_value_bound bs : 0 ≤ le_value bs < 256 ^ Z.of_nat (length bs).
Proof.
  induction bs as [|b bs IH]; simpl le_value; [simpl; lia|].
  pose proof (Z_of_byte_bound b). cbn [length].
  rewrite Nat2Z.inj_succ, Z.pow_succ_r by lia. lia.
Qed.

Lemma le_bytes_le_value bs n : length bs = n → le_bytes n (le_value bs) = bs.
Proof.
  intros <-. induction bs as [|b bs IH]; simpl; [done|].
  pose proof (Z_of_byte_bound b) as Hb. f_equal.
  - unfold byte_of_Z. rewrite (Z.mul_comm 256), Z_mod_plus_full.
    rewrite Z.mod_small by done. unfold Z_of_byte. by rewrite N2Z.id, Byte.of_to_N.
  - rewrite (Z.mul_comm 256), Z.div_add, Z.div_small, Z.add_0_l by lia. done.
Qed.

#[global] Arguments le_bytes : simpl never.
#[global] Arguments le_value : simpl never.

Definition len {A} (l : list A) : Z := Z.of_nat (length l).

Lemma len_app {A} (l k : list A) : len (l ++ k) = len l + len k.
Proof. unfold len. rewrite length_app. lia. Qed.
Lemma len_nonneg {A} (l : list A) : 0 ≤ len l.
Proof. unfold len. lia. Qed.
Lemma len_nil {A} : len (@nil A) = 0.
Proof. done. Qed.
Lemma len_cons {A} (x : A) l : len (x :: l) = 1 + len l.
Proof. unfold len. simpl length. lia. Qed.
Lemma len_le_bytes n z : len (le_bytes n z) = Z.of_nat n.
Proof. unfold len. by rewrite length_le_bytes. Qed.
#[export] Hint Rewrite @len_app @len_nil @len_cons len_le_bytes : hive.

(** A slice expression [data[lo:hi]] panics out of bounds (the capacity of the
    slices the code takes is their length). *)
Definition slice {E A} (lo hi : Z) (data : list A) : outcome E (list A) :=
  if (0 <=? lo) && (lo <=? hi) && (hi <=? len data)
  then Ok (take (Z.to_nat (hi - lo)) (drop (Z.to_nat lo) data))
  else Panic.

Lemma slice_mid {E A} lo hi (l1 l2 l3 : list A) :
  lo = len l1 → hi = len l1 + len l2 →
  slice lo hi (l1 ++ l2 ++ l3) = Ok (E:=E) l2.
Proof.
  intros -> ->. unfold slice. rewrite !len_app.
  pose proof (len_nonneg l1). pose proof (len_nonneg l2). pose proof (len_nonneg l3).
  rewrite !(proj2 (Z.leb_le _ _)) by lia. simpl. f_equal.
  rewrite drop_app_length' by (unfold len; lia).
  apply take_app_length'. unfold len in *. lia.
Qed.

Lemma slice_Ok {E A} lo hi (data d : list A) :
  slice lo hi data = Ok (E:=E) d →
  0 ≤ lo ≤ hi ∧ hi ≤ len data ∧ d = take (Z.to_nat (hi - lo)) (drop (Z.to_nat lo) data)
  ∧ len d = hi - lo.
Proof.
  unfold slice. destruct (_ && _) eqn:H; [|done]. intros [= <-]. bool_to_prop.
  split_and!; try done || lia. unfold len in *. rewrite length_take, length_drop. lia.
Qed.

Lemma slice_app {E A} a b c (data x y : list A) :
  slice a b data = Ok (E:=E) x → slice b c data = Ok (E:=E) y →
  slice a c data = Ok (E:=E) (x ++ y).
Proof.
  intros (?&?&->&_)%slice_Ok (?&?&->&_)%slice_Ok. unfold slice.
  rewrite !(proj2 (Z.leb_le _ _)) by lia. simpl. f_equal.
  replace (Z.to_nat (c - a)) with (Z.to_nat (b - a) + Z.to_nat (c - b))%nat by lia.
  rewrite <- take_take_drop, drop_drop. do 3 f_equal. lia.
Qed.

Lemma slice_prefix {E A} n (data x : list A) :
  slice 0 n data = Ok (E:=E) x → data = x ++ drop (Z.to_nat n) data.
Proof.
  intros (?&?&->&_)%slice_Ok. rewrite Z.sub_0_r, drop_0. by rewrite take_drop.
Qed.

(** ** Strings *)



Lemma string_of_bytes_of_string s : string_of_list_byte (list_byte_of_string s) = s.
Proof. apply string_of_list_byte_of_string. Qed.
Lemma bytes_of_string_of_bytes bs : list_byte_of_string (string_of_list_byte bs) = bs.
Proof. apply list_byte_of_string_of_list_byte. Qed.
#[export] Hint Rewrite string_of_bytes_of_string bytes_of_string_of_bytes : hive.
