(* ===== verification/Json.v ===== *)
(** * JSON as [encoding/json] reads it

    The part of Go's [encoding/json] that the program relies on: the syntax
    check with its nesting limit, string unquoting (escapes, surrogates,
    invalid UTF-8), and the rules by which [Unmarshal] fills a struct's fields
    (case-insensitive keys, the last duplicate wins, [null], strict
    integers). Error messages are not modelled: a failed call is [None]. *)

From Stdlib Require Import Strings.Byte Strings.String.
From S2P Require Import Prelude.
From S2P Require Import Bytes.

(** ** Values

    An object keeps its members in order, duplicates included, each with the
    raw text of its value (what [json.RawMessage] stores). *)
#[warnings="-register-all"]
Inductive json :=
| JNull
| JBool (b : bool)
| JNumber (lit : list byte)
| JString (s : list byte)
| JArray (vs : list json)
| JObject (ms : list (list byte * list byte * json)).

Definition is_ws (b : byte) : bool :=
  match b with x20 | x09 | x0a | x0d => true | _ => false end.

Fixpoint skip_ws (bs : list byte) : list byte :=
  match bs with b :: r => if is_ws b then skip_ws r else bs | [] => [] end.

Definition between (lo hi : Z) (b : byte) : bool := (lo <=? Z_of_byte b) && (Z_of_byte b <=? hi).
Definition is_digit : byte → bool := between 48 57.
Definition is_cont : byte → bool := between 128 191.

Fixpoint span (p : byte → bool) (bs : list byte) : list byte * list byte :=
  match bs with
  | b :: r => if p b then let '(xs, r') := span p r in (b :: xs, r') else ([], bs)
  | [] => ([], [])
  end.

(** ** Numbers: sign, integer part without leading zeros, fraction, exponent *)
Definition num_sign (bs : list byte) : list byte * list byte :=
  match bs with x2d :: r => ([x2d], r) | _ => ([], bs) end.

Definition num_int (bs : list byte) : list byte * list byte :=
  match bs with x30 :: r => ([x30], r) | _ => span is_digit bs end.

Definition num_frac (bs : list byte) : option (list byte * list byte) :=
  match bs with
  | x2e :: r => let '(fs, r') := span is_digit r in
                if bool_decide (fs = []) then None else Some (x2e :: fs, r')
  | _ => Some ([], bs)
  end.

Definition exp_sign (bs : list byte) : list byte * list byte :=
  match bs with (x2b | x2d) as c :: r => ([c], r) | _ => ([], bs) end.

Definition num_exp (bs : list byte) : option (list byte * list byte) :=
  match bs with
  | (x65 | x45) as e :: r =>
      let '(sg, r) := exp_sign r in
      let '(es, r) := span is_digit r in
      if bool_decide (es = []) then None else Some (e :: sg ++ es, r)
  | _ => Some ([], bs)
  end.

Definition scan_number (bs : list byte) : option (list byte * list byte) :=
  let '(sign, r) := num_sign bs in
  let '(ds, r) := num_int r in
  if bool_decide (ds = []) then None else
  '(frac, r) ← num_frac r;
  '(ex, r) ← num_exp r;
  Some (sign ++ ds ++ frac ++ ex, r).

(** ** Strings *)
Definition hex_digit (b : byte) : option Z :=
  let z := Z_of_byte b in
  if between 48 57 b then Some (z - 48)
  else if between 97 102 b then Some (z - 87)
  else if between 65 70 b then Some (z - 55)
  else None.

Definition get_u4 (bs : list byte) : option (Z * list byte) :=
  match bs with
  | a :: b :: c :: d :: r =>
      x ← hex_digit a; y ← hex_digit b; z ← hex_digit c; w ← hex_digit d;
      Some (4096 * x + 256 * y + 16 * z + w, r)
  | _ => None
  end.

(** [utf8.AppendRune] on a rune that is not a surrogate. *)
Definition encode_rune (z : Z) : list byte :=
  if z <? 128 then [byte_of_Z z]
  else if z <? 2048 then [byte_of_Z (192 + z / 64); byte_of_Z (128 + z mod 64)]
  else if z <? 65536 then
    [byte_of_Z (224 + z / 4096); byte_of_Z (128 + z / 64 mod 64); byte_of_Z (128 + z mod 64)]
  else [byte_of_Z (240 + z / 262144); byte_of_Z (128 + z / 4096 mod 64);
        byte_of_Z (128 + z / 64 mod 64); byte_of_Z (128 + z mod 64)].

(** U+FFFD *)
Definition replacement : list byte := [xef; xbf; xbd].

(** Bytes of the well-formed UTF-8 sequence at the start ([utf8.DecodeRune]). *)
Definition utf8_seq (bs : list byte) : option (list byte * list byte) :=
  match bs with
  | [] => None
  | a :: r =>
      let z := Z_of_byte a in
      if z <? 128 then Some ([a], r)
      else if between 194 223 a then
        match r with b :: r => if is_cont b then Some ([a; b], r) else None | _ => None end
      else if between 224 239 a then
        match r with
        | b :: c :: r =>
            let lo := if z =? 224 then 160 else 128 in
            let hi := if z =? 237 then 159 else 191 in
            if between lo hi b && is_cont c then Some ([a; b; c], r) else None
        | _ => None end
      else if between 240 244 a then
        match r with
        | b :: c :: d :: r =>
            let lo := if z =? 240 then 144 else 128 in
            let hi := if z =? 244 then 143 else 191 in
            if between lo hi b && is_cont c && is_cont d then Some ([a; b; c; d], r) else None
        | _ => None end
      else None
  end.

(** The rune of an escape [\uXXXX], and the rest; surrogate pairs combine, a
    lone surrogate becomes U+FFFD. *)
Definition u_escape (r : list byte) : option (list byte * list byte) :=
  '(rr, r') ← get_u4 r;
  if (55296 <=? rr) && (rr <? 57344) then
    match r' with
    | x5c :: x75 :: q =>
        match get_u4 q with
        | Some (rr1, q') =>
            if (rr <? 56320) && (56320 <=? rr1) && (rr1 <? 57344)
            then Some (encode_rune (65536 + (rr - 55296) * 1024 + (rr1 - 56320)), q')
            else Some (replacement, r')
        | None => Some (replacement, r')
        end
    | _ => Some (replacement, r')
    end
  else Some (encode_rune rr, r').

(** The rest of a string literal after its opening quote. *)
Fixpoint parse_str (fuel : nat) (bs : list byte) : option (list byte * list byte) :=
  match fuel with O => None | S fuel =>
  let more s r := '(t, r') ← parse_str fuel r; Some (s ++ t, r') in
  match bs with
  | [] => None
  | x22 :: r => Some ([], r)
  | x5c :: c :: r =>
      match c with
      | x22 | x5c | x2f => more [c] r
      | x62 => more [x08] r
      | x66 => more [x0c] r
      | x6e => more [x0a] r
      | x72 => more [x0d] r
      | x74 => more [x09] r
      | x75 => '(s, r') ← u_escape r; more s r'
      | _ => None
      end
  | b :: r =>
      if (Z_of_byte b <? 32) || bool_decide (b = x5c) then None
      else match utf8_seq bs with
           | Some (s, r') => more s r'
           | None => more replacement r
           end
  end end.

Definition parse_string (bs : list byte) : option (list byte * list byte) :=
  match bs with x22 :: r => parse_str (length bs) r | _ => None end.

(** ** Values *)
Definition maxNestingDepth : nat := Z.to_nat 10000.

Fixpoint expect (p bs : list byte) : option (list byte) :=
  match p, bs with
  | [], _ => Some bs
  | a :: p, b :: r => if bool_decide (a = b) then expect p r else None
  | _, [] => None
  end.

(** What stands between two members or elements. *)
Inductive sep := More (r : list byte) | Done (r : list byte) | Bad.
Definition separator (close : byte) (bs : list byte) : sep :=
  match skip_ws bs with
  | x2c :: r => More r
  | b :: r => if bool_decide (b = close) then Done r else Bad
  | [] => Bad
  end.

Fixpoint parse_value (fuel : nat) (depth : nat) (bs : list byte)
    : option (json * list byte) :=
  match fuel with O => None | S fuel =>
  match skip_ws bs with
  | x6e :: _ => r ← expect [x6e; x75; x6c; x6c] (skip_ws bs); Some (JNull, r)
  | x74 :: _ => r ← expect [x74; x72; x75; x65] (skip_ws bs); Some (JBool true, r)
  | x66 :: _ => r ← expect [x66; x61; x6c; x73; x65] (skip_ws bs); Some (JBool false, r)
  | x22 :: _ => '(s, r) ← parse_string (skip_ws bs); Some (JString s, r)
  | x5b :: r =>
      match depth with O => None | S depth =>
      match skip_ws r with
      | x5d :: r => Some (JArray [], r)
      | _ => '(vs, r) ← parse_elems fuel depth r; Some (JArray vs, r)
      end end
  | x7b :: r =>
      match depth with O => None | S depth =>
      match skip_ws r with
      | x7d :: r => Some (JObject [], r)
      | _ => '(ms, r) ← parse_members fuel depth r; Some (JObject ms, r)
      end end
  | bs => '(n, r) ← scan_number bs; Some (JNumber n, r)
  end end
with parse_elems (fuel : nat) (depth : nat) (bs : list byte)
    : option (list json * list byte) :=
  match fuel with O => None | S fuel =>
  '(v, r) ← parse_value fuel depth bs;
  match separator x5d r with
  | More r => '(vs, r) ← parse_elems fuel depth r; Some (v :: vs, r)
  | Done r => Some ([v], r)
  | Bad => None
  end end
with parse_members (fuel : nat) (depth : nat) (bs : list byte)
    : option (list (list byte * list byte * json) * list byte) :=
  match fuel with O => None | S fuel =>
  '(k, r) ← parse_string (skip_ws bs);
  match skip_ws r with
  | x3a :: r =>
      let r := skip_ws r in
      '(v, r') ← parse_value fuel depth r;
      let m := (k, take (length r - length r') r, v) in
      match separator x7d r' with
      | More r' => '(ms, r') ← parse_members fuel depth r'; Some (m :: ms, r')
      | Done r' => Some ([m], r')
      | Bad => None
      end
  | _ => None
  end end.

(** A whole document: one value and white space. *)
Definition parse_json (bs : list byte) : option json :=
  '(v, r) ← parse_value (2 * length bs + 1) maxNestingDepth bs;
  match skip_ws r with [] => Some v | _ => None end.

(** ** Unmarshal into a struct *)

(** [foldName]: ASCII letters in upper case; U+017F folds to S, U+212A to K; no
    other rune folds to an ASCII letter. *)
Fixpoint fold_name (bs : list byte) : list byte :=
  match bs with
  | xc5 :: xbf :: r => x53 :: fold_name r
  | xe2 :: x84 :: xaa :: r => x4b :: fold_name r
  | b :: r => (if between 97 122 b then byte_of_Z (Z_of_byte b - 32) else b) :: fold_name r
  | [] => []
  end.

Definition key_is (name : string) (key : list byte) : bool :=
  bool_decide (fold_name key = fold_name (list_byte_of_string name)).

Definition decimal (ds : list byte) : Z :=
  foldl (λ acc b, 10 * acc + (Z_of_byte b - 48)) 0 ds.

(** [strconv.ParseInt(lit, 10, 64)] on a JSON number literal. *)
Definition parse_int64 (lit : list byte) : option Z :=
  let '(neg, ds) := match lit with x2d :: r => (true, r) | _ => (false, lit) end in
  if forallb is_digit ds then
    let z := if neg : bool then - decimal ds else decimal ds in
    if bool_decide (int64_ok z) then Some z else None
  else None.

(** Storing a JSON value into a field of Go type [string], [int64] (or [int]),
    or a pointer to one; [null] leaves a scalar as it is and clears a pointer. *)
Definition into_string (old : string) (v : json) : option string :=
  match v with
  | JNull => Some old
  | JString s => Some (string_of_list_byte s)
  | _ => None
  end.

Definition into_int (old : Z) (v : json) : option Z :=
  match v with JNull => Some old | JNumber lit => parse_int64 lit | _ => None end.

Definition into_ptr {A} (into : A → json → option A) (zero : A) (old : option A) (v : json)
    : option (option A) :=
  match v with
  | JNull => Some None
  | _ => Some <$> into (match old with Some a => a | None => zero end) v
  end.

(** [json.Unmarshal(data, &x)] for a struct [x] equal to [zero]: the members in
    order, each given its raw text and value. *)
Definition unmarshal {A} (member : A → list byte → list byte → json → option A) (zero : A)
    (data : list byte) : option A :=
  match parse_json data with
  | Some JNull => Some zero
  | Some (JObject ms) =>
      foldl (λ acc m, a ← acc; member a m.1.1 m.1.2 m.2) (Some zero) ms
  | _ => None
  end.

(** JSON text for examples: an apostrophe stands for the quote character. *)
Definition text (s : string) : list byte :=
  (λ b, if bool_decide (b = x27) then x22 else b) <$> list_byte_of_string s.
