(* ===== verification/JsonTheory.v ===== *)
(** * The language that the JSON reader accepts

    Relations that say what [Json.parse_str] and [Json.parse_value] read, without
    fuel: [str_reads bs s r] and [reads d bs v r] when a text that starts with [bs]
    holds a string [s] (a value [v] nested at most [d] deep) up to the rest [r].
    The functions compute exactly these relations, and the fuel that [parse_json]
    gives is enough. What follows a value does not change what is read. *)

From Stdlib Require Import Strings.Byte.
From S2P Require Import Prelude.
From S2P Require Import Bytes.
From S2P Require Import Json.

(** ** Strings *)

(** The byte that a two-character escape stands for. *)
Definition esc_char (c : byte) : option byte :=
  match c with
  | x22 | x5c | x2f => Some c
  | x62 => Some x08
  | x66 => Some x0c
  | x6e => Some x0a
  | x72 => Some x0d
  | x74 => Some x09
  | _ => None
  end.

(** One character of a literal: its decoded bytes and what follows. *)
Inductive char_reads : list byte → list byte → list byte → Prop :=
| char_esc c e r : esc_char c = Some e → char_reads (x5c :: c :: r) [e] r
| char_u r s r' : u_escape r = Some (s, r') → char_reads (x5c :: x75 :: r) s r'
| char_rune b r s r' :
    b ≠ x22 → b ≠ x5c → 32 ≤ Z_of_byte b → utf8_seq (b :: r) = Some (s, r') →
    char_reads (b :: r) s r'
| char_bad b r :
    b ≠ x22 → b ≠ x5c → 32 ≤ Z_of_byte b → utf8_seq (b :: r) = None →
    char_reads (b :: r) replacement r.

(** The rest of a literal, its closing quote included. *)
Inductive str_reads : list byte → list byte → list byte → Prop :=
| str_end r : str_reads (x22 :: r) [] r
| str_char bs s bs' t r :
    char_reads bs s bs' → str_reads bs' t r → str_reads bs (s ++ t) r.

Lemma get_u4_Some bs z r :
  get_u4 bs = Some (z, r) → ∃ a b c d, bs = a :: b :: c :: d :: r.
Proof.
  destruct bs as [|a [|b [|c [|d bs]]]]; try done. simpl.
  destruct (hex_digit a), (hex_digit b), (hex_digit c), (hex_digit d); try done.
  simpl. intros [= <- <-]. eauto.
Qed.

Lemma utf8_seq_Some bs s r :
  utf8_seq bs = Some (s, r) → bs = s ++ r ∧ s ≠ [].
Proof.
  destruct bs as [|a bs]; [done|]. cbn [utf8_seq].
  repeat case_match; try done; by intros [= <- <-].
Qed.

(** A sequence is recognised by its own bytes. *)
Lemma utf8_seq_swap bs s r y : utf8_seq bs = Some (s, r) → utf8_seq (s ++ y) = Some (s, y).
Proof.
  destruct bs as [|a bs]; [done|]. cbn [utf8_seq].
  repeat (case_match; simplify_eq/=; try done); intros [= <- <-]; cbn [utf8_seq app];
    repeat match goal with H : ?b = ?c |- context [?b] => rewrite H end; done.
Qed.

Lemma u_escape_Some bs s r :
  u_escape bs = Some (s, r) → ∃ p, bs = p ++ r ∧ (4 ≤ length p)%nat.
Proof.
  unfold u_escape. destruct (get_u4 bs) as [[z q]|] eqn:E; [|done].
  apply get_u4_Some in E as (a & b & c & d & ->). cbn [mbind option_bind].
  assert (Hd : ∃ p, a :: b :: c :: d :: q = p ++ q ∧ (4 ≤ length p)%nat)
    by (exists [a; b; c; d]; simpl; split; [done | lia]).
  destruct (_ && _); [|intros [= _ <-]; exact Hd].
  destruct q as [|q1 q]; [intros [= _ <-]; exact Hd|].
  destruct (decide (q1 = x5c)) as [->|]; [|destruct q1; done || (intros [= _ <-]; exact Hd)].
  destruct q as [|q2 q]; [intros [= _ <-]; exact Hd|].
  destruct (decide (q2 = x75)) as [->|]; [|destruct q2; done || (intros [= _ <-]; exact Hd)].
  destruct (get_u4 q) as [[z' q']|] eqn:E'; [|intros [= _ <-]; exact Hd].
  apply get_u4_Some in E' as (a' & b' & c' & d' & ->).
  destruct (_ && _ && _); intros [= _ <-]; [|exact Hd].
  exists [a; b; c; d; x5c; x75; a'; b'; c'; d']. simpl. split; [done | lia].
Qed.

Lemma char_reads_length bs s r : char_reads bs s r → (length r < length bs)%nat.
Proof.
  intros [c e r0 _|r0 s0 r' H|b r0 s0 r' _ _ _ H|b r0 _ _ _ _]; cbn [length]; try lia.
  - apply u_escape_Some in H as (p & -> & ?). rewrite length_app. lia.
  - apply utf8_seq_Some in H as [H Hne]. apply (f_equal length) in H.
    rewrite length_app in H. destruct s0; [done|]. simpl in *. lia.
Qed.

Lemma char_reads_fun bs s r s' r' : char_reads bs s r → char_reads bs s' r' → s = s' ∧ r = r'.
Proof. intros H H'. destruct H; inversion H'; simplify_eq; try done; naive_solver. Qed.

Lemma str_reads_length bs s r : str_reads bs s r → (length r < length bs)%nat.
Proof.
  induction 1 as [r|bs s bs' t r Hc _ IH]; simpl; [lia|].
  apply char_reads_length in Hc. lia.
Qed.

Lemma char_reads_quote bs s r : char_reads bs s r → ∀ q, bs ≠ x22 :: q.
Proof. intros [] q [=]; by subst. Qed.

Lemma parse_str_char fuel bs s r :
  char_reads bs s r →
  parse_str (S fuel) bs = '(t, r') ← parse_str fuel r; Some (s ++ t, r').
Proof.
  intros [c e r0 H|r0 s0 r' H|b r0 s0 r' H1 H2 H3 H|b r0 H1 H2 H3 H].
  - destruct c; inversion H; subst; reflexivity.
  - cbn [parse_str]. by rewrite H.
  - cbn [parse_str]. rewrite H. rewrite (bool_decide_false _ H2), orb_false_r.
    rewrite (proj2 (Z.ltb_ge _ _)) by lia. by destruct b.
  - cbn [parse_str]. rewrite H. rewrite (bool_decide_false _ H2), orb_false_r.
    rewrite (proj2 (Z.ltb_ge _ _)) by lia. by destruct b.
Qed.

Lemma parse_str_no_esc fuel c r :
  esc_char c = None → c ≠ x75 → parse_str (S fuel) (x5c :: c :: r) = None.
Proof.
  intros E Hc. apply (bool_decide_eq_false_2 (c = x75)) in Hc.
  cbn [parse_str]. destruct c; first [discriminate E | discriminate Hc | reflexivity].
Qed.

(** A text that is not at a character or the closing quote is refused. *)
Lemma parse_str_cases fuel bs s r :
  parse_str (S fuel) bs = Some (s, r) →
  (bs = x22 :: r ∧ s = []) ∨
  ∃ s1 bs' s2, char_reads bs s1 bs' ∧ parse_str fuel bs' = Some (s2, r) ∧ s = s1 ++ s2.
Proof.
  assert (Hgo : ∀ s1 bs', char_reads bs s1 bs' → parse_str (S fuel) bs = Some (s, r) →
    ∃ s1 bs' s2, char_reads bs s1 bs' ∧ parse_str fuel bs' = Some (s2, r) ∧ s = s1 ++ s2).
  { intros s1 bs' Hc. rewrite (parse_str_char _ _ _ _ Hc).
    destruct (parse_str fuel bs') as [[t r']|] eqn:E; [|done].
    intros [= <- <-]. naive_solver. }
  intros H. destruct bs as [|b bs]; [done|].
  destruct (decide (b = x22)) as [->|]; [left; by inversion H|]. right.
  destruct (decide (b = x5c)) as [->|].
  - destruct bs as [|c bs]; [done|].
    destruct (esc_char c) as [e|] eqn:E; [by eapply Hgo; [apply char_esc|]|].
    destruct (decide (c = x75)) as [->|]; [|by rewrite parse_str_no_esc in H].
    destruct (u_escape bs) as [[s0 r']|] eqn:Eu; [by eapply Hgo; [apply char_u|]|].
    cbn [parse_str] in H. by rewrite Eu in H.
  - destruct (Z.ltb_spec (Z_of_byte b) 32) as [Hlt|Hge].
    { cbn [parse_str] in H. rewrite (proj2 (Z.ltb_lt _ _) Hlt) in H. by destruct b. }
    destruct (utf8_seq (b :: bs)) as [[s0 r']|] eqn:Eu.
    + by eapply Hgo; [apply char_rune|].
    + by eapply Hgo; [apply char_bad|].
Qed.

Lemma parse_str_sound fuel bs s r : parse_str fuel bs = Some (s, r) → str_reads bs s r.
Proof.
  revert bs s. induction fuel as [|fuel IH]; intros bs s H; [done|].
  apply parse_str_cases in H as [[-> ->]|(s1 & bs' & s2 & Hc & Hp & ->)]; [constructor|].
  econstructor; eauto.
Qed.

Lemma parse_str_complete bs s r fuel :
  str_reads bs s r → (length bs ≤ fuel)%nat → parse_str fuel bs = Some (s, r).
Proof.
  intros H. revert fuel. induction H as [r|bs s bs' t r Hc Hs IH]; intros fuel Hf.
  - destruct fuel; [simpl in Hf; lia | done].
  - pose proof (char_reads_length _ _ _ Hc). destruct fuel as [|fuel]; [lia|].
    rewrite (parse_str_char _ _ _ _ Hc), (IH fuel) by lia. done.
Qed.

(** ** Values *)

(** The words of the language. *)
Inductive word : list byte → json → Prop :=
| word_null : word [x6e; x75; x6c; x6c] JNull
| word_true : word [x74; x72; x75; x65] (JBool true)
| word_false : word [x66; x61; x6c; x73; x65] (JBool false).

Definition starts_number (b : byte) : bool := is_digit b || bool_decide (b = x2d).

Inductive reads : nat → list byte → json → list byte → Prop :=
| rd_word d bs w v r : word w v → skip_ws bs = w ++ r → reads d bs v r
| rd_string d bs q s r : skip_ws bs = x22 :: q → str_reads q s r → reads d bs (JString s) r
| rd_number d bs c q n r :
    skip_ws bs = c :: q → starts_number c → scan_number (c :: q) = Some (n, r) →
    reads d bs (JNumber n) r
| rd_array_nil d bs q r :
    skip_ws bs = x5b :: q → skip_ws q = x5d :: r → reads (S d) bs (JArray []) r
| rd_array d bs q vs r :
    skip_ws bs = x5b :: q → elems_read d q vs r → reads (S d) bs (JArray vs) r
| rd_object_nil d bs q r :
    skip_ws bs = x7b :: q → skip_ws q = x7d :: r → reads (S d) bs (JObject []) r
| rd_object d bs q ms r :
    skip_ws bs = x7b :: q → members_read d q ms r → reads (S d) bs (JObject ms) r
with elems_read : nat → list byte → list json → list byte → Prop :=
| el_last d bs v r r' : reads d bs v r → skip_ws r = x5d :: r' → elems_read d bs [v] r'
| el_more d bs v r r' vs r'' :
    reads d bs v r → skip_ws r = x2c :: r' → elems_read d r' vs r'' →
    elems_read d bs (v :: vs) r''
with members_read : nat → list byte → list (list byte * list byte * json) → list byte → Prop :=
| mem_last d bs m r r' : member_reads d bs m r → skip_ws r = x7d :: r' → members_read d bs [m] r'
| mem_more d bs m r r' ms r'' :
    member_reads d bs m r → skip_ws r = x2c :: r' → members_read d r' ms r'' →
    members_read d bs (m :: ms) r''
with member_reads : nat → list byte → list byte * list byte * json → list byte → Prop :=
| mem d bs q k q1 q2 v r :
    skip_ws bs = x22 :: q → str_reads q k q1 → skip_ws q1 = x3a :: q2 →
    reads d (skip_ws q2) v r →
    member_reads d bs (k, take (length (skip_ws q2) - length r) (skip_ws q2), v) r.

Scheme reads_mind := Induction for reads Sort Prop
  with elems_mind := Induction for elems_read Sort Prop
  with members_mind := Induction for members_read Sort Prop
  with member_mind := Induction for member_reads Sort Prop.
Combined Scheme reads_mutind from reads_mind, elems_mind, members_mind, member_mind.

Lemma skip_ws_length bs : (length (skip_ws bs) ≤ length bs)%nat.
Proof. induction bs as [|b bs IH]; simpl; [lia|]. destruct (is_ws b); simpl; lia. Qed.

Lemma skip_ws_eq_length bs b q : skip_ws bs = b :: q → (length q < length bs)%nat.
Proof. intros H. pose proof (skip_ws_length bs). rewrite H in *. simpl in *. lia. Qed.

Lemma span_app p bs : let '(xs, r) := span p bs in bs = xs ++ r.
Proof.
  induction bs as [|b bs IH]; simpl; [done|]. destruct (p b); [|done].
  destruct (span p bs) as [xs r]. simpl. by rewrite <- IH.
Qed.

(** *** Numbers *)

Definition head_not (p : byte → bool) (bs : list byte) : Prop :=
  match bs with [] => True | b :: _ => p b = false end.

(** What may follow a number. *)
Definition num_stop : list byte → Prop :=
  head_not (λ b, is_digit b || bool_decide (b ∈ [x2e; x65; x45])).

Definition all_digits (ds : list byte) : Prop := Forall (λ b, is_digit b = true) ds ∧ ds ≠ [].

Inductive is_int : list byte → Prop :=
| int_zero : is_int [x30]
| int_digits ds : all_digits ds → head ds ≠ Some x30 → is_int ds.
Inductive is_frac : list byte → Prop :=
| frac_none : is_frac []
| frac_digits ds : all_digits ds → is_frac (x2e :: ds).
Inductive is_exp : list byte → Prop :=
| exp_none : is_exp []
| exp_digits e sg ds :
    e = x65 ∨ e = x45 → sg = [] ∨ sg = [x2b] ∨ sg = [x2d] → all_digits ds →
    is_exp (e :: sg ++ ds).
Inductive is_number : list byte → Prop :=
| number sg ds fs es :
    sg = [] ∨ sg = [x2d] → is_int ds → is_frac fs → is_exp es →
    is_number (sg ++ ds ++ fs ++ es).

Lemma span_sound p bs xs r : span p bs = (xs, r) → bs = xs ++ r ∧ Forall (λ b, p b = true) xs.
Proof.
  revert xs r. induction bs as [|b bs IH]; intros xs r; simpl; [by intros [= <- <-]|].
  destruct (p b) eqn:E; [|by intros [= <- <-]].
  destruct (span p bs) as [ys q] eqn:Es. intros [= <- <-].
  destruct (IH _ _ eq_refl) as [-> ?]. by auto.
Qed.

Lemma span_complete p xs r : Forall (λ b, p b = true) xs → head_not p r → span p (xs ++ r) = (xs, r).
Proof.
  induction 1 as [|b xs Hb _ IH]; intros Hr; simpl.
  - destruct r as [|b r]; simpl in *; [done|]. by rewrite Hr.
  - by rewrite Hb, IH.
Qed.

Lemma num_int_other bs : head bs ≠ Some x30 → num_int bs = span is_digit bs.
Proof. destruct bs as [|b bs]; [done|]. by destruct b. Qed.

Lemma num_sign_other bs : head bs ≠ Some x2d → num_sign bs = ([], bs).
Proof. destruct bs as [|b bs]; [done|]. by destruct b. Qed.

Lemma exp_sign_other bs : head bs ≠ Some x2b → head bs ≠ Some x2d → exp_sign bs = ([], bs).
Proof. destruct bs as [|b bs]; [done|]. by destruct b. Qed.

Lemma num_frac_other bs : head bs ≠ Some x2e → num_frac bs = Some ([], bs).
Proof. destruct bs as [|b bs]; [done|]. by destruct b. Qed.

Lemma num_exp_other bs :
  head bs ≠ Some x65 → head bs ≠ Some x45 → num_exp bs = Some ([], bs).
Proof. destruct bs as [|b bs]; [done|]. by destruct b. Qed.

Lemma num_exp_e e bs :
  e = x65 ∨ e = x45 →
  num_exp (e :: bs) = let '(sg, r) := exp_sign bs in
                      let '(es, r) := span is_digit r in
                      if bool_decide (es = []) then None else Some (e :: sg ++ es, r).
Proof. by intros [-> | ->]. Qed.

Lemma exp_sign_sound bs sg r :
  exp_sign bs = (sg, r) → bs = sg ++ r ∧ (sg = [] ∨ sg = [x2b] ∨ sg = [x2d]).
Proof.
  destruct bs as [|b bs]; [intros [= <- <-]; auto|].
  destruct (decide (b = x2b)) as [->|]; [intros [= <- <-]; auto|].
  destruct (decide (b = x2d)) as [->|]; [intros [= <- <-]; auto|].
  rewrite exp_sign_other by (simpl; congruence). intros [= <- <-]. auto.
Qed.

Lemma num_int_sound bs ds r : num_int bs = (ds, r) → ds ≠ [] → bs = ds ++ r ∧ is_int ds.
Proof.
  destruct (decide (head bs = Some x30)) as [Hz|Hz].
  - destruct bs as [|b bs]; [done|]. simpl in Hz. simplify_eq.
    intros [= <- <-] _. split; [done | constructor].
  - rewrite num_int_other by done. intros [-> Hd]%span_sound Hne.
    split; [done|]. apply int_digits; [by split|]. by destruct ds.
Qed.

Lemma num_frac_sound bs fs r : num_frac bs = Some (fs, r) → bs = fs ++ r ∧ is_frac fs.
Proof.
  destruct (decide (head bs = Some x2e)) as [Hz|Hz].
  - destruct bs as [|b bs]; [done|]. simpl in Hz. simplify_eq. simpl.
    destruct (span is_digit bs) as [ds q] eqn:E. apply span_sound in E as [-> ?].
    case_bool_decide; [done|]. intros [= <- <-]. split; [done|]. by constructor.
  - rewrite num_frac_other by done. intros [= <- <-]. split; [done | constructor].
Qed.

Lemma num_exp_sound bs es r : num_exp bs = Some (es, r) → bs = es ++ r ∧ is_exp es.
Proof.
  destruct (decide (head bs = Some x65 ∨ head bs = Some x45)) as [Hz|Hz].
  - destruct bs as [|b bs]; [naive_solver|]. rewrite num_exp_e by (simpl in Hz; naive_solver).
    destruct (exp_sign bs) as [sg q] eqn:E1. apply exp_sign_sound in E1 as [-> Hsg].
    destruct (span is_digit q) as [ds q'] eqn:E. apply span_sound in E as [-> ?].
    case_bool_decide; [done|]. intros [= <- <-].
    split; [simpl; by rewrite <- !app_assoc|]. constructor; [simpl in Hz; naive_solver|done|done].
  - rewrite num_exp_other by tauto. intros [= <- <-]. split; [done | constructor].
Qed.

Lemma num_sign_sound bs sg r : num_sign bs = (sg, r) → bs = sg ++ r ∧ (sg = [] ∨ sg = [x2d]).
Proof.
  destruct bs as [|b bs]; [intros [= <- <-]; auto|].
  destruct (decide (b = x2d)) as [->|]; [intros [= <- <-]; auto|].
  rewrite num_sign_other by (simpl; congruence). intros [= <- <-]. auto.
Qed.

Lemma scan_number_sound bs n r : scan_number bs = Some (n, r) → bs = n ++ r ∧ is_number n.
Proof.
  unfold scan_number. destruct (num_sign bs) as [sg q] eqn:E1.
  apply num_sign_sound in E1 as [-> Hsg].
  destruct (num_int q) as [ds q1] eqn:E2. case_bool_decide; [done|].
  apply num_int_sound in E2 as [-> Hds]; [|done].
  destruct (num_frac q1) as [[fs q2]|] eqn:E3; [|done]. cbn [mbind option_bind].
  apply num_frac_sound in E3 as [-> Hfs].
  destruct (num_exp q2) as [[es q3]|] eqn:E4; [|done]. cbn [mbind option_bind].
  apply num_exp_sound in E4 as [-> Hes].
  intros [= <- <-]. split; [by rewrite <- !app_assoc | by constructor].
Qed.

Lemma all_digits_head ds x : all_digits ds → ∃ b q, ds ++ x = b :: q ∧ is_digit b = true.
Proof.
  intros [H ?]. destruct ds as [|b ds]; [done|]. apply Forall_cons in H as [? _].
  by eexists _, _.
Qed.

Lemma digit_bound b : is_digit b = true → 48 ≤ Z_of_byte b ≤ 57.
Proof. unfold is_digit, between. intros H. bool_to_prop. lia. Qed.

(** A byte that is no digit, at the head of a text. *)
Lemma digit_head_ne ds x c : all_digits ds → is_digit c = false → head (ds ++ x) ≠ Some c.
Proof. intros (b & q & -> & ?)%(all_digits_head _ x) ?. simpl. congruence. Qed.

Lemma num_stop_digit x : num_stop x → head_not is_digit x.
Proof. destruct x as [|b x]; [done|]. simpl. intros H. bool_to_prop. tauto. Qed.

Lemma num_stop_ne x : num_stop x → head x ≠ Some x2e ∧ head x ≠ Some x65 ∧ head x ≠ Some x45.
Proof.
  destruct x as [|b x]; [done|]. simpl.
  intros [_ H%bool_decide_eq_false]%orb_false_iff. split_and!; intros [= ->]; set_solver.
Qed.

Lemma num_int_complete ds x : is_int ds → head_not is_digit x → num_int (ds ++ x) = (ds, x).
Proof.
  intros [|ds' Hd Hz] Hx; [done|]. rewrite num_int_other.
  - apply span_complete; [apply Hd | done].
  - destruct Hd as [_ Hne]. by destruct ds'.
Qed.

Lemma num_frac_complete fs x :
  is_frac fs → head_not is_digit x → head x ≠ Some x2e → num_frac (fs ++ x) = Some (fs, x).
Proof.
  intros [|ds [Hd Hne]] Hx Hx'; [by apply num_frac_other|]. simpl.
  rewrite span_complete by done. by rewrite bool_decide_false.
Qed.

Lemma exp_sign_complete sg ds x :
  sg = [] ∨ sg = [x2b] ∨ sg = [x2d] → all_digits ds → exp_sign (sg ++ ds ++ x) = (sg, ds ++ x).
Proof.
  intros [-> | [-> | ->]] Hd; [|done..].
  simpl app. by rewrite exp_sign_other by by apply digit_head_ne.
Qed.

Lemma num_exp_complete es x : is_exp es → num_stop x → num_exp (es ++ x) = Some (es, x).
Proof.
  intros [|e sg ds He Hsg Hd] Hx.
  - apply num_stop_ne in Hx as (_ & ? & ?). by apply num_exp_other.
  - rewrite <- app_comm_cons, num_exp_e, <- app_assoc, exp_sign_complete by done.
    destruct Hd as [Hd Hne]. rewrite span_complete by (done || by apply num_stop_digit).
    by rewrite bool_decide_false.
Qed.

Lemma exp_head es x :
  is_exp es → num_stop x → head_not is_digit (es ++ x) ∧ head (es ++ x) ≠ Some x2e.
Proof.
  intros [|e sg ds He _ _] Hx; [split; [by apply num_stop_digit | by apply num_stop_ne]|].
  by destruct He as [-> | ->].
Qed.

Lemma frac_head fs x : is_frac fs → head_not is_digit x → head_not is_digit (fs ++ x).
Proof. by intros []. Qed.

Lemma int_head_ne ds x c : is_int ds → is_digit c = false → head (ds ++ x) ≠ Some c.
Proof. intros [|ds' Hd _] Hc; [intros [= <-]; done | by apply digit_head_ne]. Qed.

(** A number is read up to whatever stops it. *)
Lemma scan_number_complete n x : is_number n → num_stop x → scan_number (n ++ x) = Some (n, x).
Proof.
  intros [sg ds fs es Hsg Hds Hfs Hes] Hx. unfold scan_number. rewrite <- !app_assoc.
  destruct (exp_head es x Hes Hx) as [Hd Hdot].
  assert (num_sign (sg ++ ds ++ fs ++ es ++ x) = (sg, ds ++ fs ++ es ++ x)) as ->.
  { destruct Hsg as [-> | ->]; [|done]. apply num_sign_other. by apply int_head_ne. }
  rewrite num_int_complete by (done || by apply frac_head).
  rewrite bool_decide_false by (by intros ->; inversion Hds as [|? [? ?]]).
  rewrite num_frac_complete by done. cbn [mbind option_bind].
  by rewrite num_exp_complete.
Qed.

Lemma number_head n x : is_number n → ∃ c q, n ++ x = c :: q ∧ starts_number c.
Proof.
  intros [sg ds fs es [-> | ->] Hds _ _]; [|by eexists _, _].
  simpl. rewrite <- app_assoc.
  destruct Hds as [|ds Hd _]; [by eexists _, _|].
  destruct (all_digits_head ds ((fs ++ es) ++ x) Hd) as (b & q & -> & Hb).
  exists b, q. split; [done|]. unfold starts_number. by rewrite Hb.
Qed.

(** *** What the functions read, and how much fuel they need *)

Lemma word_length w v : word w v → (0 < length w)%nat.
Proof. intros []; simpl; lia. Qed.

Lemma reads_length :
  (∀ d bs v r, reads d bs v r → (length r < length bs)%nat) ∧
  (∀ d bs vs r, elems_read d bs vs r → (length r < length bs)%nat) ∧
  (∀ d bs ms r, members_read d bs ms r → (length r < length bs)%nat) ∧
  (∀ d bs m r, member_reads d bs m r → (length r < length bs)%nat).
Proof.
  apply reads_mutind.
  - intros d bs w v r Hw%word_length H. pose proof (skip_ws_length bs). rewrite H in *.
    rewrite length_app in *. lia.
  - intros d bs q s r H%skip_ws_eq_length Hs%str_reads_length. lia.
  - intros d bs c q n r H%skip_ws_eq_length _ [Hn Hl]%scan_number_sound.
    apply (f_equal length) in Hn. destruct (number_head n [] Hl) as (? & ? & Hn' & _).
    apply (f_equal length) in Hn'. rewrite length_app in *. simpl in *. lia.
  - intros d bs q r H%skip_ws_eq_length H'%skip_ws_eq_length. lia.
  - intros d bs q vs r H%skip_ws_eq_length _ IH. lia.
  - intros d bs q r H%skip_ws_eq_length H'%skip_ws_eq_length. lia.
  - intros d bs q ms r H%skip_ws_eq_length _ IH. lia.
  - intros d bs v r r' _ IH H%skip_ws_eq_length. lia.
  - intros d bs v r r' vs r'' _ IH H%skip_ws_eq_length _ IH'. lia.
  - intros d bs v r r' _ IH H%skip_ws_eq_length. lia.
  - intros d bs v r r' vs r'' _ IH H%skip_ws_eq_length _ IH'. lia.
  - intros d bs q k q1 q2 v r H%skip_ws_eq_length Hs%str_reads_length H'%skip_ws_eq_length _ IH.
    pose proof (skip_ws_length q2). lia.
Qed.

Lemma expect_sound p bs r : expect p bs = Some r → bs = p ++ r.
Proof.
  revert bs. induction p as [|a p IH]; intros bs; simpl; [by intros [= <-]|].
  destruct bs as [|b bs]; [done|]. case_bool_decide; [|done].
  subst. intros ->%IH. done.
Qed.

Lemma expect_complete p r : expect p (p ++ r) = Some r.
Proof. induction p as [|a p IH]; simpl; [done|]. by rewrite bool_decide_true. Qed.

(** A value that starts with none of the six bytes that decide is a number. *)
Lemma parse_value_other fuel d bs c q :
  skip_ws bs = c :: q → c ∉ [x6e; x74; x66; x22; x5b; x7b] →
  parse_value (S fuel) d bs = '(n, r) ← scan_number (c :: q); Some (JNumber n, r).
Proof.
  intros H Hc. apply (bool_decide_eq_false_2 (c ∈ _)) in Hc. cbn [parse_value]. rewrite H.
  destruct c; first [reflexivity | discriminate].
Qed.

Lemma starts_number_other c : starts_number c → c ∉ [x6e; x74; x66; x22; x5b; x7b].
Proof.
  intros H Hc. apply (bool_decide_eq_true_2 (c ∈ _)) in Hc. destruct c; first [discriminate Hc | by destruct H].
Qed.

Lemma separator_more c bs r : separator c bs = More r → skip_ws bs = x2c :: r.
Proof.
  unfold separator. destruct (skip_ws bs) as [|b q]; [done|].
  destruct (decide (b = x2c)) as [->|]; [by intros [= ->]|].
  by destruct b; try done; case_bool_decide.
Qed.

Lemma separator_done c bs r : c ≠ x2c → separator c bs = Done r → skip_ws bs = c :: r.
Proof.
  unfold separator. intros Hc. destruct (skip_ws bs) as [|b q]; [done|].
  destruct (decide (b = c)) as [->|Hb].
  - destruct c; try done; by intros [= ->].
  - destruct b; try done; by rewrite bool_decide_false.
Qed.

Lemma separator_more_eq c bs r : skip_ws bs = x2c :: r → separator c bs = More r.
Proof. unfold separator. by intros ->. Qed.
Lemma separator_done_eq c bs r : c ≠ x2c → skip_ws bs = c :: r → separator c bs = Done r.
Proof.
  unfold separator. intros Hc ->. destruct c; try done; by rewrite bool_decide_true.
Qed.

Lemma parse_array_cons fuel d bs q :
  skip_ws bs = x5b :: q → head (skip_ws q) ≠ Some x5d →
  parse_value (S fuel) (S d) bs = '(vs, r) ← parse_elems fuel d q; Some (JArray vs, r).
Proof.
  intros H Hq. cbn [parse_value]. rewrite H. destruct (skip_ws q) as [|b q']; [done|].
  by destruct b.
Qed.
Lemma parse_object_cons fuel d bs q :
  skip_ws bs = x7b :: q → head (skip_ws q) ≠ Some x7d →
  parse_value (S fuel) (S d) bs = '(ms, r) ← parse_members fuel d q; Some (JObject ms, r).
Proof.
  intros H Hq. cbn [parse_value]. rewrite H. destruct (skip_ws q) as [|b q']; [done|].
  by destruct b.
Qed.

Lemma parse_string_sound bs s r :
  parse_string bs = Some (s, r) → ∃ q, bs = x22 :: q ∧ str_reads q s r.
Proof.
  unfold parse_string. destruct bs as [|b bs]; [done|].
  destruct (decide (b = x22)) as [->|]; [|by destruct b].
  intros H%parse_str_sound. eauto.
Qed.
Lemma parse_string_complete q s r : str_reads q s r → parse_string (x22 :: q) = Some (s, r).
Proof. intros H. apply parse_str_complete; [done | simpl; lia]. Qed.

Lemma parse_sound fuel :
  (∀ d bs v r, parse_value fuel d bs = Some (v, r) → reads d bs v r) ∧
  (∀ d bs vs r, parse_elems fuel d bs = Some (vs, r) → elems_read d bs vs r) ∧
  (∀ d bs ms r, parse_members fuel d bs = Some (ms, r) → members_read d bs ms r).
Proof.
  induction fuel as [|fuel (IHv & IHe & IHm)]; [done|]. split_and!.
  - intros d bs v r H. destruct (skip_ws bs) as [|c q] eqn:Hs.
    { cbn [parse_value] in H. by rewrite Hs in H. }
    destruct (decide (c ∈ [x6e; x74; x66; x22; x5b; x7b])) as [Hc|Hc].
    2:{ rewrite (parse_value_other _ _ _ _ _ Hs Hc) in H.
        destruct (scan_number (c :: q)) as [[n q']|] eqn:En; [|done].
        cbn [mbind option_bind] in H. injection H as <- <-. eapply rd_number; [done| |done].
        apply scan_number_sound in En as [Hn Hnum].
        destruct (number_head n q' Hnum) as (c' & q'' & Hn' & ?). congruence. }
    cbn [parse_value] in H. rewrite Hs in H.
    rewrite !elem_of_cons in Hc. destruct Hc as [-> | [-> | [-> | [-> | [-> | [-> |
      []%not_elem_of_nil]]]]]].
    1-3: destruct (expect _ _) as [q'|] eqn:E; [|done]; apply expect_sound in E;
      simplify_eq/=; eapply rd_word; [constructor|]; exact Hs.
    + destruct (parse_string _) as [[s q']|] eqn:E; [|done].
      apply parse_string_sound in E as (? & ? & ?). simplify_eq/=. by eapply rd_string.
    + destruct d as [|d]; [done|]. destruct (decide (head (skip_ws q) = Some x5d)) as [Hz|Hz].
      * destruct (skip_ws q) as [|b q'] eqn:Eq; [done|]. simplify_eq/=. by eapply rd_array_nil.
      * pose proof (parse_array_cons fuel d bs q Hs Hz) as Ha. cbn [parse_value] in Ha.
        rewrite Hs in Ha. rewrite Ha in H.
        destruct (parse_elems fuel d q) as [[vs q']|] eqn:E; [|done]. simplify_eq/=.
        eapply rd_array; eauto.
    + destruct d as [|d]; [done|]. destruct (decide (head (skip_ws q) = Some x7d)) as [Hz|Hz].
      * destruct (skip_ws q) as [|b q'] eqn:Eq; [done|]. simplify_eq/=. by eapply rd_object_nil.
      * pose proof (parse_object_cons fuel d bs q Hs Hz) as Ha. cbn [parse_value] in Ha.
        rewrite Hs in Ha. rewrite Ha in H.
        destruct (parse_members fuel d q) as [[vs q']|] eqn:E; [|done]. simplify_eq/=.
        eapply rd_object; eauto.
  - intros d bs vs r H. cbn [parse_elems] in H.
    destruct (parse_value fuel d bs) as [[v q]|] eqn:E; [|done]. cbn [mbind option_bind] in H.
    destruct (separator x5d q) as [q'|q'|] eqn:Es; [..|done].
    + apply separator_more in Es. destruct (parse_elems fuel d q') as [[vs' q'']|] eqn:E'; [|done].
      simplify_eq/=. eapply el_more; eauto.
    + apply separator_done in Es; [|done]. simplify_eq. eapply el_last; eauto.
  - intros d bs ms r H. cbn [parse_members] in H.
    destruct (parse_string (skip_ws bs)) as [[k q]|] eqn:E; [|done]. cbn [mbind option_bind] in H.
    apply parse_string_sound in E as (q0 & Hq0 & Hk).
    destruct (skip_ws q) as [|c q1] eqn:Hc; [done|].
    destruct (decide (c = x3a)) as [->|]; [|by destruct c].
    destruct (parse_value fuel d (skip_ws q1)) as [[v q']|] eqn:E; [|done].
    cbn [mbind option_bind] in H.
    destruct (separator x7d q') as [q''|q''|] eqn:Es; [..|done].
    + apply separator_more in Es. destruct (parse_members fuel d q'') as [[ms' q3]|] eqn:E'; [|done].
      simplify_eq/=. eapply mem_more; eauto. by econstructor; eauto.
    + apply separator_done in Es; [|done]. simplify_eq. eapply mem_last; eauto.
      by econstructor; eauto.
Qed.

(** The first byte of a value, of a list of elements, of members. *)
Lemma reads_head d bs v r : reads d bs v r → head (skip_ws bs) ≠ Some x5d.
Proof.
  intros [? ? ? ? ? [] ->|? ? ? ? ? ->|? ? c q n r' -> Hc|? ? ? ? ->|? ? ? ? ? ->|? ? ? ? ->
    |? ? ? ? ? ->]; try done.
  intros [= ->]. done.
Qed.
Lemma elems_head d bs vs r : elems_read d bs vs r → head (skip_ws bs) ≠ Some x5d.
Proof. intros []; by eapply reads_head. Qed.
Lemma members_head d bs ms r : members_read d bs ms r → head (skip_ws bs) ≠ Some x7d.
Proof. by intros [????? [???????? ->]|??????? [???????? ->]]. Qed.

Lemma parse_value_word fuel d bs w v r :
  word w v → skip_ws bs = w ++ r → parse_value (S fuel) d bs = Some (v, r).
Proof. intros [] H; cbn [parse_value]; by rewrite H. Qed.

Lemma parse_members_one fuel d bs m r :
  member_reads d bs m r →
  (∀ d' bs' v r', reads d' bs' v r' → (2 * length bs' + 1 ≤ fuel)%nat →
     parse_value fuel d' bs' = Some (v, r')) →
  (2 * length bs ≤ fuel)%nat →
  parse_members (S fuel) d bs =
    match separator x7d r with
    | More r' => '(ms, r'') ← parse_members fuel d r'; Some (m :: ms, r'')
    | Done r' => Some ([m], r')
    | Bad => None
    end.
Proof.
  intros [d' bs' q k q1 q2 v r' Hq Hk Hc Hv] IH Hf. cbn [parse_members].
  rewrite Hq, (parse_string_complete _ _ _ Hk). cbn [mbind option_bind]. rewrite Hc.
  pose proof (skip_ws_eq_length _ _ _ Hq). pose proof (skip_ws_eq_length _ _ _ Hc).
  pose proof (str_reads_length _ _ _ Hk). pose proof (skip_ws_length q2).
  by rewrite (IH _ _ _ _ Hv) by lia.
Qed.

Lemma parse_complete fuel :
  (∀ d bs v r, reads d bs v r → (2 * length bs + 1 ≤ fuel)%nat →
     parse_value fuel d bs = Some (v, r)) ∧
  (∀ d bs vs r, elems_read d bs vs r → (2 * length bs + 2 ≤ fuel)%nat →
     parse_elems fuel d bs = Some (vs, r)) ∧
  (∀ d bs ms r, members_read d bs ms r → (2 * length bs + 1 ≤ fuel)%nat →
     parse_members fuel d bs = Some (ms, r)).
Proof.
  destruct reads_length as (Lv & Le & Lms & Lm).
  induction fuel as [fuel IH] using lt_wf_ind. destruct fuel as [|fuel]; [split_and!; intros; lia|].
  assert (IHv := λ f H, proj1 (IH f H)).
  destruct (IH fuel ltac:(lia)) as (_ & IHe & IHm). split_and!.
  - intros d bs v r H Hf. destruct H as [d bs w v r Hw Hs|d bs q s r Hs Hstr|d bs c q n r Hs Hc Hn
      |d bs q r Hs Hq|d bs q vs r Hs Hvs|d bs q r Hs Hq|d bs q ms r Hs Hms].
    + by eapply parse_value_word.
    + cbn [parse_value]. by rewrite Hs, (parse_string_complete _ _ _ Hstr).
    + rewrite (parse_value_other _ _ _ _ _ Hs) by by apply starts_number_other. by rewrite Hn.
    + cbn [parse_value]. by rewrite Hs, Hq.
    + pose proof (skip_ws_eq_length _ _ _ Hs).
      rewrite (parse_array_cons _ _ _ _ Hs) by by eapply elems_head.
      by rewrite (IHe _ _ _ _ Hvs) by lia.
    + cbn [parse_value]. by rewrite Hs, Hq.
    + pose proof (skip_ws_eq_length _ _ _ Hs).
      rewrite (parse_object_cons _ _ _ _ Hs) by by eapply members_head.
      by rewrite (IHm _ _ _ _ Hms) by lia.
  - intros d bs vs r H Hf. cbn [parse_elems].
    destruct H as [d bs v r r' Hv Hs|d bs v r r' vs r'' Hv Hs Hvs];
      rewrite (IHv fuel ltac:(lia) _ _ _ _ Hv) by lia; cbn [mbind option_bind].
    + by rewrite (separator_done_eq x5d _ _ ltac:(done) Hs).
    + apply Lv in Hv. pose proof (skip_ws_eq_length _ _ _ Hs).
      by rewrite (separator_more_eq _ _ _ Hs), (IHe _ _ _ _ Hvs) by lia.
  - intros d bs ms r H Hf.
    destruct H as [d bs m r r' Hm Hs|d bs m r r' ms r'' Hm Hs Hms];
      rewrite (parse_members_one _ _ _ _ _ Hm (IHv fuel ltac:(lia))) by lia.
    + by rewrite (separator_done_eq x7d _ _ ltac:(done) Hs).
    + apply Lm in Hm. pose proof (skip_ws_eq_length _ _ _ Hs).
      by rewrite (separator_more_eq _ _ _ Hs), (IHm _ _ _ _ Hms) by lia.
Qed.

(** The relation without fuel is what the parser computes, and twice the length of
    the text is fuel enough. *)
Lemma parse_value_reads d bs v r fuel :
  (2 * length bs + 1 ≤ fuel)%nat → parse_value fuel d bs = Some (v, r) ↔ reads d bs v r.
Proof.
  intros Hf. split; [apply parse_sound|]. intros H. by apply parse_complete.
Qed.

Lemma parse_json_reads bs v :
  parse_json bs = Some v ↔ ∃ r, reads maxNestingDepth bs v r ∧ skip_ws r = [].
Proof.
  unfold parse_json. destruct (parse_value _ _ bs) as [[v' r]|] eqn:E; cbn [mbind option_bind].
  - apply parse_value_reads in E as Hr; [|lia]. split.
    + destruct (skip_ws r) eqn:Es; [|done]. intros [= ->]. eauto.
    + intros (r' & H & Hs). eapply parse_value_reads in H; [|reflexivity].
      rewrite H in E. simplify_eq. by rewrite Hs.
  - split; [done|]. intros (r' & H & Hs).
    eapply parse_value_reads in H; [|reflexivity]. congruence.
Qed.

(** More fuel changes nothing: the parser ends with its own answer. *)
Lemma parse_value_fuel d bs fuel :
  (2 * length bs + 1 ≤ fuel)%nat →
  parse_value fuel d bs = parse_value (2 * length bs + 1) d bs.
Proof.
  intros Hf. apply option_eq. intros [v r]. by rewrite !parse_value_reads by lia.
Qed.
