(* ===== verification/Models.v ===== *)
(** * The shared data model

    [internal/models]: job and scheduler payloads with their JSON forms, the
    status and event enumerations, and the prefixed identifiers. *)

From Stdlib Require Import Strings.Byte Strings.String.
From S2P Require Import Prelude.
From S2P Require Import Bytes.
From S2P Require Import Json.

(** ** Enumerations

    Both are Go [int]s: any value can arrive in a payload. *)

(** src/internal/models/models.go:15-22 (Status) *)
Definition Status : Type := Z.
Definition Pending : Status := 0.
Definition Running : Status := 1.
Definition Completed : Status := 2.
Definition Failed : Status := 3.

(** src/internal/models/models.go:24-37 (Status.String) *)
Definition Status_String (s : Status) : string :=
  if s =? Pending then "Pending"
  else if s =? Running then "Running"
  else if s =? Completed then "Completed"
  else if s =? Failed then "Failed"
  else "Unknown".

(** src/internal/models/models.go:47-54 (SchedulerEvent) *)
Definition SchedulerEvent : Type := Z.
Definition Online : SchedulerEvent := 0.
Definition Offline : SchedulerEvent := 1.
Definition HeartbeatFailed : SchedulerEvent := 2.
Definition RedistributedJobs : SchedulerEvent := 3.

(** src/internal/models/models.go:56-69 (SchedulerEvent.String) *)
Definition SchedulerEvent_String (s : SchedulerEvent) : string :=
  if s =? Online then "Online"
  else if s =? Offline then "Offline"
  else if s =? HeartbeatFailed then "HeartbeatFailed"
  else if s =? RedistributedJobs then "RedistributedJobs"
  else "Unknown".

(** ** Payloads *)

(** src/internal/models/models.go:5-13 (JobPayload) *)
Record JobPayload := mkJobPayload {
  jp_ID : string;
  jp_State : Status;
  jp_Image : string;
  jp_Priority : Z;
  jp_CPURequirement : Z;
  jp_MemoryRequirement : Z;
  jp_Payload : list byte
}.

(** src/internal/models/models.go:40-45 (SchedulerPayload) *)
Record SchedulerPayload := mkSchedulerPayload {
  sp_ID : string;
  sp_OriginSchedulerID : string;
  sp_Entry : string;
  sp_Timestamp : Z
}.

Definition zero_JobPayload : JobPayload :=
  mkJobPayload EmptyString 0 EmptyString 0 0 0 [].
Definition zero_SchedulerPayload : SchedulerPayload :=
  mkSchedulerPayload EmptyString EmptyString EmptyString 0.

(** A member of the object, stored by its [json] tag. [json.RawMessage] keeps the
    text of the value, also of [null]. *)
Definition job_member (j : JobPayload) (key raw : list byte) (v : json) : option JobPayload :=
  let '(mkJobPayload i s im p c m pl) := j in
  if key_is "id" key then x ← into_string i v; Some (mkJobPayload x s im p c m pl)
  else if key_is "state" key then x ← into_int s v; Some (mkJobPayload i x im p c m pl)
  else if key_is "image" key then x ← into_string im v; Some (mkJobPayload i s x p c m pl)
  else if key_is "priority" key then x ← into_int p v; Some (mkJobPayload i s im x c m pl)
  else if key_is "cpu_requirement" key then
    x ← into_int c v; Some (mkJobPayload i s im p x m pl)
  else if key_is "memory_requirement" key then
    x ← into_int m v; Some (mkJobPayload i s im p c x pl)
  else if key_is "payload" key then Some (mkJobPayload i s im p c m raw)
  else Some j.

Definition scheduler_member (p : SchedulerPayload) (key : list byte) (v : json)
    : option SchedulerPayload :=
  let '(mkSchedulerPayload i o e t) := p in
  if key_is "id" key then x ← into_string i v; Some (mkSchedulerPayload x o e t)
  else if key_is "scheduler" key then x ← into_string o v; Some (mkSchedulerPayload i x e t)
  else if key_is "entry" key then x ← into_string e v; Some (mkSchedulerPayload i o x t)
  else if key_is "timestamp" key then x ← into_int t v; Some (mkSchedulerPayload i o e x)
  else Some p.

(** [json.Unmarshal] into the zero value. *)
Definition unmarshal_job (data : list byte) : option JobPayload :=
  unmarshal job_member zero_JobPayload data.
Definition unmarshal_scheduler (data : list byte) : option SchedulerPayload :=
  unmarshal (λ p k _ v, scheduler_member p k v) zero_SchedulerPayload data.

(** ** Identifiers

    [uuid.New().String()] is a parameter: the text of a fresh UUID. *)

Definition PrefixJob : string := "job_".
Definition PrefixContainer : string := "con_".
Definition PrefixRequest : string := "req_".

(** src/internal/models/uuid.go:20-22 (NewJobID) *)
Definition NewJobID (uuid : string) : string := PrefixJob +:+ uuid.
(** src/internal/models/uuid.go:24-26 (NewContainerID) *)
Definition NewContainerID (uuid : string) : string := PrefixContainer +:+ uuid.
(** src/internal/models/uuid.go:28-30 (NewRequestID) *)
Definition NewRequestID (uuid : string) : string := PrefixRequest +:+ uuid.

(** src/internal/models/uuid.go:32-34 (IsJobID) *)
Definition IsJobID (id : string) : bool := String.prefix PrefixJob id.

(** [strings.SplitN(s, "_", 2)]: the text after the first underscore, if any. *)
Fixpoint after_underscore (s : string) : option string :=
  match s with
  | EmptyString => None
  | String c r => if bool_decide (c = Ascii.ascii_of_byte x5f) then Some r else after_underscore r
  end.

(** src/internal/models/uuid.go:48-54 (ExtractRawUUID)

    [Parse] is [uuid.Parse] of the third-party package. *)
Definition ExtractRawUUID {U} (Parse : string → option U) (prefixedID : string) : option U :=
  raw ← after_underscore prefixedID; Parse raw.

(** The three kinds of identifier give back the UUID they were made from, and
    only job ids are recognised as such. *)
Lemma ExtractRawUUID_New {U} (Parse : string → option U) u :
  ExtractRawUUID Parse (NewJobID u) = Parse u ∧
  ExtractRawUUID Parse (NewContainerID u) = Parse u ∧
  ExtractRawUUID Parse (NewRequestID u) = Parse u.
Proof. done. Qed.

Lemma IsJobID_New u :
  IsJobID (NewJobID u) = true ∧ IsJobID (NewContainerID u) = false ∧
  IsJobID (NewRequestID u) = false.
Proof. split_and!; [by destruct u | done..]. Qed.
