(* ===== verification/LogCodec.v ===== *)
(** * The binary log format of the consensus engine

    [internal/consensus/filesystem/interpreter.go]: the length-prefixed
    encoding of a log entry, its decoder with the [uint16]/[uint32] arithmetic
    of the source, and the reader of a whole log stream. *)

From Stdlib Require Import Strings.Byte Strings.String.
From S2P Require Import Prelude.
From S2P Require Import Bytes.

(** src/internal/consensus/core/errors.go:5-11 (sentinel errors)

    [ErrNotExist], [ErrInvalid], [ErrClosed] are [os.ErrNotExist] and its
    siblings, [ErrNegativeOffset] is the error of [WriteAt], [ErrOS] any other
    error of the operating system; [ErrWrap] is
    [fmt.Errorf("...: %w", err)]; [ErrMsg] is [fmt.Errorf] without a wrapped
    error. *)
Inductive StorageError :=
| ErrLogBufferFull
| ErrAppendIndexBehind
| ErrAppendIndexAhead
| ErrAppendTermBehind
| ErrCorruptedLogData
| ErrOS
| ErrNotExist
| ErrInvalid
| ErrClosed
| ErrNegativeOffset
| ErrEOF
| ErrUnexpectedEOF
| ErrMsg (msg : string)
| ErrWrap (msg : string) (err : StorageError).

#[export] Instance StorageError_eq_dec : EqDecision StorageError.
Proof. solve_decision. Defined.

(** [errors.Is]. *)
Fixpoint errors_Is (err target : StorageError) : bool :=
  bool_decide (err = target) ||
  match err with ErrWrap _ e => errors_Is e target | _ => false end.

(** src/internal/consensus/filesystem/handler.go:9-14 (LogEntry) *)
Record LogEntry := mkEntry {
  Index : Z;
  Term : Z;
  SchedulerID : string;
  Payload : list byte
}.

#[export] Instance LogEntry_eq_dec : EqDecision LogEntry.
Proof. solve_decision. Defined.

(** src/internal/consensus/filesystem/interpreter.go:22-39 (encodeLogEntry) *)
Definition encodeLogEntry (entry : LogEntry) : list byte :=
  let masterIDLen := len (list_byte_of_string (SchedulerID entry)) in
  let entrySize := 8 + 8 + 2 + masterIDLen + len (Payload entry) in
  le_bytes 4 (u32 entrySize) ++
  le_bytes 8 (u64 (Index entry)) ++
  le_bytes 8 (u64 (Term entry)) ++
  le_bytes 2 (u16 masterIDLen) ++
  list_byte_of_string (SchedulerID entry) ++
  Payload entry.

(** src/internal/consensus/filesystem/interpreter.go:42-75 (decodeLogEntry)

    [18+masterIDLen] and [22+masterIDLen] are [uint16] additions, and
    [4+entrySize] is a [uint32] addition. *)
Definition decodeLogEntry (data : list byte) : outcome StorageError LogEntry :=
  if len data <? 4 then Err ErrCorruptedLogData else
  b ← slice 0 4 data;
  let entrySize := le_value b in
  if entrySize <? 18 then Err ErrCorruptedLogData else
  if u32 (len data) <? u32 (4 + entrySize) then Err ErrCorruptedLogData else
  b ← slice 20 22 data;
  let masterIDLen := le_value b in
  if entrySize <? u16 (18 + masterIDLen) then Err ErrCorruptedLogData else
  masterID ← slice 22 (u16 (22 + masterIDLen)) data;
  let payloadOffset := 22 + masterIDLen in
  let payloadSize := entrySize - (18 + masterIDLen) in
  index ← slice 4 12 data;
  term ← slice 12 20 data;
  payload ← (if payloadSize <? 0 then Panic
             else slice payloadOffset (payloadOffset + payloadSize) data);
  Ok (mkEntry (wrap64 (le_value index)) (wrap64 (le_value term))
        (string_of_list_byte masterID) payload).

(** [io.ReadFull(r, buf)] with a buffer of [n] bytes, on the rest of a stream. *)
Inductive read_result :=
| ReadOk (bs rest : list byte)
| ReadErr (err : StorageError).

Definition ReadFull (n : Z) (r : list byte) : read_result :=
  if n <=? len r then ReadOk (take (Z.to_nat n) r) (drop (Z.to_nat n) r)
  else match r with [] => ReadErr ErrEOF | _ => ReadErr ErrUnexpectedEOF end.

(** src/internal/consensus/filesystem/interpreter.go:130-155 (readLogEntries loop)

    [make([]byte, 4+entrySize)] wraps around to a slice shorter than the header
    when [entrySize] is within 4 of 2^32, and [buf[:4]] then panics. *)
Fixpoint readLoop (fuel : nat) (r : list byte) (recovered : list LogEntry)
    (totalSize : Z) : outcome StorageError (list LogEntry * Z) :=
  match fuel with
  | O => Panic
  | S fuel =>
      match ReadFull 4 r with
      | ReadErr ErrEOF => Ok (recovered, totalSize)
      | ReadErr err => Err (ErrWrap "failed to read log header" err)
      | ReadOk header r =>
          let entrySize := le_value header in
          let n := u32 (4 + entrySize) in
          if n <? 4 then Panic else
          match ReadFull (n - 4) r with
          | ReadErr err => Err (ErrWrap "failed to read log payload (corrupted stream?)" err)
          | ReadOk body r =>
              match decodeLogEntry (header ++ body) with
              | Err err => Err (ErrWrap "failed to decode log entry" err)
              | Panic => Panic
              | Ok entry => readLoop fuel r (recovered ++ [entry]) (totalSize + n)
              end
          end
      end
  end.

(** src/internal/consensus/filesystem/interpreter.go:126-158 (readLogEntries) *)
Definition readLogEntries (r : list byte) : outcome StorageError (list LogEntry * Z) :=
  readLoop (S (length r)) r [] 0.

(** ** Encodable entries *)

(** What the format can carry: [int64] fields, a scheduler id that keeps the
    decoder's [uint16] offsets from wrapping, and a size that keeps its
    [uint32] arithmetic from wrapping. *)
Record entry_ok (e : LogEntry) : Prop := {
  ok_index : int64_ok (Index e);
  ok_term : int64_ok (Term e);
  ok_id : len (list_byte_of_string (SchedulerID e)) < 65514;
  ok_size : 22 + len (list_byte_of_string (SchedulerID e)) + len (Payload e) < 2 ^ 32
}.

#[export] Instance entry_ok_dec e : Decision (entry_ok e).
Proof.
  refine (cast_if (decide (int64_ok (Index e) ∧ int64_ok (Term e) ∧
    len (list_byte_of_string (SchedulerID e)) < 65514 ∧
    22 + len (list_byte_of_string (SchedulerID e)) + len (Payload e) < 2 ^ 32)));
    [abstract (split; tauto) | abstract (intros []; tauto)].
Defined.

Definition entry_size (e : LogEntry) : Z :=
  22 + len (list_byte_of_string (SchedulerID e)) + len (Payload e).

Lemma len_encode e : len (encodeLogEntry e) = entry_size e.
Proof. unfold encodeLogEntry, entry_size. autorewrite with hive. lia. Qed.

Lemma entry_size_pos e : 22 ≤ entry_size e.
Proof. unfold entry_size. pose proof (len_nonneg (Payload e)).
  pose proof (len_nonneg (list_byte_of_string (SchedulerID e))). lia. Qed.

Lemma u32_le4 z : 0 ≤ z < 2 ^ 32 → le_value (le_bytes 4 (u32 z)) = z.
Proof. intros. rewrite le_value_le_bytes, u32_small by done. apply Z.mod_small. simpl. lia. Qed.

Lemma u16_le2 z : 0 ≤ z < 2 ^ 16 → le_value (le_bytes 2 (u16 z)) = z.
Proof. intros. rewrite le_value_le_bytes, u16_small by done. apply Z.mod_small. simpl. lia. Qed.

Lemma wrap64_le8 z : int64_ok z → wrap64 (le_value (le_bytes 8 (u64 z))) = z.
Proof.
  intros. rewrite le_value_le_bytes. change (256 ^ Z.of_nat 8) with (2 ^ 64).
  unfold u64. rewrite Zmod_mod. by apply wrap64_u64.
Qed.

(** The encoding, cut at the field boundaries. *)
Lemma encode_fields e rest :
  let id := list_byte_of_string (SchedulerID e) in
  encodeLogEntry e ++ rest =
    le_bytes 4 (u32 (18 + len id + len (Payload e))) ++
    le_bytes 8 (u64 (Index e)) ++ le_bytes 8 (u64 (Term e)) ++
    le_bytes 2 (u16 (len id)) ++ id ++ Payload e ++ rest.
Proof. unfold encodeLogEntry. simpl. by rewrite <- !app_assoc. Qed.

Lemma slice_at {E A} lo hi (l1 l2 l3 data : list A) :
  data = l1 ++ l2 ++ l3 → lo = len l1 → hi = len l1 + len l2 →
  slice lo hi data = Ok (E:=E) l2.
Proof. intros ->. apply slice_mid. Qed.

Lemma decode_encode e rest :
  entry_ok e → len (encodeLogEntry e ++ rest) < 2 ^ 32 →
  decodeLogEntry (encodeLogEntry e ++ rest) = Ok e.
Proof.
  intros [Hi Ht Hid Hs] Hlen. pose proof (encode_fields e rest) as Hf. simpl in Hf.
  set (id := list_byte_of_string (SchedulerID e)) in *.
  pose proof (len_nonneg id). pose proof (len_nonneg (Payload e)).
  pose proof (len_nonneg rest). pose proof (len_encode e) as Hle. unfold entry_size in Hle.
  fold id in Hle. rewrite len_app in Hlen.
  set (data := encodeLogEntry e ++ rest) in *.
  assert (Hd : len data = 22 + len id + len (Payload e) + len rest).
  { unfold data. rewrite len_app. lia. }
  set (B4 := le_bytes 4 (u32 (18 + len id + len (Payload e)))) in *.
  set (Bi := le_bytes 8 (u64 (Index e))) in *. set (Bt := le_bytes 8 (u64 (Term e))) in *.
  set (B2 := le_bytes 2 (u16 (len id))) in *.
  assert (H4 : len B4 = 4) by apply len_le_bytes.
  assert (H8i : len Bi = 8) by apply len_le_bytes.
  assert (H8t : len Bt = 8) by apply len_le_bytes.
  assert (H2 : len B2 = 2) by apply len_le_bytes.
  unfold decodeLogEntry. rewrite (proj2 (Z.ltb_ge _ _)) by lia.
  rewrite (slice_at 0 4 [] B4 (Bi ++ Bt ++ B2 ++ id ++ Payload e ++ rest)) by (done || lia).
  rewrite bind_Ok. unfold B4. rewrite u32_le4 by lia.
  rewrite (proj2 (Z.ltb_ge _ 18)) by lia. rewrite !u32_small by lia.
  rewrite (proj2 (Z.ltb_ge _ _)) by lia.
  rewrite (slice_at 20 22 (B4 ++ Bi ++ Bt) B2 (id ++ Payload e ++ rest))
    by (rewrite ?Hf, ?len_app, <- ?app_assoc; done || lia).
  rewrite bind_Ok. unfold B2. rewrite u16_le2 by lia. rewrite !u16_small by lia.
  rewrite (proj2 (Z.ltb_ge _ _)) by lia.
  rewrite (slice_at 22 _ (B4 ++ Bi ++ Bt ++ B2) id (Payload e ++ rest))
    by (rewrite ?Hf, ?len_app, <- ?app_assoc; done || lia).
  rewrite bind_Ok.
  rewrite (slice_at 4 12 B4 Bi (Bt ++ B2 ++ id ++ Payload e ++ rest)) by (done || lia).
  rewrite bind_Ok.
  rewrite (slice_at 12 20 (B4 ++ Bi) Bt (B2 ++ id ++ Payload e ++ rest))
    by (rewrite ?Hf, ?len_app, <- ?app_assoc; done || lia).
  rewrite bind_Ok. rewrite (proj2 (Z.ltb_ge _ 0)) by lia.
  rewrite (slice_at _ _ (B4 ++ Bi ++ Bt ++ B2 ++ id) (Payload e) rest)
    by (rewrite ?Hf, ?len_app, <- ?app_assoc; done || lia).
  rewrite bind_Ok. unfold Bi, Bt, id. rewrite !wrap64_le8, string_of_bytes_of_string by done.
  by destruct e.
Qed.

Lemma decode_Ok data e :
  len data < 2 ^ 32 → decodeLogEntry data = Ok e →
  entry_ok e ∧ ∃ rest, data = encodeLogEntry e ++ rest.
Proof.
  intros Hlen. unfold decodeLogEntry.
  destruct (len data <? 4) eqn:H0; [done|]. destruct (slice 0 4 data) as [b4| |] eqn:S4; try done.
  rewrite bind_Ok. destruct (le_value b4 <? 18) eqn:H1; [done|].
  destruct (u32 (len data) <? _) eqn:H2; [done|].
  destruct (slice 20 22 data) as [b2| |] eqn:S2; try done. rewrite bind_Ok.
  destruct (_ <? u16 _) eqn:H3; [done|].
  destruct (slice 22 _ data) as [id| |] eqn:Sid; try done. rewrite bind_Ok.
  destruct (slice 4 12 data) as [bi| |] eqn:Si; try done. rewrite bind_Ok.
  destruct (slice 12 20 data) as [bt| |] eqn:St; try done. rewrite bind_Ok.
  destruct (_ <? 0) eqn:H5; [done|].
  destruct (slice (22 + _) _ data) as [pl| |] eqn:Sp; try done. rewrite bind_Ok.
  intros [= <-]. bool_to_prop.
  pose proof S4 as (_&_&_&L4)%slice_Ok. pose proof S2 as (_&_&_&L2)%slice_Ok.
  pose proof Si as (_&_&_&Li)%slice_Ok. pose proof St as (_&_&_&Lt)%slice_Ok.
  pose proof Sid as (Hid&_&_&Lid)%slice_Ok. pose proof Sp as (_&Hp&_&Lp)%slice_Ok.
  pose proof (le_value_bound b4) as B4. pose proof (le_value_bound b2) as B2.
  pose proof (le_value_bound bi) as Bi. pose proof (le_value_bound bt) as Bt.
  unfold len in L4, L2, Li, Lt.
  rewrite L4 in B4. rewrite L2 in B2. rewrite Li in Bi. rewrite Lt in Bt.
  change (256 ^ (4 - 0)) with (2 ^ 32) in B4. change (256 ^ (22 - 20)) with (2 ^ 16) in B2.
  change (256 ^ (12 - 4)) with (2 ^ 64) in Bi. change (256 ^ (20 - 12)) with (2 ^ 64) in Bt.
  (* the id length did not wrap around *)
  assert (Hw : 22 + le_value b2 < 2 ^ 16).
  { destruct (Z_lt_le_dec (22 + le_value b2) (2 ^ 16)) as [|Hge]; [done|].
    assert (u16 (22 + le_value b2) = 22 + le_value b2 - 2 ^ 16); [|lia].
    unfold u16. symmetry. apply (Z.mod_unique_pos _ _ 1); lia. }
  rewrite u16_small in Sid, Lid by lia. rewrite u16_small in H3 by lia.
  split.
  - split; simpl; rewrite ?bytes_of_string_of_bytes; try apply wrap64_ok; lia.
  - exists (drop (Z.to_nat (22 + le_value b2 + (le_value b4 - (18 + le_value b2)))) data).
    rewrite encode_fields. cbv zeta. cbn [Index Term SchedulerID Payload].
    rewrite bytes_of_string_of_bytes.
    replace (18 + len id + len pl) with (le_value b4) by lia.
    replace (len id) with (le_value b2) by lia.
    rewrite u32_small, u16_small, !u64_wrap64 by lia.
    rewrite !le_bytes_le_value by lia.
    pose proof (slice_app _ _ _ _ _ _ S4 (slice_app _ _ _ _ _ _ Si
      (slice_app _ _ _ _ _ _ St (slice_app _ _ _ _ _ _ S2
      (slice_app _ _ _ _ _ _ Sid Sp))))) as Hall.
    apply slice_prefix in Hall. rewrite <- !app_assoc in *. exact Hall.
Qed.

#[global] Arguments encodeLogEntry : simpl never.

(** ** Reading a stream *)

Definition encode_all (es : list LogEntry) : list byte := es ≫= encodeLogEntry.

Lemma encode_all_app es es' : encode_all (es ++ es') = encode_all es ++ encode_all es'.
Proof. apply bind_app. Qed.
Lemma encode_all_cons e es : encode_all (e :: es) = encodeLogEntry e ++ encode_all es.
Proof. done. Qed.
#[export] Hint Rewrite encode_all_app encode_all_cons : hive.
#[global] Arguments encode_all : simpl never.

Lemma ReadFull_app bs rest : ReadFull (len bs) (bs ++ rest) = ReadOk bs rest.
Proof.
  unfold ReadFull. rewrite len_app. pose proof (len_nonneg rest).
  rewrite (proj2 (Z.leb_le _ _)) by lia. unfold len. rewrite Nat2Z.id.
  by rewrite take_app_length, drop_app_length.
Qed.

Lemma ReadFull_Ok n r bs rest :
  0 ≤ n → ReadFull n r = ReadOk bs rest → r = bs ++ rest ∧ len bs = n.
Proof.
  intros Hn. unfold ReadFull. destruct (n <=? len r) eqn:E; [|by destruct r].
  intros [= <- <-]. bool_to_prop. rewrite take_drop. split; [done|].
  unfold len in *. rewrite length_take. lia.
Qed.

(** The size field and what follows it. *)
Definition encode_body (e : LogEntry) : list byte := drop 4 (encodeLogEntry e).

Lemma encode_split e :
  encodeLogEntry e = le_bytes 4 (u32 (entry_size e - 4)) ++ encode_body e.
Proof.
  unfold encode_body. pose proof (encode_fields e []) as H. rewrite app_nil_r in H.
  rewrite H. cbv zeta. rewrite drop_app_length' by (symmetry; apply length_le_bytes).
  do 3 f_equal. unfold entry_size. lia.
Qed.

Lemma len_encode_body e : len (encode_body e) = entry_size e - 4.
Proof.
  pose proof (len_encode e) as H. rewrite encode_split, len_app, len_le_bytes in H. lia.
Qed.

Lemma readLoop_step fuel e r acc sz :
  entry_ok e →
  readLoop (S fuel) (encodeLogEntry e ++ r) acc sz =
  readLoop fuel r (acc ++ [e]) (sz + entry_size e).
Proof.
  intros He. pose proof (ok_size _ He) as Hs. pose proof (entry_size_pos e).
  fold (entry_size e) in Hs.
  assert (H4 : ReadFull 4 (encodeLogEntry e ++ r) =
    ReadOk (le_bytes 4 (u32 (entry_size e - 4))) (encode_body e ++ r)).
  { rewrite encode_split, <- app_assoc.
    rewrite <- (len_le_bytes 4 (u32 (entry_size e - 4))) at 1. apply ReadFull_app. }
  assert (Hb : ReadFull (entry_size e - 4) (encode_body e ++ r) = ReadOk (encode_body e) r).
  { rewrite <- len_encode_body. apply ReadFull_app. }
  cbn [readLoop]. rewrite H4, u32_le4 by lia.
  replace (4 + (entry_size e - 4)) with (entry_size e) by lia.
  rewrite u32_small, (proj2 (Z.ltb_ge _ _)), Hb by lia.
  rewrite <- encode_split, <- (app_nil_r (encodeLogEntry e)).
  rewrite decode_encode; [done | done | rewrite app_nil_r, len_encode; lia].
Qed.

Lemma readLoop_encode fuel es r acc sz :
  Forall entry_ok es →
  readLoop (length es + fuel) (encode_all es ++ r) acc sz =
  readLoop fuel r (acc ++ es) (sz + len (encode_all es)).
Proof.
  intros Hes. revert acc sz. induction Hes as [|e es He Hes IH]; intros acc sz.
  - simpl. rewrite app_nil_r, Z.add_0_r. done.
  - rewrite encode_all_cons, <- app_assoc. cbn [length Nat.add].
    rewrite readLoop_step, IH by done. rewrite <- app_assoc, len_app, len_encode.
    f_equal. lia.
Qed.

Lemma readLoop_nil fuel acc sz : readLoop (S fuel) [] acc sz = Ok (acc, sz).
Proof. done. Qed.

(** The fuel of [readLogEntries] is never exhausted. *)
Lemma readLoop_fuel n m r acc sz :
  (length r < n)%nat → (length r < m)%nat → readLoop n r acc sz = readLoop m r acc sz.
Proof.
  revert m r acc sz. induction n as [|n IH]; intros [|m] r acc sz Hn Hm; try lia.
  cbn [readLoop]. destruct (ReadFull 4 r) as [hd r1|[]] eqn:E1; try done.
  apply ReadFull_Ok in E1 as [-> L1]; [|lia]. rewrite length_app in *.
  assert (length hd = 4%nat) by (unfold len in L1; lia).
  destruct (_ <? 4) eqn:E4; [done|]. bool_to_prop.
  destruct (ReadFull _ r1) as [body r2|] eqn:E2; [|done].
  apply ReadFull_Ok in E2 as [-> L2]; [|lia]. rewrite length_app in *.
  destruct (decodeLogEntry _); [|done..]. apply IH; lia.
Qed.

Lemma length_encode_all es : (length es ≤ length (encode_all es))%nat.
Proof.
  induction es as [|e es IH]; [done|]. rewrite encode_all_cons, length_app. simpl.
  pose proof (len_encode e). pose proof (entry_size_pos e). unfold len in *. lia.
Qed.

Lemma read_encode_all_tail es r :
  Forall entry_ok es →
  readLogEntries (encode_all es ++ r) =
  readLoop (S (length r)) r es (len (encode_all es)).
Proof.
  intros Hes. unfold readLogEntries.
  rewrite (readLoop_fuel _ (length es + S (length (encode_all es ++ r))))
    by (rewrite length_app; lia).
  rewrite readLoop_encode by done. apply readLoop_fuel; rewrite ?length_app; lia.
Qed.

Lemma read_encode_all es :
  Forall entry_ok es → readLogEntries (encode_all es) = Ok (es, len (encode_all es)).
Proof.
  intros Hes. rewrite <- (app_nil_r (encode_all es)) at 1.
  by rewrite read_encode_all_tail.
Qed.

(** A stream that ends inside an entry. *)
Lemma readLoop_torn fuel e p s acc sz :
  entry_ok e → encodeLogEntry e = p ++ s → p ≠ [] → s ≠ [] →
  ∃ err, readLoop (S fuel) p acc sz = Err err.
Proof.
  intros He Heq Hp Hs. pose proof (ok_size _ He) as Hsz. pose proof (entry_size_pos e).
  fold (entry_size e) in Hsz.
  assert (Hlen : len p < entry_size e).
  { rewrite <- len_encode, Heq, len_app. destruct s; [done|]. rewrite len_cons.
    pose proof (len_nonneg s). lia. }
  cbn [readLoop]. destruct (Z_lt_le_dec (len p) 4) as [H4|H4].
  - assert (ReadFull 4 p = ReadErr ErrUnexpectedEOF) as ->; [|eauto].
    unfold ReadFull. rewrite (proj2 (Z.leb_gt _ _)) by lia. by destruct p.
  - destruct (ReadFull 4 p) as [hd p'|err] eqn:E1.
    2: { unfold ReadFull in E1. by rewrite (proj2 (Z.leb_le _ _)) in E1 by lia. }
    apply ReadFull_Ok in E1 as [-> L4]; [|lia].
    assert (hd = le_bytes 4 (u32 (entry_size e - 4))) as ->.
    { rewrite encode_split, <- app_assoc in Heq. apply app_inj_1 in Heq as [-> _]; [done|].
      rewrite length_le_bytes. unfold len in L4. lia. }
    rewrite u32_le4 by lia. replace (4 + (entry_size e - 4)) with (entry_size e) by lia.
    rewrite u32_small, (proj2 (Z.ltb_ge _ _)) by lia.
    assert (∃ err, ReadFull (entry_size e - 4) p' = ReadErr err) as [err ->]; [|eauto].
    unfold ReadFull. rewrite len_app, len_le_bytes in Hlen.
    rewrite (proj2 (Z.leb_gt _ _)) by lia. destruct p'; eauto.
Qed.

Lemma ReadFull_header r hd r1 : ReadFull 4 r = ReadOk hd r1 → r = hd ++ r1 ∧ length hd = 4%nat.
Proof. intros [-> L]%ReadFull_Ok; [|lia]. unfold len in L. split; [done|lia]. Qed.

(** What one turn of the loop accepts. *)
Lemma decode_frame hd bd e :
  length hd = 4%nat → 4 ≤ u32 (4 + le_value hd) →
  len bd = u32 (4 + le_value hd) - 4 → decodeLogEntry (hd ++ bd) = Ok e →
  entry_ok e ∧ hd ++ bd = encodeLogEntry e ∧ u32 (4 + le_value hd) = entry_size e.
Proof.
  intros Lh Hn Lb Hd. pose proof (le_value_bound hd) as Hv. rewrite Lh in Hv.
  change (256 ^ Z.of_nat 4) with (2 ^ 32) in Hv.
  assert (Hw : u32 (4 + le_value hd) = 4 + le_value hd).
  { destruct (Z_lt_le_dec (4 + le_value hd) (2 ^ 32)); [apply u32_small; lia|].
    assert (u32 (4 + le_value hd) = 4 + le_value hd - 2 ^ 32); [|lia].
    unfold u32. symmetry. apply (Z.mod_unique_pos _ _ 1); lia. }
  apply decode_Ok in Hd as [He [rest Hr]].
  2: { pose proof (Z.mod_pos_bound (4 + le_value hd) (2 ^ 32)). unfold u32 in *.
       rewrite len_app. unfold len in *. lia. }
  assert (Hsz : hd = le_bytes 4 (u32 (entry_size e - 4))).
  { rewrite encode_split, <- app_assoc in Hr. apply app_inj_1 in Hr as [-> _]; [done|].
    by rewrite length_le_bytes. }
  pose proof (ok_size _ He) as Hs. fold (entry_size e) in Hs. pose proof (entry_size_pos e).
  assert (Hv' : le_value hd = entry_size e - 4) by (rewrite Hsz; apply u32_le4; lia).
  assert (rest = []) as ->.
  { apply (f_equal len) in Hr. rewrite !len_app, len_encode in Hr. unfold len in *.
    destruct rest; [done|]. simpl in Hr. lia. }
  rewrite app_nil_r in Hr. split_and!; [done | done | lia].
Qed.

Lemma readLoop_Ok fuel r acc sz es sz' :
  readLoop fuel r acc sz = Ok (es, sz') →
  ∃ es', es = acc ++ es' ∧ Forall entry_ok es' ∧ r = encode_all es' ∧ sz' = sz + len r.
Proof.
  revert r acc sz. induction fuel as [|fuel IH]; intros r acc sz; [done|].
  cbn [readLoop]. destruct (ReadFull 4 r) as [hd r1|[]] eqn:E1; try done.
  2: { unfold ReadFull in E1. destruct (4 <=? len r); [done|]. destruct r; [|done].
       intros [= <- <-]. exists []. by rewrite app_nil_r, len_nil, Z.add_0_r. }
  apply ReadFull_header in E1 as [-> Lh].
  destruct (_ <? 4) eqn:E4; [done|]. bool_to_prop.
  destruct (ReadFull _ r1) as [bd r2|] eqn:E2; [|done].
  apply ReadFull_Ok in E2 as [-> Lb]; [|lia].
  destruct (decodeLogEntry _) as [e| |] eqn:Hd; [|done..].
  apply decode_frame in Hd as (He & Hr & Hn); [|done..].
  intros (es' & -> & Hes & -> & ->)%IH.
  exists (e :: es'). rewrite <- app_assoc, encode_all_cons, <- Hr, <- app_assoc.
  split_and!; [done | by constructor | done |].
  rewrite !len_app. unfold len at 2. rewrite Lh. lia.
Qed.

(** ** Properties of the format *)

(** C3: [decodeLogEntry] accepts a buffer exactly when it starts with the
    encoding of an entry whose fields fit the format, and then returns that
    entry: encoding followed by decoding is the identity, no other bytes decode
    to an entry, and bytes after the entry are ignored. *)
Theorem decode_iff_encode data e :
  len data < 2 ^ 32 →
  decodeLogEntry data = Ok e ↔ entry_ok e ∧ ∃ rest, data = encodeLogEntry e ++ rest.
Proof.
  intros Hlen. split; [by apply decode_Ok|]. intros (He & rest & ->). by apply decode_encode.
Qed.

Definition sample_entry : LogEntry :=
  mkEntry 7 3 "node-1" (list_byte_of_string "{}").

Lemma decode_iff_encode_witness : decodeLogEntry (encodeLogEntry sample_entry) = Ok sample_entry.
Proof.
  apply decode_iff_encode; [vm_compute; reflexivity|]. split.
  - refine (bool_decide_unpack _ _). vm_compute. exact I.
  - exists []. symmetry. apply app_nil_r.
Defined.

(** [readLogEntries] succeeds on exactly the concatenations of encoded
    entries; it returns those entries in order and the number of bytes of the
    stream as their total size. *)
Theorem readLogEntries_iff r es sz :
  readLogEntries r = Ok (es, sz) ↔ r = encode_all es ∧ Forall entry_ok es ∧ sz = len r.
Proof.
  split.
  - intros (es' & -> & Hes & -> & ->)%readLoop_Ok. done.
  - intros (-> & Hes & ->). by apply read_encode_all.
Qed.

(** A stream whose last entry was cut short by a crash is never accepted:
    [readLogEntries] returns an error, also for the intact entries before it. *)
Theorem readLogEntries_torn es e p s :
  Forall entry_ok es → entry_ok e → encodeLogEntry e = p ++ s → p ≠ [] → s ≠ [] →
  ∃ err, readLogEntries (encode_all es ++ p) = Err err.
Proof.
  intros Hes He Heq Hp Hs. rewrite read_encode_all_tail by done. by eapply readLoop_torn.
Qed.

Lemma readLogEntries_torn_witness :
  ∃ err, readLogEntries (encode_all [sample_entry] ++ take 10 (encodeLogEntry sample_entry)) = Err err.
Proof.
  apply (readLogEntries_torn [sample_entry] sample_entry _ (drop 10 (encodeLogEntry sample_entry))).
  - refine (bool_decide_unpack _ _). vm_compute. exact I.
  - refine (bool_decide_unpack _ _). vm_compute. exact I.
  - symmetry. apply take_drop.
  - vm_compute. discriminate.
  - vm_compute. discriminate.
Defined.

Lemma slice_Panic {E A} lo hi (data : list A) : hi < lo → slice lo hi data = Panic (E:=E).
Proof.
  intros. unfold slice. rewrite (proj2 (Z.leb_gt lo hi)) by lia. by rewrite andb_false_r.
Qed.

(** An entry whose scheduler id is 65514 to 65535 bytes long is written by
    [encodeLogEntry] with a correct length field, but decoding it panics: the
    offset [22+masterIDLen] is computed in [uint16] and wraps around. *)
Theorem decode_long_id_panics e :
  65514 ≤ len (list_byte_of_string (SchedulerID e)) < 2 ^ 16 →
  len (Payload e) < 2 ^ 16 →
  decodeLogEntry (encodeLogEntry e) = Panic.
Proof.
  intros Hid Hpl. pose proof (encode_fields e []) as Hf. cbv zeta in Hf. rewrite !app_nil_r in Hf.
  pose proof (len_encode e) as Hle. unfold entry_size in Hle.
  pose proof (len_nonneg (Payload e)).
  set (id := list_byte_of_string (SchedulerID e)) in *. set (data := encodeLogEntry e) in *.
  unfold decodeLogEntry. rewrite (proj2 (Z.ltb_ge _ _)) by lia.
  rewrite (slice_at 0 4 [] _ _ _ Hf) by (rewrite ?len_le_bytes; done).
  rewrite bind_Ok, u32_le4, (proj2 (Z.ltb_ge _ 18)) by lia.
  rewrite !u32_small, (proj2 (Z.ltb_ge _ _)) by lia.
  erewrite (slice_at 20 22 (le_bytes 4 _ ++ le_bytes 8 _ ++ le_bytes 8 _) (le_bytes 2 (u16 (len id))))
    by (rewrite ?Hf, ?len_app, <- ?app_assoc, ?len_le_bytes; done).
  rewrite bind_Ok, u16_le2 by lia.
  assert (u16 (18 + len id) ≤ 18 + len id) by (unfold u16; apply Z.mod_le; lia).
  rewrite (proj2 (Z.ltb_ge _ (u16 _))) by lia.
  assert (u16 (22 + len id) = 22 + len id - 2 ^ 16) as ->.
  { unfold u16. symmetry. apply (Z.mod_unique_pos _ _ 1); lia. }
  rewrite (slice_Panic 22) by lia. done.
Qed.

Definition long_id_entry : LogEntry :=
  mkEntry 1 1 (string_of_list_byte (replicate (Z.to_nat 65514) x61)) [].

Lemma decode_long_id_panics_witness : decodeLogEntry (encodeLogEntry long_id_entry) = Panic.
Proof.
  apply decode_long_id_panics.
  - unfold long_id_entry. cbn [SchedulerID]. rewrite bytes_of_string_of_bytes.
    unfold len. rewrite length_replicate. lia.
  - vm_compute. reflexivity.
Defined.
