(* ===== verification/Fs.v ===== *)
(** * The operating-system side of the storage code

    Decimal file names ([fmt.Sprintf]/[fmt.Sscanf] with ["%d-%d.log"]) and the
    file operations of package [os] on the data directory. Every operation
    consumes one decision of a list of faults, so that each error branch of the
    storage code is reachable and crashes can stop a write half way. *)

From Stdlib Require Import Strings.Byte Strings.String.
From S2P Require Import Prelude.
From S2P Require Import Bytes.
From S2P Require Import LogCodec.

(** ** Decimal numbers *)

Definition digit (z : Z) : byte := byte_of_Z (48 + z).

(** The digits of [z], most significant first; twenty are enough for 64 bits. *)
Fixpoint digits (fuel : nat) (z : Z) : list byte :=
  match fuel with
  | O => []
  | S fuel => if z <? 10 then [digit z] else digits fuel (z / 10) ++ [digit (z mod 10)]
  end.

(** [%d] of an [int64]. *)
Definition sprint_int (z : Z) : list byte :=
  if z <? 0 then x2d :: digits 20 (- z) else digits 20 z.

Definition is_decimal (b : byte) : bool := (48 <=? Z_of_byte b) && (Z_of_byte b <=? 57).

Fixpoint span_decimal (bs : list byte) : list byte * list byte :=
  match bs with
  | b :: r => if is_decimal b then let '(ds, r') := span_decimal r in (b :: ds, r') else ([], bs)
  | [] => ([], [])
  end.

Definition decimal_value (ds : list byte) : Z :=
  foldl (λ acc b, 10 * acc + (Z_of_byte b - 48)) 0 ds.

(** A sign as [strconv.ParseInt] and the scanner accept it. *)
Definition take_sign (bs : list byte) : bool * list byte :=
  match bs with x2d :: r => (true, r) | x2b :: r => (false, r) | _ => (false, bs) end.

(** [%d] of the scanner into an [int64]: blanks, sign, digits; out of range is
    an error. *)
Fixpoint skip_blanks (bs : list byte) : list byte :=
  match bs with
  | (x20 | x09 | x0b | x0c | x0d) :: r => skip_blanks r
  | _ => bs
  end.

Definition scan_int (bs : list byte) : option (Z * list byte) :=
  let '(neg, r) := take_sign (skip_blanks bs) in
  let '(ds, r) := span_decimal r in
  if bool_decide (ds = []) then None else
  let z := if neg : bool then - decimal_value ds else decimal_value ds in
  if bool_decide (int64_ok z) then Some (z, r) else None.

Definition scan_lit (lit bs : list byte) : option (list byte) :=
  if bool_decide (take (length lit) bs = lit) then Some (drop (length lit) bs) else None.

Definition dot_log : list byte := [x2e; x6c; x6f; x67].

(** [fmt.Sscanf(name, "%d-%d.log", &term, &index)] returning 2 and no error;
    what follows [.log] is not looked at. *)
Definition sscanf_log (name : string) : option (Z * Z) :=
  '(term, r) ← scan_int (list_byte_of_string name);
  r ← scan_lit [x2d] r;
  '(index, r) ← scan_int r;
  _ ← scan_lit dot_log r;
  Some (term, index).

(** [fmt.Sprintf("%d-%d.log", term, index)]. *)
Definition log_name (term index : Z) : string :=
  string_of_list_byte (sprint_int term ++ [x2d] ++ sprint_int index ++ dot_log).

Lemma digits_bound z fuel : 0 ≤ z → Forall (λ b, is_decimal b = true) (digits fuel z).
Proof.
  revert z. induction fuel as [|fuel IH]; intros z Hz; simpl; [done|].
  assert (Hd : ∀ d, 0 ≤ d < 10 → is_decimal (digit d) = true).
  { intros d ?. unfold is_decimal, digit. rewrite Z_of_byte_of_Z, Z.mod_small by lia.
    apply andb_true_iff. split; apply Z.leb_le; lia. }
  destruct (z <? 10) eqn:E; bool_to_prop.
  - constructor; [apply Hd; lia | done].
  - apply Forall_app. split; [apply IH, Z.div_pos; lia|]. constructor; [|done].
    apply Hd, Z.mod_pos_bound. lia.
Qed.

Lemma decimal_value_digits fuel z :
  0 ≤ z < 10 ^ Z.of_nat fuel → decimal_value (digits fuel z) = z.
Proof.
  assert (Hd : ∀ d, 0 ≤ d < 10 → Z_of_byte (digit d) - 48 = d).
  { intros d ?. unfold digit. rewrite Z_of_byte_of_Z, Z.mod_small; lia. }
  revert z. induction fuel as [|fuel IH]; intros z Hz.
  - simpl in Hz. assert (z = 0) as -> by lia. done.
  - rewrite Nat2Z.inj_succ, Z.pow_succ_r in Hz by lia. cbn [digits].
    destruct (z <? 10) eqn:E; bool_to_prop.
    + unfold decimal_value. cbn [foldl]. rewrite Hd; lia.
    + unfold decimal_value in *. rewrite foldl_app. cbn [foldl].
      pose proof (Z.mod_pos_bound z 10). pose proof (Z.div_mod z 10).
      rewrite Hd by lia. rewrite IH; [lia|]. split; [apply Z.div_pos; lia|].
      apply Z.div_lt_upper_bound; lia.
Qed.

Lemma digits_not_nil fuel z : fuel ≠ O → digits fuel z ≠ [].
Proof. destruct fuel; [done|]. simpl. by destruct (z <? 10), (digits fuel (z / 10)). Qed.

Lemma span_decimal_app ds r :
  Forall (λ b, is_decimal b = true) ds →
  match r with b :: _ => is_decimal b = false | [] => True end →
  span_decimal (ds ++ r) = (ds, r).
Proof.
  intros Hds Hr. induction Hds as [|b ds Hb Hds IH]; simpl.
  - destruct r as [|b r]; [done|]. simpl. by rewrite Hr.
  - by rewrite Hb, IH.
Qed.

Lemma skip_sign_digits ds r :
  Forall (λ b, is_decimal b = true) ds → ds ≠ [] →
  skip_blanks (ds ++ r) = ds ++ r ∧ take_sign (ds ++ r) = (false, ds ++ r).
Proof. destruct 1 as [|b ds Hb _]; [done|]. intros _. by destruct b. Qed.

Lemma scan_int_sprint z r :
  int64_ok z → match r with b :: _ => is_decimal b = false | [] => True end →
  scan_int (sprint_int z ++ r) = Some (z, r).
Proof.
  intros Hz Hr. unfold scan_int, sprint_int, int64_ok in *.
  assert (20%nat ≠ O) as H20 by done.
  assert (Hp : ∀ z, - 2 ^ 63 ≤ z ≤ 2 ^ 63 → z < 10 ^ Z.of_nat 20) by (simpl; lia).
  destruct (z <? 0) eqn:E; bool_to_prop.
  - pose proof (digits_bound (- z) 20 ltac:(lia)). cbn [skip_blanks take_sign app].
    rewrite span_decimal_app by done. rewrite bool_decide_eq_false_2 by by apply digits_not_nil.
    rewrite decimal_value_digits by (specialize (Hp (-z)); lia).
    rewrite bool_decide_eq_true_2 by lia. by rewrite Z.opp_involutive.
  - pose proof (digits_bound z 20 ltac:(lia)) as Hds.
    destruct (skip_sign_digits (digits 20 z) r Hds (digits_not_nil _ _ H20)) as [-> ->].
    rewrite span_decimal_app by done. rewrite bool_decide_eq_false_2 by by apply digits_not_nil.
    rewrite decimal_value_digits by (specialize (Hp z); lia).
    by rewrite bool_decide_eq_true_2 by lia.
Qed.

Lemma scan_lit_app lit r : scan_lit lit (lit ++ r) = Some r.
Proof.
  unfold scan_lit. by rewrite take_app_length, drop_app_length, bool_decide_eq_true_2.
Qed.

(** The scanner reads back the names the code prints. *)
Lemma sscanf_log_name term index :
  int64_ok term → int64_ok index → sscanf_log (log_name term index) = Some (term, index).
Proof.
  intros Ht Hi. unfold sscanf_log, log_name. rewrite bytes_of_string_of_bytes.
  rewrite scan_int_sprint by done. cbn [mbind option_bind].
  rewrite (scan_lit_app [x2d]). cbn [mbind option_bind].
  rewrite scan_int_sprint by done. cbn [mbind option_bind].
  rewrite <- (app_nil_r dot_log), scan_lit_app. done.
Qed.

Lemma log_name_inj t i t' i' :
  int64_ok t → int64_ok i → int64_ok t' → int64_ok i' →
  log_name t i = log_name t' i' → t = t' ∧ i = i'.
Proof.
  intros ???? H. apply (f_equal sscanf_log) in H. rewrite !sscanf_log_name in H by done.
  by simplify_eq.
Qed.

(** ** The data directory

    The names of the data directory with what they hold. A handle refers to its
    file by name: the code renames [snapshot.tmp] only after closing it, and
    replaces [active.log] only after closing its own handle to it. *)

Inductive node := Reg (content : list byte) | Dir.

(** What the next system call does: succeed, fail, or (a write) store only the
    first [k] bytes and fail. *)
Inductive fault := NoFault | Fail (e : StorageError) | Short (k : nat).

Record FS := mkFS { files : gmap string node; faults : list fault }.

Record file := mkFile { fname : string; fpos : Z; fappend : bool; fopen : bool }.

Record flags := mkFlags { o_create : bool; o_trunc : bool; o_append : bool }.

Definition content (fs : FS) (name : string) : list byte :=
  match files fs !! name with Some (Reg c) => c | _ => [] end.

Definition set_content (name : string) (c : list byte) (fs : FS) : FS :=
  mkFS (<[name := Reg c]> (files fs)) (faults fs).

#[global] Arguments set_content : simpl never.

Abbreviation fsio := (io StorageError FS).

(** One system call without an effect of its own. *)
Definition syscall : fsio unit := λ fs,
  match faults fs with
  | [] => (Ok tt, fs)
  | NoFault :: l => (Ok tt, mkFS (files fs) l)
  | Fail e :: l => (Err e, mkFS (files fs) l)
  | Short _ :: l => (Err ErrOS, mkFS (files fs) l)
  end.

(** [os.OpenFile]; opening a directory for writing or with O_CREATE fails. *)
Definition os_open (name : string) (fl : flags) : fsio file :=
  syscall ;;
  fs ← get;
  let f := mkFile name 0 (o_append fl) true in
  match files fs !! name with
  | Some Dir => throw ErrOS
  | Some (Reg _) =>
      if o_trunc fl then modify (set_content name []) ;; ret f else ret f
  | None =>
      if o_create fl then modify (set_content name []) ;; ret f else throw ErrNotExist
  end.

(** Writes [d] at [off], zero-filling a gap. *)
Definition splice (c : list byte) (off : Z) (d : list byte) : list byte :=
  let o := Z.to_nat off in
  take o c ++ replicate (o - length c) x00 ++ d ++ drop (o + length d) c.

Definition write_pos (f : file) (fs : FS) : Z :=
  if fappend f then len (content fs (fname f)) else fpos f.

(** [File.Write]: the handle with its new offset. *)
Definition os_write (f : file) (d : list byte) : fsio file := λ fs,
  if fopen f then
    let off := write_pos f fs in
    let put d fs := set_content (fname f) (splice (content fs (fname f)) off d) fs in
    match syscall fs with
    | (Ok _, fs') => (Ok (mkFile (fname f) (off + len d) (fappend f) true), put d fs')
    | (r, fs') =>
        (Err (match r with Err e => e | _ => ErrOS end),
         match faults fs with Short k :: _ => put (take k d) fs' | _ => fs' end)
    end
  else (Err ErrClosed, fs).

(** [File.WriteAt] on a handle opened without O_APPEND. *)
Definition os_write_at (f : file) (d : list byte) (off : Z) : fsio unit :=
  if off <? 0 then throw ErrNegativeOffset
  else if bool_decide (d = []) then ret tt
  else _ ← os_write (mkFile (fname f) off false (fopen f)) d; ret tt.

Definition os_truncate0 (f : file) : fsio unit :=
  if fopen f then syscall ;; modify (set_content (fname f) []) else throw ErrClosed.

Definition os_seek0 (f : file) : fsio file :=
  if fopen f then syscall ;; ret (mkFile (fname f) 0 (fappend f) true) else throw ErrClosed.

Definition os_sync (f : file) : fsio unit :=
  if fopen f then syscall else throw ErrClosed.

Definition os_close (f : file) : fsio unit :=
  if fopen f then syscall else throw ErrClosed.

Definition os_stat_size (f : file) : fsio Z :=
  if fopen f then syscall ;; fs ← get; ret (len (content fs (fname f))) else throw ErrClosed.

Definition os_rename (old new : string) : fsio unit :=
  syscall ;;
  fs ← get;
  match files fs !! old with
  | None => throw ErrNotExist
  | Some n => modify (λ fs, mkFS (<[new := n]> (delete old (files fs))) (faults fs))
  end.

(** [os.ReadDir]: the entries in the order of their names. *)
Definition name_lt (a b : string * node) : bool :=
  match String.compare a.1 b.1 with Lt => true | _ => false end.
Definition os_read_dir : fsio (list (string * node)) :=
  syscall ;; fs ← get; ret (stable_sort name_lt (map_to_list (files fs))).

(** What a reader gets from an open file: the rest of its bytes. *)
Definition os_read_rest (f : file) : fsio (list byte) :=
  if fopen f then
    syscall ;; fs ← get; ret (drop (Z.to_nat (fpos f)) (content fs (fname f)))
  else throw ErrClosed.

(** A disk on which no call fails. *)
Definition calm (fs : FS) : Prop := faults fs = [].

Lemma syscall_calm fs : calm fs → syscall fs = (Ok tt, fs).
Proof. unfold calm, syscall. by intros ->. Qed.

Lemma calm_set_content name c fs : calm fs → calm (set_content name c fs).
Proof. done. Qed.

Lemma content_set name c fs : content (set_content name c fs) name = c.
Proof. unfold content, set_content. simpl. by simplify_map_eq. Qed.
Lemma content_set_ne name name' c fs :
  name ≠ name' → content (set_content name c fs) name' = content fs name'.
Proof. intros. unfold content, set_content. simpl. by simplify_map_eq. Qed.
#[export] Hint Resolve calm_set_content : hive.
#[export] Hint Rewrite content_set : hive.

Lemma splice_end c d : splice c (len c) d = c ++ d.
Proof.
  unfold splice, len. rewrite Nat2Z.id, take_ge, drop_ge, app_nil_r by lia.
  by rewrite Nat.sub_diag.
Qed.

(** A successful append. *)
Lemma os_write_append f d fs :
  calm fs → fopen f = true → fappend f = true →
  os_write f d fs =
    (Ok (mkFile (fname f) (len (content fs (fname f)) + len d) true true),
     set_content (fname f) (content fs (fname f) ++ d) fs).
Proof.
  intros Hc Ho Ha. unfold os_write, write_pos. rewrite Ho, Ha, syscall_calm by done.
  by rewrite splice_end.
Qed.

(** ** Calls on a calm disk *)

Lemma os_sync_calm f fs : calm fs → fopen f = true → os_sync f fs = (Ok tt, fs).
Proof. intros Hc Ho. unfold os_sync. rewrite Ho. by apply syscall_calm. Qed.
Lemma os_close_calm f fs : calm fs → fopen f = true → os_close f fs = (Ok tt, fs).
Proof. intros Hc Ho. unfold os_close. rewrite Ho. by apply syscall_calm. Qed.

Lemma os_truncate0_calm f fs :
  calm fs → fopen f = true → os_truncate0 f fs = (Ok tt, set_content (fname f) [] fs).
Proof.
  intros Hc Ho. unfold os_truncate0. rewrite Ho. step by (syscall_calm fs). done.
Qed.

Lemma os_seek0_calm f fs :
  calm fs → fopen f = true → os_seek0 f fs = (Ok (mkFile (fname f) 0 (fappend f) true), fs).
Proof. intros Hc Ho. unfold os_seek0. rewrite Ho. by step by (syscall_calm fs). Qed.

Lemma os_read_rest_calm f fs :
  calm fs → fopen f = true → fpos f = 0 → os_read_rest f fs = (Ok (content fs (fname f)), fs).
Proof.
  intros Hc Ho Hp. unfold os_read_rest. rewrite Ho. step by (syscall_calm fs).
  unfold mbind, io_bind, get, ret. by rewrite Hp, drop_0.
Qed.

(** The directory after a successful [OpenFile]. *)
Definition opened (name : string) (fl : flags) (fs : FS) : FS :=
  match files fs !! name with
  | Some _ => if o_trunc fl then set_content name [] fs else fs
  | None => set_content name [] fs
  end.

Lemma os_open_calm name fl fs :
  calm fs → files fs !! name ≠ Some Dir →
  (o_create fl = true ∨ is_Some (files fs !! name)) →
  os_open name fl fs = (Ok (mkFile name 0 (o_append fl) true), opened name fl fs).
Proof.
  intros Hc Hd He. unfold os_open, opened. step by (syscall_calm fs).
  unfold mbind, io_bind, get, ret, modify, throw.
  destruct (files fs !! name) as [[c|]|] eqn:Hn; [|done|].
  - by destruct (o_trunc fl).
  - destruct He as [-> | [? ?]]; done.
Qed.

Lemma opened_content name fl fs :
  o_trunc fl = false → files fs !! name ≠ Some Dir →
  content (opened name fl fs) name = content fs name.
Proof.
  unfold opened, content, set_content. intros Ht Hd. destruct (files fs !! name) eqn:E.
  - by rewrite Ht, E.
  - simpl. by simplify_map_eq.
Qed.

Lemma opened_lookup_ne name name' fl fs :
  name ≠ name' → files (opened name fl fs) !! name' = files fs !! name'.
Proof.
  intros. unfold opened, set_content.
  destruct (files fs !! name); [destruct (o_trunc fl)|]; simpl; by simplify_map_eq.
Qed.

Lemma opened_calm name fl fs : calm fs → calm (opened name fl fs).
Proof. unfold opened. intros. by destruct (files fs !! name), (o_trunc fl). Qed.
#[export] Hint Resolve opened_calm : hive.

Lemma set_content_lookup_ne name name' c fs :
  name ≠ name' → files (set_content name c fs) !! name' = files fs !! name'.
Proof. intros. unfold set_content. simpl. by simplify_map_eq. Qed.

Lemma set_content_twice name c c' fs :
  set_content name c (set_content name c' fs) = set_content name c fs.
Proof. unfold set_content. simpl. by rewrite insert_insert_eq. Qed.

Lemma set_content_id name c fs :
  files fs !! name = Some (Reg c) → set_content name c fs = fs.
Proof. intros H. unfold set_content. destruct fs. simpl in *. by rewrite insert_id. Qed.

Lemma content_lookup name c fs : files fs !! name = Some (Reg c) → content fs name = c.
Proof. unfold content. by intros ->. Qed.

Lemma set_content_lookup name c fs : files (set_content name c fs) !! name = Some (Reg c).
Proof. unfold set_content. simpl. by simplify_map_eq. Qed.

(** A successful write at the end through a handle with an offset. *)
Lemma os_write_end f d fs :
  calm fs → fopen f = true → fappend f = false → fpos f = len (content fs (fname f)) →
  os_write f d fs =
    (Ok (mkFile (fname f) (len (content fs (fname f)) + len d) false true),
     set_content (fname f) (content fs (fname f) ++ d) fs).
Proof.
  intros Hc Ho Ha Hp. unfold os_write, write_pos. rewrite Ho, Ha, Hp, syscall_calm by done.
  by rewrite splice_end.
Qed.

(** Appends with the decision of the write made. *)
Lemma os_write_append_next f d m l c :
  fopen f = true → fappend f = true → m !! fname f = Some (Reg c) →
  ∃ f', os_write f d (mkFS m (NoFault :: l)) =
    (Ok f', set_content (fname f) (c ++ d) (mkFS m l)).
Proof.
  intros Ho Ha Hf. eexists. unfold os_write, write_pos. rewrite Ho, Ha. cbn [syscall faults files].
  assert (∀ l', content (mkFS m l') (fname f) = c) as Hc by (intros; by apply content_lookup).
  rewrite !Hc, splice_end. reflexivity.
Qed.

Lemma os_write_append_short f d m l c k :
  fopen f = true → fappend f = true → m !! fname f = Some (Reg c) →
  os_write f d (mkFS m (Short k :: l)) =
    (Err ErrOS, set_content (fname f) (c ++ take k d) (mkFS m l)).
Proof.
  intros Ho Ha Hf. unfold os_write, write_pos. rewrite Ho, Ha. cbn [syscall faults files].
  assert (∀ l', content (mkFS m l') (fname f) = c) as Hc by (intros; by apply content_lookup).
  rewrite !Hc, splice_end. reflexivity.
Qed.

Lemma calm_eta fs : calm fs → mkFS (files fs) [] = fs.
Proof. unfold calm. destruct fs. simpl. by intros ->. Qed.
