(* ===== verification/JsonAny.v ===== *)
(** * JSON values of any type

    [json.Unmarshal] into an [interface{}] or a map of them: every number becomes a
    [float64], and one that is out of range fails the call. *)

From Stdlib Require Import Strings.Byte Strings.String.
From S2P Require Import Prelude.
From S2P Require Import Bytes.
From S2P Require Import Json.

(** A number literal as [mantissa * 10^exponent]. *)
Definition literal_value (lit : list byte) : Z * Z :=
  let '(neg, r) := match lit with x2d :: r => (true, r) | _ => (false, lit) end in
  let '(int, r) := span is_digit r in
  let '(frac, r) := match r with x2e :: r' => span is_digit r' | _ => ([], r) end in
  let ex := match r with
    | _ :: r' =>
        let '(en, r') := match r' with
          | x2d :: q => (true, q) | x2b :: q => (false, q) | _ => (false, r') end in
        if en : bool then - decimal r' else decimal r'
    | [] => 0 end in
  let m := decimal (int ++ frac) in
  ((if neg : bool then - m else m), ex - len frac).

(** [strconv.ParseFloat] fails when the value rounds to an infinity. *)
Definition float_ok (lit : list byte) : bool :=
  let '(m, e) := literal_value lit in
  let bound := 2 ^ 1024 - 2 ^ 970 in
  if 0 <=? e then Z.abs m * 10 ^ e <? bound else Z.abs m <? bound * 10 ^ (- e).

(** Storing a value into an [any]: every number in it becomes a [float64]. *)
Fixpoint any_ok (v : json) : bool :=
  match v with
  | JNumber lit => float_ok lit
  | JArray vs => forallb any_ok vs
  | JObject ms => forallb (λ '(_, _, w), any_ok w) ms
  | _ => true
  end.

(** Whether [json.Unmarshal(data, &m)] succeeds for a [map[string]interface{}]. *)
Definition unmarshal_map (data : list byte) : bool :=
  match parse_json data with
  | Some JNull => true
  | Some (JObject ms) => any_ok (JObject ms)
  | _ => false
  end.

Example float_ok_ex :
  (float_ok <$> [text "1e308"; text "1.8e308"; text "-1E309"; text "0e999"; text "12.5"]) =
  [true; false; false; true; true].
Proof. vm_compute. reflexivity. Qed.

Example unmarshal_map_ex :
  (unmarshal_map <$> [text "{'a': [1, 'x']}"; text " null "; text "[1]"; text "{'a': 1e999}"; text "{"]) =
  [true; true; false; false; false].
Proof. vm_compute. reflexivity. Qed.
