(* ===== verification/JsonEncode.v ===== *)
(** * JSON as [encoding/json] writes it

    [json.Marshal] on the structs that the program sends: strings with HTML-safe
    escapes, integers, and [json.RawMessage], which is checked and compacted.
    What it writes is read back: strings of valid UTF-8 and integers as they were,
    a raw message as its compacted text, which holds the same value. *)

From Stdlib Require Import Strings.Byte Strings.String.
From S2P Require Import Prelude.
From S2P Require Import Bytes.
From S2P Require Import Json.
From S2P Require Import JsonTheory.
From S2P Require Import Fs.

(** ** Strings *)

Definition hex (z : Z) : byte := byte_of_Z (if z <? 10 then 48 + z else 87 + z).

(** [\u00XX] *)
Definition u00 (b : byte) : list byte :=
  [x5c; x75; x30; x30; hex (Z_of_byte b / 16); hex (Z_of_byte b mod 16)].

(** A byte below [utf8.RuneSelf] in a string. *)
Definition encode_ascii (b : byte) : list byte :=
  match b with
  | x22 | x5c => [x5c; b]
  | x08 => [x5c; x62]
  | x0c => [x5c; x66]
  | x0a => [x5c; x6e]
  | x0d => [x5c; x72]
  | x09 => [x5c; x74]
  | x3c | x3e | x26 => u00 b
  | _ => if Z_of_byte b <? 32 then u00 b else [b]
  end.

(** The last hexadecimal digit of U+2028 and U+2029, at the head of a text. *)
Definition line_sep (bs : list byte) : option byte :=
  if bool_decide (take 3 bs = [xe2; x80; xa8]) then Some x38
  else if bool_decide (take 3 bs = [xe2; x80; xa9]) then Some x39
  else None.

Definition u202 (h : byte) : list byte := [x5c; x75; x32; x30; x32; h].

(** A well-formed multi-byte sequence. *)
Definition encode_seq (s : list byte) : list byte :=
  match line_sep s with Some h => u202 h | None => s end.

Fixpoint encode_chars (fuel : nat) (bs : list byte) : list byte :=
  match fuel, bs with
  | S fuel, b :: r =>
      if Z_of_byte b <? 128 then encode_ascii b ++ encode_chars fuel r
      else match utf8_seq bs with
           | Some (s, r') => encode_seq s ++ encode_chars fuel r'
           | None => [x5c; x75; x66; x66; x66; x64] ++ encode_chars fuel r
           end
  | _, _ => []
  end.

Definition encode_string (s : list byte) : list byte :=
  x22 :: encode_chars (length s) s ++ [x22].

(** What a reader gets: malformed bytes are replaced. *)
Fixpoint to_valid (fuel : nat) (bs : list byte) : list byte :=
  match fuel, bs with
  | S fuel, b :: r =>
      match utf8_seq bs with
      | Some (s, r') => s ++ to_valid fuel r'
      | None => replacement ++ to_valid fuel r
      end
  | _, _ => []
  end.

Definition valid_utf8 (bs : list byte) : Prop := to_valid (length bs) bs = bs.

(** ** Raw messages: syntax check, no white space, HTML-safe *)
Inductive mode := Outside | Inside | Escaped.

Definition next_mode (m : mode) (b : byte) : mode :=
  match m with
  | Outside => if bool_decide (b = x22) then Inside else Outside
  | Inside => if bool_decide (b = x5c) then Escaped
              else if bool_decide (b = x22) then Outside else Inside
  | Escaped => Inside
  end.

Definition squeeze_byte (m : mode) (b : byte) : list byte :=
  match b with
  | x3c | x3e | x26 => u00 b
  | _ => match m with Outside => if is_ws b then [] else [b] | _ => [b] end
  end.

(** [skip] bytes of an escaped sequence are still to come. *)
Fixpoint squeeze (skip : nat) (m : mode) (bs : list byte) : list byte :=
  match bs with
  | [] => []
  | b :: r =>
      match skip with
      | S skip => squeeze skip (next_mode m b) r
      | O =>
          match line_sep bs with
          | Some h => u202 h ++ squeeze 2 (next_mode m b) r
          | None => squeeze_byte m b ++ squeeze 0 (next_mode m b) r
          end
      end
  end.

Definition compact (bs : list byte) : option (list byte) :=
  match parse_json bs with Some _ => Some (squeeze 0 Outside bs) | None => None end.

Definition null : list byte := [x6e; x75; x6c; x6c].

(** A nil message, which an empty payload of a request is, is written as [null]. *)
Definition encode_raw (bs : list byte) : option (list byte) :=
  match bs with [] => Some null | _ => compact bs end.

(** ** Structs: the fields in order, each encoded *)
Fixpoint encode_members (ms : list (string * list byte)) : list byte :=
  match ms with
  | [] => []
  | (k, t) :: ms =>
      encode_string (list_byte_of_string k) ++ x3a :: t ++
      match ms with [] => [] | _ => x2c :: encode_members ms end
  end.

Definition encode_struct (ms : list (string * list byte)) : list byte :=
  x7b :: encode_members ms ++ [x7d].

(** ** Strings are read back *)

Lemma hex_digit_hex z : 0 ≤ z < 16 → hex_digit (hex z) = Some z.
Proof.
  intros Hz. assert (z = 0 ∨ z = 1 ∨ z = 2 ∨ z = 3 ∨ z = 4 ∨ z = 5 ∨ z = 6 ∨ z = 7 ∨ z = 8 ∨
    z = 9 ∨ z = 10 ∨ z = 11 ∨ z = 12 ∨ z = 13 ∨ z = 14 ∨ z = 15) as H by lia.
  by repeat destruct H as [->|H]; [..|subst].
Qed.

(** An escaped ASCII byte stands for itself. *)
Lemma u00_reads b x : Z_of_byte b < 128 → char_reads (u00 b ++ x) [b] x.
Proof.
  intros Hb. apply char_u. unfold u_escape. cbn [get_u4 app u00].
  pose proof (Z_of_byte_bound b) as Hz.
  rewrite !hex_digit_hex.
  2: split; [apply Z.div_pos; lia | apply Z.div_lt_upper_bound; lia].
  2: by apply Z.mod_pos_bound.
  cbn [mbind option_bind hex_digit].
  change (hex_digit x30) with (Some 0). cbn [mbind option_bind].
  replace (4096 * 0 + 256 * 0 + 16 * (Z_of_byte b / 16) + Z_of_byte b mod 16) with (Z_of_byte b)
    by (pose proof (Z.div_mod (Z_of_byte b) 16); lia).
  rewrite (proj2 (Z.leb_gt 55296 _)) by lia. simpl.
  unfold encode_rune. rewrite (proj2 (Z.ltb_lt _ _)) by lia. by rewrite byte_of_Z_of_byte.
Qed.

Lemma utf8_seq_ascii b r : Z_of_byte b < 128 → utf8_seq (b :: r) = Some ([b], r).
Proof. intros H. cbn [utf8_seq]. by rewrite (proj2 (Z.ltb_lt _ _)). Qed.

Lemma encode_ascii_reads b x : Z_of_byte b < 128 → char_reads (encode_ascii b ++ x) [b] x.
Proof.
  intros Hb.
  destruct (decide (b ∈ [x22; x5c; x08; x0c; x0a; x0d; x09; x3c; x3e; x26])) as [Hin|Hn].
  - rewrite !elem_of_cons in Hin.
    repeat destruct Hin as [->|Hin]; try (by apply u00_reads); try (by apply char_esc).
    by apply not_elem_of_nil in Hin.
  - assert (encode_ascii b = if Z_of_byte b <? 32 then u00 b else [b]) as ->.
    { apply (bool_decide_eq_false_2 (b ∈ _)) in Hn. destruct b; first [reflexivity | discriminate]. }
    destruct (Z.ltb_spec (Z_of_byte b) 32); [by apply u00_reads|].
    apply char_rune; [..|done|by apply utf8_seq_ascii]; intros ->; apply Hn; set_solver.
Qed.

Lemma u_escape_bmp a b c d z r :
  get_u4 (a :: b :: c :: d :: r) = Some (z, r) → z < 55296 ∨ 57344 ≤ z →
  u_escape (a :: b :: c :: d :: r) = Some (encode_rune z, r).
Proof.
  intros H Hz. unfold u_escape. rewrite H. cbn [mbind option_bind].
  destruct ((55296 <=? z) && (z <? 57344)) eqn:E; [|done]. bool_to_prop. lia.
Qed.

Lemma line_sep_Some s h :
  line_sep s = Some h →
  (h = x38 ∧ ∃ r, s = [xe2; x80; xa8] ++ r) ∨ (h = x39 ∧ ∃ r, s = [xe2; x80; xa9] ++ r).
Proof.
  unfold line_sep. pose proof (take_drop 3 s) as Hs.
  case_bool_decide as H1; [rewrite H1 in Hs; intros [= <-]; eauto|].
  case_bool_decide as H2; [rewrite H2 in Hs; intros [= <-]; eauto | done].
Qed.

Lemma u202_reads h x :
  h = x38 ∨ h = x39 → char_reads (u202 h ++ x) (if bool_decide (h = x38)
    then [xe2; x80; xa8] else [xe2; x80; xa9]) x.
Proof.
  intros Hh. apply char_u. simpl app.
  destruct Hh as [-> | ->].
  - by rewrite (u_escape_bmp _ _ _ _ 8232 x) by (reflexivity || lia).
  - by rewrite (u_escape_bmp _ _ _ _ 8233 x) by (reflexivity || lia).
Qed.

(** A sequence is escaped by its own bytes, whatever follows. *)
Lemma line_sep_seq bs s r h :
  utf8_seq bs = Some (s, r) → line_sep bs = Some h →
  s = [xe2; x80; if bool_decide (h = x38) then xa8 else xa9] ∧ (h = x38 ∨ h = x39).
Proof.
  intros H Hl. apply line_sep_Some in Hl as [[-> [q ->]]|[-> [q ->]]];
    cbn in H; simplify_eq; auto.
Qed.

Lemma line_sep_seq_None bs s r y :
  utf8_seq bs = Some (s, r) → line_sep bs = None → line_sep (s ++ y) = None.
Proof.
  intros H Hl. destruct (line_sep (s ++ y)) as [h|] eqn:E; [|done].
  pose proof (utf8_seq_swap _ _ _ y H) as H'.
  destruct (line_sep_seq _ _ _ _ H' E) as [-> Hh].
  apply utf8_seq_Some in H as [-> _]. exfalso. revert Hl.
  by destruct Hh as [-> | ->].
Qed.

Lemma encode_seq_reads b bs s r x :
  128 ≤ Z_of_byte b → utf8_seq (b :: bs) = Some (s, r) → char_reads (encode_seq s ++ x) s x.
Proof.
  intros Hb H. unfold encode_seq. destruct (line_sep s) as [h|] eqn:E.
  - pose proof (utf8_seq_swap _ _ _ [] H) as H'. rewrite app_nil_r in H'.
    destruct (line_sep_seq _ _ _ _ H' E) as [-> Hh].
    pose proof (u202_reads h x Hh) as Hu. by destruct Hh as [-> | ->].
  - pose proof (utf8_seq_swap _ _ _ x H) as Hx.
    apply utf8_seq_Some in H as [Hs Hne]. destruct s as [|c s]; [done|].
    simpl in Hs. simplify_eq. simpl app in *.
    apply char_rune; [..|lia|done]; intros ->; by vm_compute in Hb.
Qed.

Lemma bad_reads x : char_reads ([x5c; x75; x66; x66; x66; x64] ++ x) replacement x.
Proof. apply char_u. simpl app. by rewrite (u_escape_bmp _ _ _ _ 65533 x) by (reflexivity || lia). Qed.

(** What [encode_string] writes is read back, malformed bytes replaced. *)
Lemma encode_chars_reads fuel bs x :
  (length bs ≤ fuel)%nat →
  str_reads (encode_chars fuel bs ++ x22 :: x) (to_valid fuel bs) x.
Proof.
  revert bs. induction fuel as [|fuel IH]; intros bs Hf.
  { destruct bs; [|simpl in Hf; lia]. constructor. }
  destruct bs as [|b r]; [constructor|]. cbn [encode_chars to_valid].
  destruct (Z.ltb_spec (Z_of_byte b) 128) as [Hb|Hb].
  - rewrite utf8_seq_ascii by done. rewrite <- app_assoc.
    eapply str_char; [by apply encode_ascii_reads|]. apply IH. simpl in Hf. lia.
  - destruct (utf8_seq (b :: r)) as [[s r']|] eqn:E; rewrite <- app_assoc.
    + eapply str_char; [by eapply encode_seq_reads|]. apply IH.
      apply utf8_seq_Some in E as [E Hne]. apply (f_equal length) in E.
      rewrite length_app in E. destruct s; simpl in *; [done | lia].
    + eapply str_char; [apply bad_reads|]. apply IH. simpl in Hf. lia.
Qed.

Lemma encode_string_reads bs x :
  ∃ q, encode_string bs ++ x = x22 :: q ∧ str_reads q (to_valid (length bs) bs) x.
Proof.
  exists (encode_chars (length bs) bs ++ x22 :: x). split.
  - unfold encode_string. simpl. by rewrite <- app_assoc.
  - by apply encode_chars_reads.
Qed.

(** ** Integers are read back *)

Lemma digits_head fuel z : 1 ≤ z < 10 ^ Z.of_nat fuel → head (digits fuel z) ≠ Some x30.
Proof.
  revert z. induction fuel as [|fuel IH]; intros z Hz; [done|].
  rewrite Nat2Z.inj_succ, Z.pow_succ_r in Hz by lia. cbn [digits].
  destruct (Z.ltb_spec z 10).
  - cbn [head]. intros [= Hd]. apply (f_equal Z_of_byte) in Hd.
    unfold digit in Hd. rewrite Z_of_byte_of_Z, Z.mod_small in Hd by lia.
    change (Z_of_byte x30) with 48 in Hd. lia.
  - assert (1 ≤ z / 10 < 10 ^ Z.of_nat fuel) as Hq.
    { split; [apply Z.div_le_lower_bound; lia | apply Z.div_lt_upper_bound; lia]. }
    specialize (IH _ Hq). by destruct (digits fuel (z / 10)) eqn:E;
      [destruct fuel; [simpl in Hq; lia | by apply digits_not_nil in E]|].
Qed.

Lemma digits_int z : 0 ≤ z < 10 ^ 20 → is_int (digits 20 z).
Proof.
  intros Hz. destruct (decide (z = 0)) as [->|]; [constructor|].
  apply int_digits; [|by apply digits_head; simpl; lia].
  split; [apply digits_bound; lia | by apply digits_not_nil].
Qed.

Lemma sprint_int_number z : int64_ok z → is_number (sprint_int z).
Proof.
  unfold int64_ok, sprint_int. intros Hz. destruct (Z.ltb_spec z 0).
  - pose proof (number [x2d] _ [] [] (or_intror eq_refl) (digits_int (- z) ltac:(lia))
      frac_none exp_none) as H'. by rewrite !app_nil_r in H'.
  - pose proof (number [] _ [] [] (or_introl eq_refl) (digits_int z ltac:(lia))
      frac_none exp_none) as H'. by rewrite !app_nil_r in H'.
Qed.

Lemma digits_forallb z : 0 ≤ z → forallb is_digit (digits 20 z) = true.
Proof. intros Hz. apply forallb_forall. by apply List.Forall_forall, digits_bound. Qed.

Lemma parse_int64_digits z :
  0 ≤ z → parse_int64 (digits 20 z) =
    if bool_decide (int64_ok (decimal (digits 20 z))) then Some (decimal (digits 20 z)) else None.
Proof.
  intros Hz. pose proof (digits_forallb z Hz) as Hall. unfold parse_int64.
  destruct (digits 20 z) as [|b ds] eqn:E; [by apply digits_not_nil in E|].
  assert (is_digit b = true) by (by apply andb_true_iff in Hall as [? _]).
  destruct (decide (b = x2d)) as [->|]; [done|].
  destruct b; try done; by rewrite Hall.
Qed.

Lemma parse_int64_sprint z : int64_ok z → parse_int64 (sprint_int z) = Some z.
Proof.
  intros Hz. unfold sprint_int. pose proof Hz as [Hlo Hhi]. destruct (Z.ltb_spec z 0).
  - unfold parse_int64. rewrite digits_forallb by lia.
    change decimal with decimal_value. rewrite decimal_value_digits by (simpl; lia).
    rewrite Z.opp_involutive. by rewrite bool_decide_true.
  - rewrite parse_int64_digits by lia.
    change decimal with decimal_value. rewrite decimal_value_digits by (simpl; lia).
    by rewrite bool_decide_true.
Qed.
