(* ===== verification/JsonCompact.v ===== *)
(** * Compacting keeps the value

    [compact] drops white space and escapes some characters of a text; the result
    is read as the same value, up to the raw texts that objects keep of their
    members. *)

From Stdlib Require Import Strings.Byte.
From S2P Require Import Prelude.
From S2P Require Import Bytes.
From S2P Require Import Json.
From S2P Require Import JsonTheory.
From S2P Require Import Fs.
From S2P Require Import JsonEncode.

(** A value without the raw texts. *)
Fixpoint erase (v : json) : json :=
  match v with
  | JArray vs => JArray (map erase vs)
  | JObject ms => JObject (map (λ '(k, _, w), (k, [], erase w)) ms)
  | _ => v
  end.

(** ** Bytes that are copied *)

Definition special (b : byte) : bool := bool_decide (b ∈ [x3c; x3e; x26; xe2; x5c; x22]).

Lemma line_sep_head b r : b ≠ xe2 → line_sep (b :: r) = None.
Proof.
  intros Hb. unfold line_sep. rewrite !bool_decide_false; [done|..]; simpl; congruence.
Qed.

Lemma special_false b :
  special b = false →
  b ≠ xe2 ∧ next_mode Inside b = Inside ∧ next_mode Outside b = Outside ∧
  squeeze_byte Inside b = [b] ∧ squeeze_byte Outside b = if is_ws b then [] else [b].
Proof. destruct b; try done; intros _; split_and!; (reflexivity || congruence). Qed.

Lemma squeeze_inside p r :
  Forall (λ b, special b = false) p → squeeze 0 Inside (p ++ r) = p ++ squeeze 0 Inside r.
Proof.
  induction 1 as [|b p Hb _ IH]; [done|].
  apply special_false in Hb as (Hb & Hn & _ & Hs & _). cbn [app squeeze].
  by rewrite (line_sep_head _ _ Hb), Hn, Hs, IH.
Qed.

Lemma squeeze_outside p r :
  Forall (λ b, special b || is_ws b = false) p →
  squeeze 0 Outside (p ++ r) = p ++ squeeze 0 Outside r.
Proof.
  induction 1 as [|b p Hb _ IH]; [done|]. apply orb_false_iff in Hb as [Hb Hw].
  apply special_false in Hb as (Hb & _ & Hn & _ & Hs). cbn [app squeeze].
  by rewrite (line_sep_head _ _ Hb), Hn, Hs, Hw, IH.
Qed.

Lemma squeeze_skip bs : squeeze 0 Outside bs = squeeze 0 Outside (skip_ws bs).
Proof.
  induction bs as [|b bs IH]; [done|]. cbn [skip_ws]. destruct (is_ws b) eqn:E; [|done].
  rewrite <- IH. destruct b; try done; reflexivity.
Qed.

(** An escape of two characters. *)
Lemma squeeze_escape c r :
  special c = false ∨ c = x22 ∨ c = x5c →
  squeeze 0 Inside (x5c :: c :: r) = x5c :: c :: squeeze 0 Inside r.
Proof.
  intros Hc. cbn [squeeze]. rewrite line_sep_head by done. cbn [next_mode squeeze_byte].
  rewrite !bool_decide_true by done. simpl app.
  destruct Hc as [Hc|[-> | ->]]; [|done..].
  apply special_false in Hc as (Hb & _ & _ & Hs & _). rewrite line_sep_head by done.
  f_equal. change (squeeze_byte Escaped c) with (squeeze_byte Inside c). by rewrite Hs.
Qed.

(** ** What a character looks at beyond itself *)

(** A text that goes on with the escape of a low surrogate. *)
Definition low_next (bs : list byte) : bool :=
  match bs with
  | a :: b :: q =>
      bool_decide (a = x5c) && bool_decide (b = x75) &&
      match get_u4 q with Some (z, _) => (56320 <=? z) && (z <? 57344) | None => false end
  | _ => false
  end.

Definition alike (bs bs' : list byte) : Prop :=
  (span is_cont bs).1 = (span is_cont bs').1 ∧ low_next bs = low_next bs'.

Lemma alike_head b r r' :
  is_cont b = false → b ≠ x5c → alike (b :: r) (b :: r').
Proof.
  intros Hb Hne. split; simpl; [by rewrite Hb|].
  by destruct r, r'; rewrite ?(bool_decide_false _ Hne).
Qed.

Lemma alike_plain b r q :
  is_cont b = false → b ≠ x5c → low_next (x5c :: q) = false → alike (b :: r) (x5c :: q).
Proof.
  intros Hb Hne Hq. split; simpl; [by rewrite Hb|].
  change (low_next (b :: r) = low_next (x5c :: q)). rewrite Hq. simpl.
  by destruct r; rewrite ?(bool_decide_false _ Hne).
Qed.

Lemma alike_cont b r r' : b ≠ x5c → alike r r' → alike (b :: r) (b :: r').
Proof.
  intros Hb [Hs _]. split; simpl.
  - destruct (is_cont b); [|done]. destruct (span is_cont r), (span is_cont r').
    simpl in *. by subst.
  - by destruct r, r'; rewrite ?(bool_decide_false _ Hb).
Qed.

Lemma between_cont lo hi b : between lo hi b = true → 128 ≤ lo → hi ≤ 191 → is_cont b = true.
Proof.
  unfold is_cont, between. intros. bool_to_prop.
  apply andb_true_iff. split; apply Z.leb_le; lia.
Qed.

Lemma utf8_seq_conts b r s q :
  utf8_seq (b :: r) = Some (s, q) → ∃ cs, s = b :: cs ∧ Forall (λ c, is_cont c = true) cs.
Proof.
  cbn [utf8_seq].
  repeat (case_match; simplify_eq/=; try done); intros [= <- <-]; eexists; (split; [reflexivity|]);
    repeat match goal with H : _ && _ = true |- _ => apply andb_true_iff in H as [? ?] end;
    repeat constructor; try done; by (eapply between_cont; [done | lia..]).
Qed.

Lemma span_conts cs q :
  Forall (λ c, is_cont c = true) cs → (span is_cont (cs ++ q)).1 = cs ++ (span is_cont q).1.
Proof.
  induction 1 as [|c cs Hc _ IH]; [done|]. simpl. rewrite Hc.
  destruct (span is_cont (cs ++ q)). simpl in *. by rewrite IH.
Qed.

(** A malformed sequence is recognised by the continuation bytes that follow. *)
Lemma utf8_seq_None_alike b r r' :
  (span is_cont r).1 = (span is_cont r').1 → utf8_seq (b :: r) = None → utf8_seq (b :: r') = None.
Proof.
  intros Hs H. destruct (utf8_seq (b :: r')) as [[s q]|] eqn:E; [|done].
  destruct (utf8_seq_conts _ _ _ _ E) as (cs & -> & Hcs).
  pose proof (utf8_seq_Some _ _ _ E) as [Hr' _]. injection Hr' as ->.
  rewrite span_conts in Hs by done.
  pose proof (span_app is_cont r) as Hr. destruct (span is_cont r) as [xs q'].
  simpl in Hs. subst. rewrite <- app_assoc in H.
  apply (utf8_seq_swap _ _ _ ((span is_cont q).1 ++ q')) in E. rewrite <- app_comm_cons in E. congruence.
Qed.

(** ** Characters *)

Lemma hex_digit_plain b z : hex_digit b = Some z → special b = false.
Proof. by destruct b. Qed.

Lemma get_u4_plain bs z r :
  get_u4 bs = Some (z, r) →
  ∃ p, bs = p ++ r ∧ Forall (λ b, special b = false) p ∧ ∀ y, get_u4 (p ++ y) = Some (z, y).
Proof.
  intros H. destruct (get_u4_Some _ _ _ H) as (a & b & c & d & ->). exists [a; b; c; d].
  simpl in *.
  destruct (hex_digit a) eqn:Ha, (hex_digit b) eqn:Hb, (hex_digit c) eqn:Hc,
    (hex_digit d) eqn:Hd; try done.
  simpl in *. simplify_eq. split_and!; [done| |done]. by repeat constructor; eapply hex_digit_plain.
Qed.

Lemma low_next_Some bs :
  low_next bs = true →
  ∃ q z r, bs = x5c :: x75 :: q ∧ get_u4 q = Some (z, r) ∧ 56320 ≤ z < 57344.
Proof.
  destruct bs as [|a [|b q]]; try done. simpl.
  intros [[->%bool_decide_eq_true ->%bool_decide_eq_true]%andb_true_iff H]%andb_true_iff.
  destruct (get_u4 q) as [[z r]|] eqn:E; [|done]. bool_to_prop.
  by exists q, z, r.
Qed.

(** A surrogate looks at what follows only through [low_next]. *)
Lemma u_escape_surrogate bs z r :
  get_u4 bs = Some (z, r) → 55296 ≤ z < 57344 → (z <? 56320) && low_next r = false →
  u_escape bs = Some (replacement, r).
Proof.
  intros H Hz Hn. unfold u_escape. rewrite H. cbn [mbind option_bind].
  rewrite (proj2 (Z.leb_le _ _)), (proj2 (Z.ltb_lt _ 57344)) by lia. simpl.
  destruct r as [|a [|b q]]; [done|by destruct a|].
  destruct (decide (a = x5c)) as [->|]; [|by destruct a].
  destruct (decide (b = x75)) as [->|]; [|by destruct b].
  simpl in Hn. destruct (get_u4 q) as [[z' q']|]; [|done]. rewrite andb_assoc in Hn.
  by rewrite Hn.
Qed.

Lemma u_escape_pair bs z q z' r :
  get_u4 bs = Some (z, x5c :: x75 :: q) → 55296 ≤ z < 56320 →
  get_u4 q = Some (z', r) → 56320 ≤ z' < 57344 →
  u_escape bs = Some (encode_rune (65536 + (z - 55296) * 1024 + (z' - 56320)), r).
Proof.
  intros H Hz H' Hz'. unfold u_escape. rewrite H. cbn [mbind option_bind].
  rewrite (proj2 (Z.leb_le _ _)), (proj2 (Z.ltb_lt _ 57344)) by lia. simpl. rewrite H'.
  by rewrite (proj2 (Z.ltb_lt _ _)), (proj2 (Z.leb_le _ _)), (proj2 (Z.ltb_lt _ _)) by lia.
Qed.

(** The four digits of an escape, and the second half of a surrogate pair. *)
Lemma u_escape_compact bs s r :
  u_escape bs = Some (s, r) →
  ∃ p, bs = p ++ r ∧ (∀ q, squeeze 0 Inside (p ++ q) = p ++ squeeze 0 Inside q) ∧
    (∀ y, low_next y = low_next r → u_escape (p ++ y) = Some (s, y)) ∧
    (∀ y, low_next (x5c :: x75 :: p ++ y) = low_next (x5c :: x75 :: bs)).
Proof.
  intros H. destruct (get_u4 bs) as [[z q]|] eqn:E; [|by unfold u_escape in H; rewrite E in H].
  destruct (get_u4_plain _ _ _ E) as (p & -> & Hp & Hu).
  assert (Hlow : ∀ y y', low_next (x5c :: x75 :: p ++ y) = low_next (x5c :: x75 :: p ++ y')).
  { intros y y'. simpl. by rewrite !Hu. }
  destruct (decide (55296 ≤ z < 57344)) as [Hz|Hz].
  2:{ assert (Hall : ∀ y, u_escape (p ++ y) = Some (encode_rune z, y)).
      { intros y. unfold u_escape. rewrite Hu. cbn [mbind option_bind].
        destruct (_ && _) eqn:Eb; [|done]. bool_to_prop. lia. }
      rewrite Hall in H. simplify_eq. exists p. split_and!; auto.
      intros q. by apply squeeze_inside. }
  destruct ((z <? 56320) && low_next q) eqn:Ep.
  - apply andb_true_iff in Ep as [Hz' Hl]. bool_to_prop.
    apply low_next_Some in Hl as (q1 & z' & r' & -> & Hq & Hz2).
    destruct (get_u4_plain _ _ _ Hq) as (p' & -> & Hp' & Hu').
    assert (Hall : ∀ y, u_escape (p ++ x5c :: x75 :: p' ++ y) =
      Some (encode_rune (65536 + (z - 55296) * 1024 + (z' - 56320)), y)).
    { intros y. eapply u_escape_pair; [apply Hu | lia | apply Hu' | done]. }
    rewrite Hall in H. simplify_eq. exists (p ++ x5c :: x75 :: p').
    assert (Ha : ∀ y, (p ++ x5c :: x75 :: p') ++ y = p ++ x5c :: x75 :: p' ++ y)
      by (intros; by rewrite <- app_assoc).
    split_and!; [by rewrite Ha| |by intros; rewrite Ha|intros; rewrite Ha; apply Hlow].
    intros y. rewrite !Ha, squeeze_inside, squeeze_escape, squeeze_inside by auto. done.
  - rewrite (u_escape_surrogate _ _ _ E Hz Ep) in H. simplify_eq. exists p.
    split_and!; [done|intros; by apply squeeze_inside| |auto].
    intros y Hy. eapply u_escape_surrogate; [apply Hu | done | by rewrite Hy].
Qed.

Lemma high_plain b : 128 ≤ Z_of_byte b → b ≠ xe2 → special b = false.
Proof. intros Hb. destruct b; try (by vm_compute in Hb); done. Qed.

Lemma cont_plain cs : Forall (λ c, is_cont c = true) cs → Forall (λ b, special b = false) cs.
Proof. intros H. eapply Forall_impl; [done|]. by intros []. Qed.

Lemma high_byte b r :
  128 ≤ Z_of_byte b → line_sep (b :: r) = None →
  squeeze 0 Inside (b :: r) = b :: squeeze 0 Inside r.
Proof. intros Hb Hl. cbn [squeeze]. rewrite Hl. destruct b; try (by vm_compute in Hb); done. Qed.

Lemma lead_byte b r s q :
  128 ≤ Z_of_byte b → utf8_seq (b :: r) = Some (s, q) → is_cont b = false ∧ b ≠ x5c.
Proof.
  intros Hb H. split; [|by intros ->; vm_compute in Hb].
  cbn [utf8_seq] in H. rewrite (proj2 (Z.ltb_ge _ _)) in H by lia.
  destruct (is_cont b) eqn:E; [|done]. exfalso. revert H.
  unfold is_cont, between in *. bool_to_prop.
  rewrite (proj2 (Z.leb_gt 194 _)), (proj2 (Z.leb_gt 224 _)), (proj2 (Z.leb_gt 240 _)) by lia.
  done.
Qed.

(** A single ASCII character. *)
Lemma ascii_compact b r :
  b ≠ x22 → b ≠ x5c → 32 ≤ Z_of_byte b < 128 →
  ∃ t, squeeze 0 Inside (b :: r) = t ++ squeeze 0 Inside r ∧
    ∀ y, char_reads (t ++ y) [b] y ∧ alike (b :: r) (t ++ y).
Proof.
  intros Hq Hb Hz. assert (is_cont b = false) as Hc.
  { unfold is_cont, between. by rewrite (proj2 (Z.leb_gt 128 _)) by lia. }
  destruct (decide (b ∈ [x3c; x3e; x26])) as [Hin|Hin].
  - exists (u00 b). split.
    + cbn [squeeze]. rewrite line_sep_head by (intros ->; set_solver).
      rewrite !elem_of_cons in Hin. repeat destruct Hin as [->|Hin];
        [done..|by apply not_elem_of_nil in Hin].
    + intros y. split; [by apply u00_reads; lia|]. apply alike_plain; [done..|].
      rewrite !elem_of_cons in Hin. repeat destruct Hin as [->|Hin];
        [done..|by apply not_elem_of_nil in Hin].
  - exists [b]. assert (special b = false) as Hs.
    { assert (b ≠ xe2) by (intros ->; destruct Hz as [_ Hz]; by vm_compute in Hz).
      apply bool_decide_eq_false_2. set_solver. }
    split; [by apply (squeeze_inside [b] r); constructor|].
    intros y. split; [|by apply alike_head].
    apply char_rune; [done..|lia|by apply utf8_seq_ascii; lia].
Qed.

Lemma char_compact bs s r :
  char_reads bs s r →
  ∃ t, squeeze 0 Inside bs = t ++ squeeze 0 Inside r ∧
    ∀ y, alike r y → char_reads (t ++ y) s y ∧ alike bs (t ++ y).
Proof.
  intros [c e r' He|q s' r' Hu|b q s' r' Hq Hb Hz Hs|b q Hq Hb Hz Hs].
  - exists [x5c; c]. split.
    + apply squeeze_escape. by destruct c; auto.
    + intros y _. split; [by apply char_esc|]. split; [done|]. by destruct c.
  - destruct (u_escape_compact _ _ _ Hu) as (p & -> & Hsq & Hy & Hl).
    exists (x5c :: x75 :: p). split.
    + rewrite squeeze_escape by auto. by rewrite Hsq.
    + intros y [_ Hlow]. split; [apply char_u; auto|]. split; [done|]. symmetry. apply Hl.
  - destruct (Z.ltb_spec (Z_of_byte b) 128) as [Hlt|Hge].
    { rewrite utf8_seq_ascii in Hs by done. simplify_eq.
      destruct (ascii_compact b r' Hq Hb ltac:(lia)) as (t & ? & Ht). eauto. }
    destruct (lead_byte _ _ _ _ Hge Hs) as [Hc _].
    destruct (line_sep (b :: q)) as [h|] eqn:El.
    + destruct (line_sep_seq _ _ _ _ Hs El) as [-> Hh].
      apply utf8_seq_Some in Hs as [[= -> ->] _].
      exists (u202 h). split; [by destruct Hh as [-> | ->]|].
      intros y _. pose proof (u202_reads h y Hh) as Hr.
      by destruct Hh as [-> | ->]; (split; [exact Hr | by apply alike_plain]).
    + destruct (utf8_seq_conts _ _ _ _ Hs) as (cs & -> & Hcs).
      pose proof (utf8_seq_Some _ _ _ Hs) as [[= ->] _].
      exists (b :: cs). split.
      * rewrite high_byte by done. by rewrite squeeze_inside by by apply cont_plain.
      * intros y _. split; [|by apply alike_head].
        apply char_rune; [done..|]. by apply (utf8_seq_swap _ _ _ y) in Hs.
  - assert (128 ≤ Z_of_byte b) as Hge.
    { destruct (Z.ltb_spec (Z_of_byte b) 128); [|done]. by rewrite utf8_seq_ascii in Hs. }
    exists [b]. split.
    + apply high_byte; [done|]. destruct (line_sep (b :: q)) as [h|] eqn:El; [|done].
      by apply line_sep_Some in El as [[-> [? [= -> ->]]]|[-> [? [= -> ->]]]].
    + intros y Hy. split; [|by apply alike_cont].
      apply char_bad; [done..|]. eapply utf8_seq_None_alike; [apply Hy | done].
Qed.

Lemma str_compact bs s r :
  str_reads bs s r →
  ∃ t, squeeze 0 Inside bs = t ++ squeeze 0 Outside r ∧
    ∀ x, str_reads (t ++ x) s x ∧ alike bs (t ++ x).
Proof.
  induction 1 as [r|bs s bs' t r Hc _ (t2 & Ht2 & IH)].
  - exists [x22]. split; [done|]. intros x. split; [apply str_end | by apply alike_head].
  - destruct (char_compact _ _ _ Hc) as (t1 & Ht1 & Hr). exists (t1 ++ t2). split.
    + by rewrite Ht1, Ht2, app_assoc.
    + intros x. destruct (IH x) as [IH1 IH2]. destruct (Hr _ IH2) as [Hc' ?].
      rewrite <- app_assoc. split; [by eapply str_char | done].
Qed.

(** ** Values *)

Lemma word_plain w v : word w v → Forall (λ b, special b || is_ws b = false) w.
Proof. intros []; repeat constructor. Qed.

Lemma all_digits_plain ds : all_digits ds → Forall (λ b, special b || is_ws b = false) ds.
Proof. intros [H _]. eapply Forall_impl; [done|]. by intros []. Qed.

Lemma number_plain n : is_number n → Forall (λ b, special b || is_ws b = false) n.
Proof.
  intros [sg ds fs es Hsg Hds Hfs Hes]. rewrite !Forall_app. split_and!.
  - destruct Hsg as [-> | ->]; repeat constructor.
  - destruct Hds as [|ds' Hd _]; [repeat constructor | by apply all_digits_plain].
  - destruct Hfs as [|ds' Hd]; constructor; [done | by apply all_digits_plain].
  - destruct Hes as [|e sg' ds' He Hsg' Hd]; constructor; [by destruct He as [-> | ->]|].
    apply Forall_app. split; [|by apply all_digits_plain].
    destruct Hsg' as [-> | [-> | ->]]; repeat constructor.
Qed.

Definition starts_solid (bs : list byte) : Prop := skip_ws bs = bs.

(** [t] is a compact text of a value with the same contents as [v]. *)
Definition compacts (d : nat) (v : json) (t : list byte) : Prop :=
  ∃ v', erase v' = erase v ∧
    ∀ x, num_stop x → reads d (t ++ x) v' x ∧ starts_solid (t ++ x).
Definition compacts_elems (d : nat) (vs : list json) (t : list byte) : Prop :=
  ∃ vs', map erase vs' = map erase vs ∧ ∀ x, elems_read d (t ++ x) vs' x.
Definition erase_member (m : list byte * list byte * json) : list byte * list byte * json :=
  let '(k, _, v) := m in (k, [], erase v).
Definition compacts_members (d : nat) (ms : list (list byte * list byte * json))
    (t : list byte) : Prop :=
  ∃ ms', map erase_member ms' = map erase_member ms ∧ ∀ x, members_read d (t ++ x) ms' x.
Definition compacts_member (d : nat) (m : list byte * list byte * json) (t : list byte) : Prop :=
  ∃ m', erase_member m' = erase_member m ∧
    ∀ x, num_stop x → member_reads d (t ++ x) m' x.

(** One byte of punctuation. *)
Lemma squeeze_punct b bs q :
  special b || is_ws b = false → skip_ws bs = b :: q →
  squeeze 0 Outside bs = b :: squeeze 0 Outside q.
Proof.
  intros Hb Hs. rewrite squeeze_skip, Hs. by apply (squeeze_outside [b] q); constructor.
Qed.

Lemma squeeze_quote bs q :
  skip_ws bs = x22 :: q → squeeze 0 Outside bs = x22 :: squeeze 0 Inside q.
Proof. intros Hs. rewrite squeeze_skip, Hs. done. Qed.

(** The raw text of a member whose value is [t]. *)
Lemma mem_text d bs q k q1 q2 t v x :
  skip_ws bs = x22 :: q → str_reads q k q1 → skip_ws q1 = x3a :: q2 → skip_ws q2 = t ++ x →
  reads d (t ++ x) v x → member_reads d bs (k, t, v) x.
Proof.
  intros Hs Hk Hc Ht Hv.
  assert (t = take (length (skip_ws q2) - length x) (skip_ws q2)) as Htake.
  { rewrite Ht, length_app, Nat.add_sub. by rewrite take_app_length. }
  rewrite Htake. eapply mem; [done..|]. by rewrite Ht.
Qed.

Lemma reads_compact :
  (∀ d bs v r, reads d bs v r →
     ∃ t, squeeze 0 Outside bs = t ++ squeeze 0 Outside r ∧ compacts d v t) ∧
  (∀ d bs vs r, elems_read d bs vs r →
     ∃ t, squeeze 0 Outside bs = t ++ squeeze 0 Outside r ∧ compacts_elems d vs t) ∧
  (∀ d bs ms r, members_read d bs ms r →
     ∃ t, squeeze 0 Outside bs = t ++ squeeze 0 Outside r ∧ compacts_members d ms t) ∧
  (∀ d bs m r, member_reads d bs m r →
     ∃ t, squeeze 0 Outside bs = t ++ squeeze 0 Outside r ∧ compacts_member d m t).
Proof.
  apply reads_mutind.
  - intros d bs w v r Hw Hs. exists w. split.
    + rewrite squeeze_skip, Hs. apply squeeze_outside. by eapply word_plain.
    + exists v. split; [done|]. intros x _. split; [|by destruct Hw].
      eapply rd_word; [done|]. by destruct Hw.
  - intros d bs q s r Hs Hstr. destruct (str_compact _ _ _ Hstr) as (t & Ht & Hx).
    exists (x22 :: t). split; [by rewrite (squeeze_quote _ _ Hs), Ht|].
    exists (JString s). split; [done|]. intros x _. split; [|done].
    eapply rd_string; [done | apply Hx].
  - intros d bs c q n r Hs Hc Hn. apply scan_number_sound in Hn as [Hn Hnum].
    exists n. split.
    + rewrite squeeze_skip, Hs, Hn. by apply squeeze_outside, number_plain.
    + exists (JNumber n). split; [done|]. intros x Hx.
      destruct (number_head n x Hnum) as (c' & q' & Hq & Hc').
      assert (skip_ws (n ++ x) = n ++ x) as Hsk by (rewrite Hq; by destruct c').
      split; [|done]. eapply rd_number; [by rewrite Hsk|done|].
      rewrite <- Hq. by apply scan_number_complete.
  - intros d bs q r Hs Hq. exists [x5b; x5d]. split.
    + by rewrite (squeeze_punct x5b _ _ eq_refl Hs), (squeeze_punct x5d _ _ eq_refl Hq).
    + exists (JArray []). split; [done|]. intros x _. split; [|done]. by eapply rd_array_nil.
  - intros d bs q vs r Hs _ (t & Ht & vs' & He & Hx). exists (x5b :: t). split.
    + by rewrite (squeeze_punct x5b _ _ eq_refl Hs), Ht.
    + exists (JArray vs'). split; [simpl; by rewrite He|]. intros x _. split; [|done].
      by eapply rd_array.
  - intros d bs q r Hs Hq. exists [x7b; x7d]. split.
    + by rewrite (squeeze_punct x7b _ _ eq_refl Hs), (squeeze_punct x7d _ _ eq_refl Hq).
    + exists (JObject []). split; [done|]. intros x _. split; [|done]. by eapply rd_object_nil.
  - intros d bs q ms r Hs _ (t & Ht & ms' & He & Hx). exists (x7b :: t). split.
    + by rewrite (squeeze_punct x7b _ _ eq_refl Hs), Ht.
    + exists (JObject ms'). split; [simpl; f_equal; exact He|]. intros x _. split; [|done].
      by eapply rd_object.
  - intros d bs v r r' _ (t & Ht & v' & He & Hx) Hs. exists (t ++ [x5d]). split.
    + by rewrite Ht, (squeeze_punct x5d _ _ eq_refl Hs), <- app_assoc.
    + exists [v']. split; [simpl; by rewrite He|]. intros x. rewrite <- app_assoc.
      eapply el_last; [by apply Hx | done].
  - intros d bs v r r' vs r'' _ (t & Ht & v' & He & Hx) Hs _ (t2 & Ht2 & vs' & He2 & Hx2).
    exists (t ++ x2c :: t2). split.
    + by rewrite Ht, (squeeze_punct x2c _ _ eq_refl Hs), Ht2, <- app_assoc.
    + exists (v' :: vs'). split; [simpl; by rewrite He, He2|]. intros x. rewrite <- app_assoc.
      eapply el_more; [by apply Hx | done | apply Hx2].
  - intros d bs m r r' _ (t & Ht & m' & He & Hx) Hs. exists (t ++ [x7d]). split.
    + by rewrite Ht, (squeeze_punct x7d _ _ eq_refl Hs), <- app_assoc.
    + exists [m']. split; [simpl; by rewrite He|]. intros x. rewrite <- app_assoc.
      eapply mem_last; [by apply Hx | done].
  - intros d bs m r r' ms r'' _ (t & Ht & m' & He & Hx) Hs _ (t2 & Ht2 & ms' & He2 & Hx2).
    exists (t ++ x2c :: t2). split.
    + by rewrite Ht, (squeeze_punct x2c _ _ eq_refl Hs), Ht2, <- app_assoc.
    + exists (m' :: ms'). split; [simpl; by rewrite He, He2|]. intros x. rewrite <- app_assoc.
      eapply mem_more; [by apply Hx | done | apply Hx2].
  - intros d bs q k q1 q2 v r Hs Hk Hc _ (t & Ht & v' & He & Hx).
    destruct (str_compact _ _ _ Hk) as (tk & Htk & Hkx). exists (x22 :: tk ++ x3a :: t). split.
    + rewrite (squeeze_quote _ _ Hs), Htk, (squeeze_punct x3a _ _ eq_refl Hc).
      rewrite squeeze_skip, Ht. simpl. by rewrite <- app_assoc.
    + exists (k, t, v'). split; [simpl; by rewrite He|]. intros x Hstop.
      destruct (Hx x Hstop) as [Hr Hsolid]. simpl. rewrite <- app_assoc.
      eapply mem_text; [reflexivity | apply Hkx | reflexivity | exact Hsolid | exact Hr].
Qed.

(** Compacting a text gives one that reads as the same value, also as a part of a
    larger one, and that starts with the value. *)
Lemma compact_reads d p v r :
  reads d p v r → skip_ws r = [] → compacts d v (squeeze 0 Outside p).
Proof.
  intros H Hr. destruct (proj1 reads_compact _ _ _ _ H) as (t & Ht & Hc).
  rewrite Ht, squeeze_skip, Hr. simpl. by rewrite app_nil_r.
Qed.
