(* ===== verification/Payloads.v ===== *)
(** * Payloads on the wire

    [json.Marshal] of the payloads of [internal/models], and what
    [json.Unmarshal] makes of the result. *)

From Stdlib Require Import Strings.Byte Strings.String.
From S2P Require Import Prelude.
From S2P Require Import Bytes.
From S2P Require Import Json.
From S2P Require Import JsonTheory.
From S2P Require Import Models.
From S2P Require Import Fs.
From S2P Require Import JsonEncode.
From S2P Require Import JsonCompact.

Definition encode_text (s : string) : list byte := encode_string (list_byte_of_string s).

(** [json.Marshal] of a [models.JobPayload]; [None] for a payload that is not JSON. *)
Definition marshal_job (j : JobPayload) : option (list byte) :=
  payload ← encode_raw (jp_Payload j);
  Some (encode_struct
    [("id"%string, encode_text (jp_ID j)); ("state"%string, sprint_int (jp_State j));
     ("image"%string, encode_text (jp_Image j)); ("priority"%string, sprint_int (jp_Priority j));
     ("cpu_requirement"%string, sprint_int (jp_CPURequirement j));
     ("memory_requirement"%string, sprint_int (jp_MemoryRequirement j));
     ("payload"%string, payload)]).

(** [json.Marshal] of a [models.SchedulerPayload], which cannot fail. *)
Definition marshal_scheduler (p : SchedulerPayload) : list byte :=
  encode_struct
    [("id"%string, encode_text (sp_ID p)); ("scheduler"%string, encode_text (sp_OriginSchedulerID p));
     ("entry"%string, encode_text (sp_Entry p)); ("timestamp"%string, sprint_int (sp_Timestamp p))].

(** ** Reading a struct back *)

(** A field whose encoded text holds a value. *)
Definition field : Type := string * list byte * json.
Definition field_ok (d : nat) (m : field) : Prop :=
  valid_utf8 (list_byte_of_string m.1.1) ∧
  ∀ x, num_stop x → reads d (m.1.2 ++ x) m.2 x ∧ starts_solid (m.1.2 ++ x).
Definition read_field (m : field) : list byte * list byte * json :=
  (list_byte_of_string m.1.1, m.1.2, m.2).

Lemma field_reads d m x :
  field_ok d m → num_stop x →
  member_reads d (encode_text m.1.1 ++ x3a :: m.1.2 ++ x) (read_field m) x.
Proof.
  destruct m as [[k t] v]. intros [Hk Hv] Hx. cbn [fst snd] in *. destruct (Hv x Hx) as [Hr Hs].
  destruct (encode_string_reads (list_byte_of_string k) (x3a :: t ++ x)) as (q & Hq & Hstr).
  rewrite Hk in Hstr. unfold encode_text. rewrite Hq.
  by eapply mem_text; [reflexivity | exact Hstr | reflexivity | exact Hs | ].
Qed.

Lemma encode_members_read d ms x :
  Forall (field_ok d) ms → ms ≠ [] →
  members_read d (encode_members (fst <$> ms) ++ x7d :: x) (read_field <$> ms) x.
Proof.
  induction 1 as [|[[k t] v] ms Hm Hms IH]; [done|]. intros _.
  destruct ms as [|m ms].
  - cbn [fmap list_fmap encode_members fst]. rewrite app_nil_r, <- app_assoc.
    eapply mem_last; [by apply (field_reads d (k, t, v) (x7d :: x) Hm) | done].
  - specialize (IH ltac:(done)). destruct m as [[k' t'] v'].
    cbn [fmap list_fmap fst] in *.
    change (encode_members ((k, t) :: (k', t') :: (fst <$> ms))) with
      (encode_text k ++ x3a :: t ++ x2c :: encode_members ((k', t') :: (fst <$> ms))).
    rewrite <- app_assoc, <- app_comm_cons, <- app_assoc, <- app_comm_cons.
    eapply mem_more; [by apply (field_reads d (k, t, v) (x2c :: _) Hm) | done | exact IH].
Qed.

Lemma encode_struct_parses ms :
  Forall (field_ok (pred maxNestingDepth)) ms → ms ≠ [] →
  parse_json (encode_struct (fst <$> ms)) = Some (JObject (read_field <$> ms)).
Proof.
  intros Hms Hne. apply parse_json_reads. exists []. split; [|done].
  replace maxNestingDepth with (S (pred maxNestingDepth)) by (by vm_compute).
  eapply rd_object; [reflexivity|]. by apply encode_members_read.
Qed.

Lemma text_field_ok d k s :
  valid_utf8 (list_byte_of_string k) → valid_utf8 (list_byte_of_string s) →
  field_ok d (k, encode_text s, JString (list_byte_of_string s)).
Proof.
  intros Hk Hs. split; [done|]. intros x _. cbn [fst snd].
  destruct (encode_string_reads (list_byte_of_string s) x) as (q & Hq & Hstr).
  rewrite Hs in Hstr. unfold encode_text. rewrite Hq. split; [|done].
  by eapply rd_string.
Qed.

Lemma int_field_ok d k z :
  valid_utf8 (list_byte_of_string k) → int64_ok z → field_ok d (k, sprint_int z, JNumber (sprint_int z)).
Proof.
  intros Hk Hz. split; [done|]. intros x Hx. simpl. apply sprint_int_number in Hz.
  destruct (number_head _ x Hz) as (c & q & Hq & Hc).
  assert (starts_solid (sprint_int z ++ x)) as Hs by (unfold starts_solid; rewrite Hq; by destruct c).
  split; [|done]. eapply rd_number; [by rewrite Hs|done|].
  rewrite <- Hq. by apply scan_number_complete.
Qed.

(** *** Raw fields *)

(** A text that can be a member of an object: JSON, nested less than the limit. *)
Definition embeds (p : list byte) : bool :=
  match parse_value (2 * length p + 1) (pred maxNestingDepth) p with
  | Some (_, r) => bool_decide (skip_ws r = [])
  | None => false
  end.

Lemma embeds_reads p :
  embeds p = true → ∃ v r, reads (pred maxNestingDepth) p v r ∧ skip_ws r = [].
Proof.
  unfold embeds. destruct (parse_value _ _ p) as [[v r]|] eqn:E; [|done].
  intros H%bool_decide_eq_true. apply parse_value_reads in E; [|lia]. eauto.
Qed.

Lemma reads_deeper :
  (∀ d bs v r, reads d bs v r → reads (S d) bs v r) ∧
  (∀ d bs vs r, elems_read d bs vs r → elems_read (S d) bs vs r) ∧
  (∀ d bs ms r, members_read d bs ms r → members_read (S d) bs ms r) ∧
  (∀ d bs m r, member_reads d bs m r → member_reads (S d) bs m r).
Proof.
  apply reads_mutind; intros.
  1-7: by econstructor. all: by econstructor.
Qed.

(** The text that a payload becomes. *)
Definition compacted (p : list byte) : list byte :=
  match p with [] => null | _ => squeeze 0 Outside p end.

Lemma encode_raw_embeds p :
  p = [] ∨ embeds p = true → encode_raw p = Some (compacted p).
Proof.
  intros [->|H]; [done|]. destruct p as [|b p]; [done|].
  apply embeds_reads in H as (v & r & H & Hr). cbn [encode_raw compacted]. unfold compact.
  assert (parse_json (b :: p) = Some v) as ->; [|done].
  apply parse_json_reads. exists r. split; [|done].
  replace maxNestingDepth with (S (pred maxNestingDepth)) by (by vm_compute).
  by apply reads_deeper.
Qed.

Lemma raw_field_ok k p :
  valid_utf8 (list_byte_of_string k) → p = [] ∨ embeds p = true →
  ∃ v, field_ok (pred maxNestingDepth) (k, compacted p, v).
Proof.
  intros Hk [->|H].
  - exists JNull. split; [done|]. intros x _. split; [|done]. by eapply rd_word; [constructor|].
  - destruct p as [|b p]; [done|].
    apply embeds_reads in H as (v & r & H & Hr).
    destruct (compact_reads _ _ _ _ H Hr) as (v' & _ & Hv'). exists v'. by split.
Qed.

(** ** Payloads are read back *)

(** The values that the programs put into a payload: strings from protocol
    messages, which are UTF-8, and integers of 64 bits. *)
Definition job_ok (j : JobPayload) : Prop :=
  valid_utf8 (list_byte_of_string (jp_ID j)) ∧ valid_utf8 (list_byte_of_string (jp_Image j)) ∧
  int64_ok (jp_State j) ∧ int64_ok (jp_Priority j) ∧ int64_ok (jp_CPURequirement j) ∧
  int64_ok (jp_MemoryRequirement j) ∧ (jp_Payload j = [] ∨ embeds (jp_Payload j) = true).

Definition scheduler_ok (p : SchedulerPayload) : Prop :=
  valid_utf8 (list_byte_of_string (sp_ID p)) ∧
  valid_utf8 (list_byte_of_string (sp_OriginSchedulerID p)) ∧
  valid_utf8 (list_byte_of_string (sp_Entry p)) ∧ int64_ok (sp_Timestamp p).

(** The members of the objects. *)
Definition job_fields (j : JobPayload) (payload : json) : list field :=
  [("id"%string, encode_text (jp_ID j), JString (list_byte_of_string (jp_ID j)));
   ("state"%string, sprint_int (jp_State j), JNumber (sprint_int (jp_State j)));
   ("image"%string, encode_text (jp_Image j), JString (list_byte_of_string (jp_Image j)));
   ("priority"%string, sprint_int (jp_Priority j), JNumber (sprint_int (jp_Priority j)));
   ("cpu_requirement"%string, sprint_int (jp_CPURequirement j),
      JNumber (sprint_int (jp_CPURequirement j)));
   ("memory_requirement"%string, sprint_int (jp_MemoryRequirement j),
      JNumber (sprint_int (jp_MemoryRequirement j)));
   ("payload"%string, compacted (jp_Payload j), payload)].

Definition scheduler_fields (p : SchedulerPayload) : list field :=
  [("id"%string, encode_text (sp_ID p), JString (list_byte_of_string (sp_ID p)));
   ("scheduler"%string, encode_text (sp_OriginSchedulerID p),
      JString (list_byte_of_string (sp_OriginSchedulerID p)));
   ("entry"%string, encode_text (sp_Entry p), JString (list_byte_of_string (sp_Entry p)));
   ("timestamp"%string, sprint_int (sp_Timestamp p), JNumber (sprint_int (sp_Timestamp p)))].

Lemma marshal_job_parses j :
  job_ok j →
  ∃ data v, marshal_job j = Some data ∧
    parse_json data = Some (JObject (read_field <$> job_fields j v)).
Proof.
  intros (Hi & Him & Hs & Hp & Hc & Hm & Hpl).
  destruct (raw_field_ok "payload" (jp_Payload j) ltac:(by vm_compute) Hpl) as (v & Hv).
  unfold marshal_job. rewrite encode_raw_embeds by done. eexists _, v. split; [reflexivity|].
  apply (encode_struct_parses (job_fields j v)); [|done].
  repeat apply Forall_cons_2; [..|exact Hv|by apply Forall_nil];
    (apply text_field_ok || apply int_field_ok); (done || by vm_compute).
Qed.

Lemma marshal_scheduler_parses p :
  scheduler_ok p →
  parse_json (marshal_scheduler p) = Some (JObject (read_field <$> scheduler_fields p)).
Proof.
  intros (Hi & Ho & He & Ht). apply (encode_struct_parses (scheduler_fields p)); [|done].
  repeat apply Forall_cons_2; [..|by apply Forall_nil];
    (apply text_field_ok || apply int_field_ok); (done || by vm_compute).
Qed.

(** Filling a struct from these members: [eval_keys] decides which field each key
    names. *)
Ltac eval_keys :=
  repeat match goal with
  | |- context [key_is ?a ?b] =>
      let r := eval vm_compute in (key_is a b) in change (key_is a b) with r; cbv iota
  end.
Ltac fill_struct :=
  cbn [fmap list_fmap read_field job_fields scheduler_fields foldl fst snd mbind option_bind];
  eval_keys; cbn [mbind option_bind into_string into_int into_ptr fmap option_fmap option_map];
  rewrite ?string_of_bytes_of_string, ?parse_int64_sprint by done.

Lemma unmarshal_marshal_job j :
  job_ok j →
  ∃ data, marshal_job j = Some data ∧
    unmarshal_job data = Some (mkJobPayload (jp_ID j) (jp_State j) (jp_Image j) (jp_Priority j)
      (jp_CPURequirement j) (jp_MemoryRequirement j) (compacted (jp_Payload j))).
Proof.
  intros Hok. destruct (marshal_job_parses j Hok) as (data & v & -> & Hparse).
  destruct Hok as (_ & _ & ? & ? & ? & ? & _). exists data. split; [done|].
  unfold unmarshal_job, unmarshal, zero_JobPayload. rewrite Hparse. unfold job_member.
  by fill_struct.
Qed.

Lemma unmarshal_marshal_scheduler p :
  scheduler_ok p → unmarshal_scheduler (marshal_scheduler p) = Some p.
Proof.
  intros Hok. pose proof (marshal_scheduler_parses p Hok) as Hparse.
  destruct Hok as (_ & _ & _ & ?).
  unfold unmarshal_scheduler, unmarshal, zero_SchedulerPayload. rewrite Hparse.
  unfold scheduler_member. fill_struct. by destruct p.
Qed.
