(* ===== verification/Storage.v ===== *)
(** * The replicated log on disk and in memory

    [internal/consensus/filesystem]: the [Handler] with its operations, crash
    recovery ([LoadStorage]), log compaction ([createSnapshot],
    [StoreSnapshot]) and snapshot installation. *)

From Stdlib Require Import Strings.Byte Strings.String.
From S2P Require Import Prelude.
From S2P Require Import Bytes.
From S2P Require Import Json.
From S2P Require Import Models.
From S2P Require Import LogCodec.
From S2P Require Import Fs.

(** ** Payloads *)

(** src/internal/consensus/filesystem/interpreter.go:15-19 (genericPayload) *)
Record genericPayload := mkPeek {
  ID : string;
  State : option Z;
  Entry : option string
}.

Definition peek_member (p : genericPayload) (key : list byte) (v : json)
    : option genericPayload :=
  if key_is "id" key then
    s ← into_string (ID p) v; Some (mkPeek s (State p) (Entry p))
  else if key_is "state" key then
    st ← into_ptr into_int 0 (State p) v; Some (mkPeek (ID p) st (Entry p))
  else if key_is "entry" key then
    e ← into_ptr into_string EmptyString (Entry p) v; Some (mkPeek (ID p) (State p) e)
  else Some p.

(** [json.Unmarshal(payload, &peek)] into a zero [genericPayload]. *)
Definition peek (payload : list byte) : option genericPayload :=
  unmarshal (λ p k _ v, peek_member p k v) (mkPeek EmptyString None None) payload.

(** ** The handler *)

(** src/internal/consensus/filesystem/handler.go:18-35 (Handler)

    A nil file or channel is [None]; the channel holds at most one signal. *)
Record Handler := mkHandler {
  activeFile : option file;
  snapshotFile : option file;
  currentSize : Z;
  maxLogSizekB : Z;
  prevIndex : Z;
  prevTerm : Z;
  discIndex : Z;
  discTerm : Z;
  entries : list LogEntry;
  SnapshotRequired : option bool
}.

Record Store := mkStore { disk : FS; hd : Handler }.
Abbreviation sio := (io StorageError Store).

Definition on_disk {A} (m : fsio A) : sio A := zoom disk (λ d st, mkStore d (hd st)) m.
Definition update (f : Handler → Handler) : sio unit :=
  modify (λ st, mkStore (disk st) (f (hd st))).

(** A method of [*os.File] on a nil pointer returns [ErrInvalid]. *)
Definition on_file {A} (o : option file) (k : file → fsio A) : sio A :=
  match o with None => throw ErrInvalid | Some f => on_disk (k f) end.
Definition on_active {A} (k : file → fsio A) : sio A :=
  st ← get; on_file (activeFile (hd st)) k.
Definition on_snapshot {A} (k : file → fsio A) : sio A :=
  st ← get; on_file (snapshotFile (hd st)) k.

Definition set_activeFile f h := mkHandler f (snapshotFile h) (currentSize h)
  (maxLogSizekB h) (prevIndex h) (prevTerm h) (discIndex h) (discTerm h) (entries h)
  (SnapshotRequired h).
Definition set_snapshotFile f h := mkHandler (activeFile h) f (currentSize h)
  (maxLogSizekB h) (prevIndex h) (prevTerm h) (discIndex h) (discTerm h) (entries h)
  (SnapshotRequired h).
Definition set_currentSize n h := mkHandler (activeFile h) (snapshotFile h) n
  (maxLogSizekB h) (prevIndex h) (prevTerm h) (discIndex h) (discTerm h) (entries h)
  (SnapshotRequired h).
Definition set_prev i t h := mkHandler (activeFile h) (snapshotFile h) (currentSize h)
  (maxLogSizekB h) i t (discIndex h) (discTerm h) (entries h) (SnapshotRequired h).
Definition set_disc i t h := mkHandler (activeFile h) (snapshotFile h) (currentSize h)
  (maxLogSizekB h) (prevIndex h) (prevTerm h) i t (entries h) (SnapshotRequired h).
Definition set_entries es h := mkHandler (activeFile h) (snapshotFile h) (currentSize h)
  (maxLogSizekB h) (prevIndex h) (prevTerm h) (discIndex h) (discTerm h) es
  (SnapshotRequired h).
Definition set_signal c h := mkHandler (activeFile h) (snapshotFile h) (currentSize h)
  (maxLogSizekB h) (prevIndex h) (prevTerm h) (discIndex h) (discTerm h) (entries h) c.

(** src/internal/consensus/filesystem/handler.go:49-53 (UpdateTerm) *)
Definition UpdateTerm (term : Z) (h : Handler) : Handler := set_prev (prevIndex h) term h.

(** src/internal/consensus/filesystem/handler.go:67-86 (Close)

    The error of closing a file is dropped. *)
Definition Close : sio unit :=
  st ← get;
  match activeFile (hd st) with Some f => on_disk (ignore (os_close f)) | None => ret tt end ;;
  update (set_activeFile None) ;;
  match snapshotFile (hd st) with Some f => on_disk (ignore (os_close f)) | None => ret tt end ;;
  update (set_snapshotFile None) ;;
  update (set_signal None).

(** ** Writing *)

(** A send on a channel of capacity one with a [default] branch. *)
Definition signal (c : option bool) : option bool :=
  match c with Some _ => Some true | None => None end.

Definition log_full (h : Handler) : bool := wrap64 (maxLogSizekB h * 1024) <=? currentSize h.

(** src/internal/consensus/filesystem/writer.go:10-43 (Append) *)
Definition Append (entry : LogEntry) : sio unit :=
  st ← get;
  if Index entry <=? prevIndex (hd st) then throw ErrAppendIndexBehind else
  if wrap64 (prevIndex (hd st) + 1) <? Index entry then throw ErrAppendIndexAhead else
  let data := encodeLogEntry entry in
  wrap_err (ErrWrap "failed to write log entry to disk") (on_active (λ f, os_write f data)) ;;
  wrap_err (ErrWrap "failed to sync log to disk") (on_active os_sync) ;;
  update (λ h, set_entries (entries h ++ [entry])
    (set_currentSize (currentSize h + len data)
    (set_prev (Index entry) (Term entry) h))) ;;
  update (λ h, if log_full h then set_signal (signal (SnapshotRequired h)) h else h).

Fixpoint find_index (i : Z) (es : list LogEntry) : option nat :=
  match es with
  | [] => None
  | e :: es => if Index e =? i then Some O else S <$> find_index i es
  end.

(** One entry rewritten to the active file, its size added to the total. *)
Definition rewrite_entry (msg : string) (entry : LogEntry) : sio unit :=
  wrap_err (ErrWrap msg) (on_active (λ f, os_write f (encodeLogEntry entry))) ;;
  update (λ h, set_currentSize (currentSize h + len (encodeLogEntry entry)) h).

(** src/internal/consensus/filesystem/writer.go:46-92 (TruncateLog) *)
Definition TruncateLog (fromIndex : Z) : sio unit :=
  st ← get;
  match find_index fromIndex (entries (hd st)) with
  | None => ret tt
  | Some cutIdx =>
      update (λ h, set_entries (take cutIdx (entries h)) h) ;;
      wrap_err (ErrWrap "failed to truncate active log file") (on_active os_truncate0) ;;
      wrap_err (ErrWrap "failed to seek active log file") (on_active os_seek0) ;;
      update (set_currentSize 0) ;;
      st ← get;
      for_each (rewrite_entry "failed to rewrite log entry during truncation")
        (entries (hd st)) ;;
      wrap_err (ErrWrap "failed to sync truncated log file") (on_active os_sync) ;;
      match last (entries (hd st)) with
      | Some lastEntry => update (set_prev (Index lastEntry) (Term lastEntry))
      | None => ret tt
      end
  end.

(** ** Reading *)

(** src/internal/consensus/filesystem/reader.go:6-29 (Entries) *)
Definition Entries (startRaftIndex endRaftIndex : Z) (h : Handler) : list LogEntry :=
  let startSlice := wrap64 (wrap64 (startRaftIndex - discIndex h) - 1) in
  let endSlice := wrap64 (wrap64 (endRaftIndex - discIndex h) - 1) in
  let startSlice := if startSlice <? 0 then 0 else startSlice in
  let endSlice := if endSlice <? 0 then 0 else endSlice in
  let endSlice := if len (entries h) <? endSlice then len (entries h) else endSlice in
  if endSlice <=? startSlice then []
  else take (Z.to_nat (endSlice - startSlice)) (drop (Z.to_nat startSlice) (entries h)).

(** src/internal/consensus/filesystem/reader.go:44-67 (QueryEntries loop) *)
Fixpoint query_loop (schedulerID payloadID : option string) (newest_first : list LogEntry)
    (foundPayloads : gset string) (results : list LogEntry) : list LogEntry :=
  match newest_first with
  | [] => results
  | entry :: rest =>
      let continue := query_loop schedulerID payloadID rest foundPayloads results in
      if match schedulerID with
         | Some s => negb (bool_decide (SchedulerID entry = s)) | None => false end
      then continue else
      match peek (Payload entry) with
      | None => continue
      | Some p =>
          if match payloadID with
             | Some i => negb (bool_decide (ID p = i)) | None => false end
          then continue else
          if bool_decide (ID p ∈ foundPayloads) then continue else
          match payloadID with
          | Some _ => results ++ [entry]
          | None => query_loop schedulerID payloadID rest
                      ({[ID p]} ∪ foundPayloads) (results ++ [entry])
          end
      end
  end.

(** src/internal/consensus/filesystem/reader.go:32-70 (QueryEntries) *)
Definition QueryEntries (schedulerID payloadID : option string) (h : Handler)
    : list LogEntry :=
  match schedulerID, payloadID with
  | None, None => []
  | _, _ => query_loop schedulerID payloadID (rev (entries h)) ∅ []
  end.

(** src/internal/consensus/filesystem/handler.go:37-41 (Index) *)
Definition Index_ (h : Handler) : Z := prevIndex h.
(** src/internal/consensus/filesystem/handler.go:43-47 (Term) *)
Definition Term_ (h : Handler) : Z := prevTerm h.
(** src/internal/consensus/filesystem/handler.go:55-59 (DiscIndex) *)
Definition DiscIndex (h : Handler) : Z := discIndex h.
(** src/internal/consensus/filesystem/handler.go:61-65 (DiscTerm) *)
Definition DiscTerm (h : Handler) : Z := discTerm h.

(** ** Compaction *)

Definition raw_key (e : LogEntry) : string :=
  "raw-" +:+ string_of_list_byte (sprint_int (Index e)).

(** src/internal/consensus/filesystem/interpreter.go:84-119 (createSnapshot loop body) *)
Definition snapshot_entry (e : LogEntry) (acc : gmap string LogEntry * gset string)
    : gmap string LogEntry * gset string :=
  let '(snapshots, excluded) := acc in
  match peek (Payload e) with
  | None => (<[raw_key e := e]> snapshots, excluded)
  | Some p =>
      let id := ID p in
      if bool_decide (id = EmptyString) then acc else
      if bool_decide (id ∈ excluded) then acc else
      match State p with
      | Some s =>
          if (s =? Completed) || (s =? Failed)
          then (delete id snapshots, {[id]} ∪ excluded)
          else match snapshots !! id with
               | Some _ => acc
               | None => (<[id := e]> snapshots, excluded)
               end
      | None => acc
      end
  end.

(** src/internal/consensus/filesystem/interpreter.go:78-123 (createSnapshot)

    The loop runs from the last entry to the first; [maps.Values] yields the
    map in an unspecified order. *)
Definition createSnapshot (ord : MapOrder) (data : list LogEntry) : list LogEntry :=
  (range ord (foldr snapshot_entry (∅, ∅) data).1).*2.

(** What the first critical section of [StoreSnapshot] computes. *)
Record plan := mkPlan { compressedData : list LogEntry; lastIndex : Z; lastTerm : Z }.

(** src/internal/consensus/filesystem/snapshot.go:12-25 (StoreSnapshot, under the lock) *)
Definition snapshot_begin (ord : MapOrder) : sio (option plan) :=
  update (λ h, set_signal (match SnapshotRequired h with Some _ => Some false | n => n end) h) ;;
  st ← get;
  match snapshotFile (hd st) with
  | None => throw (ErrMsg "snapshot file is not initialized")
  | Some _ =>
      match last (entries (hd st)) with
      | None => ret None
      | Some e => ret (Some (mkPlan (createSnapshot ord (entries (hd st))) (Index e) (Term e)))
      end
  end.

Definition active_log : string := "active.log".
Definition snapshot_tmp : string := "snapshot.tmp".

(** A write through [h.snapshotFile], whose offset moves. *)
Definition write_snapshot (d : list byte) : sio unit :=
  f ← on_snapshot (λ f, os_write f d);
  update (set_snapshotFile (Some f)).

(** [snapFile.Close()] on the file [h.snapshotFile] points to. *)
Definition close_snapshot : sio unit :=
  ignore (on_snapshot os_close) ;;
  update (λ h, set_snapshotFile
    ((λ f, mkFile (fname f) (fpos f) (fappend f) false) <$> snapshotFile h) h).

(** src/internal/consensus/filesystem/snapshot.go:27-52 (StoreSnapshot, outside the lock) *)
Definition snapshot_write (p : plan) : sio file :=
  ignore (on_snapshot os_close) ;;
  update (set_snapshotFile None) ;;
  snapFile ← wrap_err (ErrWrap "failed to open snapshot file for writing")
    (on_disk (os_open active_log (mkFlags true true false)));
  update (set_snapshotFile (Some snapFile)) ;;
  for_each (λ e, r ← try_ (write_snapshot (encodeLogEntry e));
                 match r with
                 | inl _ => ret tt
                 | inr err => close_snapshot ;;
                              throw (ErrWrap "failed to write snapshot entry" err)
                 end) (compressedData p) ;;
  wrap_err (ErrWrap "failed to sync snapshot file") (on_snapshot os_sync) ;;
  wrap_err (ErrWrap "failed to reopen log file for appending")
    (on_disk (os_open (log_name (lastTerm p) (lastIndex p)) (mkFlags true false true))).

(** src/internal/consensus/filesystem/snapshot.go:62-100 (rotateFile) *)
Definition rotateFile (newFile : file) (snapshotIndex lastTerm lastIndex : Z) : sio unit :=
  wrap_err (ErrWrap "failed to close old log file") (on_active os_close) ;;
  update (set_activeFile (Some newFile)) ;;
  update (set_currentSize 0) ;;
  st ← get;
  let remainingEntries := filter (λ e, snapshotIndex < Index e) (entries (hd st)) in
  for_each (rewrite_entry "failed to persist active remaining entries to new log")
    remainingEntries ;;
  update (set_entries remainingEntries) ;;
  st ← get;
  (if 0 <? currentSize (hd st)
   then wrap_err (ErrWrap "failed to sync active remaining entries during rotation")
          (on_active os_sync)
   else ret tt) ;;
  update (set_disc lastIndex lastTerm).

(** src/internal/consensus/filesystem/snapshot.go:11-59 (StoreSnapshot)

    One turn of the loop over [h.SnapshotRequired]. *)
Definition StoreSnapshot (ord : MapOrder) : sio unit :=
  p ← snapshot_begin ord;
  match p with
  | None => ret tt
  | Some p =>
      newFile ← snapshot_write p;
      rotateFile newFile (lastIndex p) (lastTerm p) (lastIndex p)
  end.

(** ** Snapshots from a peer *)

(** src/internal/consensus/filesystem/snapshot.go:103-122 (SnapshotReader) *)
Definition SnapshotReader : sio (file * Z) :=
  st ← get;
  match snapshotFile (hd st) with
  | None => throw (ErrMsg "no snapshot file initialized")
  | Some f =>
      size ← on_disk (os_stat_size f);
      file ← on_disk (os_open (fname f) (mkFlags false false false));
      ret (file, size)
  end.

(** Writes one chunk to [snapshot.tmp]; the deferred clean-up closes the file. *)
Definition write_chunk (offset : Z) (data : list byte) : fsio unit :=
  file ← wrap_err (ErrWrap "failed to open snapshot temp file")
    (if offset =? 0 then os_open snapshot_tmp (mkFlags true true false)
     else os_open snapshot_tmp (mkFlags false false false));
  let close_on_error msg m :=
    r ← try_ m;
    match r with
    | inl _ => ret tt
    | inr err => ignore (os_close file) ;; throw (ErrWrap msg err)
    end in
  close_on_error "failed to write snapshot chunk" (os_write_at file data offset) ;;
  close_on_error "failed to sync snapshot chunk" (os_sync file) ;;
  ignore (os_close file).

(** src/internal/consensus/filesystem/snapshot.go:125-189 (InstallSnapshot) *)
Definition InstallSnapshot (offset : Z) (data : list byte) (done : bool)
    (lastIncludedIndex lastIncludedTerm : Z) : sio unit :=
  on_disk (write_chunk offset data) ;;
  if done then
    st ← get;
    match snapshotFile (hd st) with
    | Some f => on_disk (ignore (os_close f)) ;; update (set_snapshotFile None)
    | None => ret tt
    end ;;
    wrap_err (ErrWrap "failed to finalize snapshot installation")
      (on_disk (os_rename snapshot_tmp active_log)) ;;
    r ← try_ (on_disk (os_open active_log (mkFlags false false false)));
    match r with
    | inr err =>
        (* the nil file of the failed call is what gets stored *)
        update (set_snapshotFile None) ;;
        throw (ErrWrap "failed to reopen snapshot file" err)
    | inl f =>
        update (set_snapshotFile (Some f)) ;;
        match activeFile (hd st) with
        | Some a => on_disk (ignore (os_truncate0 a)) ;; on_disk (ignore (os_seek0 a))
        | None => ret tt
        end ;;
        update (set_entries []) ;;
        update (set_currentSize 0) ;;
        update (set_prev lastIncludedIndex lastIncludedTerm) ;;
        update (set_disc lastIncludedIndex lastIncludedTerm)
    end
  else ret tt.

(** ** Recovery *)

(** src/internal/consensus/filesystem/entry.go:105-115 (findLatestSnapshot) *)
Definition findLatestSnapshot : fsio (option file) :=
  r ← try_ (os_open active_log (mkFlags true false false));
  match r with
  | inl f => ret (Some f)
  | inr err =>
      if errors_Is err ErrNotExist then ret None
      else throw (ErrWrap "failed to open snapshot file" err)
  end.

(** src/internal/consensus/filesystem/entry.go:128-145 (findLatestLog loop) *)
Fixpoint latest_log (dir : list (string * node)) (latest : option (Z * Z * string))
    : option (Z * Z * string) :=
  match dir with
  | [] => latest
  | (name, n) :: rest =>
      match n with
      | Dir => latest_log rest latest
      | Reg _ =>
          match sscanf_log name with
          | None => latest_log rest latest
          | Some (term, index) =>
              let newer := match latest with
                | None => true
                | Some (t, i, _) => (t <? term) || ((term =? t) && (i <? index))
                end in
              latest_log rest (if newer then Some (term, index, name) else latest)
          end
      end
  end.

(** src/internal/consensus/filesystem/entry.go:117-158 (findLatestLog) *)
Definition findLatestLog : fsio (option file * Z * Z) :=
  dir ← wrap_err (ErrWrap "failed to read data directory") os_read_dir;
  match latest_log dir None with
  | None => ret (None, 0, 0)
  | Some (latestTerm, latestIndex, latestFileName) =>
      file ← wrap_err (ErrWrap "failed to open latest log file")
        (os_open latestFileName (mkFlags false false false));
      ret (Some file, latestTerm, latestIndex)
  end.

Definition append_flags : flags := mkFlags true false true.

(** [readLogEntries] on an open file. *)
Definition read_log (f : file) : fsio (list LogEntry * Z) :=
  bytes ← wrap_err (ErrWrap "failed to read log header") (os_read_rest f);
  of_outcome (readLogEntries bytes).

(** The entries of the snapshot file; every error is dropped. *)
Definition read_snapshot (o : option file) : fsio (list LogEntry) :=
  match o with
  | None => ret []
  | Some f =>
      r ← try_ (f ← os_seek0 f; read_log f);
      match r with inl (es, _) => ret es | inr _ => ret [] end
  end.

(** src/internal/consensus/filesystem/entry.go:10-103 (LoadStorage) *)
Definition LoadStorage (maxLogSizekB : Z) : fsio Handler :=
  wrap_err (ErrWrap "failed to create data directory") syscall ;;
  snapshotFile ← wrap_err (ErrWrap "failed to find latest snapshot file") findLatestSnapshot;
  '(file, diskTerm, diskIndex) ←
    wrap_err (ErrWrap "failed to find latest log file") findLatestLog;
  snapshotEntries ← read_snapshot snapshotFile;
  let handler f size index term dIndex dTerm es :=
    mkHandler (Some f) snapshotFile size maxLogSizekB index term dIndex dTerm es (Some false) in
  match file with
  | Some f =>
      '(es, size) ← wrap_err (ErrWrap "failed to read log entries") (read_log f);
      let '(currentIndex, currentTerm) :=
        match last es with Some e => (Index e, Term e) | None => (diskIndex, diskTerm) end in
      wrap_err (ErrWrap "failed to close file") (os_close f) ;;
      f ← wrap_err (ErrWrap "failed to reopen log file for appending")
        (os_open (fname f) (mkFlags false false true));
      ret (handler f size currentIndex currentTerm diskIndex diskTerm es)
  | None =>
      match last snapshotEntries with
      | Some lastSnap =>
          f ← wrap_err (ErrWrap "failed to create active log file from snapshot")
            (os_open (log_name (Term lastSnap) (Index lastSnap)) append_flags);
          ret (handler f 0 (Index lastSnap) (Term lastSnap) (Index lastSnap) (Term lastSnap) [])
      | None =>
          f ← wrap_err (ErrWrap "failed to create active log file")
            (os_open "0-0.log" append_flags);
          ret (handler f 0 diskIndex diskTerm diskIndex diskTerm [])
      end
  end.

(** ** Calls on the handler's files *)

Lemma on_active_eq {A} (m : file → fsio A) st f r d :
  activeFile (hd st) = Some f → m f (disk st) = (r, d) →
  on_active m st = (r, mkStore d (hd st)).
Proof.
  intros Hf Hm. unfold on_active, on_file, on_disk, zoom, mbind, io_bind, get.
  by rewrite Hf, Hm.
Qed.

Lemma on_disk_eq {A} (m : fsio A) st r d :
  m (disk st) = (r, d) → on_disk m st = (r, mkStore d (hd st)).
Proof. intros Hm. unfold on_disk, zoom. by rewrite Hm. Qed.

Definition entry_signal (h : Handler) : Handler :=
  if log_full h then set_signal (signal (SnapshotRequired h)) h else h.

Lemma Append_calm e st f :
  calm (disk st) → activeFile (hd st) = Some f → fopen f = true → fappend f = true →
  Index e = prevIndex (hd st) + 1 → int64_ok (Index e) →
  Append e st =
  (Ok tt, mkStore
     (set_content (fname f) (content (disk st) (fname f) ++ encodeLogEntry e) (disk st))
     (entry_signal (set_entries (entries (hd st) ++ [e])
        (set_currentSize (currentSize (hd st) + len (encodeLogEntry e))
           (set_prev (Index e) (Term e) (hd st)))))).
Proof.
  intros Hc Hf Ho Ha Hi H64. unfold Append. rewrite (io_bind_Ok get _ st st st) by done.
  rewrite (proj2 (Z.leb_gt _ _)) by lia.
  rewrite wrap64_id, (proj2 (Z.ltb_ge _ _)) by (unfold int64_ok in *; lia).
  cbv beta iota zeta. erewrite io_bind_Ok.
  2: { apply wrap_err_Ok. eapply on_active_eq; [done|]. by apply os_write_append. }
  erewrite io_bind_Ok.
  2: { apply wrap_err_Ok. eapply on_active_eq; [done|]. by apply os_sync_calm. }
  done.
Qed.

(** What [TruncateLog] and [rotateFile] write back. *)
Lemma rewrite_entries_calm msg es st f c :
  calm (disk st) → activeFile (hd st) = Some f → fopen f = true → fappend f = true →
  files (disk st) !! fname f = Some (Reg c) →
  for_each (rewrite_entry msg) es st =
  (Ok tt, mkStore (set_content (fname f) (c ++ encode_all es) (disk st))
     (set_currentSize (currentSize (hd st) + len (encode_all es)) (hd st))).
Proof.
  intros Hc Hf Ho Ha. revert st c Hc Hf. induction es as [|e es IH]; intros st c Hc Hf Hn; simpl.
  - rewrite app_nil_r, set_content_id by done.
    destruct st as [d []]. unfold set_currentSize. simpl. by rewrite Z.add_0_r.
  - unfold rewrite_entry at 1. erewrite io_bind_Ok.
    2: { apply wrap_err_Ok. eapply on_active_eq; [done|]. by apply os_write_append. }
    rewrite (content_lookup _ _ _ Hn). unfold update, modify.
    rewrite (IH _ (c ++ encodeLogEntry e)) by (done || apply set_content_lookup).
    simpl. rewrite set_content_twice, encode_all_cons, len_app, <- app_assoc.
    unfold set_currentSize. simpl. do 3 f_equal. lia.
Qed.

(** The state after a successful truncation to the first [n] entries. *)
Definition truncated (f : file) (n : nat) (st : Store) : Store :=
  let es := take n (entries (hd st)) in
  let h := set_currentSize (len (encode_all es)) (set_entries es (hd st)) in
  mkStore (set_content (fname f) (encode_all es) (disk st))
    (match last es with Some e => set_prev (Index e) (Term e) h | None => h end).

Lemma TruncateLog_calm i n st f :
  calm (disk st) → activeFile (hd st) = Some f → fopen f = true → fappend f = true →
  find_index i (entries (hd st)) = Some n →
  TruncateLog i st = (Ok tt, truncated f n st).
Proof.
  intros Hc Hf Ho Ha Hi. unfold TruncateLog. rewrite (io_bind_Ok get _ st st st) by done.
  rewrite Hi. erewrite (io_bind_Ok (update _)) by done.
  erewrite io_bind_Ok.
  2: { apply wrap_err_Ok. eapply on_active_eq; [done|]. by apply os_truncate0_calm. }
  erewrite io_bind_Ok.
  2: { apply wrap_err_Ok. eapply on_active_eq; [done|]. by apply os_seek0_calm. }
  erewrite (io_bind_Ok (update _)) by done.
  erewrite (io_bind_Ok get) by done. erewrite io_bind_Ok.
  2: { eapply rewrite_entries_calm; try done. apply set_content_lookup. }
  erewrite io_bind_Ok.
  2: { apply wrap_err_Ok. eapply on_active_eq; [done|]. by apply os_sync_calm. }
  unfold truncated. cbn [hd disk entries set_currentSize set_entries app].
  rewrite set_content_twice. by destruct (last _).
Qed.

Lemma TruncateLog_absent i st :
  find_index i (entries (hd st)) = None → TruncateLog i st = (Ok tt, st).
Proof. intros Hi. unfold TruncateLog, mbind, io_bind, get. by rewrite Hi. Qed.

(** ** Compaction on a calm disk *)

Lemma snapshot_entry_incl (P : LogEntry → Prop) e acc :
  P e → map_Forall (λ _, P) acc.1 → map_Forall (λ _, P) (snapshot_entry e acc).1.
Proof.
  destruct acc as [m x]. simpl. intros He Hm. unfold snapshot_entry.
  destruct (peek (Payload e)) as [p|]; [|by apply map_Forall_insert_2].
  repeat case_bool_decide; try done. destruct (State p) as [s|]; [|done].
  destruct (_ || _); [by apply map_Forall_delete|].
  destruct (m !! ID p); [done|]. by apply map_Forall_insert_2.
Qed.

Lemma createSnapshot_Forall (P : LogEntry → Prop) ord data :
  Forall P data → Forall P (createSnapshot ord data).
Proof.
  intros Hd. apply Forall_forall. intros e (k & Hk)%elem_of_range_vals. revert k e Hk.
  change (map_Forall (λ _, P) (foldr snapshot_entry (∅, ∅) data).1).
  induction Hd; simpl; [apply map_Forall_empty | by apply snapshot_entry_incl].
Qed.

Lemma write_snapshot_calm d st c :
  calm (disk st) → snapshotFile (hd st) = Some (mkFile active_log (len c) false true) →
  content (disk st) active_log = c →
  write_snapshot d st = (Ok tt, mkStore (set_content active_log (c ++ d) (disk st))
    (set_snapshotFile (Some (mkFile active_log (len c + len d) false true)) (hd st))).
Proof.
  intros Hc Hs Hk. unfold write_snapshot. erewrite io_bind_Ok.
  2: { unfold on_snapshot. rewrite (io_bind_Ok get _ st st st) by done. unfold on_file.
       rewrite Hs. apply on_disk_eq. apply os_write_end; [done..|]. simpl. by rewrite Hk. }
  cbn [fname fappend]. by rewrite Hk.
Qed.

Definition write_compressed : LogEntry → sio unit := λ e,
  r ← try_ (write_snapshot (encodeLogEntry e));
  match r with
  | inl _ => ret tt
  | inr err => close_snapshot ;; throw (ErrWrap "failed to write snapshot entry" err)
  end.

Lemma write_compressed_calm es st c :
  calm (disk st) → snapshotFile (hd st) = Some (mkFile active_log (len c) false true) →
  files (disk st) !! active_log = Some (Reg c) →
  for_each write_compressed es st =
  (Ok tt, mkStore (set_content active_log (c ++ encode_all es) (disk st))
    (set_snapshotFile (Some (mkFile active_log (len (c ++ encode_all es)) false true)) (hd st))).
Proof.
  revert st c. induction es as [|e es IH]; intros st c Hc Hs Hk; simpl.
  - rewrite app_nil_r, set_content_id by done. destruct st as [d []]. simpl in *. by subst.
  - unfold write_compressed at 1. erewrite io_bind_Ok.
    2: { apply try_Ok. apply (write_snapshot_calm _ _ c); [done..|by apply content_lookup]. }
    unfold ret. rewrite (IH _ (c ++ encodeLogEntry e)).
    + simpl. by rewrite set_content_twice, <- app_assoc, encode_all_cons.
    + done.
    + simpl. by rewrite len_app.
    + apply set_content_lookup.
Qed.

(** The disk after the snapshot is written and the next log is created. *)
Definition written_disk (p : plan) (d : FS) : FS :=
  opened (log_name (lastTerm p) (lastIndex p)) append_flags
    (set_content active_log (encode_all (compressedData p)) d).

Lemma snapshot_write_calm p st f c :
  calm (disk st) → snapshotFile (hd st) = Some f → fopen f = true →
  files (disk st) !! active_log = Some (Reg c) →
  log_name (lastTerm p) (lastIndex p) ≠ active_log →
  files (disk st) !! log_name (lastTerm p) (lastIndex p) ≠ Some Dir →
  snapshot_write p st =
  (Ok (mkFile (log_name (lastTerm p) (lastIndex p)) 0 true true),
   mkStore (written_disk p (disk st))
     (set_snapshotFile
        (Some (mkFile active_log (len (encode_all (compressedData p))) false true)) (hd st))).
Proof.
  intros Hc Hs Ho Hk Hn Hd. unfold snapshot_write. erewrite io_bind_Ok.
  2: { eapply ignore_Ok. unfold on_snapshot. rewrite (io_bind_Ok get _ st st st) by done.
       unfold on_file. rewrite Hs. apply on_disk_eq. by apply os_close_calm. }
  erewrite (io_bind_Ok (update _)) by done. erewrite io_bind_Ok.
  2: { apply wrap_err_Ok, on_disk_eq. apply os_open_calm; [done| |by left]. simpl. by rewrite Hk. }
  erewrite (io_bind_Ok (update _)) by done.
  assert (opened active_log (mkFlags true true false) (disk st) = set_content active_log [] (disk st))
    as Hopen by (unfold opened; by rewrite Hk).
  cbn [disk hd o_append]. rewrite Hopen. fold write_compressed.
  erewrite io_bind_Ok by (apply (write_compressed_calm _ _ []); [done|done|apply set_content_lookup]).
  cbn [disk hd app]. rewrite set_content_twice. erewrite io_bind_Ok.
  2: { apply wrap_err_Ok. unfold on_snapshot. erewrite io_bind_Ok by done. unfold on_file.
       apply on_disk_eq. by apply os_sync_calm. }
  apply wrap_err_Ok, on_disk_eq. apply os_open_calm; [done| |by left].
  cbn [disk]. by rewrite set_content_lookup_ne.
Qed.

(** The state after [rotateFile]. *)
Definition rotated (f : file) (p : plan) (es : list LogEntry) (st : Store) : Store :=
  mkStore (set_content (fname f) (encode_all es) (disk st))
    (set_disc (lastIndex p) (lastTerm p) (set_entries es
      (set_currentSize (len (encode_all es)) (set_activeFile (Some f) (hd st))))).

Lemma rotateFile_calm p st f g :
  calm (disk st) → activeFile (hd st) = Some g → fopen g = true →
  fopen f = true → fappend f = true → files (disk st) !! fname f = Some (Reg []) →
  rotateFile f (lastIndex p) (lastTerm p) (lastIndex p) st =
  (Ok tt, rotated f p (filter (λ e, lastIndex p < Index e) (entries (hd st))) st).
Proof.
  intros Hc Hg Hgo Ho Ha Hf. unfold rotateFile. erewrite io_bind_Ok.
  2: { apply wrap_err_Ok. eapply on_active_eq; [done|]. by apply os_close_calm. }
  erewrite (io_bind_Ok (update _)) by done.
  erewrite (io_bind_Ok (update _)) by done.
  erewrite (io_bind_Ok get) by done. cbv zeta. erewrite io_bind_Ok.
  2: { by eapply (rewrite_entries_calm _ _ _ f []). }
  erewrite (io_bind_Ok (update _)) by done.
  erewrite (io_bind_Ok get) by done.
  erewrite (io_bind_Ok _ _ _ tt).
  2: { destruct (0 <? _); [|done]. apply wrap_err_Ok. eapply on_active_eq; [done|].
       by apply os_sync_calm. }
  done.
Qed.

(** ** Snapshot installation on a calm disk *)

Lemma os_write_at_calm f d c fs :
  calm fs → fopen f = true → files fs !! fname f = Some (Reg c) →
  os_write_at f d (len c) fs = (Ok tt, set_content (fname f) (c ++ d) fs).
Proof.
  intros Hc Ho Hf. unfold os_write_at. pose proof (len_nonneg c).
  rewrite (proj2 (Z.ltb_ge _ _)) by lia. case_bool_decide as Hd.
  - subst. unfold ret. by rewrite app_nil_r, set_content_id.
  - erewrite io_bind_Ok; [reflexivity|]. rewrite os_write_end; cbn [fname fpos fappend fopen];
      rewrite ?(content_lookup _ _ _ Hf); done.
Qed.

Lemma write_chunk_calm off d c fs :
  calm fs → files fs !! snapshot_tmp ≠ Some Dir → off = len c →
  (c = [] ∨ files fs !! snapshot_tmp = Some (Reg c)) →
  write_chunk off d fs = (Ok tt, set_content snapshot_tmp (c ++ d) fs).
Proof.
  intros Hc Hd -> Hf. unfold write_chunk. set (fl := if len c =? 0 then _ else _).
  assert (fl fs = (Ok (mkFile snapshot_tmp 0 false true), set_content snapshot_tmp c fs)) as Hfl.
  { unfold fl. destruct c as [|b c].
    - simpl. rewrite os_open_calm by (done || by left). unfold opened.
      by destruct (files fs !! snapshot_tmp).
    - destruct Hf as [|Hf]; [done|]. rewrite (proj2 (Z.eqb_neq _ _)).
      + rewrite os_open_calm by (done || by right). unfold opened. rewrite Hf. simpl.
        by rewrite set_content_id.
      + rewrite len_cons. pose proof (len_nonneg c). lia. }
  clearbody fl. erewrite io_bind_Ok by (by apply wrap_err_Ok). cbv zeta.
  assert (∀ msg m fs s', m fs = (Ok tt, s') →
    (r ← try_ m;
     match r with
     | inl _ => ret tt
     | inr err => ignore (os_close (mkFile snapshot_tmp 0 false true)) ;; throw (ErrWrap msg err)
     end) fs = (Ok tt, s')) as Hclose.
  { intros msg m s s' Hm. erewrite io_bind_Ok by (by apply try_Ok). done. }
  erewrite io_bind_Ok.
  2: { apply Hclose. eapply (os_write_at_calm (mkFile snapshot_tmp 0 false true)); [done|done|].
       apply set_content_lookup. }
  erewrite io_bind_Ok by (apply Hclose; by apply os_sync_calm).
  rewrite set_content_twice. eapply ignore_Ok. by apply os_close_calm.
Qed.

(** The handler after the last chunk. *)
Definition installed (i t : Z) (h : Handler) : Handler :=
  set_disc i t (set_prev i t (set_currentSize 0 (set_entries []
    (set_snapshotFile (Some (mkFile active_log 0 false true)) h)))).

(** The disk: the received bytes as [active.log], the active file emptied. *)
Definition installed_disk (name : string) (c : list byte) (d : FS) : FS :=
  set_content name []
    (mkFS (<[active_log := Reg c]> (delete snapshot_tmp (files d))) (faults d)).

Lemma InstallSnapshot_more off d c st i t :
  calm (disk st) → files (disk st) !! snapshot_tmp ≠ Some Dir → off = len c →
  (c = [] ∨ files (disk st) !! snapshot_tmp = Some (Reg c)) →
  InstallSnapshot off d false i t st =
    (Ok tt, mkStore (set_content snapshot_tmp (c ++ d) (disk st)) (hd st)).
Proof.
  intros Hc Hd Ho Hf. unfold InstallSnapshot. erewrite io_bind_Ok; [reflexivity|].
  apply on_disk_eq. by apply write_chunk_calm.
Qed.

Lemma InstallSnapshot_last off d c st i t a sf :
  calm (disk st) → files (disk st) !! snapshot_tmp ≠ Some Dir → off = len c →
  (c = [] ∨ files (disk st) !! snapshot_tmp = Some (Reg c)) →
  activeFile (hd st) = Some a → fopen a = true →
  snapshotFile (hd st) = Some sf → fopen sf = true →
  InstallSnapshot off d true i t st =
    (Ok tt, mkStore (installed_disk (fname a) (c ++ d) (disk st)) (installed i t (hd st))).
Proof.
  intros Hc Hd Ho Hf Ha Hao Hs Hso. unfold InstallSnapshot.
  erewrite io_bind_Ok by (apply on_disk_eq; by apply write_chunk_calm).
  erewrite (io_bind_Ok get) by done. cbn [hd]. rewrite Hs, Ha.
  erewrite io_bind_Ok.
  2: { erewrite io_bind_Ok.
       2: { apply on_disk_eq. eapply ignore_Ok. by apply os_close_calm. }
       reflexivity. }
  erewrite io_bind_Ok.
  2: { apply wrap_err_Ok, on_disk_eq. cbn [disk]. unfold os_rename.
       erewrite io_bind_Ok by (by apply syscall_calm). erewrite (io_bind_Ok get) by done.
       rewrite set_content_lookup. reflexivity. }
  cbn [disk hd files faults set_content].
  erewrite io_bind_Ok.
  2: { apply try_Ok, on_disk_eq. apply os_open_calm; [done|..]; cbn [disk files];
         rewrite lookup_insert_eq; [done|right; by eexists]. }
  unfold opened. cbn [disk files]. rewrite lookup_insert_eq. cbn [o_trunc].
  erewrite (io_bind_Ok (update _)) by done.
  erewrite io_bind_Ok.
  2: { erewrite io_bind_Ok.
       2: { apply on_disk_eq. eapply ignore_Ok. by apply os_truncate0_calm. }
       apply on_disk_eq. eapply ignore_Ok. by apply os_seek0_calm. }
  unfold installed_disk. do 3 f_equal. unfold set_content. cbn [files].
  by rewrite delete_insert_eq.
Qed.
