(* ===== verification/StorageTheory.v ===== *)
(** * Correctness of the replicated log

    The invariant of the storage handler, its preservation by appends,
    truncations and log compaction (also interleaved), crash recovery, and what
    the queries return. *)

From Stdlib Require Import Strings.Byte Strings.String.
From stdpp Require Import list_numbers.
From S2P Require Import Prelude.
From S2P Require Import Bytes.
From S2P Require Import Json.
From S2P Require Import Models.
From S2P Require Import LogCodec.
From S2P Require Import Fs.
From S2P Require Import Storage.

(** Reads off the fields of an updated handler. *)
Ltac fields := cbn [fst snd disk hd activeFile snapshotFile currentSize maxLogSizekB prevIndex prevTerm
  discIndex discTerm entries SnapshotRequired set_activeFile set_snapshotFile set_currentSize
  set_prev set_disc set_entries set_signal].

(** ** The invariant *)

(** The handle of the active log: named after the entry before its first. *)
Definition wal (h : Handler) : file := mkFile (log_name (discTerm h) (discIndex h)) 0 true true.

(** Entries that continue a log whose last entry has index [i]. *)
Record continues (i : Z) (es : list LogEntry) : Prop := {
  co_index : Index <$> es = seqZ (i + 1) (len es);
  co_ok : Forall entry_ok es
}.

(** No log file of the directory is named for an index after [i]. *)
Definition no_newer (d : FS) (i : Z) : Prop :=
  ∀ name c t' i', files d !! name = Some (Reg c) → sscanf_log name = Some (t', i') → i' ≤ i.

(** The order [findLatestLog] goes by, the term first: no file of the directory
    is named for a later position than [(t, i)]. *)
Definition no_later (d : FS) (t i : Z) : Prop :=
  ∀ name c t' i', files d !! name = Some (Reg c) → sscanf_log name = Some (t', i') →
    name = log_name t i ∨ t' < t ∨ (t' = t ∧ i' < i).

Record log_core (st : Store) : Prop := {
  lc_calm : calm (disk st);
  lc_active : activeFile (hd st) = Some (wal (hd st));
  lc_wal : files (disk st) !! fname (wal (hd st)) = Some (Reg (encode_all (entries (hd st))));
  lc_size : currentSize (hd st) = len (encode_all (entries (hd st)));
  lc_entries : continues (discIndex (hd st)) (entries (hd st));
  lc_prev : prevIndex (hd st) = discIndex (hd st) + len (entries (hd st));
  lc_term : prevTerm (hd st) = default (discTerm (hd st)) (Term <$> last (entries (hd st)));
  lc_disc : 0 ≤ discIndex (hd st) ∧ int64_ok (discTerm (hd st));
  lc_bound : prevIndex (hd st) < 2 ^ 63;
  lc_nodir : ∀ name, files (disk st) !! name ≠ Some Dir;
  lc_snap : ∃ f, snapshotFile (hd st) = Some f ∧ fname f = active_log ∧ fopen f = true;
  lc_snapdata : ∃ es, Forall entry_ok es ∧
                      files (disk st) !! active_log = Some (Reg (encode_all es));
  lc_chan : is_Some (SnapshotRequired (hd st))
}.

Definition log_ok (st : Store) : Prop :=
  log_core st ∧ no_later (disk st) (discTerm (hd st)) (discIndex (hd st)).

Lemma continues_nil i : continues i [].
Proof. split; repeat constructor. Qed.

Lemma continues_snoc i es e :
  continues i es → entry_ok e → Index e = i + len es + 1 → continues i (es ++ [e]).
Proof.
  intros [Hi Ho] He Hx. split.
  - rewrite fmap_app, Hi, len_app. change (len [e]) with 1.
    rewrite seqZ_app by (pose proof (len_nonneg es); lia). simpl. f_equal.
    replace (i + 1 + len es) with (i + len es + 1) by lia. by rewrite <- Hx.
  - apply Forall_app. auto.
Qed.

(** The terms of a log never fall, starting from the term [t]. *)
Definition in_order (t : Z) (es : list LogEntry) : Prop := StronglySorted Z.le (t :: (Term <$> es)).

Lemma in_order_snoc t es e :
  in_order t es → default t (Term <$> last es) ≤ Term e → in_order t (es ++ [e]).
Proof.
  unfold in_order. intros Ht Hle.
  rewrite fmap_app. cbn [fmap list_fmap].
  change (t :: (Term <$> es) ++ [Term e]) with ((t :: (Term <$> es)) ++ [Term e]).
  apply StronglySorted_snoc; [done|]. intros x Hin.
  destruct es as [|e' es' _] using rev_ind.
  + simpl in *. apply list_elem_of_singleton in Hin as ->. done.
  + rewrite last_snoc in Hle. simpl in Hle. transitivity (Term e'); [|done].
    rewrite fmap_app, app_comm_cons in Ht, Hin. simpl in Ht.
    apply elem_of_app in Hin as [Hin|Hin].
    * by apply (StronglySorted_app_lt Z.le (t :: (Term <$> es'))).
    * simpl in Hin. apply list_elem_of_singleton in Hin. lia.
Qed.

Lemma in_order_take t es n : in_order t es → in_order t (take n es).
Proof.
  unfold in_order. intros Ht. rewrite fmap_take.
  rewrite <- (take_drop n (Term <$> es)), app_comm_cons in Ht.
  by apply StronglySorted_app_l in Ht.
Qed.

Lemma in_order_drop t l e k : in_order t ((l ++ [e]) ++ k) → in_order (Term e) k.
Proof.
  unfold in_order. intros Ht. rewrite <- app_assoc, fmap_app in Ht. cbn [fmap list_fmap app] in Ht.
  rewrite app_comm_cons in Ht. by apply StronglySorted_app_r in Ht.
Qed.

Lemma in_order_le t l e k : in_order t ((l ++ [e]) ++ k) → t ≤ Term e.
Proof.
  intros Ht. apply (in_order_take _ _ (length (l ++ [e]))) in Ht.
  rewrite take_app_length in Ht. unfold in_order in Ht.
  rewrite fmap_app in Ht. cbn [fmap list_fmap] in Ht. rewrite app_comm_cons in Ht.
  apply (StronglySorted_app_lt Z.le (t :: (Term <$> l))); [done|by left].
Qed.

Lemma log_name_not_active t i : int64_ok t → int64_ok i → log_name t i ≠ active_log.
Proof. intros Ht Hi H. apply (f_equal sscanf_log) in H. by rewrite sscanf_log_name in H. Qed.

Lemma log_core_int64 st : log_core st → int64_ok (discTerm (hd st)) ∧ int64_ok (discIndex (hd st)).
Proof.
  intros []. unfold int64_ok in *. pose proof (len_nonneg (entries (hd st))). lia.
Qed.

Lemma wal_not_active st : log_core st → fname (wal (hd st)) ≠ active_log.
Proof. intros [? ?]%log_core_int64. by apply log_name_not_active. Qed.

Lemma no_later_set d name c c' t i :
  files d !! name = Some (Reg c) → no_later d t i → no_later (set_content name c' d) t i.
Proof.
  intros Hn Hd name' c'' t' i'. destruct (decide (name = name')) as [->|].
  - intros _. by apply (Hd _ c).
  - rewrite set_content_lookup_ne by done. apply Hd.
Qed.

Lemma no_newer_set d name c c' i :
  files d !! name = Some (Reg c) → no_newer d i → no_newer (set_content name c' d) i.
Proof.
  intros Hn Hd name' c'' t' i'. destruct (decide (name = name')) as [->|].
  - intros _. by apply (Hd _ c).
  - rewrite set_content_lookup_ne by done. apply Hd.
Qed.

Lemma nodir_set d name c :
  (∀ name, files d !! name ≠ Some Dir) → ∀ n, files (set_content name c d) !! n ≠ Some Dir.
Proof.
  intros Hd n. destruct (decide (name = n)) as [->|].
  - by rewrite set_content_lookup.
  - by rewrite set_content_lookup_ne.
Qed.
#[export] Hint Resolve nodir_set no_later_set no_newer_set : hive.

(** The invariant only sees the channel through its being open. *)
Lemma log_core_signal d h c :
  is_Some c → log_core (mkStore d h) → log_core (mkStore d (set_signal c h)).
Proof. intros Hc []. by split. Qed.

Lemma log_core_entry_signal d h : log_core (mkStore d h) → log_core (mkStore d (entry_signal h)).
Proof.
  intros H. unfold entry_signal. destruct (log_full h); [|done].
  apply log_core_signal; [|done]. destruct H as [???????????? [? Hs]].
  simpl in Hs. rewrite Hs. by eexists.
Qed.

(** New entries and the file [a] that holds them. *)
Definition appended_to (a : file) (e : LogEntry) (st : Store) : Store :=
  mkStore (set_content (fname a) (encode_all (entries (hd st)) ++ encodeLogEntry e) (disk st))
    (entry_signal (set_entries (entries (hd st) ++ [e])
       (set_currentSize (currentSize (hd st) + len (encodeLogEntry e))
          (set_prev (Index e) (Term e) (hd st))))).

Definition appended (e : LogEntry) (st : Store) : Store := appended_to (wal (hd st)) e st.

(** What appends need: a log in memory and on an open file, under whatever name. *)
Record live (a : file) (st : Store) : Prop := {
  lv_calm : calm (disk st);
  lv_active : activeFile (hd st) = Some a;
  lv_handle : fopen a = true ∧ fappend a = true;
  lv_file : files (disk st) !! fname a = Some (Reg (encode_all (entries (hd st))));
  lv_entries : continues (discIndex (hd st)) (entries (hd st));
  lv_prev : prevIndex (hd st) = discIndex (hd st) + len (entries (hd st));
  lv_term : prevTerm (hd st) = default (discTerm (hd st)) (Term <$> last (entries (hd st)));
  lv_disc : 0 ≤ discIndex (hd st);
  lv_bound : prevIndex (hd st) < 2 ^ 63
}.

Lemma log_core_live st : log_core st → live (wal (hd st)) st.
Proof. intros [Hc Ha Hw Hs Hen Hp Hpt [Hd _] Hb Hnd Hsn Hsd Hch]. by split. Qed.

Lemma live_signal a d h c : live a (mkStore d h) → live a (mkStore d (set_signal c h)).
Proof. intros []. by split. Qed.

Lemma live_entry_signal a d h : live a (mkStore d h) → live a (mkStore d (entry_signal h)).
Proof. intros H. unfold entry_signal. destruct (log_full h); [by apply live_signal | done]. Qed.

Lemma Append_live a e st :
  live a st → entry_ok e → Index e = prevIndex (hd st) + 1 →
  Append e st = (Ok tt, appended_to a e st).
Proof.
  intros [Hc Ha [Ho Hap] Hw Hen Hp Hpt Hd Hb] He Hi.
  rewrite (Append_calm _ _ a); try done.
  - unfold appended_to. by erewrite content_lookup by done.
  - apply ok_index, He.
Qed.

Lemma encode_all_snoc es e : encode_all (es ++ [e]) = encode_all es ++ encodeLogEntry e.
Proof.
  rewrite encode_all_app, encode_all_cons. change (encode_all []) with (@nil byte).
  by rewrite app_nil_r.
Qed.

Lemma live_appended a e st :
  live a st → entry_ok e → Index e = prevIndex (hd st) + 1 →
  live a (appended_to a e st).
Proof.
  intros [Hc Ha Hh Hw Hen Hp Hpt Hd Hb] He Hi. apply live_entry_signal.
  split; fields; try done.
  - rewrite encode_all_snoc. apply set_content_lookup.
  - apply continues_snoc; [done..|lia].
  - rewrite len_app. change (len [e]) with 1. lia.
  - by rewrite last_snoc.
  - pose proof (ok_index _ He) as [_ ?]. lia.
Qed.

Lemma Append_ok e st :
  log_core st → entry_ok e → Index e = prevIndex (hd st) + 1 → Append e st = (Ok tt, appended e st).
Proof. intros H. by apply Append_live, log_core_live. Qed.

Lemma log_core_appended e st :
  log_core st → entry_ok e → Index e = prevIndex (hd st) + 1 →
  log_core (appended e st).
Proof.
  intros H He Hi. pose proof (wal_not_active _ H) as Hna.
  destruct H as [Hc Ha Hw Hs Hen Hp Hpt Hd Hb Hnd Hsn (es & Hes & Hsd) Hch].
  apply log_core_entry_signal. split; fields; try done.
  - rewrite encode_all_snoc. apply set_content_lookup.
  - rewrite encode_all_snoc, len_app. lia.
  - apply continues_snoc; [done..|lia].
  - rewrite len_app. change (len [e]) with 1. lia.
  - by rewrite last_snoc.
  - pose proof (ok_index _ He) as [_ ?]. lia.
  - by apply nodir_set.
  - exists es. split; [done|]. rewrite <- Hsd. by apply set_content_lookup_ne.
Qed.

(** ** Truncation *)

Lemma find_index_seqZ b es i :
  Index <$> es = seqZ b (len es) →
  find_index i es = if (b <=? i) && (i <? b + len es) then Some (Z.to_nat (i - b)) else None.
Proof.
  revert b. induction es as [|e es IH]; intros b H; simpl.
  - rewrite len_nil, Z.add_0_r. destruct (b <=? i) eqn:E; [|done]. simpl.
    bool_to_prop. by rewrite (proj2 (Z.ltb_ge _ _)).
  - rewrite len_cons in *. rewrite seqZ_cons in H by (pose proof (len_nonneg es); lia).
    replace (Z.pred (1 + len es)) with (len es) in H by lia.
    rewrite fmap_cons in H. injection H as <- H.
    replace (Z.succ (Index e)) with (Index e + 1) in H by lia. rewrite (IH (Index e + 1)) by done.
    pose proof (len_nonneg es). destruct (Index e =? i) eqn:E; bool_to_prop.
    + subst. rewrite Z.leb_refl, Z.sub_diag, (proj2 (Z.ltb_lt _ _)) by lia. done.
    + destruct (Z_lt_le_dec i (Index e)).
      * by rewrite !(proj2 (Z.leb_gt _ i)) by lia.
      * rewrite !(proj2 (Z.leb_le _ i)) by lia. simpl.
        replace (Index e + 1 + len es) with (Index e + (1 + len es)) by lia.
        destruct (i <? _); [|done]. simpl. f_equal. lia.
Qed.

Lemma continues_take i es n : continues i es → continues i (take n es).
Proof.
  intros [Hi Ho]. split.
  - rewrite fmap_take, Hi. unfold len. rewrite length_take.
    apply list_eq. intros j. destruct (decide (j < n)%nat).
    + rewrite lookup_take_lt by lia.
      apply option_eq. intros x. rewrite !lookup_seqZ. lia.
    + rewrite lookup_take_ge by lia. symmetry. apply lookup_seqZ_ge. lia.
  - by apply Forall_take.
Qed.

Lemma continues_last i es e :
  continues i es → last es = Some e → Index e = i + len es.
Proof.
  intros [Hi _] Hl. destruct es as [|x es _] using rev_ind; [done|].
  rewrite last_snoc in Hl. simplify_eq. rewrite fmap_app, len_app in Hi. change (len [e]) with 1 in Hi.
  rewrite seqZ_app in Hi by (pose proof (len_nonneg es); lia).
  apply app_inj_1 in Hi as [_ Hi]; [|rewrite length_fmap, length_seqZ; unfold len; lia].
  simpl in Hi. rewrite len_app. change (len [e]) with 1.
  injection Hi. lia.
Qed.

Lemma log_core_truncated n st :
  log_core st → (0 < n)%nat → entries (hd st) ≠ [] → log_core (truncated (wal (hd st)) n st).
Proof.
  intros H Hn Hne. pose proof (wal_not_active _ H) as Hna.
  destruct H as [Hc Ha Hw Hs Hen Hp Hpt Hd Hb Hnd Hsn (es & Hes & Hsd) Hch].
  unfold truncated. cbv zeta.
  destruct (last (take n (entries (hd st)))) as [e|] eqn:Hl.
  2: { apply last_None in Hl. destruct n; [lia|]. by destruct (entries (hd st)). }
  pose proof (continues_take _ _ n Hen) as Hen'.
  pose proof (continues_last _ _ _ Hen' Hl) as Hidx.
  split; fields; try done.
  - apply set_content_lookup.
  - by rewrite Hl.
  - assert (len (take n (entries (hd st))) ≤ len (entries (hd st)))
      by (unfold len; rewrite length_take; lia). lia.
  - by apply nodir_set.
  - exists es. split; [done|]. rewrite <- Hsd. by apply set_content_lookup_ne.
Qed.

Lemma TruncateLog_ok i st :
  log_core st →
  TruncateLog i st =
    (Ok tt, if (discIndex (hd st) + 1 <=? i) && (i <=? prevIndex (hd st))
            then truncated (wal (hd st)) (Z.to_nat (i - discIndex (hd st) - 1)) st else st).
Proof.
  intros H. pose proof (find_index_seqZ _ _ i (co_index _ _ (lc_entries _ H))) as Hf.
  destruct H as [Hc Ha Hw Hs Hen Hp Hpt Hd Hb Hnd Hsn Hsd Hch].
  replace (i <=? prevIndex (hd st)) with (i <? discIndex (hd st) + 1 + len (entries (hd st)))
    by (apply Bool.eq_true_iff_eq; rewrite Z.ltb_lt, Z.leb_le; lia).
  destruct (_ && _).
  - rewrite Z.sub_add_distr in Hf. by apply TruncateLog_calm.
  - by apply TruncateLog_absent.
Qed.

(** ** The storage as a transition system

    [StoreSnapshot] runs beside the other operations and holds the lock only in
    its first and last parts, so appends and truncations can come between its
    parts. [A] says which entries the callers append. *)

Inductive phase := Idle | Planned (p : plan) | Written (p : plan) (f : file).

(** A truncation leaves an entry in memory and, while a compaction is under
    way, all those the compaction has taken. *)
Definition spares (i : Z) (st : Store) (ph : phase) : Prop :=
  match ph with
  | Idle => i ≠ discIndex (hd st) + 1
  | Planned p | Written p _ => lastIndex p < i
  end.

Inductive storage_step (ord : MapOrder) (A : Handler → LogEntry → Prop) :
    Store * phase → Store * phase → Prop :=
| step_append e r st st' ph :
    entry_ok e → A (hd st) e → Append e st = (r, st') → storage_step ord A (st, ph) (st', ph)
| step_truncate i r st st' ph :
    spares i st ph → TruncateLog i st = (r, st') → storage_step ord A (st, ph) (st', ph)
| step_skip st st' :
    SnapshotRequired (hd st) = Some true → snapshot_begin ord st = (Ok None, st') →
    storage_step ord A (st, Idle) (st', Idle)
| step_begin p st st' :
    SnapshotRequired (hd st) = Some true → snapshot_begin ord st = (Ok (Some p), st') →
    storage_step ord A (st, Idle) (st', Planned p)
| step_write p f st st' :
    snapshot_write p st = (Ok f, st') → storage_step ord A (st, Planned p) (st', Written p f)
| step_rotate p f st st' :
    rotateFile f (lastIndex p) (lastTerm p) (lastIndex p) st = (Ok tt, st') →
    storage_step ord A (st, Written p f) (st', Idle).

(** Entries of any term, as [Append] takes them. *)
Definition any_entry (h : Handler) (e : LogEntry) : Prop := True.

(** Entries whose term is at least the log's last. *)
Definition term_kept (h : Handler) (e : LogEntry) : Prop := prevTerm h ≤ Term e.

(** A process that appends entries of non-falling terms, and may be killed
    between two steps and started again on the same directory. *)
Inductive process_step (ord : MapOrder) : Store * phase → Store * phase → Prop :=
| process_op s s' : storage_step ord term_kept s s' → process_step ord s s'
| process_restart m st ph h d :
    LoadStorage m (disk st) = (Ok h, d) → process_step ord (st, ph) (mkStore d h, Idle).

(** A plan covers a non-empty prefix of the log. *)
Definition planned (p : plan) (st : Store) : Prop :=
  Forall entry_ok (compressedData p) ∧
  ∃ old e new, entries (hd st) = (old ++ [e]) ++ new ∧ lastIndex p = Index e ∧ lastTerm p = Term e.

Definition phase_ok (st : Store) (ph : phase) : Prop :=
  match ph with
  | Idle => no_newer (disk st) (discIndex (hd st))
  | Planned p => no_newer (disk st) (discIndex (hd st)) ∧ planned p st
  | Written p f =>
      planned p st ∧ f = mkFile (log_name (lastTerm p) (lastIndex p)) 0 true true ∧
      files (disk st) !! fname f = Some (Reg []) ∧ no_newer (disk st) (lastIndex p)
  end.

Definition sys_ok (s : Store * phase) : Prop := log_core s.1 ∧ phase_ok s.1 s.2.

Lemma Append_refused e st :
  log_core st → Index e ≠ prevIndex (hd st) + 1 → entry_ok e →
  Append e st = (Err (if Index e <=? prevIndex (hd st) then ErrAppendIndexBehind
                      else ErrAppendIndexAhead), st).
Proof.
  intros H Hne He. pose proof (ok_index _ He) as Hi. unfold Append.
  rewrite (io_bind_Ok get _ st st st) by done.
  destruct (Index e <=? prevIndex (hd st)) eqn:E; [done|]. bool_to_prop.
  pose proof (lc_bound _ H). pose proof (lc_prev _ H). pose proof (lc_disc _ H).
  pose proof (len_nonneg (entries (hd st))).
  rewrite wrap64_id, (proj2 (Z.ltb_lt _ _)) by (unfold int64_ok in *; lia). done.
Qed.

(** The file of a later position differs from the active log. *)
Lemma planned_later p st :
  log_core st → planned p st →
  int64_ok (lastTerm p) ∧ int64_ok (lastIndex p) ∧ discIndex (hd st) < lastIndex p.
Proof.
  intros H (_ & old & e & new & He & -> & ->). pose proof (lc_entries _ H) as Hen.
  assert (continues (discIndex (hd st)) (old ++ [e])) as Ho.
  { rewrite He in Hen. apply (continues_take _ _ (length (old ++ [e]))) in Hen.
    by rewrite take_app_length in Hen. }
  pose proof (continues_last _ _ e Ho ltac:(by rewrite last_snoc)) as Hx.
  destruct Ho as [_ Hok]. rewrite Forall_app, Forall_singleton in Hok.
  destruct Hok as [_ []]. split_and!; [done..|].
  rewrite len_app in Hx. change (len [e]) with 1 in Hx. pose proof (len_nonneg old). lia.
Qed.

Lemma wal_ne_later p st :
  log_core st → planned p st → fname (wal (hd st)) ≠ log_name (lastTerm p) (lastIndex p).
Proof.
  intros H Hp Heq. pose proof (log_core_int64 _ H) as [??].
  apply planned_later in Hp as (? & ? & ?); [|done].
  apply log_name_inj in Heq as [? ?]; [lia|done..].
Qed.

Lemma entries_signal h : entries (entry_signal h) = entries h.
Proof. unfold entry_signal. by destruct (log_full h). Qed.

Lemma planned_appended p e st : planned p st → planned p (appended e st).
Proof.
  intros (Hc & old & x & new & He & Hi & Ht). split; [done|]. exists old, x, (new ++ [e]).
  unfold appended, appended_to. cbn [hd]. rewrite entries_signal. cbn [entries set_entries].
  rewrite He. by rewrite <- !app_assoc.
Qed.

Lemma disc_appended e st :
  discTerm (hd (appended e st)) = discTerm (hd st) ∧
  discIndex (hd (appended e st)) = discIndex (hd st).
Proof. unfold appended, appended_to, entry_signal. simpl. by destruct (log_full _). Qed.

Lemma phase_ok_appended e st ph : log_core st → phase_ok st ph → phase_ok (appended e st) ph.
Proof.
  intros H. destruct (disc_appended e st) as [_ Hi]. pose proof (lc_wal _ H) as Hw.
  destruct ph as [|p|p f]; cbn [phase_ok]; rewrite ?Hi.
  - intros. eapply no_newer_set; [exact Hw | done].
  - intros [? ?]. split; [eapply no_newer_set; [exact Hw | done] | by apply planned_appended].
  - intros (Hp & -> & Hf & Hl). pose proof (wal_ne_later _ _ H Hp).
    split_and!; [by apply planned_appended | done | | eapply no_newer_set; [exact Hw | done]].
    rewrite <- Hf. by apply set_content_lookup_ne.
Qed.

(** A truncation after a compaction's last entry leaves what it has taken. *)
Lemma planned_truncated p i st :
  log_core st → planned p st → lastIndex p < i →
  planned p (truncated (wal (hd st)) (Z.to_nat (i - discIndex (hd st) - 1)) st).
Proof.
  intros H Hp Hlt. pose proof Hp as (Hc & old & e & new & He & Hi & Ht). split; [done|].
  set (n := Z.to_nat (i - discIndex (hd st) - 1)).
  exists old, e, (take (n - length (old ++ [e])) new). split_and!; [|done..].
  assert (entries (hd (truncated (wal (hd st)) n st)) = take n (entries (hd st))) as ->.
  { unfold truncated. cbv zeta. by destruct (last _). }
  rewrite He, take_app, take_ge; [done|].
  pose proof (lc_entries _ H) as Hen. rewrite He in Hen.
  apply (continues_take _ _ (length (old ++ [e]))) in Hen. rewrite take_app_length in Hen.
  pose proof (continues_last _ _ e Hen ltac:(by rewrite last_snoc)) as Hx.
  unfold n, len in *. lia.
Qed.

Lemma disc_truncated f n st :
  discTerm (hd (truncated f n st)) = discTerm (hd st) ∧
  discIndex (hd (truncated f n st)) = discIndex (hd st).
Proof. unfold truncated. cbv zeta. by destruct (last _). Qed.

Lemma phase_ok_truncated i st ph :
  log_core st → phase_ok st ph → spares i st ph →
  phase_ok (truncated (wal (hd st)) (Z.to_nat (i - discIndex (hd st) - 1)) st) ph.
Proof.
  intros H. destruct (disc_truncated (wal (hd st)) (Z.to_nat (i - discIndex (hd st) - 1)) st) as [_ Hi].
  pose proof (lc_wal _ H) as Hw.
  destruct ph as [|p|p f]; cbn [phase_ok spares]; rewrite ?Hi.
  - intros ? _. eapply no_newer_set; [exact Hw | done].
  - intros [? ?] ?. split; [eapply no_newer_set; [exact Hw | done] | by apply planned_truncated].
  - intros (Hp & -> & Hf & Hl) ?. pose proof (wal_ne_later _ _ H Hp).
    split_and!; [by apply planned_truncated | done | | eapply no_newer_set; [exact Hw | done]].
    rewrite <- Hf. by apply set_content_lookup_ne.
Qed.

(** A truncation that spares an entry empties the log in no phase. *)
Lemma spares_not_first i st ph :
  log_core st → phase_ok st ph → spares i st ph → i ≠ discIndex (hd st) + 1.
Proof.
  intros H Hph. destruct ph as [|p|p f]; cbn [phase_ok spares] in *; [done|..].
  - destruct Hph as [_ Hp]. pose proof (planned_later _ _ H Hp). lia.
  - destruct Hph as [Hp _]. pose proof (planned_later _ _ H Hp). lia.
Qed.

Lemma snapshot_begin_ok ord st :
  log_core st →
  snapshot_begin ord st =
    (Ok ((λ e, mkPlan (createSnapshot ord (entries (hd st))) (Index e) (Term e))
           <$> last (entries (hd st))),
     mkStore (disk st) (set_signal (Some false) (hd st))).
Proof.
  intros H. destruct (lc_snap _ H) as (f & Hf & _). destruct (lc_chan _ H) as [b Hb].
  unfold snapshot_begin. erewrite (io_bind_Ok (update _)) by done.
  erewrite (io_bind_Ok get) by done. cbn [hd snapshotFile set_signal entries].
  rewrite Hf, Hb. by destruct (last _).
Qed.

Lemma sys_ok_begin ord st ph p st' :
  sys_ok (st, ph) → phase_ok st Idle → snapshot_begin ord st = (Ok p, st') →
  sys_ok (st', match p with Some p => Planned p | None => Idle end).
Proof.
  intros [H _] Hl Hb. simpl in H. rewrite snapshot_begin_ok in Hb by done.
  injection Hb as <- <-.
  split; [by apply (log_core_signal _ (hd st)); [|destruct st]|].
  destruct (last (entries (hd st))) as [e|] eqn:E; simpl; [|done].
  split; [done|]. apply last_Some in E as [old Hold]. split.
  - apply createSnapshot_Forall, (co_ok _ _ (lc_entries _ H)).
  - exists old, e, []. simpl. by rewrite app_nil_r.
Qed.

Lemma later_is_new p st :
  log_core st → no_newer (disk st) (discIndex (hd st)) → planned p st →
  files (disk st) !! log_name (lastTerm p) (lastIndex p) = None.
Proof.
  intros H Hl Hp. pose proof (planned_later _ _ H Hp) as (Ht & Hi & ?).
  destruct (files (disk st) !! _) as [[c|]|] eqn:E; [|by apply (lc_nodir _ H) in E|done].
  pose proof (Hl _ _ _ _ E (sscanf_log_name _ _ Ht Hi)). lia.
Qed.

(** The state once the next log file exists: the snapshot and an empty file. *)
Definition written (p : plan) (st : Store) : Store :=
  mkStore
    (set_content (log_name (lastTerm p) (lastIndex p)) []
       (set_content active_log (encode_all (compressedData p)) (disk st)))
    (set_snapshotFile (Some (mkFile active_log (len (encode_all (compressedData p))) false true))
       (hd st)).

Lemma snapshot_write_eq p st :
  log_core st → no_newer (disk st) (discIndex (hd st)) → planned p st →
  snapshot_write p st = (Ok (mkFile (log_name (lastTerm p) (lastIndex p)) 0 true true), written p st).
Proof.
  intros H Hl Hp. pose proof (planned_later _ _ H Hp) as (? & ? & ?).
  pose proof (later_is_new _ _ H Hl Hp) as Hnew.
  assert (log_name (lastTerm p) (lastIndex p) ≠ active_log) as Hna by by apply log_name_not_active.
  pose proof (lc_snap _ H) as (sf & Hsf & ? & Hso). pose proof (lc_snapdata _ H) as (es & _ & Hsd).
  rewrite (snapshot_write_calm _ _ sf (encode_all es)); [|by apply lc_calm|done..|by rewrite Hnew].
  unfold written, written_disk, opened. by rewrite set_content_lookup_ne, Hnew by done.
Qed.

(** The log files beside the two that writing a snapshot touches. *)
Lemma written_lookup p st n c :
  files (disk (written p st)) !! n = Some (Reg c) →
  n = log_name (lastTerm p) (lastIndex p) ∨ n = active_log ∨ files (disk st) !! n = Some (Reg c).
Proof.
  unfold written. cbn [disk]. intros Hn.
  destruct (decide (n = log_name (lastTerm p) (lastIndex p))) as [->|]; [by left|].
  rewrite set_content_lookup_ne in Hn by done.
  destruct (decide (n = active_log)) as [->|]; [by right; left|].
  rewrite set_content_lookup_ne in Hn by done. by right; right.
Qed.

Lemma sys_ok_write p f st st' :
  sys_ok (st, Planned p) → snapshot_write p st = (Ok f, st') → sys_ok (st', Written p f).
Proof.
  intros [H [Hl Hp]] Hw. simpl in H, Hl, Hp. rewrite snapshot_write_eq in Hw by done.
  injection Hw as <- <-.
  pose proof (planned_later _ _ H Hp) as (Ht & Hi & Hlt).
  pose proof (wal_not_active _ H) as Hwa. pose proof (wal_ne_later _ _ H Hp) as Hwl.
  pose proof (log_name_not_active _ _ Ht Hi) as Hna.
  destruct H as [Hc Ha Hw Hs Hen Hpv Hpt Hd Hb Hnd Hsn _ Hch]. split.
  - split; try done.
    + etrans; [|exact Hw]. cbn [disk written].
      etrans; by apply set_content_lookup_ne.
    + do 2 apply nodir_set. done.
    + eexists. by split_and!.
    + exists (compressedData p). split; [apply Hp|]. etrans; [|by apply set_content_lookup].
      by apply set_content_lookup_ne.
  - cbn [phase_ok fst snd]. split_and!; [exact Hp|done|apply set_content_lookup|].
    intros n c t i [-> | [-> | Hn]]%written_lookup Hsc; [|done|].
    + rewrite sscanf_log_name in Hsc by done. by simplify_eq.
    + pose proof (Hl _ _ _ _ Hn Hsc). lia.
Qed.

Lemma continues_range i es e : continues i es → e ∈ es → i < Index e ≤ i + len es.
Proof.
  intros [Hi _] He. assert (Index e ∈ seqZ (i + 1) (len es)) as Hin.
  { rewrite <- Hi. by apply list_elem_of_fmap_2. }
  apply elem_of_seqZ in Hin. lia.
Qed.

Lemma continues_drop i l e k :
  continues i ((l ++ [e]) ++ k) → continues (Index e) k.
Proof.
  intros H. assert (continues i (l ++ [e])) as Hl.
  { apply (continues_take _ _ (length (l ++ [e]))) in H. by rewrite take_app_length in H. }
  pose proof (continues_last _ _ e Hl ltac:(by rewrite last_snoc)) as Hx.
  destruct H as [Hi Ho]. split.
  - rewrite fmap_app, len_app in Hi.
    rewrite seqZ_app in Hi by (pose proof (len_nonneg (l ++ [e])); pose proof (len_nonneg k); lia).
    apply app_inj_1 in Hi as [_ Hi]; [|rewrite length_fmap, length_seqZ; unfold len; lia].
    rewrite Hi. f_equal. lia.
  - rewrite Forall_app in Ho. tauto.
Qed.

Lemma filter_later i l e k :
  continues i ((l ++ [e]) ++ k) → filter (λ x, Index e < Index x) ((l ++ [e]) ++ k) = k.
Proof.
  intros H. pose proof (continues_drop _ _ _ _ H) as Hk.
  assert (continues i (l ++ [e])) as Hl.
  { apply (continues_take _ _ (length (l ++ [e]))) in H. by rewrite take_app_length in H. }
  pose proof (continues_last _ _ e Hl ltac:(by rewrite last_snoc)) as Hx.
  rewrite filter_app, filter_Forall_false, filter_Forall_true; [done|..];
    apply Forall_forall; intros x Hin.
  - apply (continues_range _ _ _ Hk) in Hin. lia.
  - apply (continues_range _ _ _ Hl) in Hin. lia.
Qed.

(** ** The invariant holds in every reachable state *)

Lemma sys_ok_rotate p f st st' :
  sys_ok (st, Written p f) →
  rotateFile f (lastIndex p) (lastTerm p) (lastIndex p) st = (Ok tt, st') → sys_ok (st', Idle).
Proof.
  intros [H (Hp & -> & Hf & Hl)] Hr. cbn [fst snd] in *.
  pose proof (planned_later _ _ H Hp) as (HT & HI & Hlt).
  pose proof (log_name_not_active _ _ HT HI) as Hna.
  destruct H as [Hc Ha Hw Hs Hen Hpv Hpt Hd Hb Hnd Hsn (es & Hes & Hsd) Hch].
  rewrite (rotateFile_calm _ _ _ (wal (hd st))) in Hr by done. injection Hr as <-.
  destruct Hp as (_ & old & e & new & He & Hpi & Hpt'). rewrite He, Hpi, Hpt' in *.
  pose proof (continues_drop _ _ _ _ Hen) as Hk.
  rewrite (filter_later _ _ _ _ Hen).
  pose proof (continues_take _ _ (length (old ++ [e])) Hen) as Ho.
  rewrite take_app_length in Ho.
  pose proof (continues_last _ _ e Ho ltac:(by rewrite last_snoc)) as Hx.
  unfold rotated. split; cbn [phase_ok]; fields; rewrite ?Hpi, ?Hpt'.
  - split; fields; rewrite ?Hpi, ?Hpt'; try done.
    + unfold wal. cbn [fname]. fields. apply set_content_lookup.
    + rewrite Hpv, len_app, Hx. lia.
    + rewrite Hpt. destruct new as [|x new _] using rev_ind; [by rewrite app_nil_r, last_snoc|].
      by rewrite app_assoc, !last_snoc.
    + split; [|done]. rewrite <- Hpi. lia.
    + by apply nodir_set.
    + exists es. split; [done|]. rewrite <- Hsd. by apply set_content_lookup_ne.
  - cbn [fname] in *. by eapply no_newer_set.
Qed.

Lemma storage_step_ok ord A s s' : storage_step ord A s s' → sys_ok s → sys_ok s'.
Proof.
  inversion 1 as [e r st st' ph He Ht Happ|i r st st' ph Hi Htr|st st' Hs Hb|p st st' Hs Hb
    |p f st st' Hw|p f st st' Hr]; subst; intros Hok.
  - destruct Hok as [Hc Hph]. destruct (decide (Index e = prevIndex (hd st) + 1)) as [Heq|Hne].
    + rewrite Append_ok in Happ by done. simplify_eq.
      split; [by apply log_core_appended | by apply phase_ok_appended].
    + rewrite Append_refused in Happ by done. by simplify_eq.
  - destruct Hok as [Hc Hph]. cbn [fst snd] in *. rewrite TruncateLog_ok in Htr by done.
    simplify_eq. pose proof (spares_not_first _ _ _ Hc Hph Hi) as Hne.
    destruct (_ && _) eqn:E; [|done]. bool_to_prop.
    pose proof (lc_prev _ Hc) as Hp.
    split; cbn [fst snd]; [|by apply phase_ok_truncated].
    apply log_core_truncated; [done|lia|]. intros Hnil. rewrite Hnil, len_nil in Hp. lia.
  - pose proof Hok as [_ Hl]. by apply (sys_ok_begin ord st Idle None).
  - pose proof Hok as [_ Hl]. by apply (sys_ok_begin ord st Idle (Some p)).
  - by eapply sys_ok_write.
  - by eapply sys_ok_rotate.
Qed.

(** ** Crash recovery *)

Lemma latest_log_spec dir acc t i n c :
  sscanf_log n = Some (t, i) →
  (∀ name c t' i', (name, Reg c) ∈ dir → sscanf_log name = Some (t', i') →
     name = n ∨ t' < t ∨ (t' = t ∧ i' < i)) →
  match acc with
  | None => (n, Reg c) ∈ dir
  | Some (t', i', n') =>
      n' = n ∧ t' = t ∧ i' = i ∨ ((n, Reg c) ∈ dir ∧ (t' < t ∨ (t' = t ∧ i' < i)))
  end →
  latest_log dir acc = Some (t, i, n).
Proof.
  intros Hn. revert acc. induction dir as [|[name nd] dir IH]; intros acc Hall Hacc; simpl.
  - destruct acc as [[[t' i'] n']|]; [|by apply elem_of_nil in Hacc].
    destruct Hacc as [(-> & -> & ->) | [Hin _]]; [done|by apply elem_of_nil in Hin].
  - assert (∀ name c t' i', (name, Reg c) ∈ dir → sscanf_log name = Some (t', i') →
      name = n ∨ t' < t ∨ (t' = t ∧ i' < i)) as Hall' by (intros; eapply Hall; [by right|done]).
    destruct nd as [cn|].
    2: { apply IH; [done|]. destruct acc as [[[t' i'] n']|].
         - destruct Hacc as [?|[[?|?]%elem_of_cons ?]]; [by left|done|by right].
         - apply elem_of_cons in Hacc as [?|?]; done. }
    destruct (sscanf_log name) as [[t' i']|] eqn:Hs.
    2: { apply IH; [done|]. destruct acc as [[[t' i'] n']|].
         - destruct Hacc as [?|[[?|?]%elem_of_cons ?]]; [by left|simplify_eq|by right].
         - apply elem_of_cons in Hacc as [?|?]; simplify_eq; done. }
    destruct (Hall name cn t' i' ltac:(by left) Hs) as [-> | Hlt].
    + rewrite Hn in Hs. simplify_eq. apply IH; [done|].
      destruct acc as [[[ta ia] na]|]; [|by left].
      destruct Hacc as [(-> & -> & ->)|[_ Hlt]].
      * rewrite !Z.ltb_irrefl, Z.eqb_refl. simpl. by left.
      * destruct Hlt as [Hlt|[-> Hlt]].
        -- rewrite (proj2 (Z.ltb_lt _ _)) by done. by left.
        -- rewrite Z.ltb_irrefl, Z.eqb_refl, (proj2 (Z.ltb_lt _ _)) by done. by left.
    + apply IH; [done|].
      assert ((n, Reg c) ∈ (name, Reg cn) :: dir → (n, Reg c) ∈ dir) as Hin.
      { intros [?|?]%elem_of_cons; [|done]. simplify_eq. lia. }
      destruct acc as [[[ta ia] na]|]; [|right; auto].
      destruct Hacc as [(-> & -> & ->)|[? Hlt']].
      * destruct ((t <? t') || _) eqn:E; [|by left]. apply orb_true_iff in E as [E|E]; bool_to_prop; lia.
      * destruct (_ || _); right; split; auto.
Qed.

Lemma findLatestLog_ok d t i c :
  calm d → int64_ok t → int64_ok i → files d !! log_name t i = Some (Reg c) →
  no_later d t i →
  findLatestLog d = (Ok (Some (mkFile (log_name t i) 0 false true), t, i), d).
Proof.
  intros Hc Ht Hi Hf Hl. unfold findLatestLog. erewrite io_bind_Ok.
  2: { apply wrap_err_Ok. unfold os_read_dir. erewrite io_bind_Ok by (by apply syscall_calm).
       reflexivity. }
  assert (∀ n nd, (n, nd) ∈ stable_sort name_lt (map_to_list (files d)) ↔ files d !! n = Some nd)
    as Hin by (intros; rewrite stable_sort_perm; apply elem_of_map_to_list).
  rewrite (latest_log_spec _ None t i (log_name t i) c).
  - erewrite io_bind_Ok; [done|]. apply wrap_err_Ok. rewrite os_open_calm.
    + unfold opened. by rewrite Hf.
    + done.
    + by rewrite Hf.
    + right. by rewrite Hf.
  - by apply sscanf_log_name.
  - intros name c' t' i' Hn%Hin. by apply (Hl name c').
  - by apply Hin.
Qed.

Lemma read_log_calm f es d :
  calm d → fopen f = true → fpos f = 0 → Forall entry_ok es →
  files d !! fname f = Some (Reg (encode_all es)) →
  read_log f d = (Ok (es, len (encode_all es)), d).
Proof.
  intros Hc Ho Hp Hes Hf. unfold read_log. erewrite io_bind_Ok.
  2: { apply wrap_err_Ok. by apply os_read_rest_calm. }
  rewrite (content_lookup _ _ _ Hf), read_encode_all by done. done.
Qed.

(** What [LoadStorage] finds when the newest log file is the one for [(t, i)]. *)
Lemma LoadStorage_newest m d t i es snap :
  calm d → int64_ok t → int64_ok i → Forall entry_ok es → Forall entry_ok snap →
  files d !! log_name t i = Some (Reg (encode_all es)) → no_later d t i →
  files d !! active_log = Some (Reg (encode_all snap)) →
  LoadStorage m d =
    (Ok (mkHandler (Some (mkFile (log_name t i) 0 true true))
           (Some (mkFile active_log 0 false true)) (len (encode_all es)) m
           (default i (Index <$> last es)) (default t (Term <$> last es)) i t es (Some false)), d).
Proof.
  intros Hc Ht Hi Hes Hsnap Hf Hl Ha. unfold LoadStorage.
  erewrite io_bind_Ok by (apply wrap_err_Ok; by apply syscall_calm).
  erewrite io_bind_Ok.
  2: { apply wrap_err_Ok. unfold findLatestSnapshot. erewrite io_bind_Ok.
       2: { apply try_Ok. apply os_open_calm; [done| |by left]. by rewrite Ha. }
       reflexivity. }
  assert (opened active_log (mkFlags true false false) d = d) as ->
    by (unfold opened; by rewrite Ha).
  erewrite io_bind_Ok by (apply wrap_err_Ok; by apply (findLatestLog_ok d t i (encode_all es))).
  cbv beta iota zeta. erewrite io_bind_Ok.
  2: { unfold read_snapshot. erewrite io_bind_Ok.
       2: { apply try_Ok. erewrite io_bind_Ok by (by apply os_seek0_calm).
            by apply (read_log_calm _ snap). }
       reflexivity. }
  cbv beta iota zeta.
  erewrite io_bind_Ok by (apply wrap_err_Ok; by apply (read_log_calm _ es)).
  cbv beta iota zeta.
  assert (match last es with Some e => (Index e, Term e) | None => (i, t) end =
    (default i (Index <$> last es), default t (Term <$> last es))) as -> by by destruct (last es).
  erewrite io_bind_Ok by (apply wrap_err_Ok; by apply os_close_calm).
  erewrite io_bind_Ok.
  2: { apply wrap_err_Ok, os_open_calm; [done| |]; cbn [fname]; rewrite Hf; [done|right; done]. }
  unfold opened. cbn [fname]. by rewrite Hf.
Qed.

(** The handler that recovery rebuilds from a handler's disk. *)
Definition recovered (m : Z) (h : Handler) : Handler :=
  mkHandler (Some (wal h)) (Some (mkFile active_log 0 false true)) (currentSize h) m
    (prevIndex h) (prevTerm h) (discIndex h) (discTerm h) (entries h) (Some false).

Lemma LoadStorage_ok m st :
  log_ok st → LoadStorage m (disk st) = (Ok (recovered m (hd st)), disk st).
Proof.
  intros [H Hl]. pose proof (log_core_int64 _ H) as [Ht Hi].
  destruct H as [Hc Ha Hw Hs Hen Hp Hpt Hd Hb Hnd Hsn (es & Hes & Hsd) Hch].
  rewrite (LoadStorage_newest m _ (discTerm (hd st)) (discIndex (hd st)) (entries (hd st)) es)
    by (done || apply Hen).
  unfold recovered, wal. rewrite Hs, Hpt.
  do 3 f_equal. destruct (last (entries (hd st))) as [e|] eqn:E; simpl.
  - rewrite Hp. by apply (continues_last _ _ _ Hen).
  - apply last_None in E. rewrite Hp, E, len_nil. lia.
Qed.

Lemma appended_to_fields a e st :
  let h := hd (appended_to a e st) in
  entries h = entries (hd st) ++ [e] ∧ prevIndex h = Index e ∧ prevTerm h = Term e ∧
  discIndex h = discIndex (hd st) ∧ discTerm h = discTerm (hd st) ∧
  activeFile h = activeFile (hd st) ∧
  content (disk (appended_to a e st)) (fname a) = encode_all (entries (hd st)) ++ encodeLogEntry e.
Proof.
  unfold appended_to, entry_signal. cbv zeta. cbn [hd disk].
  destruct (log_full _); fields; split_and!; try done; apply content_set.
Qed.

Lemma appended_fields e st :
  let h := hd (appended e st) in
  entries h = entries (hd st) ++ [e] ∧ prevIndex h = Index e ∧ prevTerm h = Term e ∧
  discIndex h = discIndex (hd st) ∧ discTerm h = discTerm (hd st) ∧
  activeFile h = activeFile (hd st) ∧
  content (disk (appended e st)) (fname (wal (hd st))) =
    encode_all (entries (hd st)) ++ encodeLogEntry e.
Proof. apply appended_to_fields. Qed.

Lemma truncated_fields f n st :
  let h := hd (truncated f n st) in
  entries h = take n (entries (hd st)) ∧ discIndex h = discIndex (hd st) ∧
  discTerm h = discTerm (hd st) ∧ activeFile h = activeFile (hd st).
Proof. unfold truncated. cbv zeta. by destruct (last _). Qed.

(** ** A process that is killed and started again *)

(** The file recovery takes is the one in use, or the one about to be. *)
Definition newest (st : Store) (ph : phase) : Prop :=
  match ph with
  | Idle | Planned _ => no_later (disk st) (discTerm (hd st)) (discIndex (hd st))
  | Written p _ => no_later (disk st) (lastTerm p) (lastIndex p)
  end.

Record process_ok (s : Store * phase) : Prop := {
  pr_sys : sys_ok s;
  pr_order : in_order (discTerm (hd s.1)) (entries (hd s.1));
  pr_newest : newest s.1 s.2
}.

Lemma newest_appended e st ph : log_core st → newest st ph → newest (appended e st) ph.
Proof.
  intros H. destruct (disc_appended e st) as [Ht Hi]. pose proof (lc_wal _ H) as Hw.
  destruct ph; cbn [newest]; rewrite ?Ht, ?Hi; intros; eapply no_later_set; [exact Hw|done|..];
    first [exact Hw | done].
Qed.

Lemma newest_truncated n st ph : log_core st → newest st ph → newest (truncated (wal (hd st)) n st) ph.
Proof.
  intros H. destruct (disc_truncated (wal (hd st)) n st) as [Ht Hi]. pose proof (lc_wal _ H) as Hw.
  destruct ph; cbn [newest]; rewrite ?Ht, ?Hi; intros; eapply no_later_set; first [exact Hw | done].
Qed.

(** A plan's term is at least the one its log starts from. *)
Lemma planned_term p st :
  in_order (discTerm (hd st)) (entries (hd st)) → planned p st → discTerm (hd st) ≤ lastTerm p.
Proof. intros Ho (_ & old & e & new & He & _ & ->). rewrite He in Ho. by apply in_order_le in Ho. Qed.

Lemma newest_written p f st :
  log_core st → planned p st → in_order (discTerm (hd st)) (entries (hd st)) →
  newest st (Planned p) → newest (written p st) (Written p f).
Proof.
  intros H Hp Ho Hl n c t i [-> | [-> | Hn]]%written_lookup Hsc; [by left|done|]. right.
  pose proof (planned_later _ _ H Hp) as (_ & _ & Hi). pose proof (planned_term _ _ Ho Hp) as Ht.
  destruct (Hl _ _ _ _ Hn Hsc) as [-> | ?]; [|lia].
  rewrite sscanf_log_name in Hsc by apply (log_core_int64 _ H). simplify_eq. lia.
Qed.

Lemma process_op_ok ord s s' : storage_step ord term_kept s s' → process_ok s → process_ok s'.
Proof.
  intros Hst [Hok Ho Hn]. pose proof (storage_step_ok _ _ _ _ Hst Hok) as Hok'.
  destruct Hst as [e r st st' ph He Ht Happ|i r st st' ph Hi Htr|st st' Hs Hb|p st st' Hs Hb
    |p f st st' Hw|p f st st' Hr]; cbn [fst snd] in *; pose proof Hok as [Hc Hph]; cbn [fst snd] in *.
  - destruct (decide (Index e = prevIndex (hd st) + 1)) as [Heq|Hne].
    + rewrite Append_ok in Happ by done. simplify_eq.
      split; [done| |by apply newest_appended]. cbn [fst].
      destruct (appended_fields e st) as (-> & _ & _ & _ & -> & _).
      apply in_order_snoc; [done|]. by rewrite <- (lc_term _ Hc).
    + rewrite Append_refused in Happ by done. by simplify_eq.
  - rewrite TruncateLog_ok in Htr by done. simplify_eq. destruct (_ && _); [|done].
    split; [done| |by apply newest_truncated]. cbn [fst].
    destruct (truncated_fields (wal (hd st)) (Z.to_nat (i - discIndex (hd st) - 1)) st)
      as (-> & _ & -> & _). by apply in_order_take.
  - rewrite snapshot_begin_ok in Hb by done. injection Hb as _ <-. by split.
  - rewrite snapshot_begin_ok in Hb by done. injection Hb as _ <-. by split.
  - destruct Hph as [Hl Hp]. rewrite snapshot_write_eq in Hw by done. injection Hw as <- <-.
    split; [done|done|]. by apply newest_written.
  - pose proof Hph as (Hp & -> & Hf & Hl).
    rewrite (rotateFile_calm _ _ _ (wal (hd st))) in Hr by (done || apply Hc). injection Hr as <-.
    destruct Hp as (_ & old & e & new & He & Hpi & Hpt). split; [done|..]; cbn [fst].
    + unfold rotated. fields. pose proof (lc_entries _ Hc) as Hen. rewrite He, Hpi, Hpt in *.
      rewrite (filter_later _ _ _ _ Hen). by apply in_order_drop in Ho.
    + cbn [newest]. unfold rotated. fields. by eapply no_later_set.
Qed.

(** A handler that recovery leaves: the directory's newest log is in use. *)
Lemma process_ok_fresh d t i es snap m :
  calm d → int64_ok t → 0 ≤ i → i + len es < 2 ^ 63 → continues i es → Forall entry_ok snap →
  in_order t es → (∀ n, files d !! n ≠ Some Dir) →
  files d !! log_name t i = Some (Reg (encode_all es)) → no_later d t i → no_newer d i →
  files d !! active_log = Some (Reg (encode_all snap)) →
  ∃ h, LoadStorage m d = (Ok h, d) ∧ process_ok (mkStore d h, Idle).
Proof.
  intros Hc Ht Hi Hb Hen Hsn Ho Hnd Hf Hl Hnew Ha. eexists. split.
  { apply (LoadStorage_newest m d t i es snap); try done; [|apply Hen].
    unfold int64_ok. pose proof (len_nonneg es). lia. }
  split; cbn [fst snd newest]; fields; [|done|done].
  assert (default i (Index <$> last es) = i + len es) as Hp.
  { destruct (last es) as [e|] eqn:E; simpl; [by apply (continues_last _ _ _ Hen)|].
    apply last_None in E. rewrite E, len_nil. lia. }
  split; cbn [fst snd phase_ok]; fields; [|done].
  split; fields; try done; [lia| |by exists snap].
  eexists. by split_and!.
Qed.

Lemma process_restart_ok m st ph h d :
  LoadStorage m (disk st) = (Ok h, d) → process_ok (st, ph) → process_ok (mkStore d h, Idle).
Proof.
  intros Hls [[H Hph] Ho Hn]. cbn [fst snd] in *.
  pose proof (log_core_int64 _ H) as [Ht _]. pose proof (lc_snapdata _ H) as (snap & Hsn & Ha).
  pose proof (lc_disc _ H) as [Hd _]. pose proof (lc_bound _ H) as Hb. pose proof (lc_prev _ H) as Hp.
  assert (∃ h, LoadStorage m (disk st) = (Ok h, disk st) ∧ process_ok (mkStore (disk st) h, Idle))
    as (h' & Hls' & Hok).
  { destruct ph as [|p|p f]; cbn [phase_ok newest] in *.
    - apply (process_ok_fresh _ (discTerm (hd st)) (discIndex (hd st)) (entries (hd st)) snap);
        first [done | lia | apply H].
    - destruct Hph as [Hph _].
      apply (process_ok_fresh _ (discTerm (hd st)) (discIndex (hd st)) (entries (hd st)) snap);
        first [done | lia | apply H].
    - destruct Hph as (Hpl & -> & Hf & Hnew). pose proof (planned_later _ _ H Hpl) as (HT & HI & ?).
      apply (process_ok_fresh _ (lastTerm p) (lastIndex p) [] snap);
        first [done | lia | apply H | apply continues_nil | rewrite len_nil; unfold int64_ok in HI; lia
              | repeat constructor]. }
  rewrite Hls in Hls'. by simplify_eq.
Qed.

Lemma process_step_ok ord s s' : process_step ord s s' → process_ok s → process_ok s'.
Proof.
  intros [s1 s2 Hst | m st ph h d Hls]; [by eapply process_op_ok | by eapply process_restart_ok].
Qed.

(** ** Reading a range *)

Lemma filter_index_range i es lo hi :
  continues i es → 0 ≤ lo → lo ≤ hi →
  filter (λ e, i + 1 + lo ≤ Index e < i + 1 + hi) es =
    take (Z.to_nat hi - Z.to_nat lo) (drop (Z.to_nat lo) es).
Proof.
  intros [Hi _] Hlo Hhi.
  rewrite <- (take_drop (Z.to_nat lo) es) at 1. rewrite filter_app.
  rewrite <- (take_drop (Z.to_nat hi - Z.to_nat lo) (drop (Z.to_nat lo) es)) at 1.
  rewrite filter_app.
  assert (∀ j x, es !! j = Some x → Index x = i + 1 + Z.of_nat j) as Hx.
  { intros j x Hj. apply (f_equal (fmap Index)) in Hj. rewrite <- list_lookup_fmap, Hi in Hj.
    apply lookup_seqZ in Hj. lia. }
  rewrite filter_Forall_false, filter_Forall_true, filter_Forall_false;
    [by rewrite app_nil_r|..]; apply Forall_forall; intros x [j Hj]%list_elem_of_lookup.
  - rewrite !lookup_drop in Hj. apply Hx in Hj. lia.
  - apply lookup_take_Some in Hj as [Hj ?]. rewrite lookup_drop in Hj. apply Hx in Hj. lia.
  - apply lookup_take_Some in Hj as [Hj ?]. apply Hx in Hj. lia.
Qed.

Lemma Entries_filter st startI endI :
  log_core st → 0 ≤ startI < 2 ^ 63 → 0 ≤ endI < 2 ^ 63 →
  Entries startI endI (hd st) = filter (λ e, startI ≤ Index e < endI) (entries (hd st)).
Proof.
  intros H Hs He.
  pose proof (lc_entries _ H) as Hen. pose proof (lc_bound _ H). pose proof (lc_prev _ H).
  pose proof (lc_disc _ H) as [Hd _]. pose proof (len_nonneg (entries (hd st))) as Hln.
  set (d := discIndex (hd st)) in *. set (es := entries (hd st)) in *.
  unfold Entries. fold d es.
  rewrite (wrap64_id (startI - d)), (wrap64_id (endI - d)) by (unfold int64_ok; lia).
  rewrite !wrap64_id by (unfold int64_ok; lia).
  set (lo := if startI - d - 1 <? 0 then 0 else startI - d - 1).
  set (hi0 := if endI - d - 1 <? 0 then 0 else endI - d - 1).
  set (hi := if len es <? hi0 then len es else hi0).
  assert (lo = Z.max 0 (startI - d - 1)) as Hlo by (unfold lo; destruct (_ <? _) eqn:E; bool_to_prop; lia).
  assert (hi = Z.min (len es) (Z.max 0 (endI - d - 1))) as Hhi.
  { unfold hi, hi0. destruct (endI - d - 1 <? 0) eqn:E;
    destruct (len es <? _) eqn:E'; bool_to_prop; lia. }
  clearbody lo hi. clear hi0. cbv zeta.
  assert (∀ x, x ∈ es → d + 1 ≤ Index x ≤ d + len es) as Hr.
  { intros x Hx. apply (continues_range _ _ _ Hen) in Hx. lia. }
  destruct (hi <=? lo) eqn:E; bool_to_prop.
  - symmetry. apply filter_Forall_false, Forall_forall. intros x Hx%Hr. lia.
  - replace (Z.to_nat (hi - lo)) with (Z.to_nat hi - Z.to_nat lo)%nat by lia.
    rewrite <- (filter_index_range d es lo hi) by (done || lia).
    apply filter_ext_in. intros x Hx%Hr. lia.
Qed.

(** The entry at an index, if it is still in memory. *)
Definition log_at (h : Handler) (i : Z) : option LogEntry :=
  if discIndex h <? i then entries h !! Z.to_nat (i - discIndex h - 1) else None.

(** The term the log has at an index, [0] when it no longer knows. *)
Definition term_at (h : Handler) (i : Z) : Z :=
  if i =? discIndex h then discTerm h else default 0 (Term <$> log_at h i).

Lemma continues_lookup i es j e :
  continues i es → es !! j = Some e → Index e = i + 1 + Z.of_nat j.
Proof.
  intros [Hi _] Hj. apply (f_equal (fmap Index)) in Hj. rewrite <- list_lookup_fmap, Hi in Hj.
  apply lookup_seqZ in Hj. lia.
Qed.

Lemma filter_index_eq i es j :
  continues i es →
  filter (λ e, Index e = j) es =
    if i <? j then option_list (es !! Z.to_nat (j - i - 1)) else [].
Proof.
  intros Hc. destruct (i <? j) eqn:E; bool_to_prop.
  - destruct (es !! Z.to_nat (j - i - 1)) as [e|] eqn:Hl.
    + apply list_elem_of_split_length in Hl as (l1 & l2 & -> & Hlen).
      pose proof (λ k x, continues_lookup _ _ k x Hc) as Hx.
      rewrite filter_app, filter_cons.
      rewrite filter_Forall_false, filter_Forall_false; simpl.
      * rewrite decide_True; [done|]. rewrite (Hx (length l1)); [lia|].
        by rewrite lookup_app_r, Nat.sub_diag by lia.
      * apply Forall_forall. intros x [k Hk]%list_elem_of_lookup.
        rewrite (Hx (length l1 + S k)%nat); [lia|].
        rewrite lookup_app_r by lia. by replace (length l1 + S k - length l1)%nat with (S k) by lia.
      * apply Forall_forall. intros x [k Hk]%list_elem_of_lookup.
        pose proof (lookup_lt_Some _ _ _ Hk). rewrite (Hx k); [lia|]. by apply lookup_app_l_Some.
    + apply filter_Forall_false, Forall_forall. intros x [k Hk]%list_elem_of_lookup.
      rewrite (continues_lookup _ _ _ _ Hc Hk). apply lookup_ge_None in Hl.
      apply lookup_lt_Some in Hk. lia.
  - apply filter_Forall_false, Forall_forall. intros x Hx.
    apply (continues_range _ _ _ Hc) in Hx. lia.
Qed.

Lemma filter_index_two i es j :
  continues i es →
  filter (λ e, j ≤ Index e < j + 2) es =
    filter (λ e, Index e = j) es ++ filter (λ e, Index e = j + 1) es.
Proof.
  intros Hc. rewrite <- (take_drop (Z.to_nat (j - i)) es).
  rewrite !filter_app.
  assert (∀ x, x ∈ take (Z.to_nat (j - i)) es → Index x ≤ j) as Ht.
  { intros x [k [Hk ?]%lookup_take_Some]%list_elem_of_lookup.
    rewrite (continues_lookup _ _ _ _ Hc Hk). lia. }
  assert (∀ x, x ∈ drop (Z.to_nat (j - i)) es → j + 1 ≤ Index x) as Hd.
  { intros x [k Hk]%list_elem_of_lookup. rewrite lookup_drop in Hk.
    rewrite (continues_lookup _ _ _ _ Hc Hk). lia. }
  rewrite (filter_Forall_false (λ e, Index e = j) (drop _ _))
    by (apply Forall_forall; intros x Hx%Hd; lia).
  rewrite (filter_Forall_false (λ e, Index e = j + 1) (take _ _))
    by (apply Forall_forall; intros x Hx%Ht; lia).
  rewrite app_nil_r. simpl. f_equal; apply filter_ext_in; intros x Hx.
  - apply Ht in Hx. lia.
  - apply Hd in Hx. lia.
Qed.

Lemma Entries_one st i :
  log_core st → 0 ≤ i < 2 ^ 63 - 1 → Entries i (i + 1) (hd st) = option_list (log_at (hd st) i).
Proof.
  intros H Hi. rewrite Entries_filter by (done || lia).
  rewrite (filter_ext_in _ (λ e, Index e = i)) by (intros; lia).
  rewrite (filter_index_eq _ _ _ (lc_entries _ H)). unfold log_at. by destruct (_ <? _).
Qed.

Lemma Entries_two st i :
  log_core st → 0 ≤ i < 2 ^ 63 - 2 →
  Entries i (i + 2) (hd st) =
    option_list (log_at (hd st) i) ++ option_list (log_at (hd st) (i + 1)).
Proof.
  intros H Hi. rewrite Entries_filter by (done || lia).
  rewrite (filter_index_two _ _ _ (lc_entries _ H)).
  rewrite !(filter_index_eq _ _ _ (lc_entries _ H)). unfold log_at.
  by destruct (_ <? i), (_ <? i + 1).
Qed.

Lemma log_at_index st i e :
  log_core st → log_at (hd st) i = Some e →
  Index e = i ∧ discIndex (hd st) < i ≤ prevIndex (hd st).
Proof.
  intros H. unfold log_at. destruct (_ <? _) eqn:E; [|done]. bool_to_prop. intros Hl.
  pose proof (continues_lookup _ _ _ _ (lc_entries _ H) Hl) as Hx.
  apply lookup_lt_Some in Hl. pose proof (lc_prev _ H) as Hp. unfold len in Hp. lia.
Qed.

Lemma log_at_Some st i :
  log_core st → discIndex (hd st) < i ≤ prevIndex (hd st) → is_Some (log_at (hd st) i).
Proof.
  intros H Hi. unfold log_at. rewrite (proj2 (Z.ltb_lt _ _)) by lia.
  apply lookup_lt_is_Some_2. pose proof (lc_prev _ H) as Hp. unfold len in Hp. lia.
Qed.

Lemma log_at_None st i :
  log_core st → prevIndex (hd st) < i → log_at (hd st) i = None.
Proof.
  intros H Hi. destruct (log_at (hd st) i) as [e|] eqn:E; [|done].
  apply log_at_index in E as [_ ?]; [lia|done].
Qed.

Lemma take_filter_lt i es j :
  continues i es → take (Z.to_nat (j - i - 1)) es = filter (λ e, Index e < j) es.
Proof.
  intros Hc. rewrite <- (take_drop (Z.to_nat (j - i - 1)) es) at 2. rewrite filter_app.
  rewrite filter_Forall_true, filter_Forall_false; [by rewrite app_nil_r|..];
    apply Forall_forall; intros x [k Hk]%list_elem_of_lookup.
  - rewrite lookup_drop in Hk. rewrite (continues_lookup _ _ _ _ Hc Hk). lia.
  - apply lookup_take_Some in Hk as [Hk ?]. rewrite (continues_lookup _ _ _ _ Hc Hk). lia.
Qed.

Lemma drop_filter_gt i es j :
  continues i es → drop (Z.to_nat (j - i)) es = filter (λ e, j < Index e) es.
Proof.
  intros Hc. rewrite <- (take_drop (Z.to_nat (j - i)) es) at 2. rewrite filter_app.
  rewrite filter_Forall_false, filter_Forall_true; [done|..];
    apply Forall_forall; intros x [k Hk]%list_elem_of_lookup.
  - rewrite lookup_drop in Hk. rewrite (continues_lookup _ _ _ _ Hc Hk). lia.
  - apply lookup_take_Some in Hk as [Hk ?]. rewrite (continues_lookup _ _ _ _ Hc Hk). lia.
Qed.

(** The entries after an index. *)
Definition suffix (h : Handler) (j : Z) : list LogEntry := filter (λ e, j < Index e) (entries h).

Lemma suffix_cons st j e :
  log_core st → log_at (hd st) (j + 1) = Some e → suffix (hd st) j = e :: suffix (hd st) (j + 1).
Proof.
  intros H Hl. pose proof (lc_entries _ H) as Hc. unfold suffix.
  rewrite <- !(drop_filter_gt _ _ _ Hc). unfold log_at in Hl.
  destruct (_ <? _) eqn:E; [|done]. bool_to_prop.
  replace (j + 1 - discIndex (hd st) - 1) with (j - discIndex (hd st)) in Hl by lia.
  rewrite (drop_S _ e) by done. do 2 f_equal. lia.
Qed.

Lemma suffix_end st j : log_core st → prevIndex (hd st) ≤ j → suffix (hd st) j = [].
Proof.
  intros H Hj. apply filter_Forall_false, Forall_forall. intros x Hx.
  apply (continues_range _ _ _ (lc_entries _ H)) in Hx. pose proof (lc_prev _ H). lia.
Qed.

(** ** A disk that may fail

    What an operation that reports success has done, it has done as on a disk
    without faults. *)

Definition calmed_fs (d : FS) : FS := mkFS (files d) [].
Definition calmed (st : Store) : Store := mkStore (calmed_fs (disk st)) (hd st).

(** A success that survives on the disk without the faults. *)
Definition honest_fs {A} (m : fsio A) : Prop :=
  ∀ d a d', m d = (Ok a, d') → m (calmed_fs d) = (Ok a, calmed_fs d').
Definition honest {A} (m : sio A) : Prop :=
  ∀ st a st', m st = (Ok a, st') → m (calmed st) = (Ok a, calmed st').

Lemma honest_bind {A B} (m : sio A) (f : A → sio B) :
  honest m → (∀ a, honest (f a)) → honest (m ≫= f).
Proof.
  intros Hm Hf st b st'. unfold mbind, io_bind. specialize (Hm st).
  destruct (m st) as [[a|e|] s1]; [|done..]. rewrite (Hm _ _ eq_refl). by apply Hf.
Qed.

Lemma honest_get {B} (f : Store → sio B) :
  (∀ st, honest (f st)) → (∀ st, f (calmed st) = f st) → honest (st ← get; f st).
Proof. intros Hf He st b st'. rewrite !(io_bind_Ok get _ _ _ _ eq_refl), He. apply Hf. Qed.

Lemma honest_wrap {A} g (m : sio A) : honest m → honest (wrap_err g m).
Proof.
  intros Hm st a st'. unfold wrap_err. specialize (Hm st).
  destruct (m st) as [[b|e|] s1]; [|done..]. intros [= <- <-]. by rewrite (Hm _ _ eq_refl).
Qed.

Lemma honest_update f : honest (update f).
Proof. by intros st a st' [= <- <-]. Qed.

Lemma honest_ret {A} (a : A) : honest (ret a).
Proof. by intros st b st' [= <- <-]. Qed.

Lemma honest_throw {A} e : honest (throw (A:=A) e).
Proof. by intros st b st' [=]. Qed.

Lemma honest_on_active {A} (k : file → fsio A) : (∀ f, honest_fs (k f)) → honest (on_active k).
Proof.
  intros Hk st a st'. unfold on_active. rewrite !(io_bind_Ok get _ _ _ _ eq_refl). cbn [hd calmed].
  destruct (activeFile (hd st)) as [f|]; [|done]. unfold on_file, on_disk, zoom. cbn [disk calmed].
  destruct (k f (disk st)) as [r d] eqn:E. intros [= -> <-]. by rewrite (Hk _ _ _ _ E).
Qed.

Lemma honest_for_each {A} (f : A → sio unit) l : (∀ x, honest (f x)) → honest (for_each f l).
Proof.
  intros Hf. induction l as [|x l IH]; [apply honest_ret|]. intros st a st'. cbn [for_each].
  pose proof (Hf x st) as H. destruct (f x st) as [[u|e|] s1]; [|done..].
  rewrite (H _ _ eq_refl). apply IH.
Qed.

Lemma honest_syscall {A} (k : fsio A) : honest_fs k → honest_fs (syscall ;; k).
Proof.
  intros Hk d a d'. unfold mbind, io_bind, syscall. cbn [faults calmed_fs].
  destruct (faults d) as [|[]]; [..|done|done]; intros H%Hk; exact H.
Qed.

Lemma honest_write f data : honest_fs (os_write f data).
Proof.
  intros d a d'. unfold os_write. destruct (fopen f); [|done]. unfold syscall. cbn [faults calmed_fs].
  destruct (faults d) as [|[]]; [..|done|done]; by intros [= <- <-].
Qed.
Lemma honest_sync f : honest_fs (os_sync f).
Proof.
  intros d a d'. unfold os_sync. destruct (fopen f); [|done]. unfold syscall. cbn [faults calmed_fs].
  destruct (faults d) as [|[]]; [..|done|done]; by intros [= <- <-].
Qed.
Lemma honest_truncate0 f : honest_fs (os_truncate0 f).
Proof.
  unfold os_truncate0. destruct (fopen f); [|done]. apply honest_syscall. by intros d a d' [= <- <-].
Qed.
Lemma honest_seek0 f : honest_fs (os_seek0 f).
Proof.
  unfold os_seek0. destruct (fopen f); [|done]. apply honest_syscall. by intros d a d' [= <- <-].
Qed.

Ltac honest_by :=
  repeat lazymatch goal with
    | |- honest (get ≫= _) => apply honest_get; [intros ? | done]
    | |- honest (_ ≫= _) => apply honest_bind; [|intros ?]
    | |- honest (wrap_err _ _) => apply honest_wrap
    | |- honest (update _) => apply honest_update
    | |- honest (ret _) => apply honest_ret
    | |- honest (throw _) => apply honest_throw
    | |- honest (on_active _) => apply honest_on_active; intros ?
    | |- honest (for_each _ _) => apply honest_for_each; intros ?
    | |- honest (if ?b then _ else _) => destruct b
    | |- honest (match ?x with _ => _ end) => destruct x
    | |- honest _ => progress cbv zeta
    | |- honest_fs (os_write _ _) => apply honest_write
    | |- honest_fs os_sync => apply honest_sync
    | |- honest_fs (os_sync _) => apply honest_sync
    | |- honest_fs (os_truncate0 _) => apply honest_truncate0
    | |- honest_fs (os_seek0 _) => apply honest_seek0
    end.

Lemma honest_Append e : honest (Append e).
Proof. unfold Append. honest_by. Qed.

Lemma honest_TruncateLog i : honest (TruncateLog i).
Proof. unfold TruncateLog, rewrite_entry. honest_by. Qed.

(** The errors of the disk are not those of the log. *)
Definition disk_errors (target : StorageError) (d : FS) : Prop :=
  ∀ e, Fail e ∈ faults d → errors_Is e target = false.

(** A failure that comes from the disk. *)
Definition disk_failure (d : FS) (e : StorageError) : Prop :=
  e = ErrOS ∨ e = ErrClosed ∨ e = ErrInvalid ∨ Fail e ∈ faults d.

Lemma disk_failure_is d e target :
  disk_errors target d → disk_failure d e → target ∉ [ErrOS; ErrClosed; ErrInvalid] →
  errors_Is e target = false.
Proof.
  intros Hd He Ht. rewrite !not_elem_of_cons in Ht. destruct Ht as (? & ? & ? & _).
  destruct He as [->|[->|[->|He]]]; [..|by apply Hd]; simpl; by rewrite bool_decide_eq_false_2.
Qed.

Lemma os_write_err f data d e d' : os_write f data d = (Err e, d') → disk_failure d e.
Proof.
  unfold os_write, disk_failure. destruct (fopen f); [|intros [= <- _]; by right; left].
  unfold syscall. destruct (faults d) as [|[|e'|k] l]; intros [= <- _]; [|by left].
  right; right; right. by left.
Qed.

Lemma os_write_faults f data d a d' :
  os_write f data d = (Ok a, d') → ∀ e, Fail e ∈ faults d' → Fail e ∈ faults d.
Proof.
  unfold os_write. destruct (fopen f); [|done]. unfold syscall.
  destruct (faults d) as [|[|e'|k] l] eqn:E; intros [= _ <-] e; cbn [set_content faults].
  - unfold set_content. cbn [faults]. by rewrite E.
  - unfold set_content. cbn [faults]. intros ?. by right.
Qed.

Lemma os_sync_err f d e d' : os_sync f d = (Err e, d') → disk_failure d e.
Proof.
  unfold os_sync, disk_failure. destruct (fopen f); [|intros [= <- _]; by right; left].
  unfold syscall. destruct (faults d) as [|[|e'|k] l]; intros [= <- _]; [|by left].
  right; right; right. by left.
Qed.

Lemma on_active_err {A} (k : file → fsio A) st e st' :
  (∀ f d e d', k f d = (Err e, d') → disk_failure d e) →
  on_active k st = (Err e, st') → disk_failure (disk st) e.
Proof.
  intros Hk. unfold on_active. rewrite (io_bind_Ok get _ _ _ _ eq_refl).
  destruct (activeFile (hd st)) as [f|]; [|intros [= <- _]; by right; right; left].
  unfold on_file, on_disk, zoom. destruct (k f (disk st)) as [r d] eqn:E. intros [= -> _]. by eapply Hk.
Qed.

(** [Append] fails before it touches the disk, or because of it. *)
Lemma Append_err e st er st' :
  Append e st = (Err er, st') →
  (st' = st ∧ Append e (calmed st) = (Err er, calmed st)) ∨
  ∃ msg e0, er = ErrWrap msg e0 ∧ disk_failure (disk st) e0.
Proof.
  unfold Append. rewrite !(io_bind_Ok get _ _ _ _ eq_refl). cbn [hd calmed].
  destruct (Index e <=? _); [intros [= <- <-]; by left|].
  destruct (_ <? Index e); [intros [= <- <-]; by left|]. cbv zeta. intros H. right.
  unfold mbind at 1, io_bind at 1, wrap_err at 1 in H.
  destruct (on_active (λ f, os_write f _) st) as [[f|e0|] st1] eqn:E1; [|injection H as <- _|done].
  2: { eexists _, e0. split; [done|]. eapply on_active_err; [|exact E1]. intros *. apply os_write_err. }
  unfold mbind at 1, io_bind at 1, wrap_err at 1 in H.
  destruct (on_active os_sync st1) as [[u|e0|] st2] eqn:E2; [done|injection H as <- _|done].
  eexists _, e0. split; [done|].
  assert (disk_failure (disk st1) e0) as Hf by (eapply on_active_err; [|exact E2]; intros *; apply os_sync_err).
  assert (∀ e, Fail e ∈ faults (disk st1) → Fail e ∈ faults (disk st)) as Hsub.
  { clear -E1. unfold on_active in E1. rewrite (io_bind_Ok get _ _ _ _ eq_refl) in E1.
    destruct (activeFile (hd st)) as [a|]; [|done]. unfold on_file, on_disk, zoom in E1.
    destruct (os_write a _ (disk st)) as [r d] eqn:E. injection E1 as -> <-. by eapply os_write_faults. }
  destruct Hf as [?|[?|[?|Hin]]]; [by left|by right; left|by right; right; left|].
  right; right; right. by apply Hsub.
Qed.

(** ** The log in memory *)

(** The handler's entries and last position. *)
Definition same_log (h h' : Handler) : Prop :=
  entries h' = entries h ∧ prevIndex h' = prevIndex h.

#[export] Instance same_log_preorder : PreOrder same_log.
Proof. split; [done|]. intros h1 h2 h3 [??] [??]. split; congruence. Qed.

(** Calls that leave the log alone *)

Section quiet.
(** The handler before and after. *)
Definition quiet {A} (m : sio A) : Prop := ∀ st, same_log (hd st) (hd (m st).2).

Lemma quiet_on_disk {A} (m : fsio A) : quiet (on_disk m).
Proof. intros st. unfold on_disk, zoom. by destruct (m (disk st)). Qed.

Lemma quiet_on_active {A} (k : file → fsio A) : quiet (on_active k).
Proof.
  intros st. unfold on_active, mbind, io_bind, get. destruct (activeFile (hd st)); [|done].
  apply quiet_on_disk.
Qed.

Lemma quiet_wrap {A} f (m : sio A) : quiet m → quiet (wrap_err f m).
Proof. intros Hm st. unfold wrap_err. specialize (Hm st). by destruct (m st) as [[]]. Qed.

Lemma quiet_bind {A B} (m : sio A) (f : A → sio B) : quiet m → (∀ a, quiet (f a)) → quiet (m ≫= f).
Proof.
  intros Hm Hf st. unfold mbind, io_bind. specialize (Hm st).
  destruct (m st) as [[a|e|] st']; [|done..]. etrans; [exact Hm | apply Hf].
Qed.

Lemma quiet_update f : (∀ h, same_log h (f h)) → quiet (update f).
Proof. intros Hf st. apply Hf. Qed.

Lemma quiet_for_each {A} (f : A → sio unit) l : (∀ x, quiet (f x)) → quiet (for_each f l).
Proof.
  intros Hf. induction l as [|x l IH]; [done|]. intros st. cbn [for_each]. pose proof (Hf x st) as H.
  destruct (f x st) as [[a|e|] st']; [|done..]. etrans; [exact H | apply IH].
Qed.

Lemma quiet_rewrite msg e : quiet (rewrite_entry msg e).
Proof.
  apply quiet_bind; [apply quiet_wrap, quiet_on_active|]. intros _. by apply quiet_update.
Qed.
End quiet.

(** Append, whatever the disk does. *)

Lemma Append_log e st :
  let '(r, st') := Append e st in
  if is_ok r
  then prevIndex (hd st) < Index e ∧ entries (hd st') = entries (hd st) ++ [e] ∧ prevIndex (hd st') = Index e
  else same_log (hd st) (hd st').
Proof.
  unfold Append. rewrite (io_bind_Ok get _ st st st) by done.
  destruct (Index e <=? prevIndex (hd st)) eqn:E1; [done|]. bool_to_prop.
  destruct (_ <? Index e); [done|]. cbv zeta.
  set (m1 := wrap_err _ (on_active (λ f, os_write f _))).
  assert (quiet m1) as Q1 by apply quiet_wrap, quiet_on_active.
  unfold mbind at 1, io_bind at 1. specialize (Q1 st). destruct (m1 st) as [[f|er|] st1]; [|done..].
  set (m2 := wrap_err _ (on_active os_sync)).
  assert (quiet m2) as Q2 by apply quiet_wrap, quiet_on_active.
  unfold mbind at 1, io_bind at 1. specialize (Q2 st1). destruct (m2 st1) as [[u|er|] st2]; cbn [snd is_ok] in *;
    [|by etrans..].
  destruct (transitivity Q1 Q2) as [He Hp]. unfold update, modify, mbind, io_bind. cbn [is_ok hd].
  split; [done|]. destruct (log_full _); cbn; by rewrite He.
Qed.
