(* ===== verification/StorageProps.v ===== *)
(** * What the storage promises

    The properties of the replicated log: its invariant in every reachable
    state, crash recovery, compaction, queries, and the failure cases in which
    it does not keep what it acknowledged. *)

From Stdlib Require Import Strings.Byte Strings.String.
From stdpp Require Import list_numbers.
From S2P Require Import Prelude.
From S2P Require Import Bytes.
From S2P Require Import Json.
From S2P Require Import Models.
From S2P Require Import LogCodec.
From S2P Require Import Fs.
From S2P Require Import Storage.
From S2P Require Import StorageTheory.

(** ** Reachable states *)

(** Started on an empty data directory. *)
Definition first_start (m : Z) : Store * phase :=
  let '(r, d) := LoadStorage m (mkFS ∅ []) in
  match r with
  | Ok h => (mkStore d h, Idle)
  | _ => (mkStore d (mkHandler None None 0 m 0 0 0 0 [] None), Idle)
  end.

(** Grown by one process from entries of any terms. *)
Definition grown (ord : MapOrder) (m : Z) (s : Store * phase) : Prop :=
  rtc (storage_step ord any_entry) (first_start m) s.

(** Reached with entries whose terms never fall, over any number of restarts. *)
Definition reachable (ord : MapOrder) (m : Z) (s : Store * phase) : Prop :=
  rtc (process_step ord) (first_start m) s.

Definition first_disk : FS :=
  mkFS (<["0-0.log" := Reg []]> (<["active.log" := Reg []]> ∅)) [].

Lemma first_start_eq m :
  first_start m =
    (mkStore first_disk (mkHandler (Some (mkFile "0-0.log" 0 true true))
       (Some (mkFile "active.log" 0 false true)) 0 m 0 0 0 0 [] (Some false)), Idle).
Proof. vm_compute. reflexivity. Qed.

Lemma first_disk_lookup n nd :
  files first_disk !! n = Some nd → nd = Reg [] ∧ (n = "0-0.log" ∨ n = active_log).
Proof.
  unfold first_disk. cbn [files]. rewrite !lookup_insert_Some, lookup_empty.
  intros [[<- <-] | [_ [[<- <-] | [_ ?]]]]; [by auto.. | done].
Qed.

Lemma first_start_ok m : process_ok (first_start m).
Proof.
  rewrite first_start_eq. split; cbn [fst snd newest]; fields; [|repeat constructor|].
  - split; cbn [fst snd].
    + split; fields; try done.
      * intros n Hn. by apply first_disk_lookup in Hn as [? _].
      * eexists. by split_and!.
      * by exists [].
    + intros n c t i [_ [-> | ->]]%first_disk_lookup; [|done].
      intros Hs. vm_compute in Hs. simplify_eq. cbn [phase_ok]. fields. done.
  - intros n c t i [_ [-> | ->]]%first_disk_lookup; [by left | done].
Qed.

Lemma reachable_process ord m s : reachable ord m s → process_ok s.
Proof.
  unfold reachable. pose proof (first_start_ok m) as H0. revert H0.
  generalize (first_start m). intros s0 H0 Hs. induction Hs as [|s1 s2 s3 Hst _ IH]; [done|].
  apply IH. by eapply process_step_ok.
Qed.

Lemma reachable_ok ord m s : reachable ord m s → sys_ok s.
Proof. intros H. apply (reachable_process _ _ _ H). Qed.

Lemma grown_ok ord m s : grown ord m s → sys_ok s.
Proof.
  unfold grown. pose proof (pr_sys _ (first_start_ok m)) as H0. revert H0.
  generalize (first_start m). intros s0 H0 Hs. induction Hs as [|s1 s2 s3 Hst _ IH]; [done|].
  apply IH. by eapply storage_step_ok.
Qed.

(** C5: the log is contiguous. Take any state the storage reaches from an empty
    data directory on a disk without faults, either in one process that is given
    entries of any terms, or over any number of kills and restarts between two
    steps if the term of every entry given is at least the term of the log's last.
    The steps are appends (accepted or refused), truncations that leave an entry in
    memory and, during a compaction, all that the compaction has taken, and the
    parts of a compaction, with appends and truncations between them. Not among the
    steps is the installation of a peer's snapshot. Then the indices of the entries
    in memory run without gap from [discIndex+1] to [prevIndex], [prevTerm] is the
    last entry's term, and the active file holds exactly the encoding of these
    entries, [currentSize] bytes; on the second kind of run the terms never fall. *)
Theorem reachable_log_contiguous ord m st ph :
  grown ord m (st, ph) ∨ reachable ord m (st, ph) →
  let h := hd st in
  Index <$> entries h = seqZ (discIndex h + 1) (prevIndex h - discIndex h) ∧
  prevTerm h = default (discTerm h) (Term <$> last (entries h)) ∧
  (∃ f, activeFile h = Some f ∧ content (disk st) (fname f) = encode_all (entries h) ∧
        currentSize h = len (content (disk st) (fname f))) ∧
  (reachable ord m (st, ph) → StronglySorted Z.le (discTerm h :: (Term <$> entries h))).
Proof.
  intros Hr. assert (sys_ok (st, ph)) as [H _].
  { destruct Hr; [by eapply grown_ok | by eapply reachable_ok]. }
  intros h. cbn [fst] in H. subst h.
  split_and!; [| | |intros Hr'; apply (pr_order _ (reachable_process _ _ _ Hr'))];
    destruct H as [Hc Ha Hw Hs [Hi _] Hp Hpt _ _ _ _ _ _].
  - rewrite Hi. f_equal. lia.
  - done.
  - exists (wal (hd st)). rewrite (content_lookup _ _ _ Hw). by split_and!.
Qed.

Definition entry_at (i t : Z) (text : string) : LogEntry :=
  mkEntry i t "node-1" (list_byte_of_string text).

Lemma reachable_append ord m st e ph :
  reachable ord m (st, ph) → entry_ok e → prevTerm (hd st) ≤ Term e →
  reachable ord m ((Append e st).2, ph).
Proof.
  intros Hr He Ht. eapply rtc_r; [exact Hr|]. apply process_op.
  by eapply step_append, surjective_pairing.
Qed.

Definition one_entry (m : Z) : Store := (Append (entry_at 1 1 "{}") (first_start m).1).2.

Lemma one_entry_reachable ord m : reachable ord m (one_entry m, Idle).
Proof.
  apply reachable_append; [|refine (bool_decide_unpack _ _); vm_compute; exact I|].
  - rewrite first_start_eq. apply rtc_refl.
  - rewrite first_start_eq. by cbv.
Qed.

Lemma grown_append ord m st e ph :
  grown ord m (st, ph) → entry_ok e → grown ord m ((Append e st).2, ph).
Proof. intros Hr He. eapply rtc_r; [exact Hr|]. by eapply step_append, surjective_pairing. Qed.

(** Two entries, the second of an older term than the first. *)
Definition fallen : Store := (Append (entry_at 2 1 "{}") (Append (entry_at 1 4 "{}") (first_start 64).1).2).2.

Lemma reachable_log_contiguous_witness :
  Index <$> entries (hd fallen) = seqZ 1 2 ∧ prevTerm (hd fallen) = 1.
Proof.
  assert (grown default_order 64 (fallen, Idle)) as Hr.
  { apply grown_append; [apply grown_append|]; try (refine (bool_decide_unpack _ _); vm_compute; exact I).
    rewrite first_start_eq. apply rtc_refl. }
  destruct (reachable_log_contiguous default_order 64 _ _ (or_introl Hr)) as (Hi & Ht & _).
  split; [exact Hi | exact Ht].
Defined.

(** C1: crash recovery. Take any state the storage reaches from an empty data
    directory on a disk without faults, over any number of kills and restarts
    between two steps, where the term of every entry appended is at least the term
    of the log's last, truncations leave an entry in memory and, during a
    compaction, all that the compaction has taken, and no snapshot of a peer is
    installed. Unless a compaction has just created the next log file and not yet
    rotated to it, [LoadStorage] on the disk as it is rebuilds the handler: the same
    entries, positions, terms and size, and the same active file; nothing
    acknowledged is lost. *)
Theorem reachable_recovers ord m m' st ph :
  reachable ord m (st, ph) → (∀ p f, ph ≠ Written p f) →
  LoadStorage m' (disk st) = (Ok (recovered m' (hd st)), disk st).
Proof.
  intros [[H _] _ Hn]%reachable_process Hne. cbn [fst snd] in *. apply LoadStorage_ok. split; [done|].
  destruct ph as [|p|p f]; [done | done | by destruct (Hne p f)].
Qed.

(** The process that wrote an entry, killed and started again. *)
Lemma restarted_reachable ord m m' :
  reachable ord m (mkStore (disk (one_entry m)) (recovered m' (hd (one_entry m))), Idle).
Proof.
  pose proof (one_entry_reachable ord m) as Hr. eapply rtc_r; [exact Hr|].
  apply (process_restart _ m'). apply LoadStorage_ok.
  destruct (reachable_process _ _ _ Hr) as [[H _] _ Hn]. by split.
Qed.

Lemma reachable_recovers_witness :
  LoadStorage 8 (disk (one_entry 64)) =
    (Ok (recovered 8 (recovered 16 (hd (one_entry 64)))), disk (one_entry 64)).
Proof.
  exact (reachable_recovers default_order 64 8 _ _ (restarted_reachable _ _ 16) ltac:(done)).
Defined.

(** Why the terms must not fall. [findLatestLog] goes by the term first: when an
    entry of an older term follows, a second compaction names its file for that
    term, and recovery takes the file of the first, which the log has left. Entry 3,
    acknowledged and in the newer file, is gone: the log resumes after entry 2. *)
Definition fallen_rotated : Store := (StoreSnapshot default_order
  (Append (entry_at 2 1 "{}") (StoreSnapshot default_order
    (Append (entry_at 1 4 "{}") (first_start 0).1).2).2).2).2.
Definition fallen_end : Store := (Append (entry_at 3 1 "{}") fallen_rotated).2.

Theorem falling_terms_recover_old_log :
  prevIndex (hd fallen_end) = 3 ∧ discIndex (hd fallen_end) = 2 ∧
  Index <$> entries (hd fallen_end) = [3] ∧
  ∃ h, LoadStorage 0 (disk fallen_end) = (Ok h, disk fallen_end) ∧
       prevIndex h = 2.
Proof. split_and!; [vm_compute; reflexivity..|]. eexists. split; [vm_compute; reflexivity | done]. Qed.

(** C36: a crash between the creation of the next log file and [rotateFile] loses
    the entries appended since the compaction began: [LoadStorage] takes the
    new, empty file for the log and resumes at the compaction's last index,
    although those entries were written, synced and acknowledged. *)
Theorem crash_before_rotation_loses_tail ord m m' st p f :
  reachable ord m (st, Written p f) →
  ∃ h, LoadStorage m' (disk st) = (Ok h, disk st) ∧ entries h = [] ∧ prevIndex h = lastIndex p ∧
  ∃ old, entries (hd st) = old ++ filter (λ e, lastIndex p < Index e) (entries (hd st)) ∧ old ≠ [].
Proof.
  intros [[H (Hp & -> & Hf & _)] _ Hl]%reachable_process. cbn [fst snd newest] in *.
  pose proof (planned_later _ _ H Hp) as (HT & HI & _).
  pose proof (lc_snapdata _ H) as (snap & Hs & Ha).
  eexists. split_and!.
  - eapply (LoadStorage_newest m' _ (lastTerm p) (lastIndex p) [] snap); try done. apply H.
  - done.
  - done.
  - destruct Hp as (_ & old & e & new & He & Hpi & _). exists (old ++ [e]).
    pose proof (lc_entries _ H) as Hen. rewrite He, Hpi in *. rewrite (filter_later _ _ _ _ Hen).
    split; [done|by destruct old].
Qed.

(** Compaction keeps every entry appended while the snapshot was being
    written. [rotateFile] succeeds, leaves [prevIndex] and [prevTerm] alone, and
    keeps in memory exactly the entries after the compaction's last index; the
    new active file holds them. *)
Theorem rotate_keeps_later_entries ord m st p f :
  reachable ord m (st, Written p f) →
  ∃ st', rotateFile f (lastIndex p) (lastTerm p) (lastIndex p) st = (Ok tt, st') ∧
    prevIndex (hd st') = prevIndex (hd st) ∧ prevTerm (hd st') = prevTerm (hd st) ∧
    discIndex (hd st') = lastIndex p ∧
    Index <$> entries (hd st') = seqZ (lastIndex p + 1) (prevIndex (hd st) - lastIndex p) ∧
    activeFile (hd st') = Some f ∧
    content (disk st') (fname f) = encode_all (entries (hd st')) ∧
    ∃ old, entries (hd st) = old ++ entries (hd st').
Proof.
  intros Hok%reachable_ok. pose proof Hok as [H (Hp & -> & Hf & Hl)]. cbn [fst snd] in *.
  pose proof (rotateFile_calm p st
    (mkFile (log_name (lastTerm p) (lastIndex p)) 0 true true) (wal (hd st)) (lc_calm _ H) (lc_active _ H) eq_refl eq_refl
    eq_refl Hf) as Hr. eexists.
  pose proof (sys_ok_rotate _ _ _ _ Hok Hr) as [H' _]. cbn [fst] in H'.
  split; [exact Hr|].
  destruct Hp as (_ & old & e & new & He & Hpi & _).
  pose proof (lc_entries _ H) as Hen. rewrite He, Hpi in *. rewrite (filter_later _ _ _ _ Hen) in *.
  unfold rotated in *. fields. split_and!; try done.
  - pose proof (co_index _ _ (lc_entries _ H')) as Hx. revert Hx. fields. intros ->.
    pose proof (lc_prev _ H') as Hx. revert Hx. fields. intros ->. rewrite Hpi. f_equal. lia.
  - by rewrite content_set.
  - by exists (old ++ [e]).
Qed.

(** A concrete run into the middle of a compaction, one entry appended late. *)
Definition run_begin : Store := (snapshot_begin default_order (one_entry 0)).2.
Definition run_plan : plan := mkPlan [] 1 1.
Definition run_late : Store := (Append (entry_at 2 1 "{}") run_begin).2.
Definition run_written : Store := (snapshot_write run_plan run_late).2.
Definition run_file : file := mkFile (log_name 1 1) 0 true true.

Lemma run_reachable : reachable default_order 0 (run_written, Written run_plan run_file).
Proof.
  eapply rtc_r; [|apply process_op, step_write, run_eq; vm_compute; reflexivity].
  change (reachable default_order 0 (run_late, Planned run_plan)). unfold run_late.
  apply reachable_append;
    [|refine (bool_decide_unpack _ _); vm_compute; exact I | vm_compute; discriminate].
  eapply rtc_r; [apply one_entry_reachable|]. apply process_op, step_begin; [|apply run_eq]; vm_compute; reflexivity.
Qed.

Lemma crash_before_rotation_loses_tail_witness :
  ∃ h, LoadStorage 8 (disk run_written) = (Ok h, disk run_written) ∧ prevIndex h = 1.
Proof.
  destruct (crash_before_rotation_loses_tail _ _ 8 _ _ _ run_reachable) as (h & Hl & _ & Hp & _).
  exists h. split; [exact Hl | exact Hp].
Defined.

Lemma rotate_keeps_later_entries_witness :
  ∃ st', rotateFile run_file 1 1 1 run_written = (Ok tt, st') ∧ prevIndex (hd st') = 2.
Proof.
  destruct (rotate_keeps_later_entries _ _ _ _ _ run_reachable) as (st' & Hr & Hp & _).
  exists st'. split; [exact Hr|]. rewrite Hp. vm_compute. reflexivity.
Defined.

(** ** Truncation *)

(** [TruncateLog] on a reachable log removes exactly the entries from the
    given index on: what remains is a prefix, in memory and on disk, and when
    something remains [prevIndex] and [prevTerm] are those of the last entry
    kept; an index outside the log changes nothing. *)
Theorem TruncateLog_keeps_prefix ord m st ph i :
  reachable ord m (st, ph) →
  let h := hd st in
  ∃ st', TruncateLog i st = (Ok tt, st') ∧
    (i ≤ discIndex h ∨ prevIndex h < i → st' = st) ∧
    (discIndex h < i ≤ prevIndex h →
       entries (hd st') = filter (λ e, Index e < i) (entries h) ∧
       content (disk st') (fname (wal h)) = encode_all (entries (hd st')) ∧
       (discIndex h + 1 < i → prevIndex (hd st') = i - 1)).
Proof.
  intros [H _]%reachable_ok h. cbn [fst] in H. subst h.
  eexists. split; [by apply TruncateLog_ok|]. split.
  - intros Hi. destruct (_ && _) eqn:E; [|done]. bool_to_prop. lia.
  - intros Hi. rewrite !(proj2 (Z.leb_le _ _)) by lia. cbn [andb].
    pose proof (lc_entries _ H) as Hen. pose proof (lc_prev _ H) as Hp.
    set (n := Z.to_nat (i - discIndex (hd st) - 1)).
    assert (entries (hd (truncated (wal (hd st)) n st)) = take n (entries (hd st))) as He.
    { unfold truncated. cbv zeta. by destruct (last _). }
    rewrite He. split_and!.
    + rewrite <- (take_drop n (entries (hd st))) at 2. rewrite filter_app.
      assert (len (take n (entries (hd st))) = i - discIndex (hd st) - 1) as Hl.
      { unfold len in *. rewrite length_take. lia. }
      rewrite filter_Forall_true, filter_Forall_false; [by rewrite app_nil_r|..];
        apply Forall_forall; intros x Hx.
      * apply list_elem_of_lookup in Hx as [j Hj]. rewrite lookup_drop in Hj.
        apply (f_equal (fmap Index)) in Hj. rewrite <- list_lookup_fmap in Hj.
        rewrite (co_index _ _ Hen) in Hj. apply lookup_seqZ in Hj. lia.
      * apply (continues_range _ _ _ (continues_take _ _ n Hen)) in Hx. lia.
    + unfold truncated. cbv zeta. cbn [disk]. by rewrite content_set.
    + intros Hi1. unfold truncated. cbv zeta. destruct (last (take n (entries (hd st)))) as [e|] eqn:E.
      * fields. rewrite (continues_last _ _ _ (continues_take _ _ n Hen) E).
        unfold len in *. rewrite length_take. lia.
      * apply last_None, (f_equal length) in E. rewrite length_take in E. unfold len in Hp. simpl in E. lia.
Qed.

Lemma TruncateLog_keeps_prefix_witness :
  ∃ st', TruncateLog 1 (one_entry 64) = (Ok tt, st') ∧ entries (hd st') = [].
Proof.
  destruct (TruncateLog_keeps_prefix default_order 64 _ _ 1 (one_entry_reachable _ _))
    as (st' & Ht & _ & Hk).
  exists st'. split; [exact Ht|]. destruct Hk as [-> _]; vm_compute; intuition discriminate.
Defined.

(** Truncating the whole log in memory leaves [prevIndex] where it was, so
    afterwards [Append] refuses the entry that belongs at the front, and every
    other entry up to the old [prevIndex], as behind: the log is stuck. *)
Theorem TruncateLog_to_empty_wedges ord m st ph e :
  reachable ord m (st, ph) → entries (hd st) ≠ [] →
  ∃ st', TruncateLog (discIndex (hd st) + 1) st = (Ok tt, st') ∧ entries (hd st') = [] ∧
    (discIndex (hd st) < Index e ≤ prevIndex (hd st) →
     Append e st' = (Err ErrAppendIndexBehind, st')).
Proof.
  intros [H _]%reachable_ok Hne. cbn [fst] in H. pose proof (lc_prev _ H) as Hp.
  eexists. split; [by apply TruncateLog_ok|].
  assert (0 < len (entries (hd st))) by (destruct (entries (hd st)); [done|]; unfold len; simpl; lia).
  rewrite !(proj2 (Z.leb_le _ _)) by lia. cbn [andb].
  replace (Z.to_nat _) with O by lia. split; [done|].
  intros He. unfold Append. erewrite (io_bind_Ok get) by done.
  unfold truncated. rewrite take_0. cbn [last]. cbv zeta. fields. by rewrite (proj2 (Z.leb_le _ _)) by lia.
Qed.

Lemma TruncateLog_to_empty_wedges_witness :
  ∃ st', TruncateLog 1 (one_entry 64) = (Ok tt, st') ∧
    Append (entry_at 1 2 "{}") st' = (Err ErrAppendIndexBehind, st').
Proof.
  destruct (TruncateLog_to_empty_wedges default_order 64 _ _ (entry_at 1 2 "{}")
    (one_entry_reachable _ _)) as (st' & Ht & _ & Ha); [vm_compute; discriminate|].
  exists st'. split; [exact Ht|]. apply Ha. vm_compute. intuition discriminate.
Defined.

(** ** Queries *)

(** [Entries] returns exactly the entries of the log whose index lies in the
    half-open range, in order, whatever the range: it is clamped to the log, and
    an empty or inverted range gives nothing. *)
Theorem Entries_range ord m st ph startI endI :
  reachable ord m (st, ph) → 0 ≤ startI < 2 ^ 63 → 0 ≤ endI < 2 ^ 63 →
  Entries startI endI (hd st) = filter (λ e, startI ≤ Index e < endI) (entries (hd st)).
Proof. intros [H _]%reachable_ok. by apply Entries_filter. Qed.

Lemma Entries_range_witness :
  Entries 1 2 (hd (one_entry 64)) =
    filter (λ e, 1 ≤ Index e < 2) (entries (hd (one_entry 64))).
Proof. apply (Entries_range default_order 64 _ Idle); [apply one_entry_reachable | lia..]. Defined.

(** ** Snapshots from a peer *)

(** A leader's sequence of chunks, each at the offset after the one before. *)
Fixpoint install (i t off : Z) (chunks : list (list byte)) : sio unit :=
  match chunks with
  | [] => ret tt
  | [c] => InstallSnapshot off c true i t
  | c :: cs => InstallSnapshot off c false i t ;; install i t (off + len c) cs
  end.

Lemma install_calm i t chunks c st a sf :
  chunks ≠ [] → calm (disk st) → files (disk st) !! snapshot_tmp ≠ Some Dir →
  (c = [] ∨ files (disk st) !! snapshot_tmp = Some (Reg c)) →
  activeFile (hd st) = Some a → fopen a = true →
  snapshotFile (hd st) = Some sf → fopen sf = true →
  install i t (len c) chunks st =
    (Ok tt, mkStore (installed_disk (fname a) (c ++ concat chunks) (disk st)) (installed i t (hd st))).
Proof.
  revert c st. induction chunks as [|d [|d' ds] IH]; intros c st Hne Hc Hd Hf Ha Hao Hs Hso; [done|..].
  - cbn [install concat]. rewrite app_nil_r. by eapply InstallSnapshot_last.
  - change (install i t (len c) (d :: d' :: ds)) with
      (InstallSnapshot (len c) d false i t ;; install i t (len c + len d) (d' :: ds)).
    erewrite io_bind_Ok by (by eapply InstallSnapshot_more).
    rewrite <- len_app. rewrite IH; cbn [disk hd]; try done.
    + cbn [concat]. rewrite <- app_assoc. unfold installed_disk, set_content. cbn [files faults].
      by rewrite delete_insert_eq.
    + by rewrite set_content_lookup.
    + right. by rewrite set_content_lookup.
Qed.

(** A snapshot received in consecutive chunks, however they are cut, becomes
    [active.log] byte for byte; the log is emptied in memory and on disk and
    continues after the snapshot's last index and term. *)
Theorem install_chunks ord m st chunks i t :
  reachable ord m (st, Idle) → chunks ≠ [] →
  ∃ st', install i t 0 chunks st = (Ok tt, st') ∧
    content (disk st') active_log = concat chunks ∧
    content (disk st') (fname (wal (hd st))) = [] ∧
    entries (hd st') = [] ∧ currentSize (hd st') = 0 ∧
    prevIndex (hd st') = i ∧ prevTerm (hd st') = t ∧
    discIndex (hd st') = i ∧ discTerm (hd st') = t.
Proof.
  intros [H _]%reachable_ok Hne. cbn [fst] in H. pose proof (lc_snap _ H) as (sf & Hs & _ & Ho).
  eexists. split.
  { eapply (install_calm i t chunks [] st (wal (hd st)) sf); try done; [apply H|apply H|by left|apply H]. }
  pose proof (wal_not_active _ H) as Hna. split_and!; try done.
  - unfold installed_disk. cbn [disk]. rewrite content_set_ne by done.
    unfold content. cbn [files]. by rewrite lookup_insert_eq.
  - unfold installed_disk. cbn [disk]. by rewrite content_set.
Qed.

Lemma install_chunks_witness :
  ∃ st', install 9 2 0 [[x01; x02]; [x03]] (one_entry 64) = (Ok tt, st') ∧
    content (disk st') active_log = [x01; x02; x03].
Proof.
  destruct (install_chunks default_order 64 _ [[x01; x02]; [x03]] 9 2 (one_entry_reachable _ _))
    as (st' & Hi & Hc & _); [discriminate|].
  exists st'. split; [exact Hi | exact Hc].
Defined.

(** An installed snapshot does not survive a restart: the emptied active file
    keeps its old name, so [LoadStorage] resumes at the old log's start position
    with no entries, not at the snapshot's last index. *)
Theorem install_forgotten_by_restart ord m m' st chunks es i t :
  reachable ord m (st, Idle) → chunks ≠ [] → concat chunks = encode_all es → Forall entry_ok es →
  ∃ st' h, install i t 0 chunks st = (Ok tt, st') ∧ prevIndex (hd st') = i ∧
    LoadStorage m' (disk st') = (Ok h, disk st') ∧ entries h = [] ∧
    prevIndex h = discIndex (hd st) ∧ prevTerm h = discTerm (hd st).
Proof.
  intros [[H _] _ Hl]%reachable_process Hne Hes Hok. cbn [fst snd newest] in *.
  pose proof (lc_snap _ H) as (sf & Hs & _ & Ho). pose proof (log_core_int64 _ H) as [HT HI].
  pose proof (wal_not_active _ H) as Hna.
  eexists _, _. split.
  { eapply (install_calm i t chunks [] st (wal (hd st)) sf); try done; [apply H|apply H|by left|apply H]. }
  split; [done|]. cbn [disk app]. rewrite Hes.
  split; [eapply (LoadStorage_newest m' _ (discTerm (hd st)) (discIndex (hd st)) [] es); try done|done].
  - apply H.
  - unfold installed_disk. apply set_content_lookup.
  - intros n c t' i' Hn Hsc. unfold installed_disk in Hn.
    destruct (decide (n = fname (wal (hd st)))) as [->|Hne']; [by left|].
    rewrite set_content_lookup_ne in Hn by done. cbn [files] in Hn.
    destruct (decide (n = active_log)) as [->|]; [done|].
    rewrite lookup_insert_ne in Hn by done. apply lookup_delete_Some in Hn as [_ Hn].
    by apply (Hl n c).
  - unfold installed_disk. rewrite set_content_lookup_ne by done. cbn [files].
    apply lookup_insert_eq.
Qed.

Lemma install_forgotten_by_restart_witness :
  ∃ st' h, install 9 2 0 [encodeLogEntry (entry_at 9 2 "{}")] (one_entry 64) = (Ok tt, st') ∧
    LoadStorage 64 (disk st') = (Ok h, disk st') ∧ prevIndex h = 0.
Proof.
  destruct (install_forgotten_by_restart default_order 64 64 _
    [encodeLogEntry (entry_at 9 2 "{}")] [entry_at 9 2 "{}"] 9 2 (one_entry_reachable _ _))
    as (st' & h & Hi & _ & Hl & _ & Hp & _).
  - discriminate.
  - vm_compute. reflexivity.
  - refine (bool_decide_unpack _ _). vm_compute. exact I.
  - exists st', h. split; [exact Hi|]. split; [exact Hl|]. rewrite Hp. vm_compute. reflexivity.
Defined.

(** ** Faults *)

(** The same state, with the next system calls decided. *)
Definition with_faults (l : list fault) (st : Store) : Store :=
  mkStore (mkFS (files (disk st)) l) (hd st).

Lemma no_later_files d d' t i : files d' = files d → no_later d t i → no_later d' t i.
Proof. unfold no_later. by intros ->. Qed.

(** [Append] when the write succeeds and the sync fails: the bytes stay. *)
Lemma Append_sync_fails e err st :
  log_core st → entry_ok e → Index e = prevIndex (hd st) + 1 →
  Append e (with_faults [NoFault; Fail err] st) =
    (Err (ErrWrap "failed to sync log to disk" err),
     mkStore (set_content (fname (wal (hd st)))
                (encode_all (entries (hd st)) ++ encodeLogEntry e) (disk st)) (hd st)).
Proof.
  intros [Hc Ha Hw Hs Hen Hp Hpt Hd Hb Hnd Hsn Hsd Hch] He Hi. unfold Append.
  erewrite (io_bind_Ok get) by done. cbn [hd with_faults].
  pose proof (ok_index _ He). pose proof (len_nonneg (entries (hd st))).
  rewrite (proj2 (Z.leb_gt _ _)) by lia.
  rewrite wrap64_id, (proj2 (Z.ltb_ge _ _)) by (unfold int64_ok in *; lia).
  destruct (os_write_append_next (wal (hd st)) (encodeLogEntry e) (files (disk st)) [Fail err] _
    eq_refl eq_refl Hw) as [f' Hwr].
  cbv beta iota zeta. erewrite io_bind_Ok by (apply wrap_err_Ok; by eapply on_active_eq).
  erewrite io_bind_Err.
  2: { apply wrap_err_Err. eapply on_active_eq; [done|]. reflexivity. }
  cbn [hd disk files set_content]. do 2 f_equal. unfold set_content. cbn [files faults].
  by rewrite Hc.
Qed.

(** An append whose sync fails is reported as an error but its bytes stay in
    the active file; the retry of the same entry succeeds and writes it again, and
    after a restart the log holds the entry twice, under the same index. *)
Theorem Append_retry_duplicates ord m m' st e err :
  reachable ord m (st, Idle) → entry_ok e → Index e = prevIndex (hd st) + 1 →
  ∃ err' st1 st2 h,
    Append e (with_faults [NoFault; Fail err] st) = (Err err', st1) ∧
    Append e st1 = (Ok tt, st2) ∧
    LoadStorage m' (disk st2) = (Ok h, disk st2) ∧
    entries h = entries (hd st) ++ [e; e] ∧ prevIndex h = Index e.
Proof.
  intros [[H _] _ Hl]%reachable_process He Hi. cbn [fst snd newest] in *.
  pose proof (log_core_int64 _ H) as [HT HI]. pose proof (wal_not_active _ H) as Hna.
  pose proof (lc_snapdata _ H) as (snap & Hsn & Hsd).
  eexists _, _, _, _. split; [by apply Append_sync_fails|].
  assert (encode_all (entries (hd st) ++ [e; e]) =
    (encode_all (entries (hd st)) ++ encodeLogEntry e) ++ encodeLogEntry e) as Henc.
  { rewrite encode_all_app, !encode_all_cons. change (encode_all []) with (@nil byte).
    by rewrite app_nil_r, app_assoc. }
  split.
  { apply (Append_calm _ _ (wal (hd st))); try done; [apply H|apply H|apply He]. }
  split.
  - apply (LoadStorage_newest m' _ (discTerm (hd st)) (discIndex (hd st))
      (entries (hd st) ++ [e; e]) snap); try done.
    + apply H.
    + apply Forall_app. split; [apply (lc_entries _ H)|by rewrite !Forall_cons].
    + cbn [disk]. rewrite content_set, Henc. apply set_content_lookup.
    + cbn [disk]. rewrite content_set, set_content_twice.
      eapply no_later_set; [|done]. apply H.
    + cbn [disk]. rewrite set_content_twice, set_content_lookup_ne by done. exact Hsd.
  - cbn [entries prevIndex]. split; [done|]. by rewrite last_app.
Qed.

Lemma Append_retry_duplicates_witness :
  ∃ err' st1 st2 h,
    Append (entry_at 2 1 "{}") (with_faults [NoFault; Fail ErrOS] (one_entry 64)) = (Err err', st1) ∧
    Append (entry_at 2 1 "{}") st1 = (Ok tt, st2) ∧
    LoadStorage 64 (disk st2) = (Ok h, disk st2) ∧ length (entries h) = 3%nat.
Proof.
  destruct (Append_retry_duplicates default_order 64 64 _ (entry_at 2 1 "{}") ErrOS
    (one_entry_reachable _ _)) as (err' & st1 & st2 & h & H1 & H2 & H3 & H4 & _).
  - refine (bool_decide_unpack _ _). vm_compute. exact I.
  - vm_compute. reflexivity.
  - exists err', st1, st2, h. repeat (split; [eassumption|]). rewrite H4. vm_compute. reflexivity.
Defined.

(** [LoadStorage] when the newest log cannot be read. *)
Lemma LoadStorage_unreadable m d t i c snap err :
  calm d → int64_ok t → int64_ok i → Forall entry_ok snap →
  files d !! log_name t i = Some (Reg c) → no_later d t i →
  files d !! active_log = Some (Reg (encode_all snap)) → readLogEntries c = Err err →
  LoadStorage m d = (Err (ErrWrap "failed to read log entries" err), d).
Proof.
  intros Hc Ht Hi Hsnap Hf Hl Ha Hr. unfold LoadStorage.
  erewrite io_bind_Ok by (apply wrap_err_Ok; by apply syscall_calm).
  erewrite io_bind_Ok.
  2: { apply wrap_err_Ok. unfold findLatestSnapshot. erewrite io_bind_Ok.
       2: { apply try_Ok. apply os_open_calm; [done| |by left]. by rewrite Ha. }
       reflexivity. }
  assert (opened active_log (mkFlags true false false) d = d) as ->
    by (unfold opened; by rewrite Ha).
  erewrite io_bind_Ok by (apply wrap_err_Ok; by apply (findLatestLog_ok d t i c)).
  cbv beta iota zeta. erewrite io_bind_Ok.
  2: { unfold read_snapshot. erewrite io_bind_Ok.
       2: { apply try_Ok. erewrite io_bind_Ok by (by apply os_seek0_calm).
            by apply (read_log_calm _ snap). }
       reflexivity. }
  cbv beta iota zeta. erewrite io_bind_Err; [reflexivity|]. apply wrap_err_Err.
  unfold read_log. erewrite io_bind_Ok by (apply wrap_err_Ok; by apply os_read_rest_calm).
  unfold of_outcome. cbn [fname]. by rewrite (content_lookup _ _ _ Hf), Hr.
Qed.

(** A crash in the middle of the write of an append makes the whole log
    unreadable: [LoadStorage] fails on the disk it leaves, so the entries that
    were acknowledged before are not recovered either. *)
Theorem torn_append_blocks_recovery ord m m' st e k :
  reachable ord m (st, Idle) → entry_ok e → Index e = prevIndex (hd st) + 1 →
  (0 < k < length (encodeLogEntry e))%nat →
  ∃ err st1 err', Append e (with_faults [Short k] st) = (Err err, st1) ∧
    LoadStorage m' (disk st1) = (Err err', disk st1).
Proof.
  intros [[H _] _ Hl]%reachable_process He Hi Hk. cbn [fst snd newest] in *.
  pose proof (log_core_int64 _ H) as [HT HI]. pose proof (wal_not_active _ H) as Hna.
  pose proof (lc_snapdata _ H) as (snap & Hsn & Hsd).
  pose proof (lc_entries _ H) as Hen. pose proof (lc_wal _ H) as Hw.
  pose proof (ok_index _ He). pose proof (lc_prev _ H). pose proof (lc_disc _ H).
  pose proof (len_nonneg (entries (hd st))).
  assert (∃ err, readLogEntries (encode_all (entries (hd st)) ++ take k (encodeLogEntry e)) = Err err)
    as [err Herr].
  { rewrite read_encode_all_tail by apply Hen.
    apply (readLoop_torn _ e _ (drop k (encodeLogEntry e))); [done|by rewrite take_drop|..];
      intros Hnil; apply (f_equal length) in Hnil; rewrite ?length_take, ?length_drop in Hnil;
      cbn [length] in Hnil; lia. }
  exists (ErrWrap "failed to write log entry to disk" ErrOS),
    (mkStore (set_content (fname (wal (hd st)))
      (encode_all (entries (hd st)) ++ take k (encodeLogEntry e)) (disk st)) (hd st)).
  eexists. split.
  - unfold Append. erewrite (io_bind_Ok get) by done. cbn [hd with_faults].
    rewrite (proj2 (Z.leb_gt _ _)) by lia.
    rewrite wrap64_id, (proj2 (Z.ltb_ge _ _)) by (unfold int64_ok in *; lia).
    cbv beta iota zeta. erewrite io_bind_Err; [reflexivity|]. apply wrap_err_Err.
    rewrite (on_active_eq _ _ (wal (hd st)) (Err ErrOS)
      (set_content (fname (wal (hd st)))
        (encode_all (entries (hd st)) ++ take k (encodeLogEntry e)) (disk st))); [done|apply H|].
    cbn [with_faults disk]. rewrite (os_write_append_short (wal (hd st)) _ _ _ _ _ eq_refl eq_refl Hw).
    by rewrite calm_eta by apply H.
  - cbn [disk]. eapply (LoadStorage_unreadable m' _ (discTerm (hd st)) (discIndex (hd st))); try done.
    + apply H.
    + apply set_content_lookup.
    + eapply no_later_set; [apply H|done].
    + by rewrite set_content_lookup_ne.
Qed.

Lemma torn_append_blocks_recovery_witness :
  ∃ err st1 err', Append (entry_at 2 1 "{}") (with_faults [Short 9] (one_entry 64)) = (Err err, st1) ∧
    LoadStorage 64 (disk st1) = (Err err', disk st1).
Proof.
  apply (torn_append_blocks_recovery default_order 64 64 _ (entry_at 2 1 "{}") 9
    (one_entry_reachable _ _)).
  - refine (bool_decide_unpack _ _). vm_compute. exact I.
  - vm_compute. reflexivity.
  - split; apply Nat.ltb_lt; vm_compute; reflexivity.
Defined.
