(* ===== verification/Compaction.v ===== *)
(** * What compaction keeps

    [createSnapshot] of [internal/consensus/filesystem/interpreter.go] against a
    declarative description: per job the newest state, unless the job is over. *)

From Stdlib Require Import Strings.Byte Strings.String.
From S2P Require Import Prelude.
From S2P Require Import Bytes.
From S2P Require Import Json.
From S2P Require Import Models.
From S2P Require Import LogCodec.
From S2P Require Import Fs.
From S2P Require Import Storage.

Definition terminal (s : Z) : bool := (s =? Completed) || (s =? Failed).

(** The state an entry records for the job [id]. *)
Definition job_state (id : string) (e : LogEntry) : option Z :=
  match peek (Payload e) with
  | Some p => if bool_decide (ID p = id) then State p else None
  | None => None
  end.

Definition records (id : string) (e : LogEntry) : Prop := is_Some (job_state id e).
Definition ends (id : string) (e : LogEntry) : Prop :=
  match job_state id e with Some s => terminal s = true | None => False end.
#[export] Instance records_dec id e : Decision (records id e).
Proof. unfold records. apply _. Defined.
#[export] Instance ends_dec id e : Decision (ends id e).
Proof. unfold ends. destruct (job_state id e); apply _. Defined.

(** An entry whose payload does not parse, stored under the key [k]. *)
Definition raw_as (k : string) (e : LogEntry) : Prop :=
  match peek (Payload e) with None => raw_key e = k | Some _ => False end.
#[export] Instance raw_as_dec k e : Decision (raw_as k e).
Proof. unfold raw_as. destruct (peek (Payload e)); apply _. Defined.

Definition snapshots (data : list LogEntry) : gmap string LogEntry * gset string :=
  foldr snapshot_entry (∅, ∅) data.

Lemma snapshots_cons e data : snapshots (e :: data) = snapshot_entry e (snapshots data).
Proof. done. Qed.
#[global] Arguments snapshots : simpl never.

(** Each key is the job id of its entry, or the raw key of a malformed one. *)
Lemma snapshots_key data k e :
  (snapshots data).1 !! k = Some e → e ∈ data ∧ (records k e ∨ raw_as k e).
Proof.
  induction data as [|x data IH]; [done|]. rewrite snapshots_cons. unfold snapshot_entry.
  destruct (snapshots data) as [m ex] eqn:Hs. simpl in *.
  assert (m !! k = Some e → e ∈ x :: data ∧ (records k e ∨ raw_as k e)) as Hm.
  { intros [? ?]%IH. split; [by right|done]. }
  destruct (peek (Payload x)) as [p|] eqn:Hp.
  2: { simpl. rewrite lookup_insert_Some. intros [[<- <-] | [_ ?]]; [|auto].
       split; [by left|]. right. unfold raw_as. by rewrite Hp. }
  repeat case_bool_decide; auto. destruct (State p) as [s|] eqn:HS; [|auto].
  destruct (_ || _); simpl.
  - rewrite lookup_delete_Some. intros [_ ?]. auto.
  - destruct (m !! ID p) eqn:Hi; [auto|]. simpl. rewrite lookup_insert_Some.
    intros [[<- <-] | [_ ?]]; [|auto]. split; [by left|]. left.
    unfold records, job_state. rewrite Hp, bool_decide_eq_true_2, HS by done. by eexists.
Qed.

Lemma snapshots_excluded data id :
  id ∈ (snapshots data).2 ↔ id ≠ EmptyString ∧ Exists (ends id) data.
Proof.
  induction data as [|x data IH].
  - rewrite Exists_nil. unfold snapshots. simpl. set_solver.
  - rewrite Exists_cons, snapshots_cons. unfold snapshot_entry.
    destruct (snapshots data) as [m ex] eqn:Hs. simpl in IH.
    unfold ends at 1, job_state. destruct (peek (Payload x)) as [p|]; [|simpl; tauto].
    destruct (decide (ID p = EmptyString)) as [He|He].
    { rewrite bool_decide_eq_true_2 by done. simpl. case_bool_decide; [|tauto].
      subst. tauto. }
    rewrite bool_decide_eq_false_2 by done.
    destruct (decide (ID p ∈ ex)) as [Hin|Hin].
    { rewrite bool_decide_eq_true_2 by done. simpl. case_bool_decide; [|tauto]. subst. tauto. }
    rewrite bool_decide_eq_false_2 by done.
    destruct (State p) as [s|]; [|simpl; case_bool_decide; tauto].
    fold (terminal s). destruct (terminal s) eqn:Ht; simpl.
    + rewrite elem_of_union, elem_of_singleton, IH.
      case_bool_decide; [subst; tauto | intuition congruence].
    + assert (∀ o : gmap string LogEntry * gset string,
        o.2 = ex → (id ∈ o.2) = (id ∈ ex)) as Ho by (intros o ->; done).
      rewrite (Ho (match m !! ID p with Some _ => _ | None => _ end))
        by (by destruct (m !! ID p)).
      rewrite IH. case_bool_decide; intuition congruence.
Qed.

(** What the map holds under a job id no malformed entry's key collides with. *)
Lemma snapshots_job data id :
  id ≠ EmptyString → Forall (λ e, ¬ raw_as id e) data →
  (snapshots data).1 !! id =
    if decide (Exists (ends id) data) then None else last (filter (records id) data).
Proof.
  intros Hid. induction data as [|x data IH]; intros Hraw; [done|].
  apply Forall_cons in Hraw as [Hx Hraw]. specialize (IH Hraw).
  pose proof (snapshots_excluded data id) as Hex. rewrite snapshots_cons, filter_cons.
  unfold snapshot_entry. destruct (snapshots data) as [m ex]. simpl in IH, Hex.
  destruct (decide (Exists (ends id) (x :: data))) as [He|He]; rewrite Exists_cons in He.
  - assert (Exists (ends id) data → m !! id = None) as Hm
      by (intros; by rewrite decide_True in IH).
    unfold raw_as in Hx. unfold ends at 1, job_state in He.
    destruct (peek (Payload x)) as [p|]; [|simpl; rewrite lookup_insert_ne by done; tauto].
    destruct (bool_decide_reflect (ID p = id)) as [->|Hne].
    + rewrite (bool_decide_eq_false_2 (id = EmptyString)) by done.
      destruct (bool_decide_reflect (id ∈ ex)) as [Hin|Hin]; [apply Hm; tauto|].
      assert (¬ Exists (ends id) data) as Hno by tauto.
      destruct (State p) as [s|]; [|tauto]. fold (terminal s).
      assert (terminal s = true) as -> by tauto. simpl. apply lookup_delete_eq.
    + assert (m !! id = None) by (apply Hm; tauto).
      repeat case_bool_decide; try done. destruct (State p); [|done].
      destruct (_ || _); simpl; [by rewrite lookup_delete_ne|].
      destruct (m !! ID p); [done|]. simpl. by rewrite lookup_insert_ne.
  - rewrite decide_False in IH by tauto. unfold raw_as in Hx.
    unfold ends at 1 in He. unfold job_state in He.
    destruct (peek (Payload x)) as [p|] eqn:Hp.
    2: { rewrite decide_False by (unfold records, job_state; rewrite Hp; by intros [? ?]).
         simpl. by rewrite lookup_insert_ne. }
    destruct (bool_decide_reflect (ID p = id)) as [Heq|Hne].
    2: { rewrite decide_False by (unfold records, job_state; rewrite Hp;
           rewrite bool_decide_eq_false_2 by done; by intros [? ?]).
         repeat case_bool_decide; try done. destruct (State p); [|done].
         destruct (_ || _); simpl; [by rewrite lookup_delete_ne|].
         destruct (m !! ID p); [done|]. simpl. by rewrite lookup_insert_ne. }
    rewrite Heq, (bool_decide_eq_false_2 (id = EmptyString)), (bool_decide_eq_false_2 (id ∈ ex))
      by tauto.
    destruct (State p) as [s|] eqn:HS.
    + fold (terminal s). destruct (terminal s) eqn:Ht; [by destruct He; left|].
      rewrite decide_True by (unfold records, job_state; rewrite Hp, HS;
        rewrite bool_decide_eq_true_2 by done; by eexists).
      destruct (m !! id) as [e|] eqn:Hm; simpl.
      * rewrite Hm, IH. by destruct (filter (records id) data).
      * rewrite lookup_insert_eq. symmetry in IH. apply last_None in IH. by rewrite IH.
    + rewrite decide_False by (unfold records, job_state; rewrite Hp, HS;
        rewrite bool_decide_eq_true_2 by done; by intros [? ?]). done.
Qed.

(** Under a raw key no job id collides with: the oldest such entry. *)
Lemma snapshots_raw data k :
  Forall (λ e, ¬ records k e) data →
  (snapshots data).1 !! k = head (filter (raw_as k) data).
Proof.
  induction data as [|x data IH]; intros Hno; [done|].
  apply Forall_cons in Hno as [Hx Hno]. specialize (IH Hno).
  rewrite snapshots_cons, filter_cons. unfold snapshot_entry.
  destruct (snapshots data) as [m ex] eqn:Hs. simpl in IH.
  unfold records, job_state in Hx. destruct (peek (Payload x)) as [p|] eqn:Hp.
  - rewrite decide_False by (unfold raw_as; rewrite Hp; tauto).
    destruct (bool_decide_reflect (ID p = k)) as [Heq|Hne].
    + destruct (State p); [by destruct Hx; eexists|].
      by repeat case_bool_decide.
    + repeat case_bool_decide; try done. destruct (State p); [|done].
      destruct (_ || _); simpl; [by rewrite lookup_delete_ne|].
      destruct (m !! ID p); [done|]. simpl. by rewrite lookup_insert_ne.
  - simpl. destruct (decide (raw_as k x)) as [Hr|Hr]; unfold raw_as in Hr; rewrite Hp in Hr.
    + subst. by rewrite lookup_insert_eq.
    + by rewrite lookup_insert_ne.
Qed.

Lemma elem_of_createSnapshot ord data e :
  e ∈ createSnapshot ord data ↔ ∃ k, (snapshots data).1 !! k = Some e.
Proof. unfold createSnapshot. fold (snapshots data). apply elem_of_range_vals. Qed.

Lemma records_payload id e : records id e → ∃ p, peek (Payload e) = Some p ∧ ID p = id.
Proof.
  unfold records, job_state. destruct (peek (Payload e)) as [p|]; [|by intros [? ?]].
  case_bool_decide; [|by intros [? ?]]. eauto.
Qed.

(** Compaction, whatever order the runtime ranges over its map in. For every
    job id that no malformed entry's raw key equals, the compacted log holds the
    job's newest recorded state, and nothing when some entry of the log says the
    job completed or failed; entries whose payload names no job state (scheduler
    events among them) are dropped; a malformed entry is kept unless an older one
    has the same index. *)
Theorem createSnapshot_spec ord data :
  (∀ e e' k, e ∈ data → e' ∈ data → records k e → ¬ raw_as k e') →
  (∀ id e, id ≠ EmptyString → records id e →
     e ∈ createSnapshot ord data ↔
     ¬ Exists (ends id) data ∧ last (filter (records id) data) = Some e) ∧
  (∀ e, peek (Payload e) = None →
     e ∈ createSnapshot ord data ↔ head (filter (raw_as (raw_key e)) data) = Some e) ∧
  (∀ e p, peek (Payload e) = Some p → State p = None → e ∉ createSnapshot ord data).
Proof.
  intros Hclash. split_and!.
  - intros id e Hid He. rewrite elem_of_createSnapshot.
    assert (e ∈ data → Forall (λ x, ¬ raw_as id x) data) as Hraw.
    { intros Hin. apply Forall_forall. intros x Hx. by apply (Hclash e). }
    split.
    + intros [k Hk]. pose proof (snapshots_key _ _ _ Hk) as [Hin Hkey].
      assert (k = id) as ->.
      { destruct (records_payload _ _ He) as (p & Hp & <-). destruct Hkey as [Hr|Hr].
        - destruct (records_payload _ _ Hr) as (p' & Hp' & <-). by simplify_eq.
        - unfold raw_as in Hr. by rewrite Hp in Hr. }
      rewrite snapshots_job in Hk by auto. by case_decide.
    + intros [Hno Hl]. exists id. rewrite snapshots_job, decide_False; try done.
      apply Hraw. apply last_Some in Hl as [l Hl].
      assert (e ∈ filter (records id) data) as [_ ?]%list_elem_of_filter; [|done].
      rewrite Hl. apply elem_of_app. right. by left.
  - intros e He. rewrite elem_of_createSnapshot.
    assert (∀ x, x ∈ data → raw_as (raw_key e) x → Forall (λ x, ¬ records (raw_key e) x) data) as Hno.
    { intros x Hx Hr. apply Forall_forall. intros y Hy Hrec. by apply (Hclash y x (raw_key e)). }
    assert (raw_as (raw_key e) e) as Hre by (unfold raw_as; by rewrite He).
    split.
    + intros [k Hk]. pose proof (snapshots_key _ _ _ Hk) as [Hin Hkey].
      assert (k = raw_key e) as ->.
      { destruct Hkey as [Hr|Hr]; [|unfold raw_as in Hr; by rewrite He in Hr].
        destruct (records_payload _ _ Hr) as (p & Hp & _). by rewrite He in Hp. }
      rewrite snapshots_raw in Hk by eauto. done.
    + intros Hh. exists (raw_key e). rewrite snapshots_raw; [done|].
      apply (Hno e); [|done]. destruct (filter (raw_as (raw_key e)) data) as [|y l] eqn:Hf; [done|].
      simplify_eq/=. assert (e ∈ filter (raw_as (raw_key e)) data) as [_ ?]%list_elem_of_filter; [|done].
      rewrite Hf. by left.
  - intros e p Hp HS [k Hk]%elem_of_createSnapshot.
    apply snapshots_key in Hk as [_ [Hr | Hr]].
    + unfold records, job_state in Hr. rewrite Hp, HS in Hr. case_bool_decide; by destruct Hr.
    + unfold raw_as in Hr. by rewrite Hp in Hr.
Qed.

Definition sample_log : list LogEntry :=
  [mkEntry 1 1 "n" (text "{'id':'a','state':0}"); mkEntry 2 1 "n" (text "{'id':'b','state':1}");
   mkEntry 3 1 "n" (text "{'id':'a','state':1}"); mkEntry 4 1 "n" (text "{'id':'b','state':2}");
   mkEntry 5 1 "n" (text "{'id':'s','entry':'2'}")].

Lemma createSnapshot_spec_witness :
  mkEntry 3 1 "n" (text "{'id':'a','state':1}") ∈ createSnapshot default_order sample_log ∧
  mkEntry 2 1 "n" (text "{'id':'b','state':1}") ∉ createSnapshot default_order sample_log.
Proof.
  destruct (createSnapshot_spec default_order sample_log) as (Hj & _ & _).
  - intros e e' k _ He' _ Hr. unfold sample_log in He'. revert Hr.
    repeat (apply elem_of_cons in He' as [-> | He']; [vm_compute; tauto|]).
    by apply elem_of_nil in He'.
  - split.
    + apply (Hj "a"); [discriminate | vm_compute; by eexists |]. split.
      * refine (bool_decide_unpack _ _). vm_compute. exact I.
      * vm_compute. reflexivity.
    + intros Hin. apply (Hj "b") in Hin as [Hno _]; [|discriminate | vm_compute; by eexists].
      apply Hno. refine (bool_decide_unpack _ _). vm_compute. exact I.
Defined.
