(* ===== verification/Queries.v ===== *)
(** * What a log query returns

    [QueryEntries] of [internal/consensus/filesystem/reader.go]: for every
    payload id that matches, the newest entry. *)

From Stdlib Require Import Strings.Byte Strings.String.
From S2P Require Import Prelude.
From S2P Require Import Bytes.
From S2P Require Import Json.
From S2P Require Import Models.
From S2P Require Import LogCodec.
From S2P Require Import Fs.
From S2P Require Import Storage.

Definition payload_id (e : LogEntry) : option string := ID <$> peek (Payload e).

Section query.
Context (schedulerID payloadID : option string).

(** The entry passes the filters and its payload parses. *)
Definition matches (e : LogEntry) : Prop :=
  match schedulerID with Some s => SchedulerID e = s | None => True end ∧
  match payload_id e with
  | Some i => match payloadID with Some j => i = j | None => True end
  | None => False
  end.

#[export] Instance matches_dec e : Decision (matches e).
Proof.
  unfold matches. apply and_dec.
  - destruct schedulerID; apply _.
  - destruct (payload_id e); [destruct payloadID|]; apply _.
Defined.

(** The reference: keep a match unless a newer one had the same id. *)
Fixpoint newest (l : list LogEntry) (found : gset string) : list LogEntry :=
  match l with
  | [] => []
  | e :: r =>
      if decide (matches e) then
        match payload_id e with
        | Some i => if decide (i ∈ found) then newest r found
                    else e :: newest r ({[i]} ∪ found)
        | None => newest r found
        end
      else newest r found
  end.

Lemma newest_seen l found :
  (∀ e i, matches e → payload_id e = Some i → i ∈ found) → newest l found = [].
Proof.
  intros Hs. induction l as [|e l IH]; simpl; [done|]. case_decide as Hm; [|done].
  destruct (payload_id e) as [i|] eqn:Hi; [|done].
  by rewrite decide_True by eauto.
Qed.

Lemma query_loop_newest l found res :
  match payloadID with Some i => found = ∅ | None => True end →
  query_loop schedulerID payloadID l found res = res ++ newest l found.
Proof.
  revert found res. induction l as [|e l IH]; intros found res Hf; simpl; [by rewrite app_nil_r|].
  pose proof (IH found res Hf) as IH0.
  destruct (match schedulerID with Some s => negb (bool_decide (SchedulerID e = s)) | None => false end)
    eqn:Hs.
  { rewrite decide_False; [done|]. intros [H _]. destruct schedulerID; [|done]. by bool_to_prop. }
  assert (match schedulerID with Some s => SchedulerID e = s | None => True end) as Hsid
    by (destruct schedulerID; [by bool_to_prop|done]).
  destruct (peek (Payload e)) as [p|] eqn:Hp.
  2: { rewrite decide_False; [done|]. unfold matches, payload_id. rewrite Hp. by intros [_ ?]. }
  assert (payload_id e = Some (ID p)) as Hpi by (unfold payload_id; by rewrite Hp).
  rewrite Hpi.
  destruct (match payloadID with Some i => negb (bool_decide (ID p = i)) | None => false end) eqn:Hi.
  { rewrite decide_False; [done|]. unfold matches. rewrite Hpi. intros [_ H].
    destruct payloadID; [|done]. by bool_to_prop. }
  rewrite decide_True
    by (unfold matches; rewrite Hpi; split; [done|]; destruct payloadID; [by bool_to_prop|done]).
  destruct (decide (ID p ∈ found)) as [Hin|Hin].
  { by rewrite bool_decide_eq_true_2. }
  rewrite bool_decide_eq_false_2 by done. destruct payloadID as [i|] eqn:Hpid.
  - bool_to_prop. rewrite newest_seen; [done|]. intros e' i' [_ Hm] Hi'. rewrite Hi' in Hm.
    rewrite Hpid in Hm. subst. set_solver.
  - by rewrite IH, <- app_assoc.
Qed.

Lemma elem_of_newest l found e :
  e ∈ newest l found ↔
  ∃ l1 l2 i, l = l1 ++ e :: l2 ∧ matches e ∧ payload_id e = Some i ∧ (i ∉ found) ∧
             ∀ x, x ∈ l1 → matches x → payload_id x ≠ Some i.
Proof.
  revert found. induction l as [|y l IH]; intros found; simpl.
  { split; [by intros ?%elem_of_nil | by intros ([] & ? & ? & ? & ?)]. }
  assert (∀ found', (∀ i, payload_id e = Some i → i ∉ found' → (i ∉ found) ∧
      (matches y → payload_id y ≠ Some i)) → e ∈ newest l found' →
    ∃ l1 l2 i, y :: l = l1 ++ e :: l2 ∧ matches e ∧ payload_id e = Some i ∧ (i ∉ found) ∧
      ∀ x, x ∈ l1 → matches x → payload_id x ≠ Some i) as Hlater.
  { intros found' Hf' (l1 & l2 & i & -> & Hm & Hi & Hnf & Hx)%IH. exists (y :: l1), l2, i.
    destruct (Hf' i Hi Hnf). split_and!; try done. intros x [->|Hin]%elem_of_cons; auto. }
  case_decide as Hm.
  - destruct (payload_id y) as [iy|] eqn:Hy; [|unfold matches in Hm; rewrite Hy in Hm; tauto].
    case_decide as Hf.
    + split.
      * apply Hlater. intros i Hi Hnf. split; [done|]. intros _ [= ->]. done.
      * intros (l1 & l2 & i & Heq & Hme & Hi & Hnf & Hx). apply IH.
        destruct l1 as [|z l1]; simplify_eq/=; [done|]. exists l1, l2, i. split_and!; try done.
        intros x Hin. apply Hx. by right.
    + rewrite elem_of_cons. split.
      * intros [-> | Hin]; [exists [], l, iy; split_and!; try done; by intros x ?%elem_of_nil|].
        revert Hin. apply Hlater. intros i Hi Hnf. split; [set_solver|].
        intros _ [= ->]. set_solver.
      * intros (l1 & l2 & i & Heq & Hme & Hi & Hnf & Hx).
        destruct l1 as [|z l1]; simplify_eq/=; [by left|]. right. apply IH.
        exists l1, l2, i. split_and!; try done.
        -- intros [->%elem_of_singleton|?]%elem_of_union; [|done]. by destruct (Hx z ltac:(by left) Hm).
        -- intros x Hin. apply Hx. by right.
  - split.
    + apply Hlater. intros i Hi Hnf. by split.
    + intros (l1 & l2 & i & Heq & Hme & Hi & Hnf & Hx). apply IH.
      destruct l1 as [|z l1]; simplify_eq/=; [done|]. exists l1, l2, i. split_and!; try done.
      intros x Hin. apply Hx. by right.
Qed.

Lemma newest_NoDup l found : NoDup (payload_id <$> newest l found).
Proof.
  revert found. induction l as [|y l IH]; intros found; simpl; [constructor|].
  case_decide; [|done]. destruct (payload_id y) as [iy|] eqn:Hy; [|done]. case_decide; [done|].
  simpl. constructor; [|done]. rewrite Hy.
  intros (x & Hx & (l1 & l2 & i & _ & _ & Hi & Hnf & _)%elem_of_newest)%list_elem_of_fmap.
  rewrite Hi in Hx. simplify_eq. set_solver.
Qed.
End query.

(** With a payload id, the query is the newest match. *)
Lemma QueryEntries_payload i h :
  QueryEntries None (Some i) h = option_list (last (filter (matches None (Some i)) (entries h))).
Proof.
  unfold QueryEntries. rewrite query_loop_newest by done. cbn [app].
  assert (∀ l, newest None (Some i) l ∅ = option_list (head (filter (matches None (Some i)) l))) as Hn.
  { induction l as [|e l IH]; [done|]. cbn [newest]. rewrite filter_cons.
    case_decide as Hm; [|done]. pose proof Hm as [_ Hi].
    destruct (payload_id e) as [j|] eqn:Hj; [|done]. subst j.
    rewrite decide_False by set_solver. simpl. f_equal. apply newest_seen.
    intros x k [_ Hx] Hk. rewrite Hk in Hx. subst. set_solver. }
  rewrite Hn. f_equal. rewrite <- (rev_involutive (entries h)) at 2.
  induction (rev (entries h)) as [|e l IH]; [done|]. simpl. rewrite filter_app, last_app, !filter_cons.
  rewrite filter_nil. case_decide; simpl; [done|]. exact IH.
Qed.

(** C23: a query finds the newest state of every id. [QueryEntries] searches the entries
    in memory, not those that a compaction has moved to the snapshot. Called with a
    filter for the scheduler, for the payload id, or both, it returns, for every
    payload id among the matching entries, exactly the newest matching entry, and no
    two entries with the same id; entries whose payload does not parse are never
    returned. (Without any filter it returns nothing.) *)
Theorem QueryEntries_newest schedulerID payloadID h :
  (schedulerID ≠ None ∨ payloadID ≠ None) →
  let res := QueryEntries schedulerID payloadID h in
  NoDup (payload_id <$> res) ∧
  ∀ e, e ∈ res ↔
    ∃ old new i, entries h = old ++ e :: new ∧ matches schedulerID payloadID e ∧
      payload_id e = Some i ∧
      ∀ x, x ∈ new → matches schedulerID payloadID x → payload_id x ≠ Some i.
Proof.
  intros Hf res.
  assert (res = newest schedulerID payloadID (rev (entries h)) ∅) as ->.
  { unfold res, QueryEntries. rewrite query_loop_newest by by destruct payloadID.
    destruct schedulerID, payloadID; simpl; try done. tauto. }
  split; [apply newest_NoDup|]. intros e. rewrite elem_of_newest. split.
  - intros (l1 & l2 & i & Heq & Hm & Hi & _ & Hx). exists (rev l2), (rev l1), i.
    rewrite <- (rev_involutive (entries h)), Heq, rev_app_distr. simpl. rewrite <- app_assoc.
    split_and!; try done. intros x Hin. apply Hx. by rewrite <- Permutation_rev in Hin.
  - intros (old & new & i & -> & Hm & Hi & Hx). exists (rev new), (rev old), i.
    rewrite rev_app_distr. simpl. rewrite <- app_assoc. split_and!; [done|done|done|set_solver|].
    intros x Hin. apply Hx. by rewrite <- Permutation_rev in Hin.
Qed.

Definition sample_handler : Handler :=
  mkHandler None None 0 0 3 1 0 0
    [mkEntry 1 1 "n" (text "{'id':'a','state':0}"); mkEntry 2 1 "n" (text "{'id':'b','state':0}");
     mkEntry 3 1 "m" (text "{'id':'a','state':1}")] None.

Lemma QueryEntries_newest_witness :
  NoDup (payload_id <$> QueryEntries None (Some "a") sample_handler) ∧
  QueryEntries None (Some "a") sample_handler = [mkEntry 3 1 "m" (text "{'id':'a','state':1}")].
Proof.
  split; [|vm_compute; reflexivity].
  apply (QueryEntries_newest None (Some "a") sample_handler). by right.
Defined.
