(* ===== verification/RaftState.v ===== *)
(** * The consensus state of one node

    [internal/consensus/state] and [internal/consensus/core]: role, leader, term
    and vote of a node, and what it knows of a peer. Times are nanoseconds;
    [time.Now] and [rand.Intn] are arguments. *)

From Stdlib Require Import Strings.String.
From S2P Require Import Prelude.

(** src/internal/consensus/core/models.go:4-10 (Role) *)
Inductive Role := Follower | Candidate | Leader.

#[export] Instance Role_eq_dec : EqDecision Role.
Proof. solve_decision. Defined.

(** src/internal/consensus/core/models.go:13-15 (Role.String) *)
Definition Role_String (r : Role) : string :=
  match r with
  | Follower => "Follower"
  | Candidate => "Candidate"
  | Leader => "Leader"
  end.

(** src/internal/consensus/state/state.go:14-32 (State)

    The gRPC connection and the client made from it are third-party objects: a
    number identifies each. *)
Record State := mkState {
  id : string;
  address : string;
  leaderID : string;
  role : Role;
  connected : bool;
  LastContact : Z;
  ElectionTimeout : Z;
  client : option nat;
  conn : option nat;
  currentTerm : Z;
  votedFor : string
}.

Definition set_contact t s := mkState (id s) (address s) (leaderID s) (role s) (connected s) t
  (ElectionTimeout s) (client s) (conn s) (currentTerm s) (votedFor s).
Definition set_timeout d s := mkState (id s) (address s) (leaderID s) (role s) (connected s)
  (LastContact s) d (client s) (conn s) (currentTerm s) (votedFor s).
Definition set_role r s := mkState (id s) (address s) (leaderID s) r (connected s)
  (LastContact s) (ElectionTimeout s) (client s) (conn s) (currentTerm s) (votedFor s).
Definition set_connected b s := mkState (id s) (address s) (leaderID s) (role s) b
  (LastContact s) (ElectionTimeout s) (client s) (conn s) (currentTerm s) (votedFor s).

(** src/internal/consensus/state/state.go:98-102 (UpdateLeader) *)
Definition UpdateLeader l s := mkState (id s) (address s) l (role s) (connected s)
  (LastContact s) (ElectionTimeout s) (client s) (conn s) (currentTerm s) (votedFor s).

Definition Millisecond : Z := 1000000.

(** src/internal/consensus/state/state.go:86-89 (resetElectionTimer)

    [rnd] is the value of [rand.Intn(150)]. *)
Definition resetElectionTimer (now rnd : Z) (s : State) : State :=
  set_timeout (Millisecond * (rnd + 150)) (set_contact now s).

(** src/internal/consensus/state/state.go:57-64 (BecomeFollower) *)
Definition BecomeFollower (now rnd : Z) (s : State) : State :=
  resetElectionTimer now rnd (UpdateLeader EmptyString (set_role Follower s)).

(** src/internal/consensus/state/state.go:67-74 (BecomeCandidate) *)
Definition BecomeCandidate (now rnd : Z) (s : State) : State :=
  resetElectionTimer now rnd (UpdateLeader EmptyString (set_role Candidate s)).

(** src/internal/consensus/state/state.go:77-83 (BecomeLeader) *)
Definition BecomeLeader (s : State) : State := set_timeout 0 (set_role Leader s).

(** src/internal/consensus/state/state.go:111-115 (RecordContact) *)
Definition RecordContact (now : Z) (s : State) : State := set_contact now s.

(** src/internal/consensus/state/state.go:118-127 (IsElectionTimeout) *)
Definition IsElectionTimeout (now : Z) (s : State) : bool :=
  if bool_decide (role s = Leader) then false
  else ElectionTimeout s <? now - LastContact s.

(** src/internal/consensus/state/state.go:129-133 (TimeSinceLastContact) *)
Definition TimeSinceLastContact (now : Z) (s : State) : Z := now - LastContact s.

(** src/internal/consensus/state/state.go:135-139 (Connection) *)
Definition Connection (s : State) : bool := connected s.
(** src/internal/consensus/state/state.go:141-145 (Connected) *)
Definition Connected (s : State) : State := set_connected true s.
(** src/internal/consensus/state/state.go:147-151 (Disconnected) *)
Definition Disconnected (s : State) : State := set_connected false s.

(** src/internal/consensus/state/state.go:153-158 (UpdateConnection) *)
Definition UpdateConnection (cn cl : option nat) (s : State) : State :=
  mkState (id s) (address s) (leaderID s) (role s) (connected s) (LastContact s)
    (ElectionTimeout s) cl cn (currentTerm s) (votedFor s).

(** src/internal/consensus/state/state.go:180-184 (SetCurrentTerm) *)
Definition SetCurrentTerm (t : Z) (s : State) : State :=
  mkState (id s) (address s) (leaderID s) (role s) (connected s) (LastContact s)
    (ElectionTimeout s) (client s) (conn s) t (votedFor s).

(** src/internal/consensus/state/state.go:194-198 (SetVotedFor) *)
Definition SetVotedFor (v : string) (s : State) : State :=
  mkState (id s) (address s) (leaderID s) (role s) (connected s) (LastContact s)
    (ElectionTimeout s) (client s) (conn s) (currentTerm s) v.

(** src/internal/consensus/state/state.go:35-46 (New) *)
Definition New (now rnd now' rnd' : Z) (nodeID addr : string) : State :=
  let s := mkState nodeID addr EmptyString Follower false 0 0 None None 0 EmptyString in
  Disconnected (BecomeFollower now' rnd' (RecordContact now (resetElectionTimer now rnd s))).

(** src/internal/consensus/state/state.go:92-96 (Role accessor) *)
Definition get_Role (s : State) : Role := role s.
(** src/internal/consensus/state/state.go:104-108 (LeaderID) *)
Definition LeaderID (s : State) : string := leaderID s.
(** src/internal/consensus/state/state.go:160-164 (Conn) *)
Definition Conn (s : State) : option nat := conn s.
(** src/internal/consensus/state/state.go:166-170 (Client) *)
Definition Client (s : State) : option nat := client s.
(** src/internal/consensus/state/state.go:173-177 (CurrentTerm) *)
Definition CurrentTerm (s : State) : Z := currentTerm s.
(** src/internal/consensus/state/state.go:187-191 (VotedFor) *)
Definition VotedFor (s : State) : string := votedFor s.
(** src/internal/consensus/state/state.go:48-50 (ID) *)
Definition get_ID (s : State) : string := id s.
(** src/internal/consensus/state/state.go:52-54 (Address) *)
Definition Address (s : State) : string := address s.

(** A follower or candidate becomes eligible for an election between 150 and
    300 ms after its timer was reset. *)
Lemma election_window now rnd s t :
  0 ≤ rnd < 150 →
  (t ≤ now + 150 * Millisecond → IsElectionTimeout t (BecomeFollower now rnd s) = false) ∧
  (now + 300 * Millisecond ≤ t → IsElectionTimeout t (BecomeFollower now rnd s) = true).
Proof.
  intros Hr. unfold IsElectionTimeout, BecomeFollower, Millisecond. simpl.
  unfold Millisecond. split; intros Ht.
  - apply Z.ltb_ge. lia.
  - apply Z.ltb_lt. lia.
Qed.
