(* ===== verification/RaftNode.v ===== *)
(** * The consensus node

    [internal/consensus/service]: the node's record, its messages, the request
    registry, the peers and the shutdown. The handlers of the service run under
    the node's mutex, so each is a function on the node; network and goroutines
    appear as the sequence of these functions' calls. *)

From Stdlib Require Import Strings.Byte Strings.String.
From S2P Require Import Prelude.
From S2P Require Import Bytes.
From S2P Require Import LogCodec.
From S2P Require Import Fs.
From S2P Require Import Storage.
From S2P Require Import RaftState.

(** ** Messages *)

(** src/api/proto/consensus/v1/consensus.proto:15-21 (VoteRequest) *)
Record VoteRequest := mkVoteRequest {
  vr_OriginNodeId : string; vr_Gossip : bool; vr_Term : Z; vr_LogTerm : Z; vr_LogIndex : Z
}.

(** src/api/proto/consensus/v1/consensus.proto:23-26 (VoteResponse) *)
Record VoteResponse := mkVoteResponse { ResponseNodeId : string; Vote : bool }.

(** src/api/proto/consensus/v1/consensus.proto:28-37 (AppendRequest) *)
Record AppendRequest := mkAppendRequest {
  ar_OriginNodeId : string; ar_RequestId : string; ar_Term : Z; ar_Index : Z;
  ar_PrevLogTerm : Z; ar_PrevLogIndex : Z; ar_SchedulerId : string; ar_Payload : list byte
}.

(** src/api/proto/consensus/v1/consensus.proto:47-54 (AppendResponseStatus) *)
Inductive AppendResponseStatus :=
| SUCCESS | BAD_PAYLOAD | BAD_ORIGIN_ID | NEEDS_SNAPSHOT | FAILED_CONSENSUS | CONCURRENT_CLAIM.

#[export] Instance AppendResponseStatus_eq_dec : EqDecision AppendResponseStatus.
Proof. solve_decision. Defined.

(** src/api/proto/consensus/v1/consensus.proto:39-45 (AppendResponse) *)
Record AppendResponse := mkAppendResponse {
  RequestId : string; AStatus : AppendResponseStatus; PrevLogTerm : Z; PrevLogIndex : Z;
  LeaderAddress : string
}.

(** src/api/proto/consensus/v1/consensus.proto:56-61 (RawAppendRequest) *)
Record RawAppendRequest := mkRawAppendRequest {
  raw_OriginNodeId : string; raw_RequestId : string; raw_SchedulerId : string;
  raw_Payload : list byte
}.

(** src/api/proto/consensus/v1/consensus.proto:63-67 (GetDataRequest) *)
Record GetDataRequest := mkGetDataRequest {
  SchedulerIdQuery : option string; PayloadIdQuery : option string
}.

(** src/api/proto/consensus/v1/consensus.proto:69-73 (GetDataResponse) *)
Record GetDataResponse := mkGetDataResponse {
  gd_OriginNodeId : string; Exists_ : bool; Payloads : list (list byte)
}.

(** src/api/proto/consensus/v1/consensus.proto:75-83 (InstallSnapshotRequest) *)
Record InstallSnapshotRequest := mkInstallSnapshotRequest {
  is_LeaderId : string; is_Term : Z; is_LastIncludedIndex : Z; is_LastIncludedTerm : Z;
  is_Offset : Z; is_Data : list byte; is_Done : bool
}.

(** ** The request registry

    A channel is an index into [bufs]; its buffer holds at most one value. *)

(** src/internal/consensus/service/registry.go:6-9 (requestRegistry) *)
Record requestRegistry := mkRegistry { channels : gmap string nat; bufs : list (option bool) }.

(** src/internal/consensus/service/registry.go:12-16 (newRequestRegistry) *)
Definition newRequestRegistry : requestRegistry := mkRegistry ∅ [].

(** src/internal/consensus/service/registry.go:19-26 (Register) *)
Definition Register (requestID : string) (r : requestRegistry) : nat * requestRegistry :=
  let ch := length (bufs r) in
  (ch, mkRegistry (<[requestID := ch]> (channels r)) (bufs r ++ [None])).

(** src/internal/consensus/service/registry.go:29-37 (Resolve)

    A channel is sent to at most once: it leaves the map with the send. *)
Definition Resolve (requestID : string) (result : bool) (r : requestRegistry) : requestRegistry :=
  match channels r !! requestID with
  | Some ch => mkRegistry (delete requestID (channels r)) (<[ch := Some result]> (bufs r))
  | None => r
  end.

(** src/internal/consensus/service/registry.go:40-45 (Deregister) *)
Definition Deregister (requestID : string) (r : requestRegistry) : requestRegistry :=
  mkRegistry (delete requestID (channels r)) (bufs r).

(** What a receive from the channel would give: [None] while it is empty. *)
Definition received (ch : nat) (r : requestRegistry) : option bool := mjoin (bufs r !! ch).

(** ** The node *)

(** src/internal/consensus/service/node.go:18-33 (Node)

    [peerNodes] and [appendChan] are [None] once [Close] has made them nil; the
    gRPC server is outside the model. *)
Record Node := mkNode {
  state : State;
  peerNodes : option (gmap string State);
  store : Store;
  appendChan : option (list RawAppendRequest);
  reqRegistry : requestRegistry;
  commitIndex : Z
}.

Definition set_state s n := mkNode s (peerNodes n) (store n) (appendChan n) (reqRegistry n)
  (commitIndex n).
Definition set_peers p n := mkNode (state n) p (store n) (appendChan n) (reqRegistry n)
  (commitIndex n).
Definition set_store st n := mkNode (state n) (peerNodes n) st (appendChan n) (reqRegistry n)
  (commitIndex n).
Definition set_chan c n := mkNode (state n) (peerNodes n) (store n) c (reqRegistry n)
  (commitIndex n).
Definition set_registry r n := mkNode (state n) (peerNodes n) (store n) (appendChan n) r
  (commitIndex n).
Definition set_commit i n := mkNode (state n) (peerNodes n) (store n) (appendChan n)
  (reqRegistry n) i.
Definition upd_state (f : State → State) (n : Node) : Node := set_state (f (state n)) n.

Definition peers_map (n : Node) : gmap string State := default ∅ (peerNodes n).
Definition FileHandler (n : Node) : Handler := hd (store n).

(** src/internal/consensus/service/node.go:35-46 (NewNode)

    The three goroutines it starts are the steps of the other files. *)
Definition NewNode (s : State) (st : Store) : Node :=
  mkNode s (Some ∅) st (Some []) newRequestRegistry (DiscIndex (hd st)).

(** src/internal/consensus/service/node.go:75-84 (Peers) *)
Definition Peers (ord : MapOrder) (n : Node) : list State := (range ord (peers_map n)).*2.

(** src/internal/consensus/service/node.go:88-118 (ConnectToPeers loop body)

    [dial] is [grpc.NewClient]: the new connection and client, or an error. *)
Definition connect_peer (dial : string → option (nat * nat)) (peer : State) (n : Node) : Node :=
  if bool_decide (id peer = id (state n)) then n else
  match peers_map n !! id peer with
  | Some _ => n
  | None =>
      match dial (address peer) with
      | None => n
      | Some (cn, cl) =>
          let peer := UpdateConnection (Some cn) (Some cl) (Disconnected peer) in
          match peerNodes n with
          | Some m => set_peers (Some (<[id peer := peer]> m)) n
          | None => n
          end
      end
  end.

(** src/internal/consensus/service/node.go:87-123 (ConnectToPeers) *)
Definition ConnectToPeers (dial : string → option (nat * nat)) (peers : list State) (n : Node)
    : Node := foldl (λ n p, connect_peer dial p n) n peers.

(** src/internal/consensus/service/node.go:125-149 (Close)

    The node after it, and the peers it disconnects. *)
Definition Close (ord : MapOrder) (n : Node) : Node * list State :=
  (set_chan None (set_peers None n), Disconnected <$> Peers ord n).

(** src/internal/consensus/service/connections.go:11-21 (NumberConnected) *)
Definition NumberConnected (ord : MapOrder) (n : Node) : Z :=
  foldl (λ count p, if Connection p then count + 1 else count) 0 (Peers ord n).

Inductive ConnState := ConnIdle | Connecting | Ready | TransientFailure | Shutdown.

(** src/internal/consensus/service/connections.go:34-57 (monitorPeerConnection loop body)

    What one change of the channel's state does to the peer. *)
Definition monitor_step (newState : ConnState) (peer : State) : State :=
  match newState with
  | Ready => if Connection peer then peer else Connected peer
  | ConnIdle | TransientFailure => if Connection peer then Disconnected peer else peer
  | _ => peer
  end.

(** src/internal/consensus/service/connections.go:59-63 (RecordContact) *)
Definition Node_RecordContact (now : Z) (n : Node) : Node := upd_state (RecordContact now) n.
(** src/internal/consensus/service/connections.go:65-69 (IsElectionTimeout) *)
Definition Node_IsElectionTimeout (now : Z) (n : Node) : bool := IsElectionTimeout now (state n).

(** ** Lemmas *)

Lemma received_Register rid r :
  received (Register rid r).1 (Register rid r).2 = None.
Proof.
  unfold received, Register. simpl. rewrite lookup_app_r by lia. by rewrite Nat.sub_diag.
Qed.

(** Every channel of the map exists and is still empty. *)
Definition registry_ok (r : requestRegistry) : Prop :=
  map_Forall (λ _ ch, bufs r !! ch = Some None) (channels r) ∧
  ∀ a b ch, channels r !! a = Some ch → channels r !! b = Some ch → a = b.

Lemma registry_ok_new : registry_ok newRequestRegistry.
Proof. split; [apply map_Forall_empty | intros a b ch Ha; cbn in Ha; by rewrite lookup_empty in Ha]. Qed.

Lemma registry_ok_Register rid r : registry_ok r → registry_ok (Register rid r).2.
Proof.
  intros [Hb Hi]. split; simpl.
  - intros k ch. rewrite lookup_insert_Some. intros [[<- <-] | [_ Hk]].
    + by rewrite lookup_app_r, Nat.sub_diag.
    + apply lookup_app_l_Some. by apply (Hb k).
  - intros a b ch. rewrite !lookup_insert_Some.
    assert (∀ k, channels r !! k ≠ Some (length (bufs r))) as Hne.
    { intros k Hk. apply Hb in Hk. apply lookup_lt_Some in Hk. lia. }
    intros [[<- <-] | [? Ha]] [[<- Hl] | [? Hb']]; try done; [by apply Hne in Hb' | |by eapply Hi].
    subst. by apply Hne in Ha.
Qed.

Lemma registry_ok_Resolve rid v r : registry_ok r → registry_ok (Resolve rid v r).
Proof.
  intros [Hb Hi]. unfold Resolve. destruct (channels r !! rid) as [ch|] eqn:Hr; [|done].
  split; simpl.
  - intros k c [Hk Hc]%lookup_delete_Some. rewrite list_lookup_insert_ne; [by apply (Hb k)|].
    intros <-. by destruct (Hi rid k ch).
  - intros a b c [_ Ha]%lookup_delete_Some [_ Hb']%lookup_delete_Some. by eapply Hi.
Qed.
