(* ===== verification/RaftElection.v ===== *)
(** * Elections

    [internal/consensus/service/election.go]: the vote handler and the two
    phases of an election, with the safety of votes and what a split vote does. *)

From Stdlib Require Import Strings.Byte Strings.String.
From S2P Require Import Prelude.
From S2P Require Import Bytes.
From S2P Require Import LogCodec.
From S2P Require Import Fs.
From S2P Require Import Storage.
From S2P Require Import RaftState.
From S2P Require Import RaftNode.

(** ** Votes *)

(** src/internal/consensus/service/election.go:53-55 (RequestVote, the log comparison) *)
Definition logIsUpToDate (req : VoteRequest) (n : Node) : bool :=
  let lastLogTerm := Term_ (FileHandler n) in
  let lastLogIndex := Index_ (FileHandler n) in
  (lastLogTerm <? vr_LogTerm req) ||
  ((vr_LogTerm req =? lastLogTerm) && (lastLogIndex <=? vr_LogIndex req)).

(** src/internal/consensus/service/election.go:16-90 (RequestVote)

    [now] and [rnd] are the clock and the random draw of this call. *)
Definition RequestVote (now rnd : Z) (req : VoteRequest) (n : Node) : VoteResponse * Node :=
  let respond v n := (mkVoteResponse (id (state n)) v, n) in
  let n :=
    if currentTerm (state n) <? vr_Term req then
      if negb (vr_Gossip req) then
        upd_state (SetCurrentTerm (vr_Term req))
          (upd_state (BecomeFollower now rnd) (upd_state (SetVotedFor EmptyString) n))
      else n
    else n in
  if vr_Term req <? currentTerm (state n) then respond false n else
  if negb (vr_Gossip req)
     && (bool_decide (role (state n) = Leader) || bool_decide (role (state n) = Candidate))
     && (vr_Term req =? currentTerm (state n))
  then respond false n else
  if vr_Gossip req && negb (bool_decide (leaderID (state n) = EmptyString))
     && negb (IsElectionTimeout now (state n))
  then respond false n else
  if vr_Gossip req then respond (logIsUpToDate req n) n else
  if (bool_decide (votedFor (state n) = EmptyString)
      || bool_decide (votedFor (state n) = vr_OriginNodeId req)) && logIsUpToDate req n
  then respond true
         (upd_state (RecordContact now) (upd_state (UpdateLeader EmptyString)
           (upd_state (SetVotedFor (vr_OriginNodeId req)) n)))
  else respond false n.

(** ** Running for leader *)

(** src/internal/consensus/service/election.go:94-115 (StartElection, first critical section)

    The pre-vote request and the term it was made in, unless the node leads. *)
Definition start_prevote (now : Z) (n : Node) : option (VoteRequest * Z) * Node :=
  if bool_decide (role (state n) = Leader) then (None, n) else
  let n := upd_state (RecordContact now) (upd_state (UpdateLeader EmptyString) n) in
  let oldTerm := currentTerm (state n) in
  let preVoteTerm := wrap64 (oldTerm + 1) in
  (Some (mkVoteRequest (id (state n)) true preVoteTerm (Term_ (FileHandler n))
           (Index_ (FileHandler n)), oldTerm), n).

(** src/internal/consensus/service/election.go:120-120 (majorityNeeded) *)
Definition majorityNeeded (peers : list State) : Z := (len peers + 1) / 2 + 1.

(** src/internal/consensus/service/election.go:123-134 (StartElection, a cluster of one) *)
Definition win_alone (now rnd oldTerm : Z) (n : Node) : Node :=
  if currentTerm (state n) =? oldTerm then
    let n := upd_state (UpdateLeader (id (state n)))
      (upd_state BecomeLeader
        (upd_state (SetVotedFor (id (state n)))
          (upd_state (SetCurrentTerm (wrap64 (oldTerm + 1)))
            (upd_state (BecomeCandidate now rnd) n)))) in
    set_commit (Index_ (FileHandler n)) n
  else n.

(** src/internal/consensus/service/election.go:146-163 (StartElection, the formal candidacy) *)
Definition start_formal (now rnd oldTerm : Z) (n : Node) : option VoteRequest * Node :=
  if bool_decide (role (state n) = Leader) || negb (currentTerm (state n) =? oldTerm)
  then (None, n) else
  let preVoteTerm := wrap64 (oldTerm + 1) in
  let n := upd_state (SetVotedFor (id (state n)))
    (upd_state (SetCurrentTerm preVoteTerm) (upd_state (BecomeCandidate now rnd) n)) in
  (Some (mkVoteRequest (id (state n)) false preVoteTerm (Term_ (FileHandler n))
           (Index_ (FileHandler n))), n).

(** src/internal/consensus/service/election.go:167-175 (StartElection, winning) *)
Definition win_formal (preVoteTerm : Z) (n : Node) : Node :=
  if bool_decide (role (state n) = Candidate) && (currentTerm (state n) =? preVoteTerm) then
    let n := upd_state (UpdateLeader (id (state n))) (upd_state BecomeLeader n) in
    set_commit (Index_ (FileHandler n)) n
  else n.

(** One answer of a peer, with the node's role and term when it is looked at;
    [None] is a failed call. *)
Record answer := mkAnswer { a_resp : option VoteResponse; a_role : Role; a_term : Z }.

(** src/internal/consensus/service/election.go:197-216 (sendVoteRequests, one answer) *)
Definition counts (expectedRole : Role) (expectedTerm : Z) (a : answer) : bool :=
  match a_resp a with
  | None => false
  | Some resp =>
      if negb (bool_decide (a_role a = expectedRole)) || negb (a_term a =? expectedTerm)
      then false else Vote resp
  end.

(** src/internal/consensus/service/election.go:179-222 (sendVoteRequests)

    [answers] has one element per connected peer. *)
Definition sendVoteRequests (answers : list answer) (majority : Z) (expectedRole : Role)
    (expectedTerm : Z) : bool :=
  let votes := foldl (λ v a, if counts expectedRole expectedTerm a then v + 1 else v) 1 answers in
  majority <=? votes.

(** What the environment does during one election: the answers to the two
    rounds, and how other handlers change the node meanwhile. *)
Record environment := mkEnv {
  env_prevote : list answer; env_meanwhile : Node → Node;
  env_formal : list answer; env_meanwhile' : Node → Node
}.

(** src/internal/consensus/service/election.go:93-177 (StartElection) *)
Definition StartElection (ord : MapOrder) (now rnd : Z) (env : environment) (n : Node) : Node :=
  match start_prevote now n with
  | (None, n) => n
  | (Some (preVoteReq, oldTerm), n) =>
      let peers := Peers ord n in
      let preVoteTerm := wrap64 (oldTerm + 1) in
      let majority := majorityNeeded peers in
      if majority =? 1 then win_alone now rnd oldTerm n else
      let ok := sendVoteRequests (env_prevote env) majority Follower oldTerm in
      let n := env_meanwhile env n in
      if negb ok then n else
      match start_formal now rnd oldTerm n with
      | (None, n) => n
      | (Some req, n) =>
          let ok := sendVoteRequests (env_formal env) majority Candidate preVoteTerm in
          let n := env_meanwhile' env n in
          if ok then win_formal preVoteTerm n else n
      end
  end.

(** ** Terms and votes *)

Lemma RequestVote_term now rnd req n :
  currentTerm (state n) ≤ currentTerm (state (RequestVote now rnd req n).2).
Proof.
  unfold RequestVote. destruct (currentTerm (state n) <? vr_Term req) eqn:E, (vr_Gossip req);
    bool_to_prop; simpl; split_matches; simpl; lia.
Qed.

Definition granted (now rnd : Z) (req : VoteRequest) (n : Node) : Prop :=
  Vote (RequestVote now rnd req n).1 = true.

Lemma RequestVote_granted now rnd req n :
  vr_Gossip req = false → granted now rnd req n →
  let n' := (RequestVote now rnd req n).2 in
  currentTerm (state n') = vr_Term req ∧ votedFor (state n') = vr_OriginNodeId req ∧
  role (state n') = Follower ∧
  (currentTerm (state n) = vr_Term req → votedFor (state n) = EmptyString ∨ votedFor (state n) = vr_OriginNodeId req).
Proof.
  unfold granted, RequestVote. intros ->. simpl.
  destruct (currentTerm (state n) <? vr_Term req) eqn:E; simpl.
  - rewrite Z.ltb_irrefl. simpl. destruct (logIsUpToDate _ _); [|done]. simpl. bool_to_prop.
    intros _. split_and!; try done. lia.
  - destruct (vr_Term req <? currentTerm (state n)) eqn:E'; [done|]. bool_to_prop.
    assert (currentTerm (state n) = vr_Term req) as Heq by lia. rewrite Heq, Z.eqb_refl.
    destruct (role (state n)) eqn:Hr; simpl; try done.
    destruct (_ && _) eqn:Hv; [|done]. intros _. bool_to_prop. simpl.
    apply orb_true_iff in H as [H|H]; bool_to_prop; split_and!; auto.
Qed.

(** A call of the handler: the clock, the random draw, the request. *)
Definition vote_call : Type := Z * Z * VoteRequest.

Definition vote_run (n : Node) (calls : list vote_call) : Node :=
  foldl (λ n c, (RequestVote c.1.1 c.1.2 c.2 n).2) n calls.

(** The formal votes granted along a run: term and candidate. *)
Fixpoint votes (n : Node) (calls : list vote_call) : list (Z * string) :=
  match calls with
  | [] => []
  | c :: calls =>
      let '(resp, n') := RequestVote c.1.1 c.1.2 c.2 n in
      if Vote resp && negb (vr_Gossip c.2)
      then (vr_Term c.2, vr_OriginNodeId c.2) :: votes n' calls
      else votes n' calls
  end.

(** A call that leaves the term alone leaves a vote alone. *)
Lemma RequestVote_keeps_vote now rnd req n c :
  votedFor (state n) = c → c ≠ EmptyString →
  let n' := (RequestVote now rnd req n).2 in
  currentTerm (state n') = currentTerm (state n) → votedFor (state n') = c.
Proof.
  intros Hv Hc. unfold RequestVote.
  destruct (currentTerm (state n) <? vr_Term req) eqn:E, (vr_Gossip req); simpl; bool_to_prop;
    split_matches; simpl; try done; try lia.
  intros _. bool_to_prop. rewrite Hv in *.
  match goal with H : (_ || _) = true |- _ => apply orb_true_iff in H as [H|H] end;
    bool_to_prop; congruence.
Qed.

Lemma votes_later n calls t c :
  (t, c) ∈ votes n calls → currentTerm (state n) ≤ t.
Proof.
  revert n. induction calls as [|[[now rnd] req] calls IH]; intros n; simpl; [by intros ?%elem_of_nil|].
  pose proof (RequestVote_term now rnd req n) as Ht.
  pose proof (RequestVote_granted now rnd req n) as Hg. unfold granted in Hg.
  destruct (RequestVote now rnd req n) as [resp n'] eqn:Er. simpl in *.
  destruct (Vote resp && negb (vr_Gossip req)) eqn:E.
  - bool_to_prop. destruct (Hg ltac:(done) ltac:(done)) as (Hn & _).
    intros [[= -> ->] | Hin]%elem_of_cons; [lia|]. apply IH in Hin. lia.
  - intros Hin%IH. lia.
Qed.

Lemma votes_same_term n calls c c' :
  votedFor (state n) = c → c ≠ EmptyString → Forall (λ x, vr_OriginNodeId x.2 ≠ EmptyString) calls →
  (currentTerm (state n), c') ∈ votes n calls → c' = c.
Proof.
  revert n. induction calls as [|[[now rnd] req] calls IH]; intros n Hv Hc Hall;
    simpl; [by intros ?%elem_of_nil|].
  apply Forall_cons in Hall as [Hreq Hall]. simpl in Hreq.
  pose proof (RequestVote_term now rnd req n) as Ht.
  pose proof (RequestVote_granted now rnd req n) as Hg. unfold granted in Hg.
  pose proof (RequestVote_keeps_vote now rnd req n c Hv Hc) as Hk.
  destruct (RequestVote now rnd req n) as [resp n'] eqn:Er. simpl in *.
  assert ((currentTerm (state n), c') ∈ votes n' calls → c' = c) as Hrest.
  { intros Hin. pose proof (votes_later _ _ _ _ Hin).
    assert (currentTerm (state n') = currentTerm (state n)) as Heq by lia.
    apply (IH n'); [by apply Hk | done | done | by rewrite Heq]. }
  destruct (Vote resp && negb (vr_Gossip req)) eqn:E; [|done]. bool_to_prop.
  destruct (Hg ltac:(done) ltac:(done)) as (_ & _ & _ & Hprev).
  intros [Heq | Hin]%elem_of_cons; [|auto]. injection Heq as Heq ->.
  destruct (Hprev Heq) as [Hp|Hp]; congruence.
Qed.

(** However vote requests, formal and tentative, from named candidates arrive
    at a node, it grants its formal vote in a term to at most one candidate. *)
Theorem one_vote_per_term n calls t c c' :
  Forall (λ x, vr_OriginNodeId x.2 ≠ EmptyString) calls →
  (t, c) ∈ votes n calls → (t, c') ∈ votes n calls → c = c'.
Proof.
  revert n. induction calls as [|[[now rnd] req] calls IH]; intros n Hall;
    simpl; [by intros ?%elem_of_nil|].
  apply Forall_cons in Hall as [Hreq Hall]. simpl in Hreq.
  pose proof (RequestVote_granted now rnd req n) as Hg. unfold granted in Hg.
  destruct (RequestVote now rnd req n) as [resp n'] eqn:Er. simpl in *.
  destruct (Vote resp && negb (vr_Gossip req)) eqn:E; [|by apply IH]. bool_to_prop.
  destruct (Hg ltac:(done) ltac:(done)) as (Ht & Hv & _).
  assert (∀ x, (vr_Term req, x) ∈ votes n' calls → x = vr_OriginNodeId req) as Hsame.
  { intros x Hin. apply (votes_same_term n' calls); [done..|by rewrite Ht]. }
  rewrite !elem_of_cons. intros [[= -> ->] | Hc] [Heq | Hc'].
  - by injection Heq.
  - symmetry. by apply Hsame.
  - injection Heq as -> ->. by apply Hsame.
  - by apply (IH n').
Qed.

(** A node at rest, for examples. *)
Definition sample_state (name : string) (r : Role) (term : Z) : State :=
  mkState name "addr" EmptyString r false 0 (150 * Millisecond) None None term EmptyString.
Definition empty_store : Store :=
  mkStore (mkFS ∅ []) (mkHandler None None 0 64 0 0 0 0 [] (Some false)).
Definition sample_node (name : string) (r : Role) (term : Z) : Node :=
  NewNode (sample_state name r term) empty_store.

Definition vote_req (from : string) (gossip : bool) (term : Z) : VoteRequest :=
  mkVoteRequest from gossip term 0 0.

Lemma one_vote_per_term_witness :
  votes (sample_node "c" Follower 1)
    [(0, 0, vote_req "a" false 2); (1, 0, vote_req "b" false 2); (2, 0, vote_req "b" false 3)]
    = [(2, "a"); (3, "b")] ∧
  ∀ c, (2, c) ∈ votes (sample_node "c" Follower 1)
    [(0, 0, vote_req "a" false 2); (1, 0, vote_req "b" false 2)] → c = "a".
Proof.
  split; [vm_compute; reflexivity|]. intros c Hc.
  apply (one_vote_per_term (sample_node "c" Follower 1)
    [(0, 0, vote_req "a" false 2); (1, 0, vote_req "b" false 2)] 2 c "a").
  - repeat constructor; vm_compute; discriminate.
  - exact Hc.
  - vm_compute. left.
Defined.

(** ** Winning and being stuck *)

Lemma count_votes er et answers v :
  foldl (λ v a, if counts er et a then v + 1 else v) v answers =
  v + len (filter (λ a, counts er et a = true) answers).
Proof.
  revert v. induction answers as [|a l IH]; intros v; simpl; [by rewrite Z.add_0_r|].
  rewrite IH, filter_cons. destruct (counts er et a); simpl; [rewrite len_cons; lia | lia].
Qed.

(** The answers that count: granted, and looked at in the expected role and term. *)
Definition yes_votes (er : Role) (et : Z) (answers : list answer) : Z :=
  len (filter (λ a, counts er et a = true) answers).

Lemma sendVoteRequests_spec answers m er et :
  sendVoteRequests answers m er et = true ↔ m ≤ 1 + yes_votes er et answers.
Proof. unfold sendVoteRequests. by rewrite count_votes, Z.leb_le. Qed.

Lemma start_prevote_role now n : role (state (start_prevote now n).2) = role (state n).
Proof. unfold start_prevote. by case_bool_decide. Qed.

Lemma majority_strict peers m : m = majorityNeeded peers → len peers + 1 < 2 * m.
Proof.
  unfold majorityNeeded. intros ->. pose proof (Z.div_mod (len peers + 1) 2).
  pose proof (Z.mod_pos_bound (len peers + 1) 2). lia.
Qed.

(** A node leaves [StartElection] as leader, where other handlers did not make
    it one, only by a strict majority of the whole cluster: either it has no
    peers, or the granted formal votes looked at while it was a candidate in the
    new term, with its own, are more than half of the nodes; its term is then the
    next one, its vote its own, and its commit index its log's last index. *)
Theorem StartElection_leader_has_majority ord now rnd env n :
  let n' := StartElection ord now rnd env n in
  role (state n) ≠ Leader →
  (∀ m, role (state (env_meanwhile env m)) ≠ Leader) →
  (∀ m, role (state (env_meanwhile' env m)) ≠ Leader) →
  role (state n') = Leader →
  let cluster := len (Peers ord n) + 1 in
  let term := wrap64 (currentTerm (state n) + 1) in
  currentTerm (state n') = term ∧ leaderID (state n') = id (state n') ∧
  commitIndex n' = prevIndex (FileHandler n') ∧
  (cluster = 1 ∨ cluster < 2 * (1 + yes_votes Candidate term (env_formal env))).
Proof.
  intros n' Hn Hm Hm' Hl. unfold n', StartElection in *. clear n'.
  assert (∃ req n1, start_prevote now n = (Some (req, currentTerm (state n)), n1) ∧
    Peers ord n1 = Peers ord n ∧ role (state n1) ≠ Leader) as (req & n1 & Hs & Hp & Hr).
  { unfold start_prevote. rewrite bool_decide_eq_false_2 by done. eexists _, _. by split_and!. }
  rewrite Hs in *. set (t := currentTerm (state n)) in *. rewrite Hp in *.
  set (m := majorityNeeded (Peers ord n)) in *.
  pose proof (majority_strict (Peers ord n) m eq_refl) as Hmaj.
  destruct (m =? 1) eqn:E1.
  - bool_to_prop. unfold win_alone in *. destruct (currentTerm (state n1) =? t); [|done]. simpl.
    split_and!; try done. left. pose proof (len_nonneg (Peers ord n)). lia.
  - destruct (sendVoteRequests (env_prevote env) m Follower t); simpl in *; [|by apply Hm in Hl].
    unfold start_formal in *.
    destruct (bool_decide (role (state (env_meanwhile env n1)) = Leader)) eqn:El.
    { bool_to_prop. by apply Hm in El. }
    simpl in *. destruct (negb (currentTerm _ =? t)) eqn:Et; [by apply Hm in Hl|].
    set (n2 := upd_state (SetVotedFor _) _) in *.
    destruct (sendVoteRequests (env_formal env) m Candidate (wrap64 (t + 1))) eqn:Ef;
      [|by apply Hm' in Hl].
    apply sendVoteRequests_spec in Ef.
    unfold win_formal in *. destruct (_ && _) eqn:Ew; [|by apply Hm' in Hl]. bool_to_prop. simpl.
    split_and!; try done. right. lia.
Qed.

Definition with_peers (names : list string) (n : Node) : Node :=
  set_peers (Some (list_to_map ((λ x, (x, sample_state x Follower 0)) <$> names))) n.

Definition yes (r : Role) (t : Z) : answer := mkAnswer (Some (mkVoteResponse "b" true)) r t.
Definition lucky_env : environment :=
  mkEnv [yes Follower 1; yes Follower 1] (λ m, upd_state (set_role Follower) m)
        [yes Candidate 2; mkAnswer None Candidate 2] (λ m, upd_state (set_role Candidate) m).

Lemma StartElection_leader_has_majority_witness :
  let n' := StartElection default_order 5 7 lucky_env
              (with_peers ["b"; "c"] (sample_node "a" Follower 1)) in
  currentTerm (state n') = 2 ∧ leaderID (state n') = id (state n').
Proof.
  destruct (StartElection_leader_has_majority default_order 5 7 lucky_env
    (with_peers ["b"; "c"] (sample_node "a" Follower 1))) as (Ht & Hid & _).
  - vm_compute. discriminate.
  - intros m. vm_compute. discriminate.
  - intros m. vm_compute. discriminate.
  - vm_compute. reflexivity.
  - split; [rewrite Ht; vm_compute; reflexivity | exact Hid].
Defined.

(** A cluster after a split vote: what its nodes do to each other while no
    formal vote request and no append is under way. *)
Inductive cluster_step (ord : MapOrder) : list Node → list Node → Prop :=
| cs_prevote_request i n now rnd req ns :
    ns !! i = Some n → vr_Gossip req = true →
    cluster_step ord ns (<[i := (RequestVote now rnd req n).2]> ns)
| cs_election i n now rnd env calls ns :
    ns !! i = Some n → Peers ord n ≠ [] →
    Forall (λ a, a_role a = role (state n)) (env_prevote env) →
    Forall (λ c : vote_call, vr_Gossip c.2 = true) calls →
    env_meanwhile env = (λ m, vote_run m calls) →
    cluster_step ord ns (<[i := StartElection ord now rnd env n]> ns).

Lemma gossip_keeps_role now rnd req n :
  vr_Gossip req = true → RequestVote now rnd req n = ((RequestVote now rnd req n).1, n).
Proof.
  intros Hg. unfold RequestVote. rewrite Hg. simpl.
  destruct (currentTerm (state n) <? vr_Term req); split_matches; done.
Qed.

Lemma gossip_run n calls :
  Forall (λ c : vote_call, vr_Gossip c.2 = true) calls → vote_run n calls = n.
Proof.
  intros Hc. unfold vote_run. induction Hc as [|[[now rnd] req] l Hg _ IH]; simpl; [done|].
  simpl in Hg. by rewrite (gossip_keeps_role _ _ _ _ Hg).
Qed.

Lemma yes_votes_wrong_role er et answers :
  Forall (λ a, a_role a ≠ er) answers → yes_votes er et answers = 0.
Proof.
  intros Ha. unfold yes_votes. rewrite filter_Forall_false; [done|].
  eapply Forall_impl; [exact Ha|]. intros a Hr. unfold counts. destruct (a_resp a); [|done].
  by rewrite bool_decide_eq_false_2.
Qed.

Definition candidates (terms : list Z) (ns : list Node) : Prop :=
  Forall2 (λ t n, role (state n) = Candidate ∧ currentTerm (state n) = t) terms ns.

(** A split vote is final. The answers to a pre-vote count only while the node
    is a follower, and a node that lost a formal election stays a candidate; so
    in a cluster of two or more nodes that are all candidates, tentative votes
    and new elections never change a role or a term, and no leader appears. *)
Theorem split_vote_is_final ord terms ns ns' :
  candidates terms ns → rtc (cluster_step ord) ns ns' → candidates terms ns'.
Proof.
  intros Hc Hs. induction Hs as [|ns1 ns2 ns3 Hst _ IH]; [done|]. apply IH. clear IH.
  assert (∀ i n n', ns1 !! i = Some n →
    (role (state n) = Candidate → role (state n') = Candidate ∧
       currentTerm (state n') = currentTerm (state n)) →
    candidates terms (<[i := n']> ns1)) as Hset.
  { intros i n n' Hi Hn. unfold candidates in *.
    destruct (Forall2_lookup_r _ _ _ _ _ Hc Hi) as (t & Ht & Hr & Hct).
    rewrite <- (list_insert_id terms i t) by done. apply Forall2_insert; [done|].
    destruct (Hn Hr) as [? ->]. done. }
  destruct Hst as [i n now rnd req ns Hi Hg | i n now rnd env calls ns Hi Hp Ha Hcalls Hm].
  - apply (Hset i n); [done|]. by rewrite gossip_keeps_role.
  - apply (Hset i n); [done|]. intros Hr. unfold StartElection, start_prevote.
    rewrite bool_decide_eq_false_2 by congruence.
    destruct (majorityNeeded _ =? 1) eqn:E1.
    { bool_to_prop. apply majority_strict in E1 || (symmetry in E1; apply majority_strict in E1).
      change (Peers ord (upd_state _ _)) with (Peers ord n) in E1.
      destruct (Peers ord n); [done|]. rewrite len_cons in E1. pose proof (len_nonneg l). lia. }
    destruct (sendVoteRequests _ _ Follower _) eqn:Es; simpl.
    2: { rewrite Hm, gossip_run by done. done. }
    apply sendVoteRequests_spec in Es. rewrite yes_votes_wrong_role in Es.
    2: { eapply Forall_impl; [exact Ha|]. simpl. intros a ->. congruence. }
    pose proof (majority_strict (Peers ord n) _ eq_refl) as Hmaj.
    change (Peers ord (upd_state _ _)) with (Peers ord n) in *.
    destruct (Peers ord n); [done|]. rewrite len_cons in Hmaj. pose proof (len_nonneg l). lia.
Qed.

Lemma split_vote_is_final_witness :
  candidates [3; 3]
    [with_peers ["b"] (sample_node "a" Candidate 3);
     StartElection default_order 9 9
       (mkEnv [yes Candidate 3] (λ m, vote_run m []) [] (λ m, m))
       (with_peers ["a"] (sample_node "b" Candidate 3))].
Proof.
  apply (split_vote_is_final default_order [3; 3]
    [with_peers ["b"] (sample_node "a" Candidate 3); with_peers ["a"] (sample_node "b" Candidate 3)]).
  - repeat constructor.
  - eapply rtc_l; [|apply rtc_refl].
    apply (cs_election _ 1 (with_peers ["a"] (sample_node "b" Candidate 3)) 9 9
      (mkEnv [yes Candidate 3] (λ m, vote_run m []) [] (λ m, m)) []
      [with_peers ["b"] (sample_node "a" Candidate 3); with_peers ["a"] (sample_node "b" Candidate 3)]).
    + reflexivity.
    + vm_compute. discriminate.
    + repeat constructor.
    + constructor.
    + reflexivity.
Defined.
