(* ===== verification/RaftReplication.v ===== *)
(** * Log replication

    [internal/consensus/service/append.go], [add.go], [retention.go] and the
    snapshot handler of [serve.go]: the follower's and the leader's sides. *)

From Stdlib Require Import Strings.Byte Strings.String.
From stdpp Require Import list_numbers.
From S2P Require Import Prelude.
From S2P Require Import Bytes.
From S2P Require Import Json.
From S2P Require Import LogCodec.
From S2P Require Import Fs.
From S2P Require Import Storage.
From S2P Require Import StorageTheory.
From S2P Require Import StorageProps.
From S2P Require Import RaftState.
From S2P Require Import RaftNode.
From S2P Require Import RaftElection.

(** ** The follower *)

(** src/internal/consensus/service/append.go:19-28 (AppendEntries, the leader's address) *)
Definition leader_address (n : Node) : string :=
  let l := leaderID (state n) in
  if bool_decide (l = EmptyString) then EmptyString
  else if bool_decide (l = id (state n)) then address (state n)
  else match peers_map n !! l with Some peer => address peer | None => EmptyString end.

(** A storage operation on the node's handler: its outcome and the node. *)
Definition on_store {A} (m : sio A) (n : Node) : outcome StorageError A * Node :=
  let '(r, st) := m (store n) in (r, set_store st n).

Definition appended_entry (req : AppendRequest) : LogEntry :=
  mkEntry (ar_Index req) (ar_Term req) (ar_SchedulerId req) (ar_Payload req).

Definition behind (err : StorageError) : bool :=
  errors_Is err ErrAppendTermBehind || errors_Is err ErrAppendIndexBehind.

(** src/internal/consensus/service/append.go:79-113 (AppendEntries, the append)

    [answer s] is the default response with status [s]. *)
Definition append_to_log (req : AppendRequest) (answer : AppendResponseStatus → AppendResponse)
    (n : Node) : AppendResponse * Node :=
  let data := appended_entry req in
  match on_store (Append data) n with
  | (Ok _, n) => (answer SUCCESS, n)
  | (Panic, n) => (answer BAD_PAYLOAD, n)
  | (Err err, n) =>
      if behind err then
        let diskTerm := DiscTerm (FileHandler n) in
        let diskIndex := DiscIndex (FileHandler n) in
        if (Term data <? diskTerm) || (Index data <=? diskIndex)
        then (answer NEEDS_SNAPSHOT, n)
        else
          match on_store (TruncateLog (Index data)) n with
          | (Ok _, n) =>
              match on_store (Append data) n with
              | (Ok _, n) => (answer SUCCESS, n)
              | (_, n) => (answer BAD_PAYLOAD, n)
              end
          | (_, n) => (answer BAD_PAYLOAD, n)
          end
      else (answer BAD_PAYLOAD, n)
  end.

(** src/internal/consensus/service/append.go:15-113 (AppendEntries) *)
Definition AppendEntries (now rnd : Z) (req : AppendRequest) (n : Node) : AppendResponse * Node :=
  let leaderAddr := leader_address n in
  let h := FileHandler n in
  let defaultTerm := currentTerm (state n) in
  let defaultIndex := Index_ h in
  let answer s := mkAppendResponse (ar_RequestId req) s defaultTerm defaultIndex leaderAddr in
  let log_answer s := mkAppendResponse (ar_RequestId req) s (Term_ h) (Index_ h) leaderAddr in
  if ar_Term req <? currentTerm (state n) then (answer BAD_PAYLOAD, n) else
  let n := if currentTerm (state n) <? ar_Term req
           then upd_state (SetCurrentTerm (ar_Term req)) n else n in
  let n := upd_state (RecordContact now) n in
  let n := upd_state (UpdateLeader (ar_OriginNodeId req)) n in
  let n := upd_state (SetVotedFor EmptyString) n in
  let n := if bool_decide (role (state n) = Candidate) || bool_decide (role (state n) = Leader)
           then upd_state (BecomeFollower now rnd) n else n in
  if Index_ h <? ar_PrevLogIndex req then (log_answer BAD_PAYLOAD, n) else
  if (ar_PrevLogIndex req =? Index_ h) && negb (ar_PrevLogTerm req =? Term_ h)
  then (log_answer BAD_PAYLOAD, n) else
  if bool_decide (ar_Payload req = []) then (answer SUCCESS, n)
  else append_to_log req answer n.

(** src/internal/consensus/service/serve.go:175-206 (InstallSnapshot)

    The answer is the term before the call. *)
Definition Node_InstallSnapshot (now rnd : Z) (req : InstallSnapshotRequest) (n : Node)
    : outcome StorageError Z * Node :=
  let resp := currentTerm (state n) in
  if is_Term req <? currentTerm (state n) then (Ok resp, n) else
  let n := if currentTerm (state n) <? is_Term req
           then upd_state (SetVotedFor EmptyString) (upd_state (SetCurrentTerm (is_Term req)) n)
           else n in
  let n := upd_state (RecordContact now) n in
  let n := upd_state (UpdateLeader (is_LeaderId req)) n in
  let n := if bool_decide (role (state n) = Candidate) || bool_decide (role (state n) = Leader)
           then upd_state (BecomeFollower now rnd) n else n in
  match on_store (InstallSnapshot (is_Offset req) (is_Data req) (is_Done req)
                    (is_LastIncludedIndex req) (is_LastIncludedTerm req)) n with
  | (Ok _, n) => (Ok resp, n)
  | (Err err, n) => (Err err, n)
  | (Panic, n) => (Panic, n)
  end.

(** ** The leader *)

(** src/internal/consensus/service/add.go:393-404 (checkStepDown) *)
Definition checkStepDown (now rnd peerTerm : Z) (n : Node) : bool * Node :=
  if currentTerm (state n) <? peerTerm
  then (true, upd_state (SetCurrentTerm peerTerm) (upd_state (BecomeFollower now rnd) n))
  else (false, n).

(** src/internal/consensus/service/add.go:363-373 (getPrevLogTerm) *)
Definition getPrevLogTerm (prevLogIndex : Z) (h : Handler) : Z :=
  if prevLogIndex =? DiscIndex h then DiscTerm h
  else if 0 <? prevLogIndex then
    match Entries prevLogIndex (wrap64 (prevLogIndex + 1)) h with
    | e :: _ => Term e
    | [] => 0
    end
  else 0.

(** What the loops over the entries around a position pick up: the term of the
    previous entry, and the entry at the position. *)
Definition pick (prevLogIndex target : Z) (es : list LogEntry) (prevLogTerm : Z)
    : Z * (list byte * Z * string) :=
  foldl (λ acc e,
    let '(pt, p) := acc in
    ((if Index e =? prevLogIndex then Term e else pt),
     (if Index e =? target then (Payload e, Index e, SchedulerID e) else p)))
    (prevLogTerm, ([], 0, EmptyString)) es.

(** src/internal/consensus/service/retention.go:89-125 (buildHeartbeatRequest) *)
Definition buildHeartbeatRequest (leader : string) (term ni : Z) (h : Handler)
    : AppendRequest * bool :=
  let prevLogIndex := wrap64 (ni - 1) in
  let prevLogTerm := if prevLogIndex =? DiscIndex h then DiscTerm h else 0 in
  let '(prevLogTerm, (payload, reqIndex, reqSchedulerID)) :=
    pick prevLogIndex ni (Entries prevLogIndex (wrap64 (ni + 1)) h) prevLogTerm in
  (mkAppendRequest leader EmptyString term reqIndex prevLogTerm prevLogIndex reqSchedulerID payload,
   negb (bool_decide (payload = []))).

(** src/internal/consensus/service/retention.go:30-38 (initNextIndex) *)
Definition initNextIndex (n : Node) : gmap string Z :=
  (λ _, wrap64 (Index_ (FileHandler n) + 1)) <$> peers_map n.

(** src/internal/consensus/service/retention.go:128-144 (processHeartbeatResponse) *)
Definition processHeartbeatResponse (now rnd : Z) (peer : string) (resp : AppendResponse) (ni : Z)
    (hasPayload : bool) (nextIndex : gmap string Z) (n : Node) : gmap string Z * Node :=
  match AStatus resp with
  | SUCCESS => (if hasPayload then <[peer := wrap64 (ni + 1)]> nextIndex else nextIndex, n)
  | BAD_PAYLOAD | NEEDS_SNAPSHOT =>
      let '(down, n) := checkStepDown now rnd (PrevLogTerm resp) n in
      if down : bool then (nextIndex, n)
      else (if 1 <? ni then <[peer := wrap64 (ni - 1)]> nextIndex else nextIndex, n)
  | _ => (nextIndex, n)
  end.

(** src/internal/consensus/service/retention.go:64-87 (sendHeartbeatToPeer)

    [call] is the peer's answer to the request, [None] when the call fails; an
    absent key would make the type assertion on [nextIndex] panic. *)
Definition sendHeartbeatToPeer (now rnd : Z) (call : AppendRequest → option AppendResponse)
    (peer leader : string) (term : Z) (nextIndex : gmap string Z) (n : Node)
    : outcome StorageError (gmap string Z) * Node :=
  if negb (bool_decide (role (state n) = Leader)) || negb (currentTerm (state n) =? term)
  then (Ok nextIndex, n) else
  match nextIndex !! peer with
  | None => (Panic, n)
  | Some ni =>
      let '(req, hasPayload) := buildHeartbeatRequest leader term ni (FileHandler n) in
      match call req with
      | None => (Ok nextIndex, n)
      | Some resp =>
          let '(nextIndex, n) := processHeartbeatResponse now rnd peer resp ni hasPayload nextIndex n in
          (Ok nextIndex, n)
      end
  end.

(** src/internal/consensus/service/retention.go:41-61 (dispatchHeartbeats)

    The peers a heartbeat is sent to, with the leader's id and term. *)
Definition dispatchHeartbeats (ord : MapOrder) (n : Node) : list State * string * Z :=
  if negb (bool_decide (role (state n) = Leader)) then ([], EmptyString, 0)
  else (filter (λ p, Connection p = true) (Peers ord n), id (state n), currentTerm (state n)).

(** ** Client requests on the leader *)

(** One request under replication. *)
Record pending := mkPending {
  p_request : AppendRequest; p_index : Z; p_acks : Z; p_majority : Z;
  p_peers : list State; quorumReached : bool
}.

(** src/internal/consensus/service/add.go:22-80 (AddLog, up to the calls)

    [None] when the request was resolved as failed. *)
Definition addLog_begin (ord : MapOrder) (req : RawAppendRequest) (n : Node)
    : option pending * Node :=
  let fail n := (None, set_registry (Resolve (raw_RequestId req) false (reqRegistry n)) n) in
  if negb (bool_decide (role (state n) = Leader)) then fail n else
  let term := currentTerm (state n) in
  let nextIdx := wrap64 (Index_ (FileHandler n) + 1) in
  let prevLogIndex := wrap64 (nextIdx - 1) in
  let prevLogTerm := getPrevLogTerm prevLogIndex (FileHandler n) in
  let logEntry := mkEntry nextIdx term (raw_SchedulerId req) (raw_Payload req) in
  match on_store (Append logEntry) n with
  | (Ok _, n) =>
      let totalNodes := Z.of_nat (size (peers_map n)) + 1 in
      let majorityNeeded := totalNodes / 2 + 1 in
      (Some (mkPending
         (mkAppendRequest (id (state n)) (raw_RequestId req) term nextIdx prevLogTerm
            prevLogIndex (raw_SchedulerId req) (raw_Payload req))
         nextIdx 1 majorityNeeded
         (filter (λ p, Connection p = true) (Peers ord n)) (majorityNeeded <=? 1)), n)
  | (_, n) => fail n
  end.

(** src/internal/consensus/service/add.go:376-381 (handleAppendSuccess) *)
Definition handleAppendSuccess (p : pending) : pending :=
  mkPending (p_request p) (p_index p) (p_acks p + 1) (p_majority p) (p_peers p)
    (quorumReached p || (p_majority p <=? p_acks p + 1)).

(** src/internal/consensus/service/add.go:384-390 (handleAppendRejection)

    Whether a catch-up of the peer starts. *)
Definition handleAppendRejection (now rnd : Z) (resp : AppendResponse) (n : Node) : bool * Node :=
  let '(down, n) := checkStepDown now rnd (PrevLogTerm resp) n in (negb down, n).

(** How the goroutine of one peer ends: the peer answered, the call failed, or a
    catch-up that was under way disappeared from [activeCatchup] or outlasted the
    wait. *)
Inductive peer_outcome :=
| Answered (resp : AppendResponse) | CallFailed | CatchupEnded | CatchupTimedOut.

(** src/internal/consensus/service/add.go:82-145 (AddLog, one peer)

    The status with which a catch-up of the peer starts, if one does. *)
Definition addLog_peer (now rnd : Z) (o : peer_outcome) (p : pending) (n : Node)
    : pending * option AppendResponseStatus * Node :=
  match o with
  | CatchupEnded => (handleAppendSuccess p, None, n)
  | CatchupTimedOut => (p, None, n)
  | CallFailed => (p, Some BAD_PAYLOAD, n)
  | Answered resp =>
      match AStatus resp with
      | SUCCESS => (handleAppendSuccess p, None, n)
      | BAD_PAYLOAD | NEEDS_SNAPSHOT =>
          let '(catchup, n) := handleAppendRejection now rnd resp n in
          (p, if catchup : bool then Some (AStatus resp) else None, n)
      | _ => (p, None, n)
      end
  end.

(** src/internal/consensus/service/add.go:152-172 (AddLog, the decision) *)
Definition addLog_finish (p : pending) (n : Node) : Node :=
  let rid := ar_RequestId (p_request p) in
  if p_majority p <=? p_acks p then
    let n := if commitIndex n <? p_index p then set_commit (p_index p) n else n in
    set_registry (Resolve rid true (reqRegistry n)) n
  else set_registry (Resolve rid false (reqRegistry n)) n.

(** A request between [addLog_begin] and its decision: the peers whose goroutines
    have not ended, how the others have, and the node, whose lock is free. *)
Record adding := mkAdding {
  ad_pending : pending; ad_open : list State; ad_ended : list (State * peer_outcome); ad_node : Node
}.

(** src/internal/consensus/service/add.go:82-92 (AddLog, before the calls) *)
Definition addLog_start (p : pending) (n : Node) : adding := mkAdding p (p_peers p) [] n.

(** src/internal/consensus/service/add.go:92-146 (AddLog, the goroutines of the peers)

    The goroutine of any open peer ends, in any way; in between, other goroutines
    do anything to the node. *)
Inductive addLog_step : adding → adding → Prop :=
| al_peer now rnd o s l1 l2 p p' c ended n n' :
    addLog_peer now rnd o p n = (p', c, n') →
    addLog_step (mkAdding p (l1 ++ s :: l2) ended n) (mkAdding p' (l1 ++ l2) ((s, o) :: ended) n')
| al_other p l ended n n' :
    addLog_step (mkAdding p l ended n) (mkAdding p l ended n').

(** src/internal/consensus/service/add.go:147-168 (AddLog, the wait for the decision)

    Whether the request is committed, and the node; [None] while it waits. *)
Definition addLog_decide (a : adding) : option (bool * Node) :=
  let p := ad_pending a in
  if quorumReached p || bool_decide (ad_open a = [])
  then Some (p_majority p <=? p_acks p, addLog_finish p (ad_node a)) else None.

(** src/internal/consensus/service/add.go:169-171 (AddLog, at the end of the context) *)
Definition addLog_cancelled (a : adding) : Node :=
  let n := ad_node a in
  set_registry (Resolve (ar_RequestId (p_request (ad_pending a))) false (reqRegistry n)) n.

(** ** Catching up a peer *)

(** The loop variables of [resolvePeerLag]. *)
Record lag := mkLag { targetIndex : Z; lag_status : AppendResponseStatus }.

(** src/internal/consensus/service/add.go:186-190 (resolvePeerLag, the start) *)
Definition lag_start (failedIndex : Z) (initialStatus : AppendResponseStatus) : lag :=
  let t := wrap64 (failedIndex - 1) in mkLag (if t <? 1 then 1 else t) initialStatus.

Inductive lag_action :=
| LagStop
| LagSnapshot (discIndex discTerm : Z)
| LagSend (req : AppendRequest).

(** src/internal/consensus/service/add.go:199-260 (resolvePeerLag, what to send) *)
Definition lag_next (l : lag) (n : Node) : lag_action :=
  if negb (bool_decide (role (state n) = Leader)) then LagStop else
  let h := FileHandler n in
  let leaderLastIndex := Index_ h in
  if leaderLastIndex <? targetIndex l then LagStop else
  if bool_decide (lag_status l = NEEDS_SNAPSHOT) || (targetIndex l <=? DiscIndex h)
  then LagSnapshot (DiscIndex h) (DiscTerm h) else
  let prevLogIndex := wrap64 (targetIndex l - 1) in
  let prevLogTerm := getPrevLogTerm prevLogIndex h in
  let endIndex := wrap64 (targetIndex l + 1) in
  let endIndex := if wrap64 (leaderLastIndex + 1) <? endIndex
                  then wrap64 (leaderLastIndex + 1) else endIndex in
  let '(prevLogTerm, (payload, reqIndex, reqSchedulerID)) :=
    pick prevLogIndex (targetIndex l) (Entries prevLogIndex endIndex h) prevLogTerm in
  LagSend (mkAppendRequest (id (state n)) EmptyString (currentTerm (state n)) reqIndex prevLogTerm
             prevLogIndex reqSchedulerID payload).

(** src/internal/consensus/service/add.go:271-296 (resolvePeerLag, the answer)

    [None] ends the loop. *)
Definition lag_answer (now rnd : Z) (resp : AppendResponse) (l : lag) (n : Node)
    : option lag * Node :=
  match AStatus resp with
  | SUCCESS => (Some (mkLag (wrap64 (targetIndex l + 1)) SUCCESS), n)
  | BAD_PAYLOAD | NEEDS_SNAPSHOT =>
      let '(down, n) := checkStepDown now rnd (PrevLogTerm resp) n in
      if down : bool then (None, n) else
      if bool_decide (AStatus resp = BAD_PAYLOAD) then
        let t := if (0 <=? PrevLogIndex resp) && (PrevLogIndex resp <? wrap64 (targetIndex l - 1))
                 then wrap64 (PrevLogIndex resp + 1) else wrap64 (targetIndex l - 1) in
        if t <? 1 then (None, n) else (Some (mkLag t BAD_PAYLOAD), n)
      else (Some (mkLag (targetIndex l) (AStatus resp)), n)
  | _ => (Some l, n)
  end.

Definition chunkSize : nat := Z.to_nat 65536.

(** src/internal/consensus/service/add.go:312-330 (sendSnapshotToPeer, the requests)

    The frames for what is left of the file; none for an empty file. *)
Fixpoint snapshot_requests (fuel : nat) (leader : string) (term lastIndex lastTerm offset size : Z)
    (rest : list byte) : list InstallSnapshotRequest :=
  match fuel, rest with
  | S fuel, _ :: _ =>
      let buf := take chunkSize rest in
      let done := size <=? offset + len buf in
      mkInstallSnapshotRequest leader term lastIndex lastTerm offset buf done ::
      (if done then []
       else snapshot_requests fuel leader term lastIndex lastTerm (offset + len buf) size
              (drop chunkSize rest))
  | _, _ => []
  end.

(** src/internal/consensus/service/add.go:332-347 (sendSnapshotToPeer, the calls)

    In order: a failed call or a step-down ends the transfer with an error
    ([false]). *)
Fixpoint send_frames (now rnd : Z) (reqs : list InstallSnapshotRequest) (leader peer : Node)
    : bool * Node * Node :=
  match reqs with
  | [] => (true, leader, peer)
  | req :: reqs =>
      match Node_InstallSnapshot now rnd req peer with
      | (Ok term, peer) =>
          let '(down, leader) := checkStepDown now rnd term leader in
          if down : bool then (false, leader, peer) else send_frames now rnd reqs leader peer
      | (_, peer) => (false, leader, peer)
      end
  end.

(** src/internal/consensus/service/add.go:301-360 (sendSnapshotToPeer)

    Against a peer that is reachable. *)
Definition sendSnapshotToPeer (now rnd lastIncludedIndex lastIncludedTerm : Z) (leader peer : Node)
    : bool * Node * Node :=
  match on_store SnapshotReader leader with
  | (Ok (f, size), leader) =>
      let c := content (disk (store leader)) (fname f) in
      send_frames now rnd
        (snapshot_requests (S (length c)) (id (state leader)) (currentTerm (state leader))
           lastIncludedIndex lastIncludedTerm 0 size c) leader peer
  | (_, leader) => (false, leader, peer)
  end.

(** src/internal/consensus/service/add.go:176-298 (resolvePeerLag)

    The loop between a leader and a reachable peer; the flag says whether it
    ended because the peer has caught up. *)
Fixpoint resolvePeerLag (fuel : nat) (now rnd : Z) (l : lag) (leader peer : Node)
    : option (bool * Node * Node) :=
  match fuel with O => None | S fuel =>
  match lag_next l leader with
  | LagStop => Some (bool_decide (role (state leader) = Leader), leader, peer)
  | LagSnapshot i t =>
      match sendSnapshotToPeer now rnd i t leader peer with
      | (true, leader, peer) =>
          resolvePeerLag fuel now rnd (mkLag (wrap64 (i + 1)) SUCCESS) leader peer
      | (false, leader, peer) => Some (false, leader, peer)
      end
  | LagSend req =>
      let '(resp, peer) := AppendEntries now rnd req peer in
      match lag_answer now rnd resp l leader with
      | (Some l, leader) => resolvePeerLag fuel now rnd l leader peer
      | (None, leader) => Some (false, leader, peer)
      end
  end end.

(** ** The requests of the leader *)

Definition entry_fields (o : option LogEntry) : list byte * Z * string :=
  match o with Some e => (Payload e, Index e, SchedulerID e) | None => ([], 0, EmptyString) end.

Lemma pick_two h p t :
  (∀ e, log_at h p = Some e → Index e = p) → (∀ e, log_at h (p + 1) = Some e → Index e = p + 1) →
  pick p (p + 1) (option_list (log_at h p) ++ option_list (log_at h (p + 1))) t =
    (default t (Term <$> log_at h p), entry_fields (log_at h (p + 1))).
Proof.
  intros H1 H2. unfold pick.
  destruct (log_at h p) as [e1|] eqn:E1, (log_at h (p + 1)) as [e2|] eqn:E2; simpl;
    rewrite ?(H1 _ eq_refl), ?(H2 _ eq_refl), ?Z.eqb_refl;
    rewrite ?(proj2 (Z.eqb_neq p (p + 1))), ?(proj2 (Z.eqb_neq (p + 1) p)) by lia; done.
Qed.

Lemma log_at_disc h : log_at h (discIndex h) = None.
Proof. unfold log_at. by rewrite Z.ltb_irrefl. Qed.

Lemma getPrevLogTerm_eq st p :
  log_core st → 0 ≤ p < 2 ^ 63 - 1 → getPrevLogTerm p (hd st) = term_at (hd st) p.
Proof.
  intros H Hp. unfold getPrevLogTerm, term_at, DiscIndex, DiscTerm.
  destruct (p =? discIndex (hd st)) eqn:E; [done|]. bool_to_prop.
  destruct (0 <? p) eqn:E0; bool_to_prop.
  - rewrite wrap64_id by (unfold int64_ok; lia). rewrite Entries_one by (done || lia).
    by destruct (log_at (hd st) p).
  - pose proof (lc_disc _ H). unfold log_at. by rewrite (proj2 (Z.ltb_ge _ _)) by lia.
Qed.

Lemma pick_entries st p t :
  log_core st → 0 ≤ p < 2 ^ 63 - 2 →
  t = (if p =? discIndex (hd st) then discTerm (hd st) else 0) →
  pick p (p + 1) (Entries p (p + 2) (hd st)) t =
    (term_at (hd st) p, entry_fields (log_at (hd st) (p + 1))).
Proof.
  intros H Hp ->. rewrite Entries_two, pick_two by (done || (intros e He; by eapply log_at_index) || lia).
  f_equal. unfold term_at. destruct (p =? discIndex (hd st)) eqn:E; [|done]. bool_to_prop.
  subst. by rewrite log_at_disc.
Qed.

(** The request for the position [ni]. *)
Definition request_at (leader : string) (term ni : Z) (h : Handler) : AppendRequest :=
  let '(payload, index, sid) := entry_fields (log_at h ni) in
  mkAppendRequest leader EmptyString term index (term_at h (ni - 1)) (ni - 1) sid payload.

Lemma buildHeartbeatRequest_eq leader term ni st :
  log_core st → 0 < ni < 2 ^ 63 - 1 →
  buildHeartbeatRequest leader term ni (hd st) =
    (request_at leader term ni (hd st), negb (bool_decide (ar_Payload (request_at leader term ni (hd st)) = []))).
Proof.
  intros H Hni. assert (∃ p, ni = p + 1) as [p ->] by (exists (ni - 1); lia).
  unfold buildHeartbeatRequest, request_at, DiscIndex, DiscTerm.
  rewrite !wrap64_id by (unfold int64_ok; lia). rewrite !Z.add_simpl_r.
  replace (p + 1 + 1) with (p + 2) by lia.
  rewrite pick_entries by (done || lia).
  by destruct (entry_fields (log_at (hd st) (p + 1))) as [[pl i] s].
Qed.

Lemma lag_next_eq l n :
  log_core (store n) → role (state n) = Leader → lag_status l ≠ NEEDS_SNAPSHOT →
  discIndex (FileHandler n) < targetIndex l ≤ prevIndex (FileHandler n) →
  prevIndex (FileHandler n) < 2 ^ 63 - 1 →
  lag_next l n =
    LagSend (request_at (id (state n)) (currentTerm (state n)) (targetIndex l) (FileHandler n)).
Proof.
  intros H Hr Hs Ht Hb. pose proof (lc_disc _ H) as [Hd _]. unfold FileHandler in *.
  unfold lag_next. rewrite bool_decide_eq_true_2 by done. cbn [negb].
  unfold Index_, DiscIndex, FileHandler. rewrite (proj2 (Z.ltb_ge _ _)) by lia.
  rewrite bool_decide_eq_false_2 by done. cbn [orb].
  rewrite (proj2 (Z.leb_gt _ _)) by lia.
  rewrite (wrap64_id (targetIndex l - 1)), (wrap64_id (targetIndex l + 1)),
    (wrap64_id (prevIndex _ + 1)) by (unfold int64_ok; lia).
  rewrite (proj2 (Z.ltb_ge _ _)) by lia.
  rewrite getPrevLogTerm_eq by (done || lia). set (p := targetIndex l - 1).
  replace (targetIndex l + 1) with (p + 2) by lia.
  replace (targetIndex l) with (p + 1) by lia.
  rewrite Entries_two, pick_two by (done || (intros e He; by eapply log_at_index) || lia).
  unfold request_at, FileHandler. replace (p + 1 - 1) with p by lia.
  replace (default (term_at (hd (store n)) p) (Term <$> log_at (hd (store n)) p))
    with (term_at (hd (store n)) p).
  - by destruct (entry_fields _) as [[pl i] s].
  - unfold term_at. destruct (p =? _) eqn:E; [|by destruct (log_at _ p)].
    bool_to_prop. by rewrite E, log_at_disc.
Qed.

(** ** The follower's append *)

Lemma set_store_id n : set_store (store n) n = n.
Proof. by destruct n. Qed.

Lemma behind_behind : behind ErrAppendIndexBehind = true.
Proof. done. Qed.
Lemma behind_ahead : behind ErrAppendIndexAhead = false.
Proof. done. Qed.

(** The log cut before [i], as [TruncateLog] leaves it. *)
Definition cut_before (i : Z) (st : Store) : Store :=
  truncated (wal (hd st)) (Z.to_nat (i - discIndex (hd st) - 1)) st.

(** An append at the end of a log, whatever its file is called. *)
Lemma append_live a req answer n :
  live a (store n) → entry_ok (appended_entry req) →
  Index (appended_entry req) = prevIndex (FileHandler n) + 1 →
  append_to_log req answer n =
    (answer SUCCESS, set_store (appended_to a (appended_entry req) (store n)) n).
Proof. intros H He Hi. unfold append_to_log, on_store. by rewrite (Append_live a). Qed.

Section append_to_log.
Context (req : AppendRequest) (answer : AppendResponseStatus → AppendResponse) (n : Node).
Abbreviation e := (appended_entry req).
Abbreviation h := (FileHandler n).
Context (H : log_core (store n)) (He : entry_ok e).

Lemma append_next :
  Index e = prevIndex h + 1 →
  append_to_log req answer n = (answer SUCCESS, set_store (appended e (store n)) n).
Proof. apply append_live; [by apply log_core_live | done]. Qed.

Lemma append_gap : prevIndex h + 1 < Index e → append_to_log req answer n = (answer BAD_PAYLOAD, n).
Proof.
  intros Hi. unfold append_to_log, on_store, FileHandler in *.
  rewrite Append_refused, (proj2 (Z.leb_gt _ _)) by (done || lia).
  by rewrite behind_ahead, set_store_id.
Qed.

Lemma append_behind :
  Index e ≤ prevIndex h →
  append_to_log req answer n =
    if (Term e <? discTerm h) || (Index e <=? discIndex h) then (answer NEEDS_SNAPSHOT, n) else
    if Index e =? discIndex h + 1
    then (answer BAD_PAYLOAD, set_store (cut_before (Index e) (store n)) n)
    else (answer SUCCESS, set_store (appended e (cut_before (Index e) (store n))) n).
Proof.
  intros Hi. unfold FileHandler in *. unfold append_to_log. unfold on_store at 1.
  rewrite Append_refused, (proj2 (Z.leb_le _ _)) by (done || lia).
  rewrite behind_behind, set_store_id. unfold DiscTerm, DiscIndex, FileHandler.
  destruct (_ || _) eqn:Ed; [done|]. bool_to_prop.
  unfold on_store at 1. rewrite TruncateLog_ok by done.
  rewrite !(proj2 (Z.leb_le _ _)) by lia. cbn [andb]. fold (cut_before (Index e) (store n)).
  unfold on_store. cbn [store set_store].
  pose proof (lc_prev _ H) as Hp.
  destruct (Index e =? discIndex (hd (store n)) + 1) eqn:E1; bool_to_prop.
  - assert (Append e (cut_before (Index e) (store n)) =
      (Err ErrAppendIndexBehind, cut_before (Index e) (store n))) as ->; [|done].
    unfold cut_before. rewrite E1. replace (Z.to_nat _) with O by lia.
    unfold Append. erewrite (io_bind_Ok get) by done.
    unfold truncated. rewrite take_0. cbn [last]. cbv zeta. fields.
    rewrite (proj2 (Z.leb_le _ _)) by lia. done.
  - assert (entries (hd (store n)) ≠ []) as Hne.
    { intros Hn. rewrite Hn, len_nil in Hp. lia. }
    assert (log_core (cut_before (Index e) (store n))) as Hcut.
    { apply log_core_truncated; [done|lia|done]. }
    rewrite Append_ok; [done|done|done|].
    rewrite (lc_prev _ Hcut). unfold cut_before, truncated. cbv zeta.
    set (k := Z.to_nat _). assert (len (take k (entries (hd (store n)))) = Z.of_nat k) as Hlen.
    { unfold len. rewrite length_take. unfold len in Hp. lia. }
    destruct (last _); fields; rewrite Hlen; lia.
Qed.
End append_to_log.

(** What [AppendEntries] does to the node before the log is looked at. *)
Definition accept_leader (now rnd : Z) (req : AppendRequest) (n : Node) : Node :=
  let n := if currentTerm (state n) <? ar_Term req
           then upd_state (SetCurrentTerm (ar_Term req)) n else n in
  let n := upd_state (SetVotedFor EmptyString)
    (upd_state (UpdateLeader (ar_OriginNodeId req)) (upd_state (RecordContact now) n)) in
  if bool_decide (role (state n) = Candidate) || bool_decide (role (state n) = Leader)
  then upd_state (BecomeFollower now rnd) n else n.

Lemma accept_leader_spec now rnd req n :
  let n' := accept_leader now rnd req n in
  store n' = store n ∧ role (state n') = Follower ∧ votedFor (state n') = EmptyString ∧
  currentTerm (state n') = Z.max (currentTerm (state n)) (ar_Term req) ∧
  commitIndex n' = commitIndex n ∧ reqRegistry n' = reqRegistry n ∧ id (state n') = id (state n).
Proof.
  unfold accept_leader. destruct (currentTerm (state n) <? ar_Term req) eqn:E; bool_to_prop;
    simpl; destruct (role (state n)) eqn:Hr; simpl; rewrite ?Hr; split_and!; try done; lia.
Qed.

Lemma AppendEntries_eq now rnd req n :
  AppendEntries now rnd req n =
  let h := FileHandler n in
  let reply s t := mkAppendResponse (ar_RequestId req) s t (prevIndex h) (leader_address n) in
  if ar_Term req <? currentTerm (state n)
  then (reply BAD_PAYLOAD (currentTerm (state n)), n) else
  let n' := accept_leader now rnd req n in
  if prevIndex h <? ar_PrevLogIndex req then (reply BAD_PAYLOAD (prevTerm h), n') else
  if (ar_PrevLogIndex req =? prevIndex h) && negb (ar_PrevLogTerm req =? prevTerm h)
  then (reply BAD_PAYLOAD (prevTerm h), n') else
  if bool_decide (ar_Payload req = []) then (reply SUCCESS (currentTerm (state n)), n')
  else append_to_log req (λ s, reply s (currentTerm (state n))) n'.
Proof. done. Qed.

(** On a disk without faults. *)
Lemma AppendEntries_success_calm now rnd req n resp n' :
  log_core (store n) → entry_ok (appended_entry req) → ar_Payload req ≠ [] →
  AppendEntries now rnd req n = (resp, n') → AStatus resp = SUCCESS →
  let h := FileHandler n in let h' := FileHandler n' in
  entries h' = filter (λ e, Index e < ar_Index req) (entries h) ++ [appended_entry req] ∧
  prevIndex h' = ar_Index req ∧ prevTerm h' = ar_Term req ∧
  content (disk (store n')) (fname (wal h')) = encode_all (entries h') ∧
  currentTerm (state n') = ar_Term req ∧ role (state n') = Follower ∧
  discIndex h < ar_Index req ≤ prevIndex h + 1.
Proof.
  intros H He Hpl Ha Hs h h'. rewrite AppendEntries_eq in Ha. cbv zeta in Ha.
  destruct (ar_Term req <? currentTerm (state n)) eqn:Et; [by simplify_eq|]. bool_to_prop.
  destruct (accept_leader_spec now rnd req n) as (Hst & Hr & _ & Hct & _).
  set (m := accept_leader now rnd req n) in *.
  destruct (prevIndex _ <? _); [by simplify_eq|]. destruct (_ && _); [by simplify_eq|].
  rewrite bool_decide_eq_false_2 in Ha by done.
  assert (log_core (store m)) as Hm by by rewrite Hst.
  pose proof (lc_entries _ H) as Hen. pose proof (lc_prev _ H) as Hp.
  unfold FileHandler in *. fold h in Ha, Hen, Hp.
  destruct (Z_lt_le_dec (prevIndex h + 1) (ar_Index req)) as [Hgap|Hle].
  { rewrite append_gap in Ha; [by simplify_eq|done|done|]. unfold FileHandler. by rewrite Hst. }
  destruct (decide (ar_Index req = prevIndex h + 1)) as [Heq|Hne].
  - rewrite append_next in Ha; [|done|done|unfold FileHandler; by rewrite Hst].
    injection Ha as <- <-. subst h'. cbn [store set_store state]. rewrite Hst.
    destruct (appended_fields (appended_entry req) (store n)) as (He' & Hi' & Ht' & Hdi & Hdt & _ & Hcon).
    rewrite He', Hi', Ht'. unfold wal. rewrite Hdi, Hdt. unfold h in *.
    rewrite filter_Forall_true.
    2: { apply Forall_forall. intros x Hx. apply (continues_range _ _ _ Hen) in Hx. lia. }
    split_and!; try done; try lia.
    + etrans; [exact Hcon|]. by rewrite encode_all_app, encode_all_cons, app_nil_r.
    + pose proof (len_nonneg (entries (hd (store n)))). lia.
  - rewrite append_behind in Ha; [|done|done|unfold FileHandler; rewrite Hst; cbn; fold h; lia].
    unfold FileHandler in Ha. rewrite Hst in Ha. cbn [Index Term appended_entry] in Ha.
    destruct (_ || _) eqn:Ed; [by simplify_eq|]. bool_to_prop.
    destruct (_ =? _) eqn:E1; [by simplify_eq|]. bool_to_prop.
    injection Ha as <- <-. subst h'. cbn [store set_store state].
    destruct (truncated_fields (wal h) (Z.to_nat (ar_Index req - discIndex h - 1)) (store n))
      as (Hce & Hcdi & Hcdt & _).
    fold h (cut_before (ar_Index req) (store n)) in Hce, Hcdi, Hcdt.
    change (truncated _ _ _) with (cut_before (ar_Index req) (store n)) in Hce, Hcdi, Hcdt.
    destruct (appended_fields (appended_entry req) (cut_before (ar_Index req) (store n)))
      as (He' & Hi' & Ht' & Hdi & Hdt & _ & Hcon).
    unfold wal in *. rewrite He', Hi', Ht', Hdi, Hdt. rewrite Hcdi, Hcdt, Hce in *.
    rewrite (take_filter_lt _ _ _ Hen) in *. unfold h in *.
    split_and!; try done; try lia.
    etrans; [exact Hcon|]. by rewrite encode_all_app, encode_all_cons, app_nil_r.
Qed.

(** The node on a disk that has no more faults. *)
Definition calm_node (n : Node) : Node := set_store (calmed (store n)) n.

Lemma honest_on_store {A} (m : sio A) n a n' :
  honest m → on_store m n = (Ok a, n') → on_store m (calm_node n) = (Ok a, calm_node n').
Proof.
  unfold on_store, calm_node. intros Hm. cbn [store set_store]. specialize (Hm (store n)).
  destruct (m (store n)) as [r st]. intros [= -> <-]. by rewrite (Hm _ _ eq_refl).
Qed.

(** The disk's errors are those of an operating system. *)
Definition os_errors (d : FS) : Prop :=
  disk_errors ErrAppendIndexBehind d ∧ disk_errors ErrAppendTermBehind d.

Lemma append_to_log_calm req answer n resp n' :
  os_errors (disk (store n)) → (∀ s, AStatus (answer s) = s) →
  append_to_log req answer n = (resp, n') → AStatus resp = SUCCESS →
  append_to_log req answer (calm_node n) = (resp, calm_node n').
Proof.
  intros [Hi Ht] Hans Ha Hs. unfold append_to_log in *. set (e := appended_entry req) in *.
  destruct (on_store (Append e) n) as [[u|er|] n1] eqn:E1.
  - rewrite (honest_on_store _ _ _ _ (honest_Append e) E1). by injection Ha as <- <-.
  - destruct (behind er) eqn:Eb; [|injection Ha as <- <-; by rewrite Hans in Hs].
    unfold on_store in E1. destruct (Append e (store n)) as [r st1] eqn:E. injection E1 as -> <-.
    destruct (Append_err _ _ _ _ E) as [[-> Hc]|(msg & e0 & -> & Hf)].
    2: { exfalso. revert Eb. unfold behind.
         change (errors_Is e0 ErrAppendTermBehind || errors_Is e0 ErrAppendIndexBehind = true → False).
         by rewrite (disk_failure_is _ _ _ Ht Hf), (disk_failure_is _ _ _ Hi Hf)
           by (apply (bool_decide_unpack _); vm_compute; exact I). }
    rewrite set_store_id in *. unfold on_store at 1. unfold calm_node at 1. cbn [store set_store].
    rewrite Hc. fold (calm_node n) in *.
    change (set_store (calmed (store n)) (calm_node n)) with (calm_node n). rewrite Eb.
    change (FileHandler (calm_node n)) with (FileHandler n).
    destruct (_ || _); [injection Ha as <- <-; by rewrite Hans in Hs|].
    destruct (on_store (TruncateLog (Index e)) n) as [[u2|er2|] n2] eqn:E2;
      [|injection Ha as <- <-; by rewrite Hans in Hs..].
    rewrite (honest_on_store _ _ _ _ (honest_TruncateLog _) E2).
    destruct (on_store (Append e) n2) as [[u3|er3|] n3] eqn:E3;
      [|injection Ha as <- <-; by rewrite Hans in Hs..].
    rewrite (honest_on_store _ _ _ _ (honest_Append e) E3). by injection Ha as <- <-.
  - injection Ha as <- <-. by rewrite Hans in Hs.
Qed.

Lemma accept_leader_calm now rnd req n :
  accept_leader now rnd req (calm_node n) = calm_node (accept_leader now rnd req n).
Proof.
  unfold accept_leader, calm_node. cbn [state set_store]. destruct (_ <? ar_Term req); cbn;
    by destruct (_ || _).
Qed.

Lemma AppendEntries_calm now rnd req n resp n' :
  os_errors (disk (store n)) → ar_Payload req ≠ [] →
  AppendEntries now rnd req n = (resp, n') → AStatus resp = SUCCESS →
  AppendEntries now rnd req (calm_node n) = (resp, calm_node n').
Proof.
  intros Hd Hpl. rewrite !AppendEntries_eq. cbv zeta.
  change (FileHandler (calm_node n)) with (FileHandler n).
  change (state (calm_node n)) with (state n).
  change (leader_address (calm_node n)) with (leader_address n). rewrite accept_leader_calm.
  destruct (ar_Term req <? _); [by intros [= <- <-]|].
  destruct (prevIndex _ <? _); [by intros [= <- <-]|].
  destruct (_ && _); [by intros [= <- <-]|]. rewrite bool_decide_eq_false_2 by done.
  apply append_to_log_calm; [|done].
  destruct (accept_leader_spec now rnd req n) as (-> & _). done.
Qed.

(** C4: when a node answers an append of a non-empty payload with success, its log
    is its old log before the entry's index followed by exactly that entry, on
    disk as in memory; the entry's index and term are its new last position, its
    term is the leader's and it follows. Entries at and after the index are gone.
    This holds whatever faults the disk has during the call, for a storage that up
    to then is in the state that the runs of [reachable_log_contiguous] lead to (its
    log contiguous, in the file named for its start), a disk whose errors are not the
    log's own error values, and an entry the log can encode (an index and a term of 64
    bits, ids and payload within the format's lengths). *)
Theorem AppendEntries_success now rnd req n resp n' :
  log_core (calmed (store n)) → os_errors (disk (store n)) →
  entry_ok (appended_entry req) → ar_Payload req ≠ [] →
  AppendEntries now rnd req n = (resp, n') → AStatus resp = SUCCESS →
  let h := FileHandler n in let h' := FileHandler n' in
  entries h' = filter (λ e, Index e < ar_Index req) (entries h) ++ [appended_entry req] ∧
  prevIndex h' = ar_Index req ∧ prevTerm h' = ar_Term req ∧
  content (disk (store n')) (fname (wal h')) = encode_all (entries h') ∧
  currentTerm (state n') = ar_Term req ∧ role (state n') = Follower ∧
  discIndex h < ar_Index req ≤ prevIndex h + 1.
Proof.
  intros Hl Hd He Hpl Ha Hs.
  exact (AppendEntries_success_calm now rnd req (calm_node n) resp (calm_node n') Hl He Hpl
    (AppendEntries_calm _ _ _ _ _ _ Hd Hpl Ha Hs) Hs).
Qed.

(** A follower whose log holds one entry, of index 1 and term 1. *)
Definition follower1 : Node := NewNode (sample_state "f" Follower 1) (one_entry 64).

Lemma follower1_log : log_core (store follower1).
Proof. apply (reachable_ok default_order 64 _ (one_entry_reachable _ _)). Qed.

Definition append_req (term idx prevTerm prev : Z) : AppendRequest :=
  mkAppendRequest "l" "r" term idx prevTerm prev "node-1" (text "{}").

(** Its disk fails at the next call but two. *)
Definition follower1_failing : Node :=
  set_store (with_faults [NoFault; NoFault; Fail ErrOS] (store follower1)) follower1.

Lemma AppendEntries_success_witness :
  let n' := (AppendEntries 0 0 (append_req 1 2 1 1) follower1_failing).2 in
  entries (FileHandler n') = entries (FileHandler follower1) ++ [appended_entry (append_req 1 2 1 1)].
Proof.
  destruct (AppendEntries_success 0 0 (append_req 1 2 1 1) follower1_failing
    (AppendEntries 0 0 (append_req 1 2 1 1) follower1_failing).1
    (AppendEntries 0 0 (append_req 1 2 1 1) follower1_failing).2) as (He & _).
  - exact follower1_log.
  - split; intros e He; cbn in He; apply elem_of_cons in He as [?|He]; try discriminate;
      apply elem_of_cons in He as [?|He]; try discriminate;
      apply list_elem_of_singleton in He; injection He as ->; reflexivity.
  - refine (bool_decide_unpack _ _). vm_compute. exact I.
  - vm_compute. discriminate.
  - apply surjective_pairing.
  - vm_compute. reflexivity.
  - cbv zeta. rewrite He. vm_compute. reflexivity.
Defined.

(** ** Terms *)

(** What can change a node's consensus state from outside. *)
Inductive node_step : Node → Node → Prop :=
| ns_vote now rnd req n : node_step n (RequestVote now rnd req n).2
| ns_append now rnd req n : node_step n (AppendEntries now rnd req n).2
| ns_install now rnd req n : node_step n (Node_InstallSnapshot now rnd req n).2
| ns_answer now rnd t n : node_step n (checkStepDown now rnd t n).2
| ns_heartbeat now rnd peer resp ni b next n :
    node_step n (processHeartbeatResponse now rnd peer resp ni b next n).2
| ns_catchup now rnd resp l n : node_step n (lag_answer now rnd resp l n).2
| ns_formal now rnd n :
    currentTerm (state n) < 2 ^ 63 - 1 →
    node_step n (start_formal now rnd (currentTerm (state n)) n).2
| ns_win t n : node_step n (win_formal t n).

Lemma on_store_state {A} (m : sio A) n r n' : on_store m n = (r, n') → state n' = state n.
Proof. unfold on_store. destruct (m (store n)). by intros [= _ <-]. Qed.

Lemma append_to_log_state req answer n : state (append_to_log req answer n).2 = state n.
Proof.
  unfold append_to_log. destruct (on_store (Append _) n) as [r n1] eqn:E1.
  apply on_store_state in E1. destruct r as [|err|]; [done| |done].
  destruct (behind err); [|done]. destruct (_ || _); [done|].
  destruct (on_store (TruncateLog _) n1) as [r2 n2] eqn:E2. apply on_store_state in E2.
  destruct r2; [|simpl; congruence..].
  destruct (on_store (Append _) n2) as [r3 n3] eqn:E3. apply on_store_state in E3.
  destruct r3; simpl; congruence.
Qed.

Lemma AppendEntries_term now rnd req n :
  currentTerm (state n) ≤ currentTerm (state (AppendEntries now rnd req n).2).
Proof.
  rewrite AppendEntries_eq. cbv zeta.
  destruct (accept_leader_spec now rnd req n) as (_ & _ & _ & Hct & _).
  destruct (ar_Term req <? _); [done|]. destruct (prevIndex _ <? _); [simpl; lia|].
  destruct (_ && _); [simpl; lia|]. case_bool_decide; [simpl; lia|].
  rewrite append_to_log_state. lia.
Qed.

Lemma InstallSnapshot_term now rnd req n :
  currentTerm (state n) ≤ currentTerm (state (Node_InstallSnapshot now rnd req n).2).
Proof.
  unfold Node_InstallSnapshot. destruct (is_Term req <? _); [done|].
  set (n1 := if bool_decide _ || _ then _ else _).
  assert (currentTerm (state n) ≤ currentTerm (state n1)) as Hn1.
  { unfold n1. destruct (currentTerm (state n) <? is_Term req) eqn:E; bool_to_prop; simpl;
      destruct (_ || _); simpl; lia. }
  clearbody n1. destruct (on_store _ n1) as [r n2] eqn:E. apply on_store_state in E.
  destruct r; simpl; by rewrite E.
Qed.

Lemma checkStepDown_term now rnd t n :
  currentTerm (state n) ≤ currentTerm (state (checkStepDown now rnd t n).2).
Proof. unfold checkStepDown. destruct (_ <? t) eqn:E; bool_to_prop; simpl; lia. Qed.

Lemma node_step_term n n' : node_step n n' → currentTerm (state n) ≤ currentTerm (state n').
Proof.
  destruct 1 as [now rnd req n|now rnd req n|now rnd req n|now rnd t n|now rnd peer resp ni b next n
    |now rnd resp l n|now rnd n Hn|t n].
  - apply RequestVote_term.
  - apply AppendEntries_term.
  - apply InstallSnapshot_term.
  - apply checkStepDown_term.
  - unfold processHeartbeatResponse. pose proof (checkStepDown_term now rnd (PrevLogTerm resp) n) as Hc.
    destruct (checkStepDown _ _ _ _) as [[] m]; destruct (AStatus resp); simpl in *; lia.
  - unfold lag_answer. pose proof (checkStepDown_term now rnd (PrevLogTerm resp) n) as Hc.
    destruct (checkStepDown _ _ _ _) as [[] m]; destruct (AStatus resp); simpl in *; split_matches; simpl; lia.
  - unfold start_formal. rewrite Z.eqb_refl. case_bool_decide; simpl; [done|].
    unfold wrap64. pose proof (Z.mod_pos_bound (currentTerm (state n) + 1 + 2 ^ 63) (2 ^ 64)).
    destruct (Z_lt_le_dec (currentTerm (state n)) (- 2 ^ 63)).
    + lia.
    + rewrite Z.mod_small; lia.
  - unfold win_formal. by destruct (_ && _).
Qed.

(** A node's term never decreases, whatever requests and answers, formal
    candidacies and victories it goes through, in any order. *)
Theorem term_monotone n n' : rtc node_step n n' → currentTerm (state n) ≤ currentTerm (state n').
Proof. induction 1 as [|n1 n2 n3 Hs _ IH]; [done|]. apply node_step_term in Hs. lia. Qed.

Lemma term_monotone_witness : 1 ≤ currentTerm (state (AppendEntries 0 0 (append_req 7 2 1 1) follower1).2).
Proof.
  apply (term_monotone follower1). apply rtc_once. apply ns_append.
Defined.

(** A second vote in the same term. A heartbeat of the term's leader clears
    the recorded vote, so afterwards the node grants its formal vote in that term
    to any other candidate with an up-to-date log, whoever it voted for before. *)
Theorem heartbeat_allows_second_vote now rnd now' rnd' hb req n :
  currentTerm (state n) = ar_Term hb → vr_Term req = ar_Term hb → vr_Gossip req = false →
  ar_Payload hb = [] → ar_PrevLogIndex hb < prevIndex (FileHandler n) →
  logIsUpToDate req n = true →
  granted now' rnd' req (AppendEntries now rnd hb n).2.
Proof.
  intros Ht Hrt Hg Hpl Hpi Hup. rewrite AppendEntries_eq. cbv zeta.
  rewrite Ht, Z.ltb_irrefl. destruct (accept_leader_spec now rnd hb n) as (Hst & Hr & Hv & Hct & _).
  set (m := accept_leader now rnd hb n) in *. unfold FileHandler in *.
  rewrite (proj2 (Z.ltb_ge _ _)) by lia. rewrite (proj2 (Z.eqb_neq _ _)) by lia. cbn [andb].
  rewrite bool_decide_eq_true_2 by done. cbn [snd].
  assert (logIsUpToDate req m = true) as Hup' by (unfold logIsUpToDate, FileHandler in *; by rewrite Hst).
  assert (currentTerm (state m) = vr_Term req) as Hm by lia.
  unfold granted, RequestVote. rewrite Hg. cbn [negb andb]. repeat rewrite ?Hm, ?Z.ltb_irrefl.
  rewrite Hr, Z.eqb_refl. rewrite !bool_decide_eq_false_2 by done. cbn [orb andb].
  rewrite Hv, bool_decide_eq_true_2 by done. cbn [orb andb]. by rewrite Hup'.
Qed.

Definition after_vote : Node := (RequestVote 0 0 (mkVoteRequest "a" false 2 9 9) follower1).2.

Lemma heartbeat_allows_second_vote_witness :
  votedFor (state after_vote) = "a" ∧
  granted 1 0 (mkVoteRequest "b" false 2 9 9)
    (AppendEntries 0 0 (mkAppendRequest "a" "" 2 0 0 0 "" []) after_vote).2.
Proof.
  split; [vm_compute; reflexivity|].
  apply heartbeat_allows_second_vote; vm_compute; reflexivity.
Defined.

(** ** Commitment *)

(** What the code counts as an acknowledgement. *)
Definition outcome_acks (o : peer_outcome) : bool :=
  match o with
  | Answered resp => bool_decide (AStatus resp = SUCCESS)
  | CatchupEnded => true
  | _ => false
  end.
Definition acks (ended : list (State * peer_outcome)) : Z :=
  len (filter (λ so, outcome_acks so.2 = true) ended).

Lemma addLog_peer_spec now rnd o p n p1 c n1 :
  addLog_peer now rnd o p n = (p1, c, n1) →
  p_acks p1 = p_acks p + (if outcome_acks o then 1 else 0) ∧ p_majority p1 = p_majority p ∧
  p_index p1 = p_index p ∧ p_request p1 = p_request p.
Proof.
  unfold addLog_peer, handleAppendRejection, checkStepDown, outcome_acks.
  destruct o as [resp| | |];
    [destruct (AStatus resp), (currentTerm (state n) <? PrevLogTerm resp)|..];
    intros [= <- _ _]; simpl; split_and!; try done; lia.
Qed.

(** What holds of a request while it waits. *)
Record adding_ok (p : pending) (a : adding) : Prop := {
  ao_acks : p_acks (ad_pending a) = p_acks p + acks (ad_ended a);
  ao_majority : p_majority (ad_pending a) = p_majority p;
  ao_index : p_index (ad_pending a) = p_index p;
  ao_request : p_request (ad_pending a) = p_request p;
  ao_peers : (ad_ended a).*1 ++ ad_open a ≡ₚ p_peers p
}.

Lemma addLog_step_ok p a a' : addLog_step a a' → adding_ok p a → adding_ok p a'.
Proof.
  destruct 1 as [now rnd o s l1 l2 q q' c ended n n' E|q l ended n n']; intros [H1 H2 H3 H4 H5];
    cbn [ad_pending ad_open ad_ended] in *; [|by split].
  destruct (addLog_peer_spec _ _ _ _ _ _ _ _ E) as (Ha & Hm & Hi & Hr).
  split; cbn [ad_pending ad_open ad_ended]; try congruence.
  - rewrite Ha, H1. unfold acks. rewrite filter_cons. cbn [snd].
    destruct (outcome_acks o); simpl; [rewrite len_cons|]; lia.
  - rewrite <- H5. rewrite <- (Permutation_middle l1 l2 s), <- (Permutation_middle (ended.*1)). done.
Qed.

Lemma adding_run p n a : rtc addLog_step (addLog_start p n) a → adding_ok p a.
Proof.
  assert (adding_ok p (addLog_start p n)) as H0.
  { split; try done. cbn. unfold acks. rewrite filter_nil, len_nil. lia. }
  revert H0. generalize (addLog_start p n). intros a0 H0 Hr.
  induction Hr as [|a1 a2 a3 Hs _ IH]; [done|]. by eapply IH, addLog_step_ok.
Qed.

Lemma addLog_begin_eq ord req n p n1 :
  addLog_begin ord req n = (Some p, n1) →
  let e := mkEntry (wrap64 (prevIndex (FileHandler n) + 1)) (currentTerm (state n))
             (raw_SchedulerId req) (raw_Payload req) in
  role (state n) = Leader ∧ appended_entry (p_request p) = e ∧ p_index p = Index e ∧
  ar_RequestId (p_request p) = raw_RequestId req ∧ p_acks p = 1 ∧
  p_majority p = (Z.of_nat (size (peers_map n)) + 1) / 2 + 1 ∧
  p_peers p = filter (λ s, Connection s = true) (Peers ord n) ∧
  entries (FileHandler n1) = entries (FileHandler n) ++ [e].
Proof.
  unfold addLog_begin. destruct (bool_decide (role (state n) = Leader)) eqn:Hr; [|done].
  bool_to_prop. cbn [negb]. cbv zeta. unfold on_store, Index_.
  set (e := mkEntry _ _ _ _). pose proof (Append_log e (store n)) as Ha.
  destruct (Append e (store n)) as [[u|er|] st]; [|done..]. cbn [is_ok] in Ha.
  intros [= <- <-]. cbn [p_request p_index p_acks p_majority p_peers]. destruct Ha as (_ & He & _).
  split_and!; done.
Qed.

(** C7: when [AddLog] commits. From the moment a leader has put the request's entry
    at the end of its log, with the lock free and any work of other goroutines in
    between, until the decision: every peer that was connected then has at most one
    outcome, and the entry is committed (the commit index raised to it, the client
    told so) if and only if the peers whose outcome counts, with the leader, are a
    strict majority of the nodes the leader knew then. What counts is an answer of
    success to the append, but also that a catch-up of the peer that was under way
    has ended, in whatever way ([ended_catchups_commit]). *)
Theorem AddLog_commit_majority ord req n p n1 a committed n' :
  addLog_begin ord req n = (Some p, n1) →
  rtc addLog_step (addLog_start p n1) a → addLog_decide a = Some (committed, n') →
  let e := mkEntry (wrap64 (prevIndex (FileHandler n) + 1)) (currentTerm (state n))
             (raw_SchedulerId req) (raw_Payload req) in
  role (state n) = Leader ∧ appended_entry (p_request p) = e ∧
  entries (FileHandler n1) = entries (FileHandler n) ++ [e] ∧
  (ad_ended a).*1 ⊆+ filter (λ s, Connection s = true) (Peers ord n) ∧
  (committed = true ↔ Z.of_nat (size (peers_map n)) + 1 < 2 * (1 + acks (ad_ended a))) ∧
  commitIndex n' =
    (if committed then Z.max (commitIndex (ad_node a)) (Index e) else commitIndex (ad_node a)) ∧
  reqRegistry n' = Resolve (raw_RequestId req) committed (reqRegistry (ad_node a)).
Proof.
  intros Hb Hr%adding_run Hd e.
  destruct (addLog_begin_eq _ _ _ _ _ Hb) as (Hrole & He & Hi & Hid & Hak & Hm & Hp & Hen).
  destruct Hr as [R1 R2 R3 R4 R5]. unfold addLog_decide in Hd. destruct (_ || _); [|done].
  injection Hd as <- <-. unfold addLog_finish. rewrite R1, R2, R3, R4, Hak, Hm, Hi, Hid.
  split; [done|]. split; [done|]. split; [done|]. split.
  { rewrite <- Hp, <- R5. by apply submseteq_inserts_r. }
  split.
  { pose proof (Z.div_mod (Z.of_nat (size (peers_map n)) + 1) 2).
    pose proof (Z.mod_pos_bound (Z.of_nat (size (peers_map n)) + 1) 2). rewrite Z.leb_le. lia. }
  destruct (_ <=? _); [|done]. fold e. destruct (commitIndex (ad_node a) <? Index e) eqn:Ec;
    bool_to_prop; (split; [|done]); cbn [commitIndex set_registry set_commit]; lia.
Qed.

(** A node with connections to its peers. *)
Definition linked (names : list string) (n : Node) : Node :=
  set_peers (Some (list_to_map ((λ x, (x, Connected (sample_state x Follower 0))) <$> names))) n.

Definition leader1 : Node :=
  linked ["f"; "g"] (NewNode (sample_state "l" Leader 1) (one_entry 64)).

Definition ack : AppendResponse := mkAppendResponse "r" SUCCESS 1 2 EmptyString.

(** "f" acknowledges while "g" has not answered. *)
Definition add_request : RawAppendRequest := mkRawAppendRequest "o" "r" "node-1" (text "{}").
Definition begun1 : Node := (addLog_begin default_order add_request leader1).2.
Definition pending1 : pending :=
  mkPending (append_req 1 2 1 1) 2 1 2 (filter (λ s, Connection s = true) (Peers default_order leader1)) false.

Lemma begun1_eq : addLog_begin default_order add_request leader1 = (Some pending1, begun1).
Proof. vm_compute. reflexivity. Qed.

Lemma AddLog_commit_majority_witness :
  ∃ a n', rtc addLog_step (addLog_start pending1 begun1) a ∧ addLog_decide a = Some (true, n') ∧
    ad_open a ≠ [] ∧ commitIndex n' = 2.
Proof.
  assert (∃ f g, p_peers pending1 = [f; g]) as (f & g & Hfg)
    by (do 2 eexists; vm_compute; reflexivity).
  set (a := mkAdding (handleAppendSuccess pending1) [g] [(f, Answered ack)] begun1).
  assert (rtc addLog_step (addLog_start pending1 begun1) a) as Hrun.
  { apply rtc_once. unfold addLog_start. rewrite Hfg.
    apply (al_peer 0 0 (Answered ack) f [] [g] _ _ None). reflexivity. }
  assert (∃ n', addLog_decide a = Some (true, n')) as [n' Hd] by (eexists; vm_compute; reflexivity).
  exists a, n'. split; [exact Hrun|]. split; [exact Hd|]. split; [discriminate|].
  destruct (AddLog_commit_majority _ _ _ _ _ _ _ _ begun1_eq Hrun Hd) as (_ & _ & _ & _ & _ & Hc & _).
  rewrite Hc. vm_compute. reflexivity.
Defined.

(** An ended catch-up counts as an acknowledgement. The goroutine of a peer that is
    being caught up does not send it the entry; it waits until the catch-up is over and
    then counts the peer, but a catch-up is also over when one of its calls has
    failed. Let connected peers and leader be a majority: when all of them are peers of
    this kind, the steps of AddLog lead to a state in which each has ended in this way,
    none has been asked for the entry, and the request is committed. *)
Theorem ended_catchups_commit ord req n p n1 :
  addLog_begin ord req n = (Some p, n1) →
  Z.of_nat (size (peers_map n)) + 1 < 2 * (1 + len (p_peers p)) →
  ∃ a n', rtc addLog_step (addLog_start p n1) a ∧
    ad_ended a ≡ₚ ((., CatchupEnded) <$> p_peers p) ∧ ad_open a = [] ∧
    addLog_decide a = Some (true, n') ∧ Index (appended_entry (p_request p)) ≤ commitIndex n'.
Proof.
  intros Hb Hm. destruct (addLog_begin_eq _ _ _ _ _ Hb) as (_ & He & Hi & _ & Ha & Hmaj & _ & _).
  assert (∀ l q ended, ∃ q' ended', rtc addLog_step (mkAdding q l ended n1) (mkAdding q' [] ended' n1) ∧
      ended' ≡ₚ ((., CatchupEnded) <$> l) ++ ended ∧ p_acks q' = p_acks q + len l ∧
      p_majority q' = p_majority q ∧ p_index q' = p_index q) as Hrun.
  { induction l as [|s l IH]; intros q ended.
    - exists q, ended. split; [apply rtc_refl|]. rewrite len_nil. split_and!; [done|lia|done|done].
    - destruct (IH (handleAppendSuccess q) ((s, CatchupEnded) :: ended)) as (q' & ended' & Hr & Hall' & H1 & H2 & H3).
      exists q', ended'. split.
      { eapply rtc_l; [|exact Hr]. by apply (al_peer 0 0 CatchupEnded s [] l _ _ None). }
      rewrite len_cons, H1, H2, H3, Hall'. split_and!; [|cbn; lia|done|done].
      symmetry. apply Permutation_middle. }
  destruct (Hrun (p_peers p) p []) as (q & ended & Hr & Hall & H1 & H2 & H3). rewrite app_nil_r in Hall.
  exists (mkAdding q [] ended n1), (addLog_finish q n1). split; [exact Hr|]. split; [exact Hall|].
  split; [done|].
  pose proof (Z.div_mod (Z.of_nat (size (peers_map n)) + 1) 2).
  pose proof (Z.mod_pos_bound (Z.of_nat (size (peers_map n)) + 1) 2).
  assert ((p_majority q <=? p_acks q) = true) as Hq by (apply Z.leb_le; lia).
  unfold addLog_decide. cbn [ad_pending ad_open ad_node]. rewrite bool_decide_eq_true_2, orb_true_r by done.
  split; [by rewrite Hq|]. unfold addLog_finish. rewrite Hq, H3, Hi, He.
  destruct (commitIndex n1 <? _) eqn:Ec; bool_to_prop; cbn [commitIndex set_registry set_commit]; lia.
Qed.

Lemma ended_catchups_commit_witness :
  ∃ a n', rtc addLog_step (addLog_start pending1 begun1) a ∧
    ad_ended a ≡ₚ ((., CatchupEnded) <$> p_peers pending1) ∧ addLog_decide a = Some (true, n') ∧
    Index (appended_entry (p_request pending1)) ≤ commitIndex n'.
Proof.
  destruct (ended_catchups_commit _ _ _ _ _ begun1_eq) as (a & n' & Hr & He & _ & Hd & Hc).
  - vm_compute. reflexivity.
  - exists a, n'. split; [exact Hr|]. split; [exact He|]. split; [exact Hd | exact Hc].
Defined.
