(* ===== verification/RaftCatchup.v ===== *)
(** * Catching up a peer

    The leader's catch-up loop against a real follower: it replicates a missing
    suffix from any failed index, but it never ends on entries of an earlier term. *)

From Stdlib Require Import Strings.Byte Strings.String.
From stdpp Require Import list_numbers.
From S2P Require Import Prelude.
From S2P Require Import Bytes.
From S2P Require Import Json.
From S2P Require Import LogCodec.
From S2P Require Import Fs.
From S2P Require Import Storage.
From S2P Require Import StorageTheory.
From S2P Require Import StorageProps.
From S2P Require Import RaftState.
From S2P Require Import RaftNode.
From S2P Require Import RaftElection.
From S2P Require Import RaftReplication.

(** The request for an index the leader's log holds. *)
Lemma request_at_entry leader term i h e :
  log_at h i = Some e → Index e = i →
  request_at leader term i h =
    mkAppendRequest leader EmptyString term i (term_at h (i - 1)) (i - 1) (SchedulerID e) (Payload e).
Proof. unfold request_at. intros -> <-. done. Qed.

(** An entry as a follower stores it: with the term of the request. *)
Definition restamped (t : Z) (e : LogEntry) : LogEntry :=
  mkEntry (Index e) t (SchedulerID e) (Payload e).

(** A leader that can send the entry at [i], and the request. *)
Record sends (L : Node) (i : Z) (e : LogEntry) : Prop := {
  sd_log : log_core (store L);
  sd_leader : role (state L) = Leader;
  sd_bound : prevIndex (FileHandler L) < 2 ^ 63 - 1;
  sd_at : log_at (FileHandler L) i = Some e;
  sd_payload : Payload e ≠ [];
  sd_ok : entry_ok (restamped (currentTerm (state L)) e)
}.

Lemma sends_index L i e : sends L i e → Index e = i ∧ discIndex (FileHandler L) < i ≤ prevIndex (FileHandler L).
Proof. intros []. by apply log_at_index. Qed.

Definition the_request (L : Node) (i : Z) : AppendRequest :=
  request_at (id (state L)) (currentTerm (state L)) i (FileHandler L).

Lemma sends_request L i e :
  sends L i e →
  the_request L i = mkAppendRequest (id (state L)) EmptyString (currentTerm (state L)) i
    (term_at (FileHandler L) (i - 1)) (i - 1) (SchedulerID e) (Payload e) ∧
  appended_entry (the_request L i) = restamped (currentTerm (state L)) e.
Proof.
  intros Hs. destruct (sends_index _ _ _ Hs) as [Hi _]. unfold the_request.
  rewrite (request_at_entry _ _ _ _ e) by (done || apply Hs). split; [done|].
  unfold appended_entry, restamped. cbn. by rewrite Hi.
Qed.

Lemma sends_next L i e st :
  sends L i e → st ≠ NEEDS_SNAPSHOT → lag_next (mkLag i st) L = LagSend (the_request L i).
Proof.
  intros Hs Hst. destruct (sends_index _ _ _ Hs) as [_ Hi].
  apply lag_next_eq; try apply Hs; done.
Qed.

(** A follower that the leader's term does not outrun, and whose own log terms
    do not either; its log is in the file [a]. *)
Record follows (a : file) (L F : Node) : Prop := {
  fo_log : live a (store F);
  fo_term : currentTerm (state F) ≤ currentTerm (state L);
  fo_log_term : prevTerm (FileHandler F) ≤ currentTerm (state L)
}.

(** Rejected for a gap: the answer names the end of the follower's log. *)
Lemma append_rejected_gap a now rnd L F i e :
  sends L i e → follows a L F → prevIndex (FileHandler F) < i - 1 →
  ∃ resp F', AppendEntries now rnd (the_request L i) F = (resp, F') ∧
    AStatus resp = BAD_PAYLOAD ∧ PrevLogIndex resp = prevIndex (FileHandler F) ∧
    PrevLogTerm resp = prevTerm (FileHandler F) ∧ store F' = store F ∧ follows a L F'.
Proof.
  intros Hs [Hl Ht Hlt] Hgap. destruct (sends_request _ _ _ Hs) as [Hreq _].
  rewrite AppendEntries_eq, Hreq. cbv zeta. cbn [ar_Term ar_PrevLogIndex].
  rewrite (proj2 (Z.ltb_ge _ _)) by done. rewrite (proj2 (Z.ltb_lt _ _)) by done.
  set (req := mkAppendRequest _ _ _ _ _ _ _ _).
  destruct (accept_leader_spec now rnd req F) as (Hst & _ & _ & Hct & _).
  eexists _, _. split; [reflexivity|]. split_and!; try done.
  cbn [ar_Term req] in Hct. split; unfold FileHandler in *; rewrite ?Hst; try done. lia.
Qed.

Lemma lag_answer_ok now rnd resp l L :
  AStatus resp = SUCCESS → targetIndex l < 2 ^ 63 - 1 → 0 ≤ targetIndex l →
  lag_answer now rnd resp l L = (Some (mkLag (targetIndex l + 1) SUCCESS), L).
Proof.
  intros Hs Ht H0. unfold lag_answer. rewrite Hs, wrap64_id; [done|]. unfold int64_ok. lia.
Qed.

(** The loop steps back to the reported end, or by one. *)
Lemma lag_answer_bad now rnd resp l L :
  AStatus resp = BAD_PAYLOAD → PrevLogTerm resp ≤ currentTerm (state L) →
  0 ≤ PrevLogIndex resp → 1 < targetIndex l < 2 ^ 63 → 
  lag_answer now rnd resp l L =
    (Some (mkLag (if PrevLogIndex resp <? targetIndex l - 1 then PrevLogIndex resp + 1
                  else targetIndex l - 1) BAD_PAYLOAD), L).
Proof.
  intros Hs Ht H0 Hl. unfold lag_answer, checkStepDown. rewrite Hs.
  rewrite (proj2 (Z.ltb_ge _ _)) by done. rewrite bool_decide_eq_true_2 by done.
  rewrite (proj2 (Z.leb_le _ _)) by done. cbn [andb].
  rewrite !(wrap64_id (targetIndex l - 1)) by (unfold int64_ok; lia).
  destruct (PrevLogIndex resp <? targetIndex l - 1) eqn:E; bool_to_prop.
  - rewrite wrap64_id by (unfold int64_ok; lia). by rewrite (proj2 (Z.ltb_ge _ _)) by lia.
  - by rewrite (proj2 (Z.ltb_ge _ _)) by lia.
Qed.

(** Accepted at the end of the log. *)
Lemma append_accepted_next a now rnd L F i e :
  sends L i e → follows a L F → i = prevIndex (FileHandler F) + 1 →
  prevTerm (FileHandler F) = term_at (FileHandler L) (i - 1) →
  ∃ resp F', AppendEntries now rnd (the_request L i) F = (resp, F') ∧
    AStatus resp = SUCCESS ∧ store F' = appended_to a (restamped (currentTerm (state L)) e) (store F) ∧
    follows a L F'.
Proof.
  intros Hs [Hl Ht Hlt] Hi Hpt. destruct (sends_request _ _ _ Hs) as [Hreq Hap].
  destruct (sends_index _ _ _ Hs) as [Hie _].
  rewrite AppendEntries_eq. cbv zeta. set (req := the_request L i) in *.
  destruct (accept_leader_spec now rnd req F) as (Hst & _ & _ & Hct & _).
  set (m := accept_leader now rnd req F) in *.
  assert (ar_Term req = currentTerm (state L)) as Hrt by by rewrite Hreq.
  assert (ar_PrevLogIndex req = i - 1) as Hrp by by rewrite Hreq.
  assert (ar_PrevLogTerm req = term_at (FileHandler L) (i - 1)) as Hrpt by by rewrite Hreq.
  assert (ar_Payload req = Payload e) as Hpl by by rewrite Hreq.
  rewrite Hrt, Hrp, Hrpt, Hpl, (proj2 (Z.ltb_ge _ _)) by done. rewrite (proj2 (Z.ltb_ge _ _)) by lia.
  rewrite <- Hpt, Z.eqb_refl, andb_false_r, bool_decide_eq_false_2 by apply Hs.
  rewrite (append_live a); rewrite ?Hap; [|by rewrite Hst|apply Hs
    |unfold FileHandler in *; rewrite Hst; cbn [Index restamped]; lia].
  eexists _, _. split; [reflexivity|]. cbn [AStatus store set_store]. rewrite Hst.
  split_and!; try done.
  destruct (appended_to_fields a (restamped (currentTerm (state L)) e) (store F)) as (_ & _ & Hat & _).
  split; cbn [store set_store state].
  - apply live_appended; [done|apply Hs|].
    unfold FileHandler in *. cbn [Index restamped]. lia.
  - lia.
  - unfold FileHandler. cbn [store set_store]. by rewrite ?Hst, Hat.
Qed.

(** ** Replicating a missing suffix *)

(** The leader can send every entry after [j], all of its own term. *)
Definition fresh_suffix (L : Node) (j : Z) : Prop :=
  ∀ i, j < i ≤ prevIndex (FileHandler L) →
    ∃ e, sends L i e ∧ Term e = currentTerm (state L).

Lemma lag_next_done l n :
  role (state n) = Leader → prevIndex (FileHandler n) < targetIndex l → lag_next l n = LagStop.
Proof.
  intros Hr Ht. unfold lag_next. rewrite bool_decide_eq_true_2 by done. cbn [negb].
  unfold Index_. by rewrite (proj2 (Z.ltb_lt _ _)).
Qed.

Lemma restamped_same t e : Term e = t → restamped t e = e.
Proof. intros <-. by destruct e. Qed.

Lemma catchup_suffix a k fuel now rnd st L F :
  let j := prevIndex (FileHandler F) in
  role (state L) = Leader → log_core (store L) → prevIndex (FileHandler L) < 2 ^ 63 - 1 →
  k = Z.to_nat (prevIndex (FileHandler L) - j) → j ≤ prevIndex (FileHandler L) → (k < fuel)%nat →
  st ≠ NEEDS_SNAPSHOT → follows a L F → prevTerm (FileHandler F) = term_at (FileHandler L) j →
  fresh_suffix L j →
  ∃ F', resolvePeerLag fuel now rnd (mkLag (j + 1) st) L F = Some (true, L, F') ∧
    entries (FileHandler F') = entries (FileHandler F) ++ suffix (FileHandler L) j ∧
    prevIndex (FileHandler F') = prevIndex (FileHandler L) ∧ live a (store F') ∧
    discIndex (FileHandler F') = discIndex (FileHandler F) ∧
    discTerm (FileHandler F') = discTerm (FileHandler F) ∧
    ∀ n, n ≠ fname a → files (disk (store F')) !! n = files (disk (store F)) !! n.
Proof.
  revert fuel st F. induction k as [|k IH]; intros [|fuel] st F j Hr HL Hb Hk Hj Hfuel Hst Hf Hpt Hs;
    try lia; cbn [resolvePeerLag].
  - rewrite lag_next_done by (done || cbn [targetIndex]; lia).
    rewrite bool_decide_eq_true_2 by done. exists F. split; [done|].
    rewrite (suffix_end _ _ HL) by (unfold FileHandler in *; lia). rewrite app_nil_r.
    split_and!; [done|unfold j in *; lia|apply Hf|done..].
  - destruct (Hs (j + 1)) as (e & Hse & Het); [lia|].
    rewrite (sends_next _ _ _ _ Hse) by done.
    destruct (append_accepted_next a now rnd L F (j + 1) e) as (resp & F' & -> & Hresp & HF' & Hf');
      [done|done|done|by rewrite Z.add_simpl_r|].
    pose proof (lv_disc _ _ (fo_log _ _ _ Hf)). pose proof (lv_prev _ _ (fo_log _ _ _ Hf)).
    pose proof (len_nonneg (entries (hd (store F)))). unfold FileHandler in *.
    rewrite lag_answer_ok by (done || cbn [targetIndex]; unfold j in *; lia).
    destruct (sends_index _ _ _ Hse) as [Hie _].
    destruct (appended_to_fields a (restamped (currentTerm (state L)) e) (store F))
      as (He & Hi & Ht & Hdi & Hdt & _).
    rewrite restamped_same in * by done. rewrite <- HF' in He, Hi, Ht, Hdi, Hdt.
    cbn [targetIndex]. rewrite Hie in Hi. rewrite <- Hi.
    destruct (IH fuel SUCCESS F') as (F'' & Hrun & Hen & Hpi & Hlog & Hdi' & Hdt' & Hfiles); try done;
      unfold FileHandler in *; rewrite ?Hi; try lia.
    { rewrite Ht. unfold term_at. destruct (sends_index _ _ _ Hse) as [_ Hr2]. unfold FileHandler in Hr2.
      rewrite (proj2 (Z.eqb_neq _ _)) by lia. pose proof (sd_at _ _ _ Hse) as Hat.
      unfold FileHandler in Hat. by rewrite Hat. }
    { intros i Hi'. apply Hs. lia. }
    rewrite Hi in Hrun. exists F''. split; [exact Hrun|]. split_and!; try congruence.
    + rewrite Hen, He, <- app_assoc, Hi. by rewrite (suffix_cons _ j e HL) by apply Hse.
    + intros n Hn. rewrite (Hfiles n Hn), HF'. by apply set_content_lookup_ne.
Qed.

(** ** Writing over a suffix *)

Lemma cut_before_core i st :
  log_core st → discIndex (hd st) + 1 < i ≤ prevIndex (hd st) →
  log_core (cut_before i st) ∧ prevIndex (hd (cut_before i st)) = i - 1.
Proof.
  intros H Hi. pose proof (lc_prev _ H) as Hp.
  assert (entries (hd st) ≠ []) as Hne by (intros Hn; rewrite Hn, len_nil in Hp; lia).
  assert (log_core (cut_before i st)) as Hcut by (apply log_core_truncated; [done|lia|done]).
  split; [done|].
  destruct (truncated_fields (wal (hd st)) (Z.to_nat (i - discIndex (hd st) - 1)) st)
    as (He & Hdi & _ & _).
  change (truncated _ _ _) with (cut_before i st) in *.
  rewrite (lc_prev _ Hcut), He, Hdi. unfold len in *. rewrite length_take. lia.
Qed.

(** A follower that holds the index [i], and an entry before it, in memory. *)
Record holds (L F : Node) (i : Z) : Prop := {
  ho_log : log_core (store F);
  ho_terms : currentTerm (state F) ≤ currentTerm (state L);
  ho_index : discIndex (FileHandler F) + 1 < i ≤ prevIndex (FileHandler F);
  ho_disc : discTerm (FileHandler F) ≤ currentTerm (state L)
}.

(** Sent an entry it holds, the follower cuts its log there and appends it. *)
Lemma append_cut now rnd L F i e :
  sends L i e → holds L F i →
  let e' := restamped (currentTerm (state L)) e in
  ∃ resp F', AppendEntries now rnd (the_request L i) F = (resp, F') ∧ AStatus resp = SUCCESS ∧
    log_core (store F') ∧ currentTerm (state F') ≤ currentTerm (state L) ∧
    prevIndex (FileHandler F') = i ∧ prevTerm (FileHandler F') = currentTerm (state L) ∧
    entries (FileHandler F') = filter (λ x, Index x < i) (entries (FileHandler F)) ++ [e'] ∧
    discIndex (FileHandler F') = discIndex (FileHandler F) ∧
    discTerm (FileHandler F') = discTerm (FileHandler F).
Proof.
  intros Hs [Hl Ht Hi Hd] e'. destruct (sends_request _ _ _ Hs) as [Hreq Hap].
  destruct (sends_index _ _ _ Hs) as [Hie _].
  rewrite AppendEntries_eq. cbv zeta. set (req := the_request L i) in *.
  destruct (accept_leader_spec now rnd req F) as (Hst & _ & _ & Hct & _).
  set (m := accept_leader now rnd req F) in *.
  assert (ar_Term req = currentTerm (state L)) as Hrt by by rewrite Hreq.
  assert (ar_PrevLogIndex req = i - 1) as Hrp by by rewrite Hreq.
  assert (ar_Payload req = Payload e) as Hpl by by rewrite Hreq.
  rewrite Hrt, Hrp, Hpl, (proj2 (Z.ltb_ge _ _)) by done. rewrite (proj2 (Z.ltb_ge _ _)) by lia.
  rewrite (proj2 (Z.eqb_neq _ _)) by lia. cbn [andb].
  rewrite bool_decide_eq_false_2 by apply Hs. unfold FileHandler in *.
  rewrite append_behind; rewrite ?Hap; unfold FileHandler; rewrite ?Hst; cbn [Index Term restamped];
    rewrite ?Hie; [|done|apply Hs|lia].
  rewrite (proj2 (Z.ltb_ge _ _)) by lia. rewrite (proj2 (Z.leb_gt _ _)) by lia. cbn [orb].
  rewrite (proj2 (Z.eqb_neq _ _)) by lia.
  eexists _, _. split; [reflexivity|]. split; [done|].
  destruct (cut_before_core i (store F)) as (Hcut & Hci); [done|lia|].
  destruct (truncated_fields (wal (hd (store F))) (Z.to_nat (i - discIndex (hd (store F)) - 1)) (store F))
    as (Hce & Hcdi & Hcdt & _).
  change (truncated _ _ _) with (cut_before i (store F)) in Hce, Hcdi, Hcdt.
  destruct (appended_fields e' (cut_before i (store F))) as (Hae & Hai & Hat & Hadi & Hadt & _).
  fold e'. cbn [store set_store state].
  split_and!; [|lia| | | | |].
  - apply log_core_appended; [done|apply Hs|]. rewrite Hci. cbn [Index restamped e']. lia.
  - rewrite Hai. cbn [Index restamped e']. lia.
  - by rewrite Hat.
  - by rewrite Hae, Hce, (take_filter_lt _ _ _ (lc_entries _ Hl)).
  - by rewrite Hadi, Hcdi.
  - by rewrite Hadt, Hcdt.
Qed.

(** Nothing of a log is behind its end. *)
Lemma filter_before_end a st i :
  live a st → prevIndex (hd st) < i → filter (λ e, Index e < i) (entries (hd st)) = entries (hd st).
Proof.
  intros H Hi. apply filter_Forall_true, Forall_forall. intros x Hx.
  apply (continues_range _ _ _ (lv_entries _ _ H)) in Hx. pose proof (lv_prev _ _ H). lia.
Qed.

(** From a position after the follower's end. *)
Lemma catches_up_beyond a now rnd t fuel L F :
  let j := prevIndex (FileHandler F) in
  let last := prevIndex (FileHandler L) in
  role (state L) = Leader → log_core (store L) → last < 2 ^ 63 - 1 →
  follows a L F → prevTerm (FileHandler F) = term_at (FileHandler L) j → fresh_suffix L j →
  j < t → t ≤ last ∨ t = j + 1 ∧ j ≤ last → (Z.to_nat (last - j) + 1 < fuel)%nat →
  ∃ F', resolvePeerLag fuel now rnd (mkLag t BAD_PAYLOAD) L F = Some (true, L, F') ∧
        entries (FileHandler F') = entries (FileHandler F) ++ suffix (FileHandler L) j ∧
        prevIndex (FileHandler F') = last.
Proof.
  intros j last Hr HL Hb Hf Hpt Hs Hjt Ht Hfuel.
  assert (∀ fuel F0 st, store F0 = store F → follows a L F0 → (Z.to_nat (last - j) < fuel)%nat →
    st ≠ NEEDS_SNAPSHOT →
    ∃ F', resolvePeerLag fuel now rnd (mkLag (j + 1) st) L F0 = Some (true, L, F') ∧
          entries (FileHandler F') = entries (FileHandler F) ++ suffix (FileHandler L) j ∧
          prevIndex (FileHandler F') = last) as Hrun.
  { intros fuel' F0 st Hst Hf0 Hfuel' Hns.
    assert (FileHandler F0 = FileHandler F) as Hh by (unfold FileHandler; by rewrite Hst).
    destruct (catchup_suffix a (Z.to_nat (last - j)) fuel' now rnd st L F0) as (F' & H1 & H2 & H3 & _);
      rewrite ?Hh; try done; [lia|].
    rewrite Hh in H1, H2. by exists F'. }
  destruct (decide (t = j + 1)) as [->|Hne].
  { apply Hrun; [done|done|lia|done]. }
  destruct fuel as [|fuel]; [lia|]. cbn [resolvePeerLag].
  destruct (Hs t) as (e & Hse & _); [lia|]. rewrite (sends_next _ _ _ _ Hse) by done.
  destruct (append_rejected_gap a now rnd L F t e) as (resp & F1 & -> & Hb1 & Hpi & Hpt1 & Hst & Hf1);
    [done|done|fold j; lia|].
  pose proof (lv_disc _ _ (fo_log _ _ _ Hf)). pose proof (lv_prev _ _ (fo_log _ _ _ Hf)).
  pose proof (len_nonneg (entries (hd (store F)))).
  assert (0 ≤ j) by (unfold j, FileHandler; lia).
  rewrite lag_answer_bad; cbn [targetIndex]; rewrite ?Hpi, ?Hpt1; fold j; try lia; try done.
  2: { apply Hf. }
  rewrite (proj2 (Z.ltb_lt _ _)) by lia. apply (Hrun fuel); [done|done|lia|done].
Qed.

(** From a position the follower holds. *)
Lemma catches_up_over now rnd t fuel L F :
  let last := prevIndex (FileHandler L) in
  role (state L) = Leader → log_core (store L) → last < 2 ^ 63 - 1 →
  holds L F t → fresh_suffix L (t - 1) → t ≤ last → (Z.to_nat (last - t) + 1 < fuel)%nat →
  ∃ F', resolvePeerLag fuel now rnd (mkLag t BAD_PAYLOAD) L F = Some (true, L, F') ∧
        entries (FileHandler F') =
          filter (λ e, Index e < t) (entries (FileHandler F)) ++ suffix (FileHandler L) (t - 1) ∧
        prevIndex (FileHandler F') = last.
Proof.
  intros last Hr HL Hb Hf Hs Ht Hfuel. destruct fuel as [|fuel]; [lia|]. cbn [resolvePeerLag].
  destruct (Hs t) as (e & Hse & Het); [lia|]. rewrite (sends_next _ _ _ _ Hse) by done.
  destruct (append_cut now rnd L F t e Hse Hf) as (resp & F1 & -> & Hresp & Hl1 & Ht1 & Hi1 & Hpt1 & He1 & _).
  destruct (sends_index _ _ _ Hse) as [Hie Hr1]. pose proof (lc_disc _ HL). unfold FileHandler in *.
  rewrite lag_answer_ok by (done || cbn [targetIndex]; unfold last in *; lia). cbn [targetIndex].
  rewrite restamped_same in He1 by done.
  destruct (catchup_suffix (wal (hd (store F1))) (Z.to_nat (last - t)) fuel now rnd SUCCESS L F1)
    as (F' & H1 & H2 & H3 & _); unfold FileHandler in *; rewrite ?Hi1; try done; try lia.
  - split; [by apply log_core_live|lia|]. unfold FileHandler. lia.
  - unfold term_at. rewrite (proj2 (Z.eqb_neq _ _)) by lia. pose proof (sd_at _ _ _ Hse) as Hat.
    unfold FileHandler in Hat. rewrite Hat. cbn. congruence.
  - intros i Hi. apply Hs. lia.
  - rewrite Hi1 in H1, H2. exists F'. split_and!; [done| |done].
    rewrite H2, He1, <- app_assoc. rewrite (suffix_cons _ (t - 1) e HL).
    + by rewrite Z.sub_add.
    + rewrite Z.sub_add. apply Hse.
Qed.

(** C8: catching up a peer terminates and completes. Take a leader and a follower
    whose disks have no faults, and a failed index up to one past the leader's last;
    the loop starts at the position before it. Suppose that no message is lost and
    the two nodes handle no others meanwhile; that from that position, or from the
    follower's end if that is earlier, every entry of the leader is still in memory,
    of the leader's own term, with a payload and encodable; that the follower's terms
    do not exceed the leader's; and:
    - if the follower's log ends before the position, it ends at an index and term
      that the leader's log has too;
    - if not, as when the failed index is the first missing entry, the follower
      holds the position and an entry before it in memory.
    Then the loop ends within as many rounds as there are entries to send plus
    three; the follower's log is what it was before the first of them, followed by
    exactly the leader's entries from there on, and ends where the leader's does. *)
Theorem resolvePeerLag_catches_up a now rnd failed L F :
  let j := prevIndex (FileHandler F) in
  let last := prevIndex (FileHandler L) in
  let t := targetIndex (lag_start failed BAD_PAYLOAD) in
  let m := Z.min t (j + 1) in
  role (state L) = Leader → log_core (store L) → last < 2 ^ 63 - 1 → 1 ≤ failed ≤ last + 1 →
  j ≤ last → follows a L F → fresh_suffix L (m - 1) →
  (j < t → prevTerm (FileHandler F) = term_at (FileHandler L) j) → (t ≤ j → holds L F t) →
  ∃ F', resolvePeerLag (Z.to_nat (last - m) + 3) now rnd (lag_start failed BAD_PAYLOAD) L F =
          Some (true, L, F') ∧
        entries (FileHandler F') =
          filter (λ e, Index e < m) (entries (FileHandler F)) ++ suffix (FileHandler L) (m - 1) ∧
        prevIndex (FileHandler F') = last.
Proof.
  intros j last t m Hr HL Hb Hfi Hjl Hf Hs Hbeyond Hover.
  pose proof (lv_disc _ _ (fo_log _ _ _ Hf)). pose proof (lv_prev _ _ (fo_log _ _ _ Hf)).
  pose proof (len_nonneg (entries (hd (store F)))). unfold FileHandler in *.
  assert (t = Z.max 1 (failed - 1)) as Ht.
  { unfold t, lag_start. cbv zeta. cbn [targetIndex]. rewrite wrap64_id by (unfold int64_ok; lia).
    destruct (_ <? 1) eqn:E; bool_to_prop; lia. }
  replace (lag_start failed BAD_PAYLOAD) with (mkLag t BAD_PAYLOAD) by done. clearbody t.
  destruct (Z_lt_le_dec j t) as [Hlt|Hle].
  - replace m with (j + 1) in * by lia. rewrite Z.add_simpl_r in *.
    unfold j in *. erewrite filter_before_end by (done || apply Hf || lia).
    apply (catches_up_beyond a); [done|done|done|done|by apply Hbeyond|done|done| |]; unfold FileHandler; lia.
  - replace m with t in * by lia.
    apply catches_up_over; [done|done|done|by apply Hover|done| |]; unfold FileHandler; lia.
Qed.

(** A follower whose log ends at [i] with the leader's own term. *)
Record ends_at (L F : Node) (i : Z) : Prop := {
  ea_log : log_core (store F);
  ea_terms : currentTerm (state F) ≤ currentTerm (state L);
  ea_index : prevIndex (FileHandler F) = i;
  ea_term : prevTerm (FileHandler F) = currentTerm (state L);
  ea_disc : discIndex (FileHandler F) + 1 < i;
  ea_disc_term : discTerm (FileHandler F) ≤ currentTerm (state L)
}.

(** Sent again, the entry at [i] replaces itself. *)
Lemma append_rewritten now rnd L F i e :
  sends L i e → ends_at L F i →
  ∃ resp F', AppendEntries now rnd (the_request L i) F = (resp, F') ∧
    AStatus resp = SUCCESS ∧ ends_at L F' i.
Proof.
  intros Hs [Hl Ht Hi Hpt Hd Hdt].
  destruct (append_cut now rnd L F i e Hs) as (resp & F' & Ha & Hr & Hl' & Ht' & Hi' & Hpt' & _ & Hd' & Hdt').
  { split; [done|done|lia|done]. }
  exists resp, F'. split_and!; [done..|]. split; rewrite ?Hd', ?Hdt'; done.
Qed.

(** The entry after it is refused: the terms at [i] differ. *)
Lemma append_refused_after now rnd L F i e e' :
  sends L i e → Term e ≠ currentTerm (state L) → sends L (i + 1) e' → ends_at L F i →
  ∃ resp F', AppendEntries now rnd (the_request L (i + 1)) F = (resp, F') ∧
    AStatus resp = BAD_PAYLOAD ∧ PrevLogIndex resp = i ∧
    PrevLogTerm resp = currentTerm (state L) ∧ ends_at L F' i.
Proof.
  intros Hs He Hs' [Hl Ht Hi Hpt Hd Hdt]. destruct (sends_request _ _ _ Hs') as [Hreq _].
  destruct (sends_index _ _ _ Hs) as [Hie Hr].
  rewrite AppendEntries_eq, Hreq. cbv zeta. cbn [ar_Term ar_PrevLogIndex ar_PrevLogTerm].
  rewrite (proj2 (Z.ltb_ge _ _)) by done. rewrite Z.add_simpl_r.
  rewrite (proj2 (Z.ltb_ge _ _)) by lia. rewrite Hi, Z.eqb_refl, Hpt.
  assert (term_at (FileHandler L) i = Term e) as ->.
  { unfold term_at. rewrite (proj2 (Z.eqb_neq _ _)) by lia. by rewrite (sd_at _ _ _ Hs). }
  rewrite (proj2 (Z.eqb_neq _ _)) by done. cbn [negb andb].
  set (req := mkAppendRequest _ _ _ _ _ _ _ _).
  destruct (accept_leader_spec now rnd req F) as (Hst & _ & _ & Hct & _).
  eexists _, _. split; [reflexivity|]. cbn [AStatus PrevLogIndex PrevLogTerm].
  split_and!; try done. cbn [ar_Term req] in Hct.
  split; unfold FileHandler in *; rewrite ?Hst; try done. lia.
Qed.

(** C37: a leader never gets past an entry of an earlier term. The request carries
    the leader's current term, and the follower stores the entry with it, so the
    next request's previous term does not match; the catch-up loop then sends the
    two entries in turn and never returns, however long it runs. *)
Theorem old_term_entry_livelock now rnd fuel st L F i e e' :
  sends L i e → Term e ≠ currentTerm (state L) → sends L (i + 1) e' →
  log_core (store F) → currentTerm (state F) ≤ currentTerm (state L) → prevIndex (FileHandler F) = i → prevTerm (FileHandler F) = currentTerm (state L) →
  discIndex (FileHandler F) + 1 < i → discTerm (FileHandler F) ≤ currentTerm (state L) →
  st ≠ NEEDS_SNAPSHOT →
  resolvePeerLag fuel now rnd (mkLag (i + 1) st) L F = None.
Proof.
  intros Hs He Hs' Hlog Hft Hi Ht Hd Hdt Hst.
  assert (ends_at L F i) as Hend by done. clear Hi Ht.
  pose proof (lc_disc _ Hlog) as [Hd0 _].
  destruct (sends_index _ _ _ Hs) as [_ Hr]. destruct (sends_index _ _ _ Hs') as [_ Hr'].
  pose proof (sd_bound _ _ _ Hs) as Hb. unfold FileHandler in *.
  assert (∀ fuel F st, ends_at L F i → st ≠ NEEDS_SNAPSHOT →
    resolvePeerLag fuel now rnd (mkLag (i + 1) st) L F = None ∧
    resolvePeerLag fuel now rnd (mkLag i st) L F = None) as Hloop.
  { clear fuel F st Hend Hlog Hft Hst Hd Hd0 Hdt. induction fuel as [|fuel IH]; intros F st Hend Hst; [done|].
    pose proof (ea_disc _ _ _ Hend) as Hd. pose proof (lc_disc _ (ea_log _ _ _ Hend)) as [Hd0 _]. unfold FileHandler in *.
    split; cbn [resolvePeerLag].
    - rewrite (sends_next _ _ _ _ Hs') by done.
      destruct (append_refused_after now rnd L F i e e') as (resp & F' & -> & Hb1 & Hpi & Hpt & Hend'); try done.
      rewrite lag_answer_bad; cbn [targetIndex]; rewrite ?Hpi, ?Hpt; try lia; try done.
      rewrite Z.add_simpl_r, (proj2 (Z.ltb_ge _ _)) by lia. by apply IH.
    - rewrite (sends_next _ _ _ _ Hs) by done.
      destruct (append_rewritten now rnd L F i e) as (resp & F' & -> & Hok & Hend'); try done.
      rewrite lag_answer_ok by (done || cbn [targetIndex]; lia). cbn [targetIndex]. by apply IH. }
  by apply Hloop.
Qed.

(** ** Concrete logs *)

Definition two_entries (t : Z) : Store := (Append (entry_at 2 t "{}") (one_entry 64)).2.
Definition three_entries : Store := (Append (entry_at 3 1 "{}") (two_entries 1)).2.

Lemma two_entries_reachable t :
  1 ≤ t < 2 ^ 63 → reachable default_order 64 (two_entries t, Idle).
Proof.
  intros Ht. apply reachable_append; [apply one_entry_reachable| |].
  - split; [|unfold int64_ok; cbn [Term entry_at]; lia|vm_compute; reflexivity..].
    refine (bool_decide_unpack _ _). vm_compute. exact I.
  - change (prevTerm (hd (one_entry 64))) with 1. cbn [Term entry_at]. lia.
Qed.

Lemma three_entries_reachable : reachable default_order 64 (three_entries, Idle).
Proof.
  apply reachable_append; [by apply two_entries_reachable| |].
  - refine (bool_decide_unpack _ _). vm_compute. exact I.
  - vm_compute. discriminate.
Qed.

Definition leader3 (t : Z) : Node := NewNode (sample_state "l" Leader t) three_entries.
Definition follower2 : Node := NewNode (sample_state "f" Follower 2) (two_entries 2).

Lemma leader3_sends t i e :
  1 ≤ t < 2 ^ 63 → log_at (hd three_entries) i = Some e → Payload e ≠ [] →
  entry_ok (restamped t e) → sends (leader3 t) i e.
Proof.
  intros Ht Hl Hp He. split; [|reflexivity|vm_compute; reflexivity|exact Hl|exact Hp|exact He].
  apply (reachable_ok _ _ _ three_entries_reachable).
Qed.

(** The leader's entries 2 and 3. *)
Lemma leader3_sends_2_3 i : 1 < i ≤ 3 → ∃ e, sends (leader3 1) i e ∧ Term e = 1.
Proof.
  intros Hi. assert (i = 2 ∨ i = 3) as [-> | ->] by lia.
  - exists (entry_at 2 1 "{}"). split; [|reflexivity]. apply leader3_sends; [lia|vm_compute; reflexivity
      |discriminate|]. refine (bool_decide_unpack _ _). vm_compute. exact I.
  - exists (entry_at 3 1 "{}"). split; [|reflexivity]. apply leader3_sends; [lia|vm_compute; reflexivity
      |discriminate|]. refine (bool_decide_unpack _ _). vm_compute. exact I.
Qed.

(** A follower of two entries: the failed index is the first that it misses. *)
Definition follower2_same : Node := NewNode (sample_state "f" Follower 1) (two_entries 1).

Lemma resolvePeerLag_catches_up_witness :
  ∃ F', resolvePeerLag 4 0 0 (lag_start 3 BAD_PAYLOAD) (leader3 1) follower2_same =
          Some (true, leader3 1, F') ∧
    prevIndex (FileHandler F') = 3.
Proof.
  assert (log_core (store follower2_same)) as HF.
  { apply (reachable_ok default_order 64 (two_entries 1, Idle)). by apply two_entries_reachable. }
  destruct (resolvePeerLag_catches_up (wal (hd (store follower2_same))) 0 0 3 (leader3 1) follower2_same)
    as (F' & Hr & _ & Hp).
  - reflexivity.
  - apply (reachable_ok _ _ _ three_entries_reachable).
  - vm_compute. reflexivity.
  - vm_compute. split; discriminate.
  - vm_compute. discriminate.
  - split; [by apply log_core_live | vm_compute; discriminate | vm_compute; discriminate].
  - intros i Hi. apply leader3_sends_2_3. exact Hi.
  - vm_compute. discriminate.
  - intros _. split; [exact HF | vm_compute; discriminate | vm_compute; split; [reflexivity|discriminate]
      | vm_compute; discriminate].
  - exists F'. split; [exact Hr | rewrite Hp; vm_compute; reflexivity].
Defined.

Lemma old_term_entry_livelock_witness :
  resolvePeerLag 1000 0 0 (mkLag 3 SUCCESS) (leader3 2) follower2 = None.
Proof.
  apply (old_term_entry_livelock 0 0 1000 SUCCESS (leader3 2) follower2 2
    (entry_at 2 1 "{}") (entry_at 3 1 "{}")).
  - apply leader3_sends; [lia|vm_compute; reflexivity|discriminate|].
    refine (bool_decide_unpack _ _). vm_compute. exact I.
  - vm_compute. discriminate.
  - apply leader3_sends; [lia|vm_compute; reflexivity|discriminate|].
    refine (bool_decide_unpack _ _). vm_compute. exact I.
  - apply (reachable_ok default_order 64 (two_entries 2, Idle)). by apply two_entries_reachable.
  - vm_compute. discriminate.
  - vm_compute. reflexivity.
  - vm_compute. reflexivity.
  - vm_compute. reflexivity.
  - vm_compute. discriminate.
  - discriminate.
Defined.
