(* ===== verification/RaftTransfer.v ===== *)
(** * Transfer of a snapshot

    The leader's [sendSnapshotToPeer] against a follower's [InstallSnapshot], and
    the catch-up loop that begins with it: the follower ends with the leader's
    snapshot, byte for byte, and the leader's log. An empty snapshot is never sent, and
    the loop never ends. *)

From Stdlib Require Import Strings.Byte Strings.String.
From S2P Require Import Prelude.
From S2P Require Import Bytes.
From S2P Require Import Json.
From S2P Require Import LogCodec.
From S2P Require Import Fs.
From S2P Require Import Storage.
From S2P Require Import StorageTheory.
From S2P Require Import StorageProps.
From S2P Require Import RaftState.
From S2P Require Import RaftNode.
From S2P Require Import RaftElection.
From S2P Require Import RaftReplication.
From S2P Require Import RaftCatchup.

(** ** One frame *)

Lemma Node_InstallSnapshot_ok now rnd req n st' :
  currentTerm (state n) ≤ is_Term req →
  InstallSnapshot (is_Offset req) (is_Data req) (is_Done req) (is_LastIncludedIndex req)
    (is_LastIncludedTerm req) (store n) = (Ok tt, st') →
  ∃ n', Node_InstallSnapshot now rnd req n = (Ok (currentTerm (state n)), n') ∧
    store n' = st' ∧ currentTerm (state n') = is_Term req.
Proof.
  intros Ht Hi. unfold Node_InstallSnapshot. rewrite (proj2 (Z.ltb_ge _ _)) by done.
  match goal with |- context [on_store _ ?m] => set (n1 := m) end.
  assert (store n1 = store n ∧ currentTerm (state n1) = is_Term req) as [Hs Hc].
  { unfold n1. destruct (currentTerm (state n) <? is_Term req) eqn:E; bool_to_prop;
      destruct (_ || _); simpl; split; done || lia. }
  clearbody n1. unfold on_store. rewrite Hs, Hi. eexists. split; [reflexivity|]. done.
Qed.

(** ** All frames *)

Lemma chunkSize_pos : (0 < chunkSize)%nat.
Proof. apply Nat.ltb_lt. vm_compute. reflexivity. Qed.

Lemma snapshot_requests_cons fuel leader term i t off size rest :
  rest ≠ [] →
  snapshot_requests (S fuel) leader term i t off size rest =
    mkInstallSnapshotRequest leader term i t off (take chunkSize rest)
      (size <=? off + len (take chunkSize rest)) ::
    (if size <=? off + len (take chunkSize rest) then []
     else snapshot_requests fuel leader term i t (off + len (take chunkSize rest)) size
            (drop chunkSize rest)).
Proof. by destruct rest. Qed.

(** A store that can receive a snapshot, of which [c] has arrived. *)
Record receiving (a : file) (c : list byte) (st : Store) : Prop := {
  rc_calm : calm (disk st);
  rc_nodir : files (disk st) !! snapshot_tmp ≠ Some Dir;
  rc_tmp : c = [] ∨ files (disk st) !! snapshot_tmp = Some (Reg c);
  rc_active : activeFile (hd st) = Some a ∧ fopen a = true;
  rc_snap : ∃ sf, snapshotFile (hd st) = Some sf ∧ fopen sf = true
}.

Lemma log_core_receiving st : log_core st → receiving (wal (hd st)) [] st.
Proof.
  intros []. split; auto. destruct lc_snap as (sf & ? & _ & ?). eauto.
Qed.

Lemma send_frames_ok now rnd a L i t fuel : ∀ rest c P,
  receiving a c (store P) → rest ≠ [] → (length rest < fuel)%nat →
  currentTerm (state P) ≤ currentTerm (state L) →
  ∃ P', send_frames now rnd
          (snapshot_requests fuel (id (state L)) (currentTerm (state L)) i t (len c)
             (len c + len rest) rest) L P = (true, L, P') ∧
    store P' = mkStore (installed_disk (fname a) (c ++ rest) (disk (store P)))
                 (installed i t (hd (store P))) ∧
    currentTerm (state P') = currentTerm (state L).
Proof.
  induction fuel as [|fuel IH]; intros rest c P [Hc Hd Hf [Ha Hao] (sf & Hs & Hso)] Hne Hl Ht; [lia|].
  rewrite snapshot_requests_cons by done. pose proof chunkSize_pos as Hpos.
  rename rest into r. assert (Hsplit : take chunkSize r ++ drop chunkSize r = r) by apply take_drop.
  assert (Hdl : length (drop chunkSize r) = (length r - chunkSize)%nat) by apply length_drop.
  assert (0 < length r)%nat by (destruct r; simpl; [done | lia]).
  revert Hsplit Hdl. generalize (take chunkSize r) (drop chunkSize r). intros buf r' Hsplit Hdl.
  assert (Hlen : len r = len buf + len (r')) by (by rewrite <- len_app, Hsplit).
  assert (Hdown : ∀ n, checkStepDown now rnd (currentTerm (state P)) n = (false, n) ∨
    currentTerm (state n) < currentTerm (state P)).
  { intros n. unfold checkStepDown. destruct (Z.ltb_spec (currentTerm (state n))
      (currentTerm (state P))); auto. }
  destruct (Z.leb_spec (len c + len r) (len c + len buf)) as [Hdone|Hmore].
  - assert (r' = []) as Hnil.
    { pose proof (len_nonneg (r')). apply nil_length_inv. unfold len in *. lia. }
    rewrite Hnil, app_nil_r in Hsplit. cbn [send_frames].
    destruct (Node_InstallSnapshot_ok now rnd
      (mkInstallSnapshotRequest (id (state L)) (currentTerm (state L)) i t (len c) buf true) P
      _ Ht (InstallSnapshot_last _ buf c (store P) i t a sf Hc Hd eq_refl Hf Ha Hao Hs Hso))
      as (P' & -> & Hst & Hct).
    destruct (Hdown L) as [-> | ?]; [|lia]. exists P'. rewrite Hst, Hsplit. by split_and!.
  - assert (r' ≠ []) as Hne'.
    { intros Hnil. rewrite Hnil, len_nil in Hlen. lia. }
    cbn [send_frames].
    destruct (Node_InstallSnapshot_ok now rnd
      (mkInstallSnapshotRequest (id (state L)) (currentTerm (state L)) i t (len c) buf false) P
      _ Ht (InstallSnapshot_more _ buf c (store P) i t Hc Hd eq_refl Hf)) as (P1 & -> & Hst & Hct).
    destruct (Hdown L) as [-> | ?]; [|lia]. cbn [is_Term] in Hct.
    destruct (IH (r') (c ++ buf) P1) as (P' & Hrun & Hst' & Hct').
    + rewrite Hst. split; cbn [disk hd]; eauto with hive; rewrite ?set_content_lookup; auto.
    + done.
    + lia.
    + lia.
    + rewrite len_app, <- Z.add_assoc, <- Hlen in Hrun. exists P'. split; [exact Hrun|].
      split; [|done]. rewrite Hst', Hst. cbn [disk hd]. rewrite <- app_assoc, Hsplit.
      unfold installed_disk, set_content. cbn [files faults]. by rewrite delete_insert_eq.
Qed.

Lemma SnapshotReader_ok st sf c :
  calm (disk st) → snapshotFile (hd st) = Some sf → fopen sf = true →
  files (disk st) !! fname sf = Some (Reg c) →
  SnapshotReader st = (Ok (mkFile (fname sf) 0 false true, len c), st).
Proof.
  intros Hc Hs Ho Hf. unfold SnapshotReader. erewrite (io_bind_Ok get) by done. rewrite Hs.
  assert (Hstat : os_stat_size sf (disk st) = (Ok (len c), disk st)).
  { unfold os_stat_size. rewrite Ho. unfold mbind, io_bind, get, ret.
    rewrite (syscall_calm _ Hc). by erewrite content_lookup. }
  erewrite io_bind_Ok by (by apply on_disk_eq). destruct st as [d h]. cbn [disk hd] in *.
  erewrite io_bind_Ok; [reflexivity|]. apply on_disk_eq. cbn [disk].
  rewrite os_open_calm by (done || by rewrite Hf; eauto). unfold opened. by rewrite Hf.
Qed.

(** The follower's log right after an installation. *)
Lemma live_installed st c i t :
  log_core st → 0 ≤ i < 2 ^ 63 →
  live (wal (hd st)) (mkStore (installed_disk (fname (wal (hd st))) c (disk st))
    (installed i t (hd st))).
Proof.
  intros H Hi. split; unfold installed, installed_disk; fields.
  - apply H.
  - apply H.
  - done.
  - apply set_content_lookup.
  - apply continues_nil.
  - rewrite len_nil. lia.
  - done.
  - lia.
  - lia.
Qed.

Lemma suffix_all st : log_core st → suffix (hd st) (discIndex (hd st)) = entries (hd st).
Proof.
  intros H. unfold suffix. pose proof (lc_entries _ H) as Hc.
  assert (Forall (λ e, discIndex (hd st) < Index e) (entries (hd st))) as Hall.
  { apply Forall_forall. intros e He. by apply (continues_range _ _ _ Hc) in He as [? _]. }
  clear Hc. induction Hall as [|e l He _ IH]; [done|]. by rewrite filter_cons, decide_True, IH.
Qed.

(** Nothing is sent of an empty snapshot, and the sending counts as done. *)
Lemma sendSnapshotToPeer_empty now rnd i t L F :
  log_core (store L) → content (disk (store L)) active_log = [] →
  sendSnapshotToPeer now rnd i t L F = (true, L, F).
Proof.
  intros HL Hsnap. destruct (lc_snap _ HL) as (sf & Hsf & Hsn & Hso).
  destruct (lc_snapdata _ HL) as (es & _ & Hdata). rewrite (content_lookup _ _ _ Hdata) in Hsnap.
  unfold sendSnapshotToPeer, on_store.
  rewrite (SnapshotReader_ok _ sf []) by (done || apply HL || by rewrite Hsn, Hdata, Hsnap).
  cbn [fname]. rewrite set_store_id, Hsn, (content_lookup _ _ _ Hdata), Hsnap. done.
Qed.

(** An empty snapshot is never sent, yet the loop goes on as if it were: the peer
    refuses the entry after it, and the loop comes back to the snapshot, however
    long it runs. *)
Theorem empty_snapshot_never_sent a now rnd fuel tgt st L F e :
  sends L (discIndex (FileHandler L) + 1) e → content (disk (store L)) active_log = [] →
  follows a L F → prevIndex (FileHandler F) < discIndex (FileHandler L) →
  tgt ≤ discIndex (FileHandler L) →
  resolvePeerLag fuel now rnd (mkLag tgt st) L F = None.
Proof.
  intros Hs Hsnap Hf Hj Ht. destruct (sends_index _ _ _ Hs) as [Hie Hr].
  pose proof (lc_disc _ (sd_log _ _ _ Hs)) as [Hd _]. pose proof (sd_bound _ _ _ Hs).
  set (d := discIndex (FileHandler L)) in *. unfold FileHandler in *.
  assert (∀ fuel F tgt st, follows a L F → prevIndex (hd (store F)) < d → tgt ≤ d →
    resolvePeerLag fuel now rnd (mkLag tgt st) L F = None ∧
    resolvePeerLag fuel now rnd (mkLag (d + 1) SUCCESS) L F = None) as Hloop.
  { clear fuel F tgt st Hf Hj Ht. induction fuel as [|fuel IH]; intros F tgt st Hf Hj Ht; [done|].
    split; cbn [resolvePeerLag].
    - assert (lag_next (mkLag tgt st) L = LagSnapshot d (discTerm (hd (store L)))) as ->.
      { unfold lag_next, Index_, DiscIndex, DiscTerm, FileHandler. rewrite (sd_leader _ _ _ Hs).
        cbn [targetIndex lag_status]. rewrite bool_decide_eq_true_2 by done. cbn [negb].
        rewrite (proj2 (Z.ltb_ge _ _)) by lia.
        unfold d, FileHandler in *. by rewrite (proj2 (Z.leb_le _ _)), orb_true_r by lia. }
      rewrite sendSnapshotToPeer_empty by (done || apply Hs).
      rewrite wrap64_id by (unfold int64_ok; lia). by eapply IH.
    - rewrite (sends_next _ _ _ _ Hs) by done.
      destruct (append_rejected_gap a now rnd L F (d + 1) e) as (resp & F1 & -> & Hb1 & Hpi & Hpt & Hst & Hf1);
        [done|done|unfold FileHandler; lia|].
      pose proof (lv_disc _ _ (fo_log _ _ _ Hf)). pose proof (lv_prev _ _ (fo_log _ _ _ Hf)).
      pose proof (len_nonneg (entries (hd (store F)))). unfold FileHandler in *.
      rewrite lag_answer_bad; cbn [targetIndex]; rewrite ?Hpi, ?Hpt; try lia; try done.
      2: { apply Hf. }
      rewrite (proj2 (Z.ltb_lt _ _)) by lia. apply (IH F1); [done|by rewrite Hst|lia]. }
  by eapply Hloop.
Qed.

(** C9: a peer that is too far behind is brought up from the leader's snapshot.
    Take a leader whose snapshot file [active.log] is not empty (an empty one is
    never sent, and the loop does not end: [empty_snapshot_never_sent]), a leader
    and a follower whose disks have no faults and whose terms do not exceed the
    leader's, no message lost and no other handled meanwhile. When the loop asks for
    an entry that compaction has removed, or the follower has asked for a snapshot,
    and the entries the leader still has are of its own term, with payloads, then
    the loop ends, within as many rounds as the leader has entries plus two; the
    follower's [active.log] is then the leader's byte for byte, its log is the
    leader's log, and both begin and end at the same index and term, whatever the
    follower had before. *)
Theorem snapshot_catches_up now rnd tgt st L F :
  role (state L) = Leader → log_core (store L) → log_core (store F) →
  prevIndex (FileHandler L) < 2 ^ 63 - 1 →
  tgt ≤ prevIndex (FileHandler L) → tgt ≤ discIndex (FileHandler L) ∨ st = NEEDS_SNAPSHOT →
  currentTerm (state F) ≤ currentTerm (state L) →
  discTerm (FileHandler L) ≤ currentTerm (state L) →
  content (disk (store L)) active_log ≠ [] →
  fresh_suffix L (discIndex (FileHandler L)) →
  ∃ F', resolvePeerLag (length (entries (FileHandler L)) + 2) now rnd (mkLag tgt st) L F =
          Some (true, L, F') ∧
    content (disk (store F')) active_log = content (disk (store L)) active_log ∧
    entries (FileHandler F') = entries (FileHandler L) ∧
    discIndex (FileHandler F') = discIndex (FileHandler L) ∧
    discTerm (FileHandler F') = discTerm (FileHandler L) ∧
    prevIndex (FileHandler F') = prevIndex (FileHandler L) ∧
    prevTerm (FileHandler F') = prevTerm (FileHandler L).
Proof.
  intros Hr HL HF Hb Htl Htgt Hct Hdt Hsnap Hfresh. unfold FileHandler in *.
  destruct (lc_snap _ HL) as (sf & Hsf & Hsn & Hso).
  destruct (lc_snapdata _ HL) as (es & _ & Hdata).
  set (c := encode_all es) in *. rewrite (content_lookup _ c _ Hdata) in *.
  pose proof (lc_prev _ HL) as HpL. pose proof (lc_disc _ HL) as [Hd0 _].
  pose proof (len_nonneg (entries (hd (store L)))) as Hn0.
  destruct (send_frames_ok now rnd _ L (discIndex (hd (store L))) (discTerm (hd (store L)))
    (S (length c)) c [] F (log_core_receiving _ HF) Hsnap ltac:(lia) Hct) as (F1 & Hsend & Hst1 & Hct1).
  pose proof (live_installed (store F) c (discIndex (hd (store L))) (discTerm (hd (store L))) HF
    ltac:(lia)) as Hlive.
  change ([] ++ c) with c in Hst1. rewrite <- Hst1 in Hlive.
  replace (length (entries (hd (store L))) + 2)%nat
    with (S (S (length (entries (hd (store L)))))) by lia.
  set (n := length (entries (hd (store L)))) in *.
  assert (Hlag : lag_next (mkLag tgt st) L =
    LagSnapshot (discIndex (hd (store L))) (discTerm (hd (store L)))).
  { unfold lag_next, FileHandler, Index_, DiscIndex, DiscTerm. rewrite Hr.
    cbn [targetIndex lag_status]. rewrite bool_decide_eq_true_2 by done. cbn [negb].
    rewrite (proj2 (Z.ltb_ge _ _)) by lia.
    destruct Htgt as [Htgt | ->]; [|done]. by rewrite (proj2 (Z.leb_le _ _)), orb_true_r by lia. }
  cbn [resolvePeerLag]. rewrite Hlag.
  assert (Hsend' : sendSnapshotToPeer now rnd (discIndex (hd (store L))) (discTerm (hd (store L))) L F
    = (true, L, F1)).
  { unfold sendSnapshotToPeer, on_store.
    rewrite (SnapshotReader_ok _ sf c) by (done || apply HL || by rewrite Hsn).
    cbn [fname]. rewrite set_store_id, Hsn, (content_lookup _ c _ Hdata). exact Hsend. }
  rewrite Hsend', wrap64_id by (unfold int64_ok; lia).
  assert (Hh1 : hd (store F1) = installed (discIndex (hd (store L))) (discTerm (hd (store L)))
    (hd (store F))) by (by rewrite Hst1).
  assert (Hp1 : prevIndex (hd (store F1)) = discIndex (hd (store L))) by (by rewrite Hh1).
  destruct (catchup_suffix (wal (hd (store F))) n (S n) now rnd SUCCESS L F1)
    as (F' & Hrun & Hen & Hpi & Hlv & Hdi & Hdtm & Hfiles); unfold FileHandler in *;
    rewrite ?Hp1; try done.
  { unfold n, len in *. lia. }
  { lia. }
  { lia. }
  { split; [done | lia |]. unfold FileHandler. by rewrite Hh1. }
  { rewrite Hh1. unfold term_at. by rewrite Z.eqb_refl. }
  rewrite Hp1 in Hrun, Hen. exists F'. split; [exact Hrun|].
  rewrite suffix_all, Hh1 in Hen by done. rewrite Hh1 in Hdi, Hdtm. cbn in Hen, Hdi, Hdtm.
  split_and!; try done.
  - apply content_lookup. rewrite Hfiles by (apply not_eq_sym, wal_not_active, HF).
    rewrite Hst1. unfold installed_disk. cbn [disk].
    rewrite set_content_lookup_ne by (by apply wal_not_active). cbn [files]. apply lookup_insert_eq.
  - by rewrite (lv_term _ _ Hlv), (lc_term _ HL), Hen, Hdtm.
Qed.

(** ** Witness *)

(** Two entries, compacted, and a third one. *)
Definition tr_entry (i : Z) (job : string) : LogEntry :=
  mkEntry i 1 "node-1" (text (("{'id':'" +:+ job) +:+ "','state':0}")).
Definition tr_one : Store := (Append (tr_entry 1 "a") (first_start 0).1).2.
Definition tr_two : Store := (Append (tr_entry 2 "b") tr_one).2.
Definition tr_plan : plan := mkPlan (createSnapshot default_order (entries (hd tr_two))) 2 1.
Definition tr_file : file := mkFile (log_name 1 2) 0 true true.
Definition tr_begun : Store := (snapshot_begin default_order tr_two).2.
Definition tr_written : Store := (snapshot_write tr_plan tr_begun).2.
Definition tr_rotated : Store := (rotateFile tr_file 2 1 2 tr_written).2.
Definition tr_store : Store := (Append (tr_entry 3 "c") tr_rotated).2.

Lemma tr_entry_ok i job : bool_decide (entry_ok (tr_entry i job)) = true → entry_ok (tr_entry i job).
Proof. apply bool_decide_eq_true_1. Qed.

Lemma tr_two_reachable : reachable default_order 0 (tr_two, Idle).
Proof.
  apply reachable_append; [apply reachable_append; [apply rtc_refl|..]|..];
    first [apply tr_entry_ok; vm_compute; reflexivity | vm_compute; discriminate].
Qed.

Lemma tr_reachable : reachable default_order 0 (tr_store, Idle).
Proof.
  apply reachable_append;
    [|apply tr_entry_ok; vm_compute; reflexivity | vm_compute; discriminate].
  eapply rtc_r; [|apply process_op, (step_rotate _ _ tr_plan tr_file), run_eq; vm_compute; reflexivity].
  eapply rtc_r; [|apply process_op, step_write, run_eq; vm_compute; reflexivity].
  eapply rtc_r; [apply tr_two_reachable|].
  apply process_op, step_begin; [vm_compute; reflexivity|].
  exact (run_eq (snapshot_begin default_order tr_two) (Ok (Some tr_plan)) ltac:(vm_compute; reflexivity)).
Qed.

Definition tr_leader : Node := NewNode (sample_state "l" Leader 1) tr_store.

Lemma tr_fresh : fresh_suffix tr_leader (discIndex (FileHandler tr_leader)).
Proof.
  intros i Hi. change (2 < i ≤ 3) in Hi. assert (i = 3) as -> by lia.
  exists (tr_entry 3 "c"). split; [|reflexivity].
  split; [apply (reachable_ok _ _ _ tr_reachable)|reflexivity|vm_compute; reflexivity..| |].
  - vm_compute. discriminate.
  - apply tr_entry_ok. vm_compute. reflexivity.
Qed.

Lemma snapshot_catches_up_witness :
  ∃ F', resolvePeerLag 3 0 0 (mkLag 1 BAD_PAYLOAD) tr_leader follower1 = Some (true, tr_leader, F') ∧
    prevIndex (FileHandler F') = 3.
Proof.
  destruct (snapshot_catches_up 0 0 1 BAD_PAYLOAD tr_leader follower1)
    as (F' & Hr & _ & _ & _ & _ & Hp & _).
  - reflexivity.
  - apply (reachable_ok _ _ _ tr_reachable).
  - exact follower1_log.
  - vm_compute. reflexivity.
  - vm_compute. discriminate.
  - left. vm_compute. discriminate.
  - vm_compute. discriminate.
  - vm_compute. discriminate.
  - vm_compute. discriminate.
  - exact tr_fresh.
  - exists F'. split; [exact Hr | rewrite Hp; vm_compute; reflexivity].
Defined.
