(* ===== verification/RaftSafety.v ===== *)
(** * Elections of a whole cluster

    The vote handler, the critical sections of [StartElection], stepping down and
    [AppendEntries] on the nodes of one cluster, with the messages between them:
    at most one node wins a term as long as winners have registered all other nodes
    and no append of a term reaches a node that has voted in that term. Nodes that
    have registered nobody, and heartbeats, break this, and then two nodes win. *)

From Stdlib Require Import Strings.Byte Strings.String.
From S2P Require Import Prelude.
From S2P Require Import Bytes.
From S2P Require Import LogCodec.
From S2P Require Import Fs.
From S2P Require Import Storage.
From S2P Require Import StorageProps.
From S2P Require Import RaftState.
From S2P Require Import RaftNode.
From S2P Require Import RaftElection.
From S2P Require Import RaftReplication.

Lemma fmap_sublist {A B} (f : A → B) (l k : list A) : sublist l k → sublist (f <$> l) (f <$> k).
Proof. induction 1; cbn; by constructor. Qed.

(** ** What the handlers do to a role *)

Lemma RequestVote_role now rnd req n :
  let n' := (RequestVote now rnd req n).2 in
  id (state n') = id (state n) ∧
  (role (state n') = Follower ∨
   role (state n') = role (state n) ∧ currentTerm (state n') = currentTerm (state n)).
Proof.
  unfold RequestVote.
  destruct (currentTerm (state n) <? vr_Term req) eqn:E, (vr_Gossip req); simpl;
    split_matches; simpl; auto.
Qed.

(** An append is refused for its term, or the sender is accepted as leader. *)
Lemma AppendEntries_accepts now rnd req n :
  state (AppendEntries now rnd req n).2 = state n ∧ ar_Term req < currentTerm (state n) ∨
  currentTerm (state n) ≤ ar_Term req ∧
    state (AppendEntries now rnd req n).2 = state (accept_leader now rnd req n).
Proof.
  rewrite AppendEntries_eq. cbv zeta. destruct (ar_Term req <? _) eqn:E; bool_to_prop; [by left|].
  right. split; [done|]. split_matches; try done. by rewrite append_to_log_state.
Qed.

Lemma InstallSnapshot_state now rnd req n :
  let s := state (Node_InstallSnapshot now rnd req n).2 in
  s = state n ∨
  currentTerm (state n) ≤ currentTerm s ∧ role s = Follower ∧ id s = id (state n) ∧
  (currentTerm s = currentTerm (state n) → votedFor s = votedFor (state n)).
Proof.
  unfold Node_InstallSnapshot. destruct (is_Term req <? _); [by left|]. right.
  set (n1 := if bool_decide _ || _ then _ else _).
  destruct (on_store _ n1) as [r n2] eqn:E. apply on_store_state in E.
  assert (let s := state n1 in
    currentTerm (state n) ≤ currentTerm s ∧ role s = Follower ∧ id s = id (state n) ∧
    (currentTerm s = currentTerm (state n) → votedFor s = votedFor (state n))) as H.
  { unfold n1. clear.
    destruct (currentTerm (state n) <? is_Term req) eqn:E; bool_to_prop; simpl;
      destruct (role (state n)) eqn:Hr; simpl; rewrite ?Hr; split_and!; done || (intros; lia). }
  destruct r; cbn; by rewrite E.
Qed.

(** ** The cluster *)

(** A vote that was granted: tentative or formal, the term, the candidate, the
    voter. *)
Definition ballot : Type := bool * Z * string * string.

(** The nodes by id; the elections begun, each with the peers its node had
    registered then; the vote requests sent, the votes granted, those denied and the
    victories so far. *)
Record net := mkNet {
  nodes : gmap string Node;
  elections : list (string * list State);
  requests : list VoteRequest;
  ballots : list ballot;
  denials : list ballot;
  victories : list (Z * string)
}.

Section cluster.
Context (ord : MapOrder) (names : list string).

(** The answers of a round as the candidate saw them: at most one from each peer,
    yes only where that peer has granted the vote, no where it has denied it. *)
Definition truthful (s : net) (gossip : bool) (t : Z) (c : string)
    (answers : list (string * answer)) : Prop :=
  NoDup answers.*1 ∧
  ∀ p a, (p, a) ∈ answers → p ∈ names ∧ p ≠ c ∧
    ∀ r, a_resp a = Some r → (gossip, t, c, p) ∈ (if Vote r then ballots s else denials s).

Definition round_won (er : Role) (et : Z) (peers : list State) (answers : list (string * answer))
    : Prop :=
  sendVoteRequests answers.*2 (majorityNeeded peers) er et = true.

(** Which nodes may begin an election, and which appends may arrive, are
    parameters; a step that leaves the consensus state alone is one of the log, of
    the registry or of the peers. *)
Context (begins : Node → Prop) (arrives : gmap string Node → Node → AppendRequest → Prop).

Inductive net_step : net → net → Prop :=
| nt_prevote c n now req oldTerm n' N E R B D W :
    N !! c = Some n → begins n → start_prevote now n = (Some (req, oldTerm), n') →
    net_step (mkNet N E R B D W) (mkNet (<[c := n']> N) ((c, Peers ord n') :: E) (req :: R) B D W)
| nt_vote v n now rnd req resp n' N E R B D W :
    N !! v = Some n → req ∈ R → RequestVote now rnd req n = (resp, n') →
    let b := (vr_Gossip req, vr_Term req, vr_OriginNodeId req, v) in
    net_step (mkNet N E R B D W)
      (mkNet (<[v := n']> N) E R (if Vote resp then b :: B else B)
         (if Vote resp then D else b :: D) W)
| nt_alone c n now rnd peers oldTerm N E R B D W :
    N !! c = Some n → (c, peers) ∈ E → majorityNeeded peers = 1 → 0 ≤ oldTerm < 2 ^ 63 - 1 →
    let won := currentTerm (state n) =? oldTerm in
    net_step (mkNet N E R B D W)
      (mkNet (<[c := win_alone now rnd oldTerm n]> N) E R
         (if won then (false, oldTerm + 1, c, c) :: B else B) D
         (if won then (oldTerm + 1, c) :: W else W))
| nt_formal c n now rnd peers answers oldTerm req n' N E R B D W :
    N !! c = Some n → (c, peers) ∈ E → 0 ≤ oldTerm < 2 ^ 63 - 1 →
    truthful (mkNet N E R B D W) true (oldTerm + 1) c answers →
    round_won Follower oldTerm peers answers →
    start_formal now rnd oldTerm n = (Some req, n') →
    net_step (mkNet N E R B D W)
      (mkNet (<[c := n']> N) E (req :: R) ((false, currentTerm (state n'), c, c) :: B) D W)
| nt_win c n peers answers t N E R B D W :
    N !! c = Some n → (c, peers) ∈ E →
    truthful (mkNet N E R B D W) false t c answers → round_won Candidate t peers answers →
    net_step (mkNet N E R B D W)
      (mkNet (<[c := win_formal t n]> N) E R B D
         (if bool_decide (role (state n) = Candidate) && (currentTerm (state n) =? t)
          then (t, c) :: W else W))
| nt_stepdown v n now rnd t N E R B D W :
    N !! v = Some n →
    net_step (mkNet N E R B D W) (mkNet (<[v := (checkStepDown now rnd t n).2]> N) E R B D W)
| nt_append v n now rnd req N E R B D W :
    N !! v = Some n → arrives N n req →
    net_step (mkNet N E R B D W) (mkNet (<[v := (AppendEntries now rnd req n).2]> N) E R B D W)
| nt_snapshot v n now rnd req N E R B D W :
    N !! v = Some n →
    net_step (mkNet N E R B D W) (mkNet (<[v := (Node_InstallSnapshot now rnd req n).2]> N) E R B D W)
| nt_local v n n' N E R B D W :
    N !! v = Some n → state n' = state n →
    net_step (mkNet N E R B D W) (mkNet (<[v := n']> N) E R B D W).

(** Followers that have not voted, each under its own name. *)
Record net_start (s : net) : Prop := {
  ns_names : ∀ v n, nodes s !! v = Some n → id (state n) = v ∧ v ∈ names;
  ns_followers : ∀ v n, nodes s !! v = Some n → role (state n) = Follower;
  ns_quiet : elections s = [] ∧ requests s = [] ∧ ballots s = [] ∧ victories s = []
}.

(** ** The invariant *)

Context (Hnames : NoDup names) (Hnamed : EmptyString ∉ names).

(** Votes that form a majority of the cluster. *)
Definition quorum (B : list ballot) (t : Z) (c : string) (Q : list string) : Prop :=
  NoDup Q ∧ (∀ q, q ∈ Q → q ∈ names ∧ (false, t, c, q) ∈ B) ∧
  (length names < 2 * length Q)%nat.

Record safe (s : net) : Prop := {
  sf_id : ∀ v n, nodes s !! v = Some n → id (state n) = v ∧ v ∈ names;
  sf_full : ∀ c peers, (c, peers) ∈ elections s → (length names ≤ S (length peers))%nat;
  sf_requests : ∀ r, r ∈ requests s → vr_OriginNodeId r ∈ names;
  sf_vote : ∀ v t c, (false, t, c, v) ∈ ballots s →
    c ∈ names ∧ ∃ n, nodes s !! v = Some n ∧ t ≤ currentTerm (state n) ∧
      (t = currentTerm (state n) → votedFor (state n) = c);
  sf_once : ∀ v t c c', (false, t, c, v) ∈ ballots s → (false, t, c', v) ∈ ballots s → c = c';
  sf_candidate : ∀ c n, nodes s !! c = Some n → role (state n) = Candidate →
    (false, currentTerm (state n), c, c) ∈ ballots s;
  sf_leader : ∀ c n, nodes s !! c = Some n → role (state n) = Leader →
    (currentTerm (state n), c) ∈ victories s;
  sf_victory : ∀ t c, (t, c) ∈ victories s → ∃ Q, quorum (ballots s) t c Q
}.

Lemma quorum_mono B B' t c Q : (∀ b, b ∈ B → b ∈ B') → quorum B t c Q → quorum B' t c Q.
Proof using. intros HB (H1 & H2 & H3). split_and!; [done| |done]. intros q [? ?]%H2. auto. Qed.

(** Two majorities share a node. *)
Lemma majorities_meet Q Q' :
  NoDup Q → NoDup Q' → (∀ q, q ∈ Q → q ∈ names) → (∀ q, q ∈ Q' → q ∈ names) →
  (length names < 2 * length Q)%nat → (length names < 2 * length Q')%nat →
  ∃ q, q ∈ Q ∧ q ∈ Q'.
Proof using Hnames.
  intros H1 H2 S1 S2 L1 L2.
  destruct (decide (Exists (λ q, q ∈ Q') Q)) as [He|Hne]; [by apply Exists_exists in He|].
  exfalso. assert (NoDup (Q ++ Q')) as Hnd.
  { apply NoDup_app. split_and!; [done| |done]. intros q Hq Hq'. apply Hne, Exists_exists. by exists q. }
  assert (Q ++ Q' ⊆+ names) as Hsub.
  { apply NoDup_submseteq; [done|]. intros q [?|?]%elem_of_app; auto. }
  apply submseteq_length in Hsub. rewrite length_app in Hsub. lia.
Qed.

(** One node changes and may vote. *)
Lemma safe_change N E R B D W v n n' E' R' B' D' W' :
  safe (mkNet N E R B D W) → N !! v = Some n →
  id (state n') = id (state n) → currentTerm (state n) ≤ currentTerm (state n') →
  (currentTerm (state n') = currentTerm (state n) → votedFor (state n) ≠ EmptyString →
     votedFor (state n') = votedFor (state n)) →
  (role (state n') = Candidate →
     role (state n) = Candidate ∧ currentTerm (state n') = currentTerm (state n) ∨
     (false, currentTerm (state n'), v, v) ∈ B') →
  (role (state n') = Leader →
     role (state n) = Leader ∧ currentTerm (state n') = currentTerm (state n) ∨
     (currentTerm (state n'), v) ∈ W') →
  (∀ c peers, (c, peers) ∈ E' → (c, peers) ∈ E ∨ (length names ≤ S (length peers))%nat) →
  (∀ r, r ∈ R' → r ∈ R ∨ vr_OriginNodeId r = v) →
  (∀ b, b ∈ B → b ∈ B') →
  (∀ t c x, (false, t, c, x) ∈ B' → (false, t, c, x) ∈ B ∨
     x = v ∧ t = currentTerm (state n') ∧ c = votedFor (state n') ∧ c ∈ names) →
  (∀ w, w ∈ W → w ∈ W') → (∀ t c, (t, c) ∈ W' → (t, c) ∈ W ∨ ∃ Q, quorum B' t c Q) →
  safe (mkNet (<[v := n']> N) E' R' B' D' W').
Proof using Hnamed.
  intros [H1 Hfull H2 H3 H4 H5 H6 H7] Hv Hid Ht Hvote Hcand Hlead HE HR HB HB' HW HW'. cbn in *.
  destruct (H1 v n Hv) as [Hidv Hvn]. split; cbn.
  - intros x m [[<- <-] | [_ Hx]]%lookup_insert_Some; [split; congruence | by apply H1].
  - intros x peers [Hx | ?]%HE; [by eapply Hfull | done].
  - intros r [Hr | ->]%HR; [by apply H2 | done].
  - intros x t c Hb. destruct (HB' t c x Hb) as [Hb0 | (-> & -> & -> & Hc)].
    + destruct (H3 x t c Hb0) as (Hc & m & Hm & Hle & Hvf). split; [done|].
      destruct (decide (x = v)) as [->|Hne].
      * exists n'. rewrite lookup_insert_eq. rewrite Hv in Hm. injection Hm as <-.
        split_and!; [done | lia|]. intros ->. rewrite Hvote; [apply Hvf|..]; try lia.
        rewrite Hvf by lia. by intros ->.
      * exists m. by rewrite lookup_insert_ne.
    + split; [done|]. exists n'. rewrite lookup_insert_eq. by split_and!.
  - assert (∀ c, (false, currentTerm (state n'), c, v) ∈ B → c = votedFor (state n')) as Hold.
    { intros c Hb. destruct (H3 v _ c Hb) as (Hc & m & Hm & Hle & Hvf). rewrite Hv in Hm.
      injection Hm as <-. rewrite Hvote, Hvf; [done|lia|lia|]. rewrite Hvf by lia. by intros ->. }
    intros x t c c' Hb Hb'.
    destruct (HB' t c x Hb) as [Hb0 | (-> & -> & -> & Hc)],
      (HB' _ c' _ Hb') as [Hb0' | (Hx & Ht' & -> & Hc')]; subst.
    + by eapply H4.
    + by apply Hold.
    + symmetry. by apply Hold.
    + done.
  - intros x m [[<- <-] | [_ Hx]]%lookup_insert_Some Hr; [|by eapply HB, H5].
    destruct (Hcand Hr) as [[Hr' ->] | ?]; [|done]. by apply HB, H5.
  - intros x m [[<- <-] | [_ Hx]]%lookup_insert_Some Hr; [|by eapply HW, H6].
    destruct (Hlead Hr) as [[Hr' ->] | ?]; [|done]. by apply HW, H6.
  - intros t c Hw. destruct (HW' t c Hw) as [Hw0 | ?]; [|done].
    destruct (H7 t c Hw0) as [Q HQ]. exists Q. by eapply quorum_mono.
Qed.

(** ** The steps

    Whoever begins an election has registered every other node. *)
Definition registered : Prop := ∀ n, begins n → (length names ≤ S (length (Peers ord n)))%nat.

Lemma safe_start s : net_start s → safe s.
Proof using.
  destruct s as [N E R B D W]. intros [H1 H2 (H0 & H3 & H4 & H5)]. cbn in *. subst.
  split; cbn; try (by intros ? ?%elem_of_nil) || (by intros ? ? ?%elem_of_nil)
    || (by intros ? ? ? ?%elem_of_nil) || (by intros ? ? ? ? ?%elem_of_nil); [done|..];
    intros v n Hn; rewrite (H2 _ _ Hn); discriminate.
Qed.

Lemma safe_prevote c n now req oldTerm n' N E R B D W :
  registered → safe (mkNet N E R B D W) → N !! c = Some n → begins n →
  start_prevote now n = (Some (req, oldTerm), n') →
  safe (mkNet (<[c := n']> N) ((c, Peers ord n') :: E) (req :: R) B D W).
Proof using Hnamed.
  intros Hreg Hs Hc Hb Hp. destruct (sf_id _ Hs _ _ Hc) as [Hid _]. unfold start_prevote in Hp.
  case_bool_decide; [done|]. simplify_eq. eapply safe_change; try done; try (by cbn; auto).
  - intros x peers [Hx | ?]%elem_of_cons; [|by left]. right. injection Hx as -> ->. by apply (Hreg n).
  - intros r [-> | ?]%elem_of_cons; [by right | by left].
Qed.

Lemma safe_vote v n now rnd req resp n' N E R B D W :
  safe (mkNet N E R B D W) → N !! v = Some n → req ∈ R → RequestVote now rnd req n = (resp, n') →
  let b := (vr_Gossip req, vr_Term req, vr_OriginNodeId req, v) in
  safe (mkNet (<[v := n']> N) E R (if Vote resp then b :: B else B)
    (if Vote resp then D else b :: D) W).
Proof using Hnamed.
  intros Hs Hv Hr He b. subst b. pose proof (sf_requests _ Hs _ Hr) as Hc. cbn in Hc.
  pose proof (RequestVote_term now rnd req n) as Ht.
  pose proof (RequestVote_role now rnd req n) as (Hid & Hrole).
  pose proof (RequestVote_keeps_vote now rnd req n (votedFor (state n)) eq_refl) as Hk.
  pose proof (RequestVote_granted now rnd req n) as Hg. unfold granted in Hg.
  rewrite He in *. cbn in *.
  eapply safe_change; try done.
  - intros. by apply Hk.
  - intros Hr'. left. destruct Hrole as [Hf | [Hf ?]]; [by rewrite Hf in Hr' | split; congruence].
  - intros Hr'. left. destruct Hrole as [Hf | [Hf ?]]; [by rewrite Hf in Hr' | split; congruence].
  - by left.
  - by left.
  - intros b Hb. destruct (Vote resp); [by right | done].
  - intros t c x Hb. destruct (Vote resp) eqn:Hvote; [|by left].
    apply elem_of_cons in Hb as [Hb|Hb]; [|by left]. injection Hb as Hgo -> -> ->.
    destruct (Hg (eq_sym Hgo) eq_refl) as (-> & -> & _). by right.
  - by left.
Qed.

Lemma safe_formal c n now rnd oldTerm req n' N E R B D W :
  safe (mkNet N E R B D W) → N !! c = Some n → 0 ≤ oldTerm < 2 ^ 63 - 1 →
  start_formal now rnd oldTerm n = (Some req, n') →
  safe (mkNet (<[c := n']> N) E (req :: R) ((false, currentTerm (state n'), c, c) :: B) D W).
Proof using Hnamed.
  intros Hs Hc Ho Hp. destruct (sf_id _ Hs _ _ Hc) as [Hid Hin]. unfold start_formal in Hp.
  destruct (bool_decide _); [done|]. destruct (currentTerm (state n) =? oldTerm) eqn:Et; [|done].
  bool_to_prop. cbn in Hp. rewrite wrap64_id in Hp by (unfold int64_ok; lia). simplify_eq.
  cbn in Hin. eapply safe_change; try done; cbn.
  - lia.
  - intros. lia.
  - intros _. right. left.
  - by left.
  - intros r [-> | ?]%elem_of_cons; [by right | by left].
  - intros b ?. by right.
  - intros t c x [Hb | ?]%elem_of_cons; [|by left]. injection Hb as -> -> ->. by right.
  - by left.
Qed.

(** The node, its peers that said yes. *)
Lemma round_quorum s c peers t answers :
  c ∈ names → (false, t, c, c) ∈ ballots s → (length names ≤ S (length peers))%nat →
  truthful s false t c answers → round_won Candidate t peers answers →
  ∃ Q, quorum (ballots s) t c Q.
Proof using.
  intros Hc Hown Hlen [Hnd Hans] Hwon. unfold round_won in Hwon.
  apply sendVoteRequests_spec in Hwon. pose proof (majority_strict peers _ eq_refl) as Hm.
  set (yes := filter (λ pa : string * answer, counts Candidate t pa.2 = true) answers).
  assert (yes_votes Candidate t answers.*2 = len yes) as Hy.
  { unfold yes_votes, yes. clear. induction answers as [|[p a] l IH]; [done|].
    rewrite fmap_cons, !filter_cons. cbn [snd]. case_decide; [|done].
    unfold len in *. cbn [length]. lia. }
  exists (c :: yes.*1). split_and!.
  - apply NoDup_cons. split.
    + intros ([p a] & -> & Hin)%list_elem_of_fmap. unfold yes in Hin.
      apply list_elem_of_filter in Hin as [_ Hin]. by apply Hans in Hin as (_ & ? & _).
    + apply (sublist_NoDup _ answers.*1); [done|]. apply fmap_sublist, sublist_filter.
  - intros q [-> | Hq]%elem_of_cons; [done|].
    apply list_elem_of_fmap in Hq as ([p a] & -> & Hin). unfold yes in Hin.
    apply list_elem_of_filter in Hin as [Hcnt Hin]. apply Hans in Hin as (Hp & _ & Hr). cbn in *.
    split; [done|]. unfold counts in Hcnt. destruct (a_resp a) as [r|]; [|done].
    specialize (Hr r eq_refl). destruct (_ || _); [done|]. by rewrite Hcnt in Hr.
  - cbn [length]. rewrite length_fmap. unfold len in *. lia.
Qed.

Lemma safe_alone c n now rnd peers oldTerm N E R B D W :
  safe (mkNet N E R B D W) → N !! c = Some n → (c, peers) ∈ E → majorityNeeded peers = 1 →
  0 ≤ oldTerm < 2 ^ 63 - 1 →
  let won := currentTerm (state n) =? oldTerm in
  safe (mkNet (<[c := win_alone now rnd oldTerm n]> N) E R
    (if won then (false, oldTerm + 1, c, c) :: B else B) D
    (if won then (oldTerm + 1, c) :: W else W)).
Proof using Hnamed.
  intros Hs Hc Hp Hm Ho won. destruct (sf_id _ Hs _ _ Hc) as [Hid Hin]. cbn in Hin.
  pose proof (sf_full _ Hs _ _ Hp) as Hfull. unfold majorityNeeded in Hm.
  pose proof (Z.div_mod (len peers + 1) 2). pose proof (Z.mod_pos_bound (len peers + 1) 2).
  pose proof (len_nonneg peers). unfold len in *.
  unfold win_alone, won. destruct (currentTerm (state n) =? oldTerm) eqn:Et; bool_to_prop.
  2: { eapply safe_change; try done; by auto. }
  eapply safe_change; try done; cbn; try (by auto); rewrite ?wrap64_id by (unfold int64_ok; lia).
  - lia.
  - intros. lia.
  - intros _. right. left.
  - intros b ?. by right.
  - intros t x y [Hb | ?]%elem_of_cons; [|by left]. injection Hb as -> -> ->. right. by rewrite Hid.
  - intros w ?. by right.
  - intros t x [Hw | ?]%elem_of_cons; [|by left]. injection Hw as -> ->. right. exists [c].
    split_and!; [apply NoDup_singleton| |cbn [length]; lia].
    intros q ->%list_elem_of_singleton. split; [done|]. left.
Qed.

Lemma safe_win c n peers answers t N E R B D W :
  safe (mkNet N E R B D W) → N !! c = Some n → (c, peers) ∈ E →
  truthful (mkNet N E R B D W) false t c answers → round_won Candidate t peers answers →
  safe (mkNet (<[c := win_formal t n]> N) E R B D
    (if bool_decide (role (state n) = Candidate) && (currentTerm (state n) =? t)
     then (t, c) :: W else W)).
Proof using Hnamed.
  intros Hs Hc Hp Htr Hwon. destruct (sf_id _ Hs _ _ Hc) as [_ Hin]. cbn in Hin.
  pose proof (sf_full _ Hs _ _ Hp) as Hfull.
  pose proof (sf_candidate _ Hs _ _ Hc) as Hown. cbn in Hown.
  unfold win_formal. destruct (_ && _) eqn:Ew.
  - bool_to_prop. subst. eapply safe_change; try done; cbn; try (by auto).
    + intros _. right. left.
    + intros w ?. by right.
    + intros t c' [Hw | ?]%elem_of_cons; [|by left]. injection Hw as -> ->. right.
      apply (round_quorum (mkNet N E R B D W) c peers _ answers); auto.
  - eapply safe_change; try done; auto.
Qed.

Lemma safe_stepdown v n now rnd t N E R B D W :
  safe (mkNet N E R B D W) → N !! v = Some n →
  safe (mkNet (<[v := (checkStepDown now rnd t n).2]> N) E R B D W).
Proof using Hnamed.
  intros Hs Hv. unfold checkStepDown. destruct (currentTerm (state n) <? t) eqn:Et; bool_to_prop;
    eapply safe_change; try done; cbn; auto; lia.
Qed.

Lemma safe_append v n now rnd req N E R B D W :
  safe (mkNet N E R B D W) → N !! v = Some n →
  (ar_Term req = currentTerm (state n) → votedFor (state n) = EmptyString) →
  safe (mkNet (<[v := (AppendEntries now rnd req n).2]> N) E R B D W).
Proof using Hnamed.
  intros Hs Hv Hq. destruct (accept_leader_spec now rnd req n) as (_ & Hr & Hvf & Hct & _ & _ & Hid).
  destruct (AppendEntries_accepts now rnd req n) as [[He _] | [Hle He]];
    (eapply safe_change; [done|done|rewrite ?He; auto..]).
  - done.
  - lia.
  - intros Heq ?. rewrite Hq; [by rewrite Hvf | lia].
  - rewrite Hr. discriminate.
  - rewrite Hr. discriminate.
Qed.
Lemma safe_local v n n' N E R B D W :
  safe (mkNet N E R B D W) → N !! v = Some n → state n' = state n →
  safe (mkNet (<[v := n']> N) E R B D W).
Proof using Hnamed. intros Hs Hv He. eapply safe_change; [done|done|rewrite ?He; auto..]. done. Qed.

Lemma safe_snapshot v n now rnd req N E R B D W :
  safe (mkNet N E R B D W) → N !! v = Some n →
  safe (mkNet (<[v := (Node_InstallSnapshot now rnd req n).2]> N) E R B D W).
Proof using Hnamed.
  intros Hs Hv. destruct (InstallSnapshot_state now rnd req n) as [He | (Ht & Hr & Hid & Hvf)].
  - by eapply safe_local.
  - eapply safe_change; [done|done|auto..]; rewrite Hr; discriminate.
Qed.

(** Appends reach no node that has voted in their term. *)
Definition quiet : Prop :=
  ∀ N n req, arrives N n req → ar_Term req = currentTerm (state n) → votedFor (state n) = EmptyString.

Lemma net_step_safe s s' : registered → quiet → net_step s s' → safe s → safe s'.
Proof using Hnamed.
  intros Hreg Hq [] Hs.
  - by eapply safe_prevote.
  - by eapply safe_vote.
  - by eapply safe_alone.
  - by eapply safe_formal.
  - by eapply safe_win.
  - by apply safe_stepdown.
  - apply safe_append; [done|done|]. by eapply Hq.
  - by apply safe_snapshot.
  - by eapply safe_local.
Qed.

Lemma net_run_safe s s' : registered → quiet → net_start s → rtc net_step s s' → safe s'.
Proof using Hnamed.
  intros Hreg Hq Hs%safe_start Hr. induction Hr as [|s1 s2 s3 Hst _ IH]; [done|].
  apply IH. by eapply net_step_safe.
Qed.

(** Two winners of a term have a common voter. *)
Lemma one_winner s t c c' : safe s → (t, c) ∈ victories s → (t, c') ∈ victories s → c = c'.
Proof using Hnames.
  intros Hs [Q (H1 & H2 & H3)]%(sf_victory _ Hs) [Q' (H1' & H2' & H3')]%(sf_victory _ Hs).
  destruct (majorities_meet Q Q') as (q & Hq & Hq'); [done|done|..]; try done.
  { intros q Hq. by apply H2. }
  { intros q Hq. by apply H2'. }
  destruct (H2 q Hq) as [_ Hv], (H2' q Hq') as [_ Hv']. by eapply sf_once.
Qed.
End cluster.

(** ** The theorems *)

(** C2: election safety, with the conditions the code needs for it. In a cluster of
    distinctly named nodes that start as followers and do not restart, let pre-votes,
    formal votes, the critical sections of an election (the single-node victory too),
    stepping down, appends and snapshots happen in any order, on any clock, the
    answers of a round being yes only where that peer did grant its vote. Then two
    leaders of the same term are the same node, provided that
    - a node that begins an election has registered all the other nodes of the
      cluster, since the majority is computed from the registered peers only
      ([unregistered_two_leaders]); and
    - no append reaches a node that has voted in the append's term
      ([two_leaders_one_term]). *)
Theorem election_safety ord names begins arrives s s' t c c' n n' :
  NoDup names → EmptyString ∉ names → registered ord names begins → quiet arrives →
  net_start names s → rtc (net_step ord names begins arrives) s s' →
  nodes s' !! c = Some n → role (state n) = Leader → currentTerm (state n) = t →
  nodes s' !! c' = Some n' → role (state n') = Leader → currentTerm (state n') = t →
  c = c'.
Proof.
  intros Hnd Hne Hreg Hq Hs Hr Hc Hl Ht Hc' Hl' Ht'.
  pose proof (net_run_safe _ _ _ _ Hne _ _ Hreg Hq Hs Hr) as Hsafe.
  apply (one_winner names Hnd s' t); [done| |]; subst t.
  - by eapply sf_leader.
  - rewrite <- Ht'. by eapply sf_leader.
Qed.

(** A node that has registered nobody wins alone. *)
Definition lonely (v : string) : Node := sample_node v Follower 1.
Definition asking (v : string) : Node := (start_prevote 0 (lonely v)).2.
Definition alone (v : string) : Node := win_alone 0 0 1 (asking v).

Lemma alone_run names v N E R B D W :
  N !! v = Some (lonely v) →
  ∃ R', rtc (net_step default_order names (λ _, True) (λ _ _ _, False)) (mkNet N E R B D W)
    (mkNet (<[v := alone v]> (<[v := asking v]> N)) ((v, []) :: E) R' ((false, 2, v, v) :: B) D
       ((2, v) :: W)).
Proof.
  intros Hv. exists ((vote_req v true 2) :: R). eapply rtc_l.
  { apply (nt_prevote _ _ _ _ v (lonely v) 0 (vote_req v true 2) 1 (asking v)); done. }
  apply rtc_once. change (Peers default_order (asking v)) with (@nil State).
  apply (nt_alone _ _ _ _ v (asking v) 0 0 [] 1); [apply lookup_insert_eq|by left|done|lia].
Qed.

(** Two nodes that have registered nobody both win alone, in the same term. *)
Theorem unregistered_two_leaders :
  let pair := ["a"; "b"] in
  let start := mkNet (<["a" := lonely "a"]> (<["b" := lonely "b"]> ∅)) [] [] [] [] [] in
  net_start pair start ∧
  ∃ s na nb, rtc (net_step default_order pair (λ _, True) (λ _ _ _, False)) start s ∧
    nodes s !! "a" = Some na ∧ role (state na) = Leader ∧ currentTerm (state na) = 2 ∧
    nodes s !! "b" = Some nb ∧ role (state nb) = Leader ∧ currentTerm (state nb) = 2.
Proof.
  intros pair start. split.
  - split; [| |done]; cbn [nodes start];
      intros v n [[<- <-]|[_ [[<- <-]|[_ Hn]]%lookup_insert_Some]]%lookup_insert_Some;
      first [done | split; [done|]; by do 2 constructor | split; [done|by left]
            | by rewrite lookup_empty in Hn].
  - destruct (alone_run pair "a" (<["a" := lonely "a"]> (<["b" := lonely "b"]> ∅)) [] [] [] [] [])
      as [R1 H1]; [apply lookup_insert_eq|].
    set (N1 := <["a" := alone "a"]> _) in H1.
    assert (N1 !! "b" = Some (lonely "b")) as Hb.
    { unfold N1. rewrite !lookup_insert_ne by done. apply lookup_insert_eq. }
    destruct (alone_run pair "b" N1 [("a", [])] R1 [(false, 2, "a", "a")] [] [(2, "a")] Hb) as [R2 H2].
    eexists _, (alone "a"), (alone "b"). split; [by etrans|]. cbn [nodes].
    split; [rewrite !lookup_insert_ne by done; apply lookup_insert_eq|]. split; [done|]. split; [done|].
    split; [apply lookup_insert_eq|]. done.
Qed.

(** Three nodes at rest on fresh disks, which are connected to each other. *)
Definition trio : list string := ["a"; "b"; "c"].
Definition member (v : string) : Node :=
  linked (filter (λ p, p ≠ v) trio) (NewNode (sample_state v Follower 1) (first_start 64).1).
Definition at_rest : net :=
  mkNet (list_to_map ((λ v, (v, member v)) <$> trio)) [] [] [] [] [].

Lemma trio_names : NoDup trio ∧ EmptyString ∉ trio.
Proof. split; refine (bool_decide_unpack _ _); vm_compute; exact I. Qed.

Lemma at_rest_start : net_start trio at_rest.
Proof.
  split; [| |done]; unfold at_rest; cbn [nodes];
    intros v n (x & Hx & Hin)%elem_of_list_to_map_2%list_elem_of_fmap; injection Hx as -> ->.
  - done.
  - done.
Qed.

(** All the others registered. *)
Definition knows (n : Node) : Prop := (length trio ≤ S (length (Peers default_order n)))%nat.

(** A heartbeat of a leader, as [BroadcastHeartbeats] first sends it. *)
Definition heartbeats (N : gmap string Node) (n : Node) (req : AppendRequest) : Prop :=
  ∃ l leader ni, N !! l = Some leader ∧ role (state leader) = Leader ∧
    initNextIndex leader !! id (state n) = Some ni ∧
    req = (buildHeartbeatRequest (id (state leader)) (currentTerm (state leader)) ni
             (FileHandler leader)).1.

#[export] Instance VoteRequest_eq_dec : EqDecision VoteRequest.
Proof. solve_decision. Defined.

(** A run of the three nodes, move by move: [c] begins an election; a vote request
    is delivered to [v]; [c] ends the round of term [t] it waits for; the first
    heartbeat of [l] is delivered to [v]. *)
Inductive move :=
| Begin (c : string) (now : Z)
| Deliver (v : string) (now : Z) (req : VoteRequest)
| Formal (c : string) (now t : Z)
| Win (c : string) (t : Z)
| Heartbeat (l v : string) (now : Z).

(** What a peer has answered to a request. *)
Definition reply (s : net) (gossip : bool) (t : Z) (c p : string) : option bool :=
  if bool_decide ((gossip, t, c, p) ∈ ballots s) then Some true
  else if bool_decide ((gossip, t, c, p) ∈ denials s) then Some false else None.

(** The answers of a round, which waits until every connected peer has answered. *)
Definition round (s : net) (gossip : bool) (t : Z) (c : string) (n : Node) (peers : list State)
    : option (list (string * answer)) :=
  mapM (λ p, b ← reply s gossip t c (id p);
             Some (id p, mkAnswer (Some (mkVoteResponse (id p) b)) (role (state n)) (currentTerm (state n))))
    (filter (λ p, Connection p = true) peers).

(** The peers with which [c] began its election. *)
Definition snapshot (s : net) (c : string) : option (list State) :=
  snd <$> head (filter (λ e, e.1 = c) (elections s)).

Definition fair (c : string) (answers : list (string * answer)) : bool :=
  bool_decide (NoDup answers.*1) && forallb (λ pa, bool_decide (pa.1 ∈ trio ∧ pa.1 ≠ c)) answers.

Definition play (hb : bool) (m : move) (s : net) : option net :=
  let '(mkNet N E R B D W) := s in
  match m with
  | Begin c now =>
      n ← N !! c;
      if bool_decide (length trio ≤ S (length (Peers default_order n)))%nat then
        match start_prevote now n with
        | (Some (req, _), n') =>
            Some (mkNet (<[c := n']> N) ((c, Peers default_order n') :: E) (req :: R) B D W)
        | _ => None
        end
      else None
  | Deliver v now req =>
      n ← N !! v;
      if bool_decide (req ∈ R) then
        let '(resp, n') := RequestVote now 0 req n in
        let b := (vr_Gossip req, vr_Term req, vr_OriginNodeId req, v) in
        Some (mkNet (<[v := n']> N) E R (if Vote resp then b :: B else B)
          (if Vote resp then D else b :: D) W)
      else None
  | Formal c now t =>
      n ← N !! c; peers ← snapshot s c; answers ← round s true (t + 1) c n peers;
      if fair c answers && bool_decide (0 ≤ t < 2 ^ 63 - 1)
         && sendVoteRequests answers.*2 (majorityNeeded peers) Follower t
      then match start_formal now 0 t n with
           | (Some req, n') =>
               Some (mkNet (<[c := n']> N) E (req :: R) ((false, currentTerm (state n'), c, c) :: B) D W)
           | _ => None
           end
      else None
  | Win c t =>
      n ← N !! c; peers ← snapshot s c; answers ← round s false t c n peers;
      if fair c answers && sendVoteRequests answers.*2 (majorityNeeded peers) Candidate t
      then Some (mkNet (<[c := win_formal t n]> N) E R B D
        (if bool_decide (role (state n) = Candidate) && (currentTerm (state n) =? t)
         then (t, c) :: W else W))
      else None
  | Heartbeat l v now =>
      n ← N !! v; leader ← N !! l;
      ni ← initNextIndex leader !! id (state n);
      if hb && bool_decide (role (state leader) = Leader) then
        let req := (buildHeartbeatRequest (id (state leader)) (currentTerm (state leader)) ni
                     (FileHandler leader)).1 in
        Some (mkNet (<[v := (AppendEntries now 0 req n).2]> N) E R B D W)
      else None
  end.

Definition allowed (hb : bool) (N : gmap string Node) (n : Node) (req : AppendRequest) : Prop :=
  hb = true ∧ heartbeats N n req.

Lemma snapshot_elem s c peers : snapshot s c = Some peers → (c, peers) ∈ elections s.
Proof.
  unfold snapshot. intros ([x q] & Hh & Hq)%fmap_Some. cbn in Hq. subst q.
  destruct (filter _ _) as [|y l] eqn:El; [done|]. injection Hh as ->.
  assert ((x, peers) ∈ filter (λ e, e.1 = c) (elections s)) as [Hx Hin]%list_elem_of_filter
    by (rewrite El; by left). cbn in Hx. by subst x.
Qed.

Lemma round_truthful s gossip t c n peers answers :
  round s gossip t c n peers = Some answers → fair c answers = true →
  truthful trio s gossip t c answers.
Proof.
  intros Hr [Hnd Hf]%andb_true_iff. apply bool_decide_eq_true in Hnd. split; [done|].
  intros p a Hin. rewrite forallb_forall in Hf.
  pose proof (Hf (p, a) ltac:(by apply list_elem_of_In)) as Hp.
  apply bool_decide_eq_true in Hp as [Hp Hc]. split; [done|]. split; [done|]. intros r Hr'.
  apply mapM_Some in Hr. apply list_elem_of_lookup in Hin as [i Hi].
  destruct (Forall2_lookup_r _ _ _ _ _ Hr Hi) as (st & _ & Hst).
  apply bind_Some in Hst as (b & Hb & [= <- <-]). cbn in Hr'. injection Hr' as <-. cbn.
  unfold reply in Hb. case_bool_decide; [by simplify_eq|]. by case_bool_decide; simplify_eq.
Qed.

Lemma play_step hb m s s' :
  play hb m s = Some s' → net_step default_order trio knows (allowed hb) s s'.
Proof.
  destruct s as [N E R B D W], m as [c now|v now req|c now t|c t|l v now]; unfold play.
  - intros (n & Hn & H)%bind_Some. case_bool_decide; [|done].
    destruct (start_prevote now n) as [[[req t]|] n'] eqn:Ep; [|done]. simplify_eq. by eapply nt_prevote.
  - intros (n & Hn & H)%bind_Some. case_bool_decide; [|done].
    destruct (RequestVote now 0 req n) as [resp n'] eqn:Er. simplify_eq. by eapply nt_vote.
  - intros (n & Hn & (peers & Hp%snapshot_elem & (answers & Ha & H)%bind_Some)%bind_Some)%bind_Some.
    destruct (_ && _) eqn:Ev; [|done].
    apply andb_true_iff in Ev as [[Hv Ht%bool_decide_eq_true]%andb_true_iff Hw].
    destruct (start_formal now 0 t n) as [[req|] n'] eqn:Es; [|done]. simplify_eq.
    eapply nt_formal; [done|exact Hp|done| |exact Hw|exact Es]. by eapply round_truthful.
  - intros (n & Hn & (peers & Hp%snapshot_elem & (answers & Ha & H)%bind_Some)%bind_Some)%bind_Some.
    destruct (_ && _) eqn:Ev; [|done]. apply andb_true_iff in Ev as [Hv Hw]. simplify_eq.
    eapply nt_win; [done|exact Hp| |exact Hw]. by eapply round_truthful.
  - intros (n & Hn & (leader & Hl & (ni & Hni & H)%bind_Some)%bind_Some)%bind_Some.
    destruct (_ && _) eqn:Ev; [|done]. bool_to_prop. simplify_eq.
    apply nt_append; [done|]. split; [done|]. by exists l, leader, ni.
Qed.

Definition playing (hb : bool) (ms : list move) (s : net) : option net :=
  foldl (λ o m, o ≫= play hb m) (Some s) ms.

Lemma playing_run hb ms s s' :
  playing hb ms s = Some s' → rtc (net_step default_order trio knows (allowed hb)) s s'.
Proof.
  unfold playing. revert s. induction ms as [|m ms IH]; cbn; intros s H; [simplify_eq; apply rtc_refl|].
  destruct (play hb m s) as [s1|] eqn:Ep.
  - eapply rtc_l; [by eapply play_step|]. by apply IH.
  - exfalso. clear -H. induction ms; [done|]. by apply IHms.
Qed.

Lemma playing_app hb ms ms' s : playing hb (ms ++ ms') s = playing hb ms s ≫= playing hb ms'.
Proof.
  unfold playing. rewrite foldl_app. destruct (foldl _ (Some s) ms); [done|]. cbn.
  induction ms' as [|m ms' IH]; [done|]. exact IH.
Qed.

(** [a] and [c] time out together; everybody is for both; both become candidates
    of term 2; [b] votes for [a], [c] does not, and [a] wins. *)
Definition a_wins : list move :=
  [Begin "a" 200; Begin "c" 200;
   Deliver "b" 201 (vote_req "a" true 2); Deliver "c" 201 (vote_req "a" true 2);
   Deliver "b" 201 (vote_req "c" true 2); Deliver "a" 201 (vote_req "c" true 2);
   Formal "a" 202 1; Formal "c" 202 1;
   Deliver "b" 203 (vote_req "a" false 2); Deliver "c" 203 (vote_req "a" false 2); Win "a" 2].

(** The first heartbeat of [a] reaches [b]. *)
Definition a_beats : list move := [Heartbeat "a" "b" 204].

(** The formal requests of [c] arrive: [b] votes for it, [a] does not, it wins. *)
Definition c_wins : list move :=
  [Deliver "b" 205 (vote_req "c" false 2); Deliver "a" 205 (vote_req "c" false 2); Win "c" 2].

(** The messages a run delivers, by receiver. *)
Definition deliveries (ms : list move) : list (string * (VoteRequest + string)) :=
  omap (λ m, match m with
             | Deliver v _ req => Some (v, inl req)
             | Heartbeat l v _ => Some (v, inr l)
             | _ => None
             end) ms.

Definition leads (s : net) (v : string) (t : Z) : Prop :=
  from_option (λ n, role (state n) = Leader ∧ currentTerm (state n) = t) False (nodes s !! v).

Definition voted (s : net) (v : string) : option string := (λ n, votedFor (state n)) <$> nodes s !! v.

Definition leads_b (v : string) (t : Z) (s : net) : bool :=
  from_option (λ n, bool_decide (role (state n) = Leader) && (currentTerm (state n) =? t)) false
    (nodes s !! v).

Lemma leads_b_spec v t s : leads_b v t s = true → leads s v t.
Proof. unfold leads, leads_b. destruct (nodes s !! v); [|done]. intros H. cbn in *. by bool_to_prop. Qed.

Lemma election_safety_witness :
  ∃ s n, rtc (net_step default_order trio knows (allowed false)) at_rest s ∧ nodes s !! "a" = Some n ∧
    ∀ c' n', nodes s !! c' = Some n' → role (state n') = Leader → currentTerm (state n') = 2 → "a" = c'.
Proof.
  destruct (playing false a_wins at_rest) as [s|] eqn:Hp; [|vm_compute in Hp; discriminate].
  assert (option_map (λ s, (λ n, (role (state n), currentTerm (state n))) <$> nodes s !! "a")
    (playing false a_wins at_rest) = Some (Some (Leader, 2))) as Hl by (vm_compute; reflexivity).
  rewrite Hp in Hl. cbn in Hl. destruct (nodes s !! "a") as [n|] eqn:Hn; [|discriminate].
  injection Hl as Hl Ht.
  exists s, n. split; [by eapply playing_run|]. split; [exact Hn|]. intros c' n' Hc' Hl' Ht'.
  apply (election_safety default_order trio knows (allowed false) at_rest s 2 "a" c' n n'); try assumption.
  - apply trio_names.
  - apply trio_names.
  - intros m Hm. exact Hm.
  - intros N m req [Hf _]. discriminate.
  - apply at_rest_start.
  - by eapply playing_run.
Defined.

Lemma at_rest_nodes v n :
  nodes at_rest !! v = Some n →
  role (state n) = Follower ∧ currentTerm (state n) = 1 ∧ votedFor (state n) = EmptyString ∧
  entries (FileHandler n) = [] ∧
  id <$> filter (λ p, Connection p = true) (Peers default_order n) ≡ₚ filter (λ p, p ≠ v) trio.
Proof.
  unfold at_rest. cbn [nodes]. intros Hn.
  apply elem_of_list_to_map_2, list_elem_of_fmap in Hn as (x & Hx & Hin).
  injection Hx as -> ->. do 4 (split; [done|]).
  repeat (apply elem_of_cons in Hin as [->|Hin];
    [refine (bool_decide_unpack _ _); vm_compute; exact I|]). by apply elem_of_nil in Hin.
Qed.

(** C38: and the second condition is needed. Three nodes with fresh, empty logs in
    term 1 are connected to each other. In the run [a_wins ++ a_beats ++ c_wins] two
    of them time out together; every round waits until both peers have answered, no
    message is lost and none delivered twice, some are only late. The third is for
    both, votes for the first, and the first leads term 2. Then its first heartbeat,
    built as the code builds it, clears the vote of the third; the late formal request
    of the second is granted by it in the same term; and the second leads term 2 too,
    beside the first. *)
Theorem two_leaders_one_term :
  (∀ v, v ∈ trio ↔ is_Some (nodes at_rest !! v)) ∧
  (∀ v n, nodes at_rest !! v = Some n →
     role (state n) = Follower ∧ currentTerm (state n) = 1 ∧ votedFor (state n) = EmptyString ∧
     entries (FileHandler n) = [] ∧
     id <$> filter (λ p, Connection p = true) (Peers default_order n) ≡ₚ filter (λ p, p ≠ v) trio) ∧
  NoDup (deliveries (a_wins ++ a_beats ++ c_wins)) ∧
  ∃ s1 s2 s3,
    playing true a_wins at_rest = Some s1 ∧ leads s1 "a" 2 ∧ voted s1 "b" = Some "a" ∧
    playing true a_beats s1 = Some s2 ∧ voted s2 "b" = Some EmptyString ∧
    playing true c_wins s2 = Some s3 ∧ voted s3 "b" = Some "c" ∧ leads s3 "a" 2 ∧ leads s3 "c" 2 ∧
    rtc (net_step default_order trio knows (allowed true)) at_rest s3.
Proof.
  split; [|split; [exact at_rest_nodes|split]].
  - intros v. unfold at_rest. cbn [nodes]. rewrite <- elem_of_dom, dom_list_to_map_L, elem_of_list_to_set.
    by rewrite <- list_fmap_compose, list_fmap_id.
  - refine (bool_decide_unpack _ _). vm_compute. exact I.
  - destruct (playing true a_wins at_rest) as [s1|] eqn:H1; [|vm_compute in H1; discriminate].
    assert (playing true (a_wins ++ a_beats) at_rest = playing true a_beats s1) as E2
      by (by rewrite playing_app, H1).
    destruct (playing true a_beats s1) as [s2|] eqn:H2; [|vm_compute in E2; discriminate].
    assert (playing true ((a_wins ++ a_beats) ++ c_wins) at_rest = playing true c_wins s2) as E3
      by (by rewrite playing_app, E2).
    destruct (playing true c_wins s2) as [s3|] eqn:H3; [|vm_compute in E3; discriminate].
    exists s1, s2, s3. pose proof (eq_sym H1) as E1. symmetry in E2, E3.
    assert (∀ (f : net → bool) o s, Some s = o → option_map f o = Some true → f s = true) as Hf.
    { intros f o s <- [= Hs]. exact Hs. }
    assert (∀ s v x, bool_decide (voted s v = Some x) = true → voted s v = Some x) as Hvoted
      by (intros *; apply bool_decide_eq_true).
    split; [done|]. split; [apply leads_b_spec, (Hf (leads_b "a" 2) _ _ E1); vm_compute; reflexivity|].
    split; [apply Hvoted, (Hf (λ s, bool_decide (voted s "b" = Some "a")) _ _ E1); vm_compute; reflexivity|].
    split; [done|].
    split; [apply Hvoted, (Hf (λ s, bool_decide (voted s "b" = Some "")) _ _ E2); vm_compute; reflexivity|].
    split; [done|].
    split; [apply Hvoted, (Hf (λ s, bool_decide (voted s "b" = Some "c")) _ _ E3); vm_compute; reflexivity|].
    split; [apply leads_b_spec, (Hf (leads_b "a" 2) _ _ E3); vm_compute; reflexivity|].
    split; [apply leads_b_spec, (Hf (leads_b "c" 2) _ _ E3); vm_compute; reflexivity|].
    do 2 (etrans; [by eapply playing_run|]). by eapply playing_run.
Qed.

(** A restart forgets the term and the vote: the node built over the same log
    grants its vote in any positive term to any candidate that is up to date. *)
Lemma restart_votes_again now rnd now1 rnd1 now2 rnd2 name addr st req :
  vr_Gossip req = false → 0 < vr_Term req →
  let n := NewNode (New now rnd now1 rnd1 name addr) st in
  logIsUpToDate req n = true → granted now2 rnd2 req n.
Proof.
  intros Hg Ht n Hup. unfold granted, RequestVote. rewrite Hg.
  change (currentTerm (state n)) with 0. rewrite (proj2 (Z.ltb_lt 0 (vr_Term req)) Ht).
  cbn. rewrite Z.ltb_irrefl. change (logIsUpToDate req _) with (logIsUpToDate req n). by rewrite Hup.
Qed.
