(* ===== verification/RaftLogs.v ===== *)
(** * The logs of a group under one leader

    What the requests of a leader make of the logs of its followers, in whatever
    order they arrive, how often, and whatever the disks do: the logs of nodes that
    start with parts of the leader's history keep agreeing. And what they do not promise: a heartbeat cuts the log of a
    follower behind the entry it carries, committed entries included. *)

From Stdlib Require Import Strings.Byte Strings.String.
From stdpp Require Import list_numbers.
From S2P Require Import Prelude.
From S2P Require Import Bytes.
From S2P Require Import Json.
From S2P Require Import LogCodec.
From S2P Require Import Fs.
From S2P Require Import Storage.
From S2P Require Import StorageTheory.
From S2P Require Import StorageProps.
From S2P Require Import RaftState.
From S2P Require Import RaftNode.
From S2P Require Import RaftElection.
From S2P Require Import RaftReplication.
From S2P Require Import RaftCatchup.

(** ** What an operation of the storage does to the log in memory *)

(** An entry but for its term: a follower stores entries under the term of the
    request that brings them. *)
Definition key (e : LogEntry) : Z * string * list byte := (Index e, SchedulerID e, Payload e).

(** The log in memory has increasing indices up to the last position. *)
Record orderly (h : Handler) : Prop := {
  od_sorted : StronglySorted Z.lt (Index <$> entries h);
  od_last : Forall (λ e, Index e ≤ prevIndex h) (entries h)
}.

(** The entries may become fewer; the log stays in order. *)
Record shrinks (h h' : Handler) : Prop := {
  sh_entries : sublist (entries h') (entries h);
  sh_orderly : orderly h → orderly h'
}.

#[export] Instance shrinks_preorder : PreOrder shrinks.
Proof. split; [by split|]. intros h1 h2 h3 [??] [??]. split; [by etrans | auto]. Qed.

Lemma same_shrinks h h' : same_log h h' → shrinks h h'.
Proof. intros [He Hp]. split; [by rewrite He|]. intros [??]. split; by rewrite ?Hp, He. Qed.

Lemma sublist_elem {A} (l k : list A) x : sublist l k → x ∈ l → x ∈ k.
Proof. intros H. induction H as [|y l k _ IH|y l k _ IH]; [done|..]; rewrite ?elem_of_cons; naive_solver. Qed.

Lemma StronglySorted_sublist {A} (R : relation A) l k :
  sublist l k → StronglySorted R k → StronglySorted R l.
Proof.
  intros H. induction H as [|x l k Hs IH|x l k Hs IH]; [done|..]; intros [H1 H2]%StronglySorted_inv; [|by apply IH].
  constructor; [by apply IH|]. rewrite Forall_forall in *. intros y Hy. by apply H2, (sublist_elem l).
Qed.

Lemma fmap_sublist_of {A B} (f : A → B) l k : sublist l k → sublist (f <$> l) (f <$> k).
Proof. induction 1; cbn; by constructor. Qed.

Lemma sorted_last_le l e : StronglySorted Z.lt (Index <$> l) → last l = Some e → Forall (λ x, Index x ≤ Index e) l.
Proof.
  induction l as [|x l IH]; [done|]. rewrite fmap_cons. intros [Hs Hx]%StronglySorted_inv Hl.
  destruct l as [|y l]; [injection Hl as ->; by repeat constructor|].
  rewrite last_cons_cons in Hl. pose proof (IH Hs Hl) as Hle. constructor; [|done].
  apply last_Some_elem_of in Hl. rewrite Forall_forall in Hx.
  assert (Index x < Index e); [|lia]. apply Hx. by apply list_elem_of_fmap_2.
Qed.

Lemma orderly_fewer h h' :
  sublist (entries h') (entries h) →
  prevIndex h' = prevIndex h ∨ (∃ e, last (entries h') = Some e ∧ prevIndex h' = Index e) →
  shrinks h h'.
Proof.
  intros Hsub Hp. split; [done|]. intros [Hs Hl].
  assert (StronglySorted Z.lt (Index <$> entries h')) as Hs'
    by (eapply StronglySorted_sublist; [by apply fmap_sublist_of | done]).
  split; [done|]. destruct Hp as [-> | (e & He & ->)].
  - rewrite Forall_forall in *. intros x Hx. by apply Hl, (sublist_elem (entries h')).
  - by apply sorted_last_le.
Qed.

(** *** Truncate, whatever the disk does *)

Lemma find_index_take i es k : find_index i es = Some k → sublist (take k es) es.
Proof. intros _. rewrite <- (take_drop k es) at 2. apply sublist_inserts_r. done. Qed.

(** Nothing happens to the log, or at the end the position moves to the last entry. *)
Definition settles (st st' : Store) : Prop :=
  same_log (hd st) (hd st') ∨
  ∃ st0 e, same_log (hd st) (hd st0) ∧ last (entries (hd st0)) = Some e ∧
    hd st' = set_prev (Index e) (Term e) (hd st0).

Lemma settles_bind {A B} (m : sio A) (f : A → sio B) st :
  quiet m → (∀ a s, same_log (hd st) (hd s) → settles s (f a s).2) → settles st ((m ≫= f) st).2.
Proof.
  intros Hm Hf. unfold mbind, io_bind. specialize (Hm st).
  destruct (m st) as [[a|er|] s1]; [|by left..]. cbn [snd] in Hm.
  destruct (Hf a s1 Hm) as [H|(s2 & e & H & He)]; [left; by etrans|].
  right. exists s2, e. split; [by etrans | done].
Qed.

Lemma TruncateLog_log i st : shrinks (hd st) (hd (TruncateLog i st).2).
Proof.
  unfold TruncateLog. rewrite (io_bind_Ok get _ st st st) by done.
  destruct (find_index i (entries (hd st))) as [k|] eqn:Ek; [|by apply same_shrinks].
  set (st1 := (update (λ h, set_entries (take k (entries h)) h) st).2).
  rewrite (io_bind_Ok _ _ st tt st1) by done.
  assert (∀ st0, same_log (hd st1) (hd st0) → shrinks (hd st) (hd st0)) as Hsh.
  { intros st0 [He Hp]. apply orderly_fewer; [rewrite He; by eapply find_index_take | by left]. }
  match goal with |- shrinks _ (hd (?m st1).2) => set (rest := m) end.
  assert (settles st1 (rest st1).2) as Hrest.
  { unfold rest. clear rest Hsh. generalize st1 as s. clear. intros s.
    assert (∀ {A} msg (k : file → fsio A), quiet (wrap_err msg (on_active k))) as Qa
      by (intros; apply quiet_wrap, quiet_on_active).
    apply settles_bind; [apply Qa|]. intros _ s1 _. apply settles_bind; [apply Qa|]. intros _ s2 _.
    apply settles_bind; [by apply quiet_update|]. intros _ s3 _.
    rewrite (io_bind_Ok get _ s3 s3 s3) by done.
    apply settles_bind; [apply quiet_for_each, quiet_rewrite|]. intros _ s4 H4.
    apply settles_bind; [apply Qa|]. intros _ s5 H5.
    destruct (transitivity H4 H5) as [He _].
    destruct (last (entries (hd s3))) as [e|] eqn:El; [|by left].
    right. exists s5, e. by rewrite He. }
  destruct Hrest as [H|(st0 & e & H & He & Heq)]; [by apply Hsh|].
  destruct (Hsh _ H) as [Hsub _]. rewrite Heq. apply orderly_fewer; [done|]. right. by exists e.
Qed.

(** *** A request at a follower *)

(** What an append of the entry [e] makes of a log: fewer entries, or fewer entries
    and [e] after them. *)
Inductive takes_in (e : LogEntry) (h h' : Handler) : bool → Prop :=
| ti_less : shrinks h h' → takes_in e h h' false
| ti_more h1 : shrinks h h1 → prevIndex h1 < Index e → entries h' = entries h1 ++ [e] →
    prevIndex h' = Index e → takes_in e h h' true.

Lemma takes_in_Append e h st :
  shrinks h (hd st) → let '(r, st') := Append e st in takes_in e h (hd st') (is_ok r).
Proof.
  intros Hs. pose proof (Append_log e st) as H. destruct (Append e st) as [r st'].
  destruct (is_ok r).
  - destruct H as (Hi & He & Hp). by apply (ti_more _ _ _ (hd st)).
  - apply ti_less. etrans; [exact Hs | by apply same_shrinks].
Qed.

Lemma append_to_log_log req answer n :
  (∀ s, AStatus (answer s) = s) →
  let '(resp, n') := append_to_log req answer n in
  takes_in (appended_entry req) (FileHandler n) (FileHandler n') (bool_decide (AStatus resp = SUCCESS)).
Proof.
  intros Ha. set (e := appended_entry req). unfold append_to_log, on_store. fold e.
  pose proof (takes_in_Append e (hd (store n)) (store n) (reflexivity _)) as H. unfold FileHandler.
  destruct (Append e (store n)) as [r st1].
  destruct r as [u|er|]; cbn [is_ok store set_store] in *; [by rewrite Ha| |by rewrite Ha].
  destruct (behind er); [|by rewrite Ha]. destruct (_ || _); [by rewrite Ha|].
  assert (shrinks (hd (store n)) (hd st1)) as Hs1 by (by inversion H).
  pose proof (TruncateLog_log (Index e) st1) as Hs2.
  destruct (TruncateLog (Index e) st1) as [r2 st2]. cbn [snd store set_store] in *.
  assert (shrinks (hd (store n)) (hd st2)) as Hs by by etrans.
  destruct r2 as [u|er2|]; [|rewrite Ha; by apply ti_less..].
  pose proof (takes_in_Append e (hd (store n)) st2 Hs) as H3.
  destruct (Append e st2) as [r3 st3]. by destruct r3; rewrite Ha.
Qed.

(** What [AppendEntries] makes of a log. *)
Lemma AppendEntries_log now rnd req n :
  let '(resp, n') := AppendEntries now rnd req n in
  (ar_Payload req = [] ∨ AStatus resp ≠ SUCCESS) ∧ shrinks (FileHandler n) (FileHandler n') ∨
  AStatus resp = SUCCESS ∧ ar_Payload req ≠ [] ∧ takes_in (appended_entry req) (FileHandler n) (FileHandler n') true.
Proof.
  rewrite AppendEntries_eq. cbv zeta.
  destruct (ar_Term req <? _); [left; split; [by right | done]|].
  destruct (accept_leader_spec now rnd req n) as (Hst & _). set (m := accept_leader now rnd req n) in *.
  assert (FileHandler m = FileHandler n) as Hh by (unfold FileHandler; by rewrite Hst).
  destruct (prevIndex _ <? _); [left; split; [by right | by rewrite Hh]|].
  destruct (_ && _); [left; split; [by right | by rewrite Hh]|].
  case_bool_decide as Hp; [left; split; [by left | by rewrite Hh]|].
  match goal with |- context [append_to_log req ?a m] => pose proof (append_to_log_log req a m (λ _, eq_refl)) as H;
    destruct (append_to_log req a m) as [resp n'] end.
  rewrite Hh in H. case_bool_decide as Hs; [by right|]. left. split; [by right|]. by inversion H.
Qed.

(** ** The requests of a leader *)

(** The request has no payload, or it carries an entry of the list. *)
Definition carries (H : list LogEntry) (req : AppendRequest) : Prop :=
  ar_Payload req = [] ∨ key (appended_entry req) ∈ key <$> H.

Lemma pick_fields prev target es t :
  let '(_, (pl, i, sid)) := pick prev target es t in
  pl = [] ∨ ∃ e, e ∈ es ∧ pl = Payload e ∧ i = Index e ∧ sid = SchedulerID e.
Proof.
  unfold pick. induction es as [|x es IH] using rev_ind; [by left|]. rewrite foldl_app. cbn [foldl].
  destruct (foldl _ _ es) as [pt [[pl i] sid]]. destruct (Index x =? target).
  - right. exists x. split; [|done]. apply elem_of_app. right. by left.
  - destruct IH as [?|(e & He & ?)]; [by left|]. right. exists e. split; [|done]. apply elem_of_app. by left.
Qed.

Lemma Entries_elem a b h e : e ∈ Entries a b h → e ∈ entries h.
Proof.
  unfold Entries. destruct (_ <=? _); [by intros ?%not_elem_of_nil|]. intros He%elem_of_take.
  destruct He as (i & Hi & _). rewrite lookup_drop in Hi. by apply list_elem_of_lookup_2 in Hi.
Qed.

Lemma picked_carries H prev target a b h t o term pt pi :
  sublist (entries h) H →
  let '(_, (pl, i, sid)) := pick prev target (Entries a b h) t in
  carries H (mkAppendRequest o EmptyString term i pt pi sid pl).
Proof.
  intros Hs. pose proof (pick_fields prev target (Entries a b h) t) as Hp.
  destruct (pick _ _ _ _) as [t' [[pl i] sid]]. unfold carries, appended_entry, key. cbn.
  destruct Hp as [?|(e & He & -> & -> & ->)]; [by left|]. right.
  apply (list_elem_of_fmap_2 (λ e, (Index e, SchedulerID e, Payload e))).
  eapply sublist_elem; [done|]. by eapply Entries_elem.
Qed.

Lemma heartbeat_carries H o term ni h :
  sublist (entries h) H → carries H (buildHeartbeatRequest o term ni h).1.
Proof.
  intros Hs. unfold buildHeartbeatRequest.
  match goal with |- context [pick ?p ?t (Entries ?a ?b ?h) ?u] =>
    pose proof (λ pt pi, picked_carries H p t a b h u o term pt pi Hs) as Hc;
    destruct (pick p t (Entries a b h) u) as [pt [[pl i] sid]] end.
  apply Hc.
Qed.

Lemma lag_carries H l n req :
  sublist (entries (FileHandler n)) H → lag_next l n = LagSend req → carries H req.
Proof.
  intros Hs. unfold lag_next. destruct (negb _); [done|]. destruct (_ <? _); [done|].
  destruct (_ || _); [done|]. cbv zeta.
  match goal with |- context [pick ?p ?t (Entries ?a ?b ?h) ?u] =>
    pose proof (λ o term pt pi, picked_carries H p t a b h u o term pt pi Hs) as Hc;
    destruct (pick p t (Entries a b h) u) as [pt [[pl i] sid]] end.
  intros [= <-]. apply Hc.
Qed.

Lemma addLog_begin_log ord req n :
  let '(o, n') := addLog_begin ord req n in
  match o with
  | Some p => let e := appended_entry (p_request p) in
      prevIndex (FileHandler n) < Index e ∧ entries (FileHandler n') = entries (FileHandler n) ++ [e] ∧
      prevIndex (FileHandler n') = Index e
  | None => same_log (FileHandler n) (FileHandler n')
  end.
Proof.
  unfold addLog_begin. destruct (negb _); [done|]. cbv zeta.
  match goal with |- context [on_store (Append ?e) n] => pose proof (Append_log e (store n)) as H;
    unfold on_store; destruct (Append e (store n)) as [[u|er|] st'] end; [|exact H..].
  exact H.
Qed.

(** ** The group *)

(** One leader with every entry its log has ever had, the followers, and every
    append the leader has ever sent: a request stays, so that it may arrive late,
    more than once, and after younger ones. *)
Record group := mkGroup {
  leader : Node; history : list LogEntry; followers : gmap string Node; sent : list AppendRequest
}.

(** Work of a node that brings no entry: snapshots, and what leaves the store alone. *)
Inductive housekeeping (n : Node) : Node → Prop :=
| hk_begin ord : housekeeping n (on_store (snapshot_begin ord) n).2
| hk_write p : housekeeping n (on_store (snapshot_write p) n).2
| hk_rotate f i t l : housekeeping n (on_store (rotateFile f i t l) n).2
| hk_other n' : store n' = store n → housekeeping n n'.

Inductive group_step : group → group → Prop :=
| gs_client ord req p L L' H F M :
    addLog_begin ord req L = (Some p, L') →
    group_step (mkGroup L H F M) (mkGroup L' (H ++ [appended_entry (p_request p)]) F (p_request p :: M))
| gs_refused ord req L L' H F M :
    addLog_begin ord req L = (None, L') → group_step (mkGroup L H F M) (mkGroup L' H F M)
| gs_heartbeat ni L H F M :
    group_step (mkGroup L H F M) (mkGroup L H F
      ((buildHeartbeatRequest (id (state L)) (currentTerm (state L)) ni (FileHandler L)).1 :: M))
| gs_catchup l req L H F M :
    lag_next l L = LagSend req → group_step (mkGroup L H F M) (mkGroup L H F (req :: M))
| gs_deliver v n now rnd req L H F M :
    F !! v = Some n → req ∈ M →
    group_step (mkGroup L H F M) (mkGroup L H (<[v := (AppendEntries now rnd req n).2]> F) M)
| gs_leader L L' H F M : housekeeping L L' → group_step (mkGroup L H F M) (mkGroup L' H F M)
| gs_follower v n n' L H F M :
    F !! v = Some n → housekeeping n n' →
    group_step (mkGroup L H F M) (mkGroup L H (<[v := n']> F) M)
| gs_install v n now rnd req L H F M :
    F !! v = Some n →
    group_step (mkGroup L H F M) (mkGroup L H (<[v := (Node_InstallSnapshot now rnd req n).2]> F) M).

(** The log is in order and holds only entries of the list. *)
Definition copies (H : list LogEntry) (n : Node) : Prop :=
  orderly (FileHandler n) ∧ ∀ e, e ∈ entries (FileHandler n) → key e ∈ key <$> H.

Record group_start (g : group) : Prop := {
  gt_leader : orderly (FileHandler (leader g));
  gt_history : history g = entries (FileHandler (leader g));
  gt_sent : sent g = [];
  gt_followers : map_Forall (λ _ n, copies (history g) n) (followers g)
}.

Record agreement (g : group) : Prop := {
  ag_history : StronglySorted Z.lt (Index <$> history g) ∧
    Forall (λ e, Index e ≤ prevIndex (FileHandler (leader g))) (history g);
  ag_leader : sublist (entries (FileHandler (leader g))) (history g);
  ag_sent : Forall (carries (history g)) (sent g);
  ag_followers : map_Forall (λ _ n, copies (history g) n) (followers g)
}.

(** Housekeeping trims a log from the front. *)
Definition trims (h h' : Handler) : Prop := sublist (entries h') (entries h) ∧ prevIndex h' = prevIndex h.

#[export] Instance trims_preorder : PreOrder trims.
Proof. split; [done|]. intros h1 h2 h3 [??] [??]. split; [by etrans | congruence]. Qed.

Definition trimming {A} (m : sio A) : Prop := ∀ st, trims (hd st) (hd (m st).2).

Lemma quiet_trimming {A} (m : sio A) : quiet m → trimming m.
Proof. intros Hm st. destruct (Hm st) as [He Hp]. split; [by rewrite He | done]. Qed.

Lemma trimming_bind {A B} (m : sio A) (f : A → sio B) : trimming m → (∀ a, trimming (f a)) → trimming (m ≫= f).
Proof.
  intros Hm Hf st. unfold mbind, io_bind. specialize (Hm st).
  destruct (m st) as [[a|e|] st']; [|done..]. etrans; [exact Hm | apply Hf].
Qed.

Lemma quiet_ignore {A} (m : sio A) : quiet m → quiet (ignore m).
Proof. intros Hm st. unfold ignore. specialize (Hm st). by destruct (m st) as [[]]. Qed.

Lemma quiet_on_snapshot {A} (k : file → fsio A) : quiet (on_snapshot k).
Proof.
  intros st. unfold on_snapshot, mbind, io_bind, get. destruct (snapshotFile (hd st)); [|done].
  apply quiet_on_disk.
Qed.

Lemma quiet_try {A} (m : sio A) : quiet m → quiet (try_ m).
Proof. intros Hm st. unfold try_. specialize (Hm st). by destruct (m st) as [[]]. Qed.

Lemma quiet_snapshot_begin ord : quiet (snapshot_begin ord).
Proof.
  apply quiet_bind; [by apply quiet_update|]. intros _ st. unfold mbind, io_bind, get.
  destruct (snapshotFile _); [|done]. by destruct (last _).
Qed.

Ltac quiet_by :=
  repeat first
    [ done
    | apply quiet_wrap | apply quiet_ignore | apply quiet_try | apply quiet_on_disk
    | apply quiet_on_active | apply quiet_on_snapshot | apply quiet_for_each; intros ?
    | apply quiet_update | apply quiet_rewrite
    | apply quiet_bind; [|intros ?]
    | progress intros
    | match goal with |- quiet (match ?x with _ => _ end) => destruct x end ].

Lemma quiet_snapshot_write p : quiet (snapshot_write p).
Proof. unfold snapshot_write, write_snapshot, close_snapshot. quiet_by. Qed.

Lemma trimming_rotateFile f i t l : trimming (rotateFile f i t l).
Proof.
  unfold rotateFile. do 3 (apply trimming_bind; [apply quiet_trimming; quiet_by|intros _]).
  intros st. rewrite (io_bind_Ok get _ st st st) by done. cbv zeta.
  set (r := filter _ (entries (hd st))). assert (sublist r (entries (hd st))) as Hr.
  { unfold r. generalize (entries (hd st)) as es. induction es as [|e es IH]; [done|].
    rewrite filter_cons. case_decide; by constructor. }
  match goal with |- context [for_each ?g r] => set (m := for_each g r) end.
  assert (same_log (hd st) (hd (m st).2)) as Hq by (apply quiet_for_each; intros x; apply quiet_rewrite).
  unfold mbind at 1, io_bind at 1. destruct (m st) as [[u|e|] st1]; cbn [snd] in Hq;
    [|destruct Hq as [Hqe Hqp]; split; cbn [snd]; by rewrite ?Hqe..].
  set (st2 := (update (set_entries r) st1).2). rewrite (io_bind_Ok _ _ st1 tt st2) by done.
  assert (trims (hd st) (hd st2)) as H2 by (split; [exact Hr | apply Hq]).
  etrans; [exact H2|]. match goal with |- trims (hd st2) (hd (?k st2).2) => assert (quiet k) as Hk by quiet_by end.
  by apply quiet_trimming.
Qed.

Lemma housekeeping_trims n n' : housekeeping n n' → trims (FileHandler n) (FileHandler n').
Proof.
  assert (∀ A (m : sio A), trimming m → trims (FileHandler n) (FileHandler (on_store m n).2)) as H.
  { intros A m Hm. unfold on_store, FileHandler. specialize (Hm (store n)). by destruct (m (store n)). }
  destruct 1 as [ord|p|f i t l|n' Hn].
  - apply H, quiet_trimming, quiet_snapshot_begin.
  - apply H, quiet_trimming, quiet_snapshot_write.
  - apply H, trimming_rotateFile.
  - unfold FileHandler. by rewrite Hn.
Qed.

Lemma trims_shrinks h h' : trims h h' → shrinks h h'.
Proof. intros [Hs Hp]. apply orderly_fewer; [done | by left]. Qed.

(** *** A snapshot that is installed *)

(** The log stays, or it is emptied. *)
Definition same_or_empty (h h' : Handler) : Prop := same_log h h' ∨ entries h' = [].

Lemma same_or_empty_shrinks h h' : same_or_empty h h' → shrinks h h'.
Proof.
  intros [H|He]; [by apply same_shrinks|]. split; [rewrite He; apply sublist_nil_l|].
  intros _. split; rewrite He; constructor.
Qed.

Definition emptying {A} (m : sio A) : Prop := ∀ st, same_or_empty (hd st) (hd (m st).2).

Lemma emptying_bind {A B} (m : sio A) (f : A → sio B) :
  quiet m → (∀ a, emptying (f a)) → emptying (m ≫= f).
Proof.
  intros Hm Hf st. unfold mbind, io_bind. specialize (Hm st).
  destruct (m st) as [[a|e|] st']; [|by left..]. destruct (Hf a st') as [H|H]; [|by right].
  left. by etrans.
Qed.

Lemma quiet_emptying {A} (m : sio A) : quiet m → emptying m.
Proof. intros Hm st. left. apply Hm. Qed.

Lemma InstallSnapshot_emptying off data done i t : emptying (InstallSnapshot off data done i t).
Proof.
  unfold InstallSnapshot. apply emptying_bind; [apply quiet_on_disk|intros _].
  destruct done; [|by left]. apply emptying_bind; [by intros st|intros st0].
  apply emptying_bind; [quiet_by|intros _]. apply emptying_bind; [quiet_by|intros _].
  apply emptying_bind; [quiet_by|intros [f|err]]; [|by apply quiet_emptying; quiet_by].
  do 2 (apply emptying_bind; [quiet_by|intros _]). intros st. by right.
Qed.

Lemma Node_InstallSnapshot_shrinks now rnd req n :
  shrinks (FileHandler n) (FileHandler (Node_InstallSnapshot now rnd req n).2).
Proof.
  apply same_or_empty_shrinks. unfold Node_InstallSnapshot. destruct (is_Term req <? _); [by left|].
  set (n1 := if bool_decide _ || _ then _ else _).
  assert (store n1 = store n) as Hn1 by (unfold n1; destruct (_ <? is_Term req); by destruct (_ || _)).
  clearbody n1. unfold on_store, FileHandler. rewrite Hn1.
  pose proof (InstallSnapshot_emptying (is_Offset req) (is_Data req) (is_Done req)
    (is_LastIncludedIndex req) (is_LastIncludedTerm req) (store n)) as H.
  destruct (InstallSnapshot _ _ _ _ _ _) as [[u|e|] st]; exact H.
Qed.

(** ** Agreement *)

Lemma carries_more H e req : carries H req → carries (H ++ [e]) req.
Proof. intros [?|Hk]; [by left|]. right. rewrite fmap_app. apply elem_of_app. by left. Qed.

Lemma copies_more H e n : copies H n → copies (H ++ [e]) n.
Proof. intros [Ho Hk]. split; [done|]. intros x Hx. rewrite fmap_app. apply elem_of_app. left. by apply Hk. Qed.

Lemma copies_shrinks H n n' : shrinks (FileHandler n) (FileHandler n') → copies H n → copies H n'.
Proof.
  intros [Hs Ho] [Hn Hk]. split; [by apply Ho|]. intros e He. apply Hk. by eapply sublist_elem.
Qed.

Lemma sorted_snoc l e : StronglySorted Z.lt (Index <$> l) → Forall (λ x, Index x < Index e) l →
  StronglySorted Z.lt (Index <$> (l ++ [e])).
Proof.
  intros Hs Hl. induction l as [|x l IH]; [by repeat constructor|].
  rewrite fmap_cons in Hs. apply StronglySorted_inv in Hs as [Hs Hx].
  apply Forall_cons in Hl as [Hxe Hl]. cbn [app]. rewrite fmap_cons. constructor; [by apply IH|].
  rewrite fmap_app. apply Forall_app. split; [done|]. by constructor.
Qed.

(** What an append that was taken in leaves at the end of the log. *)
Lemma copies_deliver H now rnd req n :
  carries H req → copies H n → copies H (AppendEntries now rnd req n).2.
Proof.
  intros Hc Hn. pose proof (AppendEntries_log now rnd req n) as Hl.
  destruct (AppendEntries now rnd req n) as [resp n']. cbn [snd].
  destruct Hl as [[_ Hs]|(_ & Hp & Ht)]; [by eapply copies_shrinks|].
  inversion Ht as [|h1 Hs Hi He Hx]. destruct Hc as [?|Hk]; [done|]. destruct Hn as [Ho Hn].
  destruct (sh_orderly _ _ Hs Ho) as [Hs1 Hl1]. split.
  - split; rewrite ?He, ?Hx.
    + apply sorted_snoc; [done|]. eapply Forall_impl; [exact Hl1|]. intros x Hle. cbn in Hle. lia.
    + apply Forall_app. split; [|by constructor]. eapply Forall_impl; [exact Hl1|]. intros x Hle. cbn in Hle. lia.
  - intros e. rewrite He. intros [Hin|Hin]%elem_of_app.
    + apply Hn. by eapply sublist_elem; [apply Hs|].
    + by apply list_elem_of_singleton in Hin as ->.
Qed.

Lemma agreement_step g g' : group_step g g' → agreement g → agreement g'.
Proof.
  destruct 1 as [ord req p L L' H F M E|ord req L L' H F M E|ni L H F M|l req L H F M E
    |v n now rnd req L H F M Hv Hr|L L' H F M Hk|v n n' L H F M Hv Hk|v n now rnd req L H F M Hv]; intros [[A1 A2] A3 A4 A5];
    cbn [leader history followers sent] in *.
  - pose proof (addLog_begin_log ord req L) as Hl. rewrite E in Hl. destruct Hl as (Hi & He & Hp).
    split; cbn [leader history followers sent].
    + split.
      * apply sorted_snoc; [done|]. eapply Forall_impl; [exact A2|]. intros x Hx. cbn in Hx. lia.
      * rewrite Hp. apply Forall_app. split; [|by constructor]. eapply Forall_impl; [exact A2|].
        intros x Hx. cbn in Hx. lia.
    + rewrite He. by apply sublist_app.
    + constructor; [right; rewrite fmap_app; apply elem_of_app; right; by left|].
      eapply Forall_impl; [exact A4|]. intros r. apply carries_more.
    + intros v n Hn. apply copies_more. by apply (A5 v).
  - pose proof (addLog_begin_log ord req L) as Hl. rewrite E in Hl. destruct Hl as [He Hp].
    split; cbn [leader history followers sent]; rewrite ?He, ?Hp; done.
  - split; cbn [leader history followers sent]; try done. constructor; [|done]. by apply heartbeat_carries.
  - split; cbn [leader history followers sent]; try done. constructor; [|done]. by eapply lag_carries.
  - split; cbn [leader history followers sent]; try done. apply map_Forall_insert_2; [|done].
    apply copies_deliver; [|by apply (A5 v)]. rewrite Forall_forall in A4. by apply A4.
  - destruct (housekeeping_trims _ _ Hk) as [Hs Hp].
    split; cbn [leader history followers sent]; rewrite ?Hp; try done. by etrans.
  - split; cbn [leader history followers sent]; try done. apply map_Forall_insert_2; [|done].
    eapply copies_shrinks; [apply trims_shrinks, housekeeping_trims, Hk | by apply (A5 v)].
  - split; cbn [leader history followers sent]; try done. apply map_Forall_insert_2; [|done].
    eapply copies_shrinks; [apply Node_InstallSnapshot_shrinks | by apply (A5 v)].
Qed.

Lemma agreement_start g : group_start g → agreement g.
Proof.
  intros [[H1 H1'] H2 H3 H4]. split; rewrite ?H2, ?H3; try done. by rewrite <- H2.
Qed.

Lemma agreement_reachable g g' : group_start g → rtc group_step g g' → agreement g'.
Proof.
  intros Hs Hr. apply agreement_start in Hs. induction Hr as [|g g1 g2 Hg _ IH]; [done|].
  by eapply IH, agreement_step.
Qed.

Lemma key_index e e' : key e = key e' → Index e = Index e'.
Proof. by intros [= -> _ _]. Qed.

(** Distinct entries of an ordered list have distinct indices. *)
Lemma sorted_index H x y :
  StronglySorted Z.lt (Index <$> H) → x ∈ H → y ∈ H → Index x = Index y → x = y.
Proof.
  induction H as [|z H IH]; [by intros _ ?%not_elem_of_nil|]. rewrite fmap_cons.
  intros [Hs Hz]%StronglySorted_inv. rewrite Forall_forall in Hz.
  assert (∀ w, w ∈ H → Index z < Index w) as Hlt by (intros w Hw; apply Hz; by apply list_elem_of_fmap_2).
  intros [->|Hx]%elem_of_cons [->|Hy]%elem_of_cons Heq; [done| | |by apply IH].
  - apply Hlt in Hy. lia.
  - apply Hlt in Hx. lia.
Qed.

(** An ordered log whose entries are in an ordered list is a part of it. *)
Lemma sorted_sublist l H :
  StronglySorted Z.lt (Index <$> l) → StronglySorted Z.lt (Index <$> H) →
  (∀ e, e ∈ l → key e ∈ key <$> H) → sublist (key <$> l) (key <$> H).
Proof.
  revert l. induction H as [|z H IH]; intros l Hl HH Hk.
  { destruct l as [|e l]; [done|]. specialize (Hk e ltac:(left)). by apply not_elem_of_nil in Hk. }
  pose proof HH as HH'. rewrite fmap_cons in HH. apply StronglySorted_inv in HH as [HH Hz].
  destruct l as [|e l]; [apply sublist_nil_l|].
  rewrite fmap_cons in Hl. pose proof Hl as Hl'. apply StronglySorted_inv in Hl as [Hl He].
  rewrite !fmap_cons. rewrite Forall_forall in He, Hz.
  assert (∀ x, x ∈ H → Index z < Index x) as Hlt by (intros w Hw; apply Hz; by apply list_elem_of_fmap_2).
  assert (Index z ≤ Index e) as Hge.
  { specialize (Hk e ltac:(left)). rewrite fmap_cons in Hk.
    apply elem_of_cons in Hk as [Heq|(x & Heq & Hx)%list_elem_of_fmap]; apply key_index in Heq; [lia|].
    apply Hlt in Hx. lia. }
  assert (∀ x, x ∈ l → key x ∈ key <$> H) as Hrest.
  { intros x Hx. pose proof (Hk x ltac:(by right)) as Hkx. rewrite fmap_cons in Hkx.
    apply elem_of_cons in Hkx as [Heq|?]; [|done]. exfalso. apply key_index in Heq.
    assert (Index e < Index x); [|lia]. apply He. by apply list_elem_of_fmap_2. }
  specialize (Hk e ltac:(left)). rewrite fmap_cons in Hk. apply elem_of_cons in Hk as [->|Hin].
  - constructor. by apply IH.
  - constructor. apply (IH (e :: l)); [done|done|]. intros x [->|Hx]%elem_of_cons; [done | by apply Hrest].
Qed.

Definition member (g : group) (n : Node) : Prop := n = leader g ∨ ∃ v, followers g !! v = Some n.

(** C6: logs stay in agreement under one leader. Start the leader's term when
    every follower's log is, but for the terms, made of entries of the leader's log,
    and all logs are in order of their indices - a fresh group, for one; that a new
    leader finds the others like this is not claimed, and not ensured by the
    elections of this code ([heartbeat_cuts]). From then on, while this leader leads
    and no node restarts: with its requests arriving late, repeatedly, out of order
    or not at all, with compactions on either side, frames of snapshots installed by
    any follower at any time, and any failures of the disks, the log of every
    follower is a part, in order, of what the leader has ever had in its log; two
    entries of one index in the logs of any two nodes have the same origin and
    payload; and a follower that answers an append of a payload with success has that
    entry of the leader as its last. *)
Theorem logs_agree g g' :
  group_start g → rtc group_step g g' →
  (∀ v n, followers g' !! v = Some n → sublist (key <$> entries (FileHandler n)) (key <$> history g')) ∧
  (∀ n m e e', member g' n → member g' m → e ∈ entries (FileHandler n) → e' ∈ entries (FileHandler m) →
     Index e = Index e' → key e = key e') ∧
  (∀ v n now rnd req, followers g' !! v = Some n → req ∈ sent g' → ar_Payload req ≠ [] →
     AStatus (AppendEntries now rnd req n).1 = SUCCESS →
     last (entries (FileHandler (AppendEntries now rnd req n).2)) = Some (appended_entry req) ∧
     key (appended_entry req) ∈ key <$> history g').
Proof.
  intros Hs Hr. destruct (agreement_reachable _ _ Hs Hr) as [[A1 A2] A3 A4 A5]. split_and!.
  - intros v n Hn. destruct (A5 v n Hn) as [[Ho _] Hk]. by apply sorted_sublist.
  - assert (∀ n e, member g' n → e ∈ entries (FileHandler n) → key e ∈ key <$> history g') as Hm.
    { intros n e [-> | [v Hv]] He; [|by apply (A5 v n Hv)].
      apply list_elem_of_fmap_2. by eapply sublist_elem. }
    intros n m e e' Hn Hn' He He' Hi.
    destruct (proj1 (list_elem_of_fmap _ _ _) (Hm n e Hn He)) as (x & Hx & Hxin).
    destruct (proj1 (list_elem_of_fmap _ _ _) (Hm m e' Hn' He')) as (y & Hy & Hyin).
    rewrite Hx, Hy. f_equal. apply (sorted_index (history g')); try done.
    apply key_index in Hx, Hy. congruence.
  - intros v n now rnd req Hv Hreq Hp Hok. rewrite Forall_forall in A4.
    pose proof (AppendEntries_log now rnd req n) as Hl. destruct (AppendEntries now rnd req n) as [resp n'].
    cbn [fst snd] in *. destruct Hl as [[[?|?] _]|(_ & _ & Ht)]; [done..|].
    inversion Ht as [|h1 _ _ He _]. rewrite He. split; [apply last_snoc|].
    by destruct (A4 req Hreq) as [?|?].
Qed.

(** ** The price of a heartbeat *)

(** A follower that already holds an entry at the position of the request. *)
Lemma append_cuts now rnd L F i e :
  sends L i e → log_core (store F) → currentTerm (state F) ≤ currentTerm (state L) →
  discTerm (FileHandler F) ≤ currentTerm (state L) →
  discIndex (FileHandler F) < i ≤ prevIndex (FileHandler F) →
  let first := i =? discIndex (FileHandler F) + 1 in
  ∃ resp F', AppendEntries now rnd (the_request L i) F = (resp, F') ∧
    AStatus resp = (if first then BAD_PAYLOAD else SUCCESS) ∧
    PrevLogTerm resp = currentTerm (state F) ∧
    entries (FileHandler F') = filter (λ x, Index x < i) (entries (FileHandler F)) ++
      (if first then [] else [restamped (currentTerm (state L)) e]) ∧
    content (disk (store F')) (fname (wal (FileHandler F))) = encode_all (entries (FileHandler F')) ∧
    prevIndex (FileHandler F') = (if first then prevIndex (FileHandler F) else i).
Proof.
  intros Hs Hl Ht Hdt Hi first. destruct (sends_request _ _ _ Hs) as [Hreq Hap].
  destruct (sends_index _ _ _ Hs) as [Hie _].
  rewrite AppendEntries_eq. cbv zeta. set (req := the_request L i) in *.
  destruct (accept_leader_spec now rnd req F) as (Hst & _ & _ & Hct & _).
  set (m := accept_leader now rnd req F) in *.
  assert (ar_Term req = currentTerm (state L) ∧ ar_PrevLogIndex req = i - 1 ∧ ar_Payload req = Payload e)
    as (Hrt & Hrp & Hpl) by (by rewrite Hreq).
  rewrite Hrt, Hrp, Hpl, (proj2 (Z.ltb_ge _ _)) by done. rewrite (proj2 (Z.ltb_ge _ _)) by lia.
  rewrite (proj2 (Z.eqb_neq _ _)) by lia. cbn [andb].
  rewrite bool_decide_eq_false_2 by apply Hs. unfold FileHandler in *.
  rewrite append_behind; rewrite ?Hap; unfold FileHandler; rewrite ?Hst; cbn [Index Term restamped];
    rewrite ?Hie; [|done|apply Hs|lia].
  rewrite (proj2 (Z.ltb_ge _ _)) by lia. rewrite (proj2 (Z.leb_gt _ _)) by lia. cbn [orb].
  pose proof (lc_entries _ Hl) as Hen. set (k := Z.to_nat (i - discIndex (hd (store F)) - 1)).
  destruct (truncated_fields (wal (hd (store F))) k (store F)) as (Hce & Hcdi & Hcdt & _).
  change (truncated _ _ _) with (cut_before i (store F)) in *.
  subst k. rewrite (take_filter_lt _ _ _ Hen) in Hce. unfold first.
  destruct (i =? discIndex (hd (store F)) + 1) eqn:E1; bool_to_prop; eexists _, _; (split; [reflexivity|]);
    cbn [AStatus PrevLogTerm store set_store]; (split; [done|]); (split; [done|]).
  - rewrite app_nil_r, Hce. split; [done|]. rewrite <- Hce. unfold cut_before, truncated. rewrite E1.
    replace (Z.to_nat _) with O by lia. rewrite take_0. cbv zeta. cbn [last]. fields.
    split; [|done]. apply content_set.
  - destruct (appended_fields (restamped (currentTerm (state L)) e) (cut_before i (store F)))
      as (He' & Hi' & _ & Hdi & Hdt' & _ & Hcon).
    rewrite He', Hi', Hce. split; [done|]. cbn [Index restamped]. split; [|by rewrite Hie].
    unfold wal in *. rewrite Hcdi, Hcdt, Hce in Hcon. etrans; [exact Hcon|].
    by rewrite encode_all_app, encode_all_cons, app_nil_r.
Qed.

(** C34: a heartbeat cuts the log of a follower. The position a leader's heartbeats
    have reached for a peer starts at the end of its log and moves only with the
    heartbeats; entries that clients' requests have brought to the peer since are
    sent once more. A follower that holds the entry already loses everything after
    it, in memory and on disk - and when it is the first entry after the last
    snapshot that entry too, while the follower goes on to report the old last
    position and the leader stays at the same place, or steps back. *)
Theorem heartbeat_cuts now rnd L F peer nextIndex i e :
  sends L i e → log_core (store F) → currentTerm (state F) ≤ currentTerm (state L) →
  discTerm (FileHandler F) ≤ currentTerm (state L) →
  discIndex (FileHandler F) < i ≤ prevIndex (FileHandler F) → nextIndex !! peer = Some i →
  let first := i =? discIndex (FileHandler F) + 1 in
  let req := (buildHeartbeatRequest (id (state L)) (currentTerm (state L)) i (FileHandler L)).1 in
  let '(resp, F') := AppendEntries now rnd req F in
  sendHeartbeatToPeer now rnd (λ _, Some resp) peer (id (state L)) (currentTerm (state L)) nextIndex L =
    (Ok (if first then (if 1 <? i then <[peer := i - 1]> nextIndex else nextIndex)
         else <[peer := i + 1]> nextIndex), L) ∧
  entries (FileHandler F') = filter (λ x, Index x < i) (entries (FileHandler F)) ++
    (if first then [] else [restamped (currentTerm (state L)) e]) ∧
  content (disk (store F')) (fname (wal (FileHandler F))) = encode_all (entries (FileHandler F')) ∧
  prevIndex (FileHandler F') = (if first then prevIndex (FileHandler F) else i).
Proof.
  intros Hs Hl Ht Hdt Hi Hni first req. pose proof (lc_disc _ Hl) as [Hd0 _].
  destruct (sends_index _ _ _ Hs) as [Hie Hib]. pose proof (sd_bound _ _ _ Hs) as Hb.
  assert (buildHeartbeatRequest (id (state L)) (currentTerm (state L)) i (FileHandler L) =
    (the_request L i, true)) as Hreq.
  { unfold FileHandler in *. rewrite buildHeartbeatRequest_eq by (apply Hs || lia).
    fold (FileHandler L). fold (the_request L i). destruct (sends_request _ _ _ Hs) as [-> _].
    cbn [ar_Payload]. by rewrite bool_decide_eq_false_2 by apply Hs. }
  unfold req. rewrite Hreq. cbn [fst].
  destruct (append_cuts now rnd L F i e Hs Hl Ht Hdt Hi) as (resp & F' & -> & Hst & Hpt & He & Hc & Hp).
  split; [|done]. fold first in Hst. unfold sendHeartbeatToPeer.
  rewrite (bool_decide_eq_true_2 _ (sd_leader _ _ _ Hs)), Z.eqb_refl. cbn [negb orb].
  rewrite Hni, Hreq. unfold processHeartbeatResponse. rewrite Hst.
  destruct first.
  - unfold checkStepDown. rewrite Hpt, (proj2 (Z.ltb_ge _ _)) by done.
    destruct (1 <? i) eqn:E1; bool_to_prop; [|done]. by rewrite wrap64_id by (unfold int64_ok; lia).
  - by rewrite wrap64_id by (unfold int64_ok, FileHandler in *; lia).
Qed.

(** ** Witnesses *)

(** Three nodes with empty logs; "l" leads term 1. *)
Definition fresh (name : string) (r : Role) (peers : list string) : Node :=
  linked peers (NewNode (sample_state name r 1) (first_start 64).1).
Definition fresh_leader : Node := fresh "l" Leader ["f"; "g"].
Definition fresh_follower (name peer : string) : Node := fresh name Follower ["l"; peer].

(** A client's entry, sent to both followers, acknowledged and committed. *)
Definition client_request : RawAppendRequest := mkRawAppendRequest "client" "r" "node-1" (text "{}").
Definition client_append : AppendRequest := mkAppendRequest "l" "r" 1 1 0 0 "node-1" (text "{}").
Definition served (name peer : string) : AppendResponse * Node :=
  AppendEntries 0 0 client_append (fresh_follower name peer).
Definition committed_leader : Node :=
  match addLog_begin default_order client_request fresh_leader with
  | (Some p, n) =>
      let '(p, _, n) := addLog_peer 0 0 (Answered (served "f" "g").1) p n in
      let '(p, _, n) := addLog_peer 0 0 (Answered (served "g" "f").1) p n in
      addLog_finish p n
  | (None, n) => n
  end.

(** The first heartbeat reaches both. *)
Definition first_heartbeat : AppendRequest :=
  (buildHeartbeatRequest (id (state committed_leader)) (currentTerm (state committed_leader)) 1
     (FileHandler committed_leader)).1.
Definition cut (name peer : string) : Node := (AppendEntries 0 0 first_heartbeat (served name peer).2).2.

(** The leader stops; "f" asks "g", which grants the vote, and leads term 2. *)
Definition candidate : option VoteRequest * Node :=
  start_formal 1 0 1 (cut "f" "g").
Definition successor : Node := win_formal 2 candidate.2.

Lemma served_store name peer : (name = "f" ∧ peer = "g") ∨ (name = "g" ∧ peer = "f") →
  store (served name peer).2 = one_entry 64.
Proof. intros [[-> ->]|[-> ->]]; vm_compute; reflexivity. Qed.

Lemma committed_sends : sends committed_leader 1 (entry_at 1 1 "{}").
Proof.
  assert (store committed_leader = one_entry 64) as Hst by (vm_compute; reflexivity).
  split; unfold FileHandler; rewrite ?Hst.
  - apply (reachable_ok default_order 64 _ (one_entry_reachable _ _)).
  - vm_compute. reflexivity.
  - vm_compute. reflexivity.
  - vm_compute. reflexivity.
  - vm_compute. discriminate.
  - refine (bool_decide_unpack _ _). vm_compute. exact I.
Qed.

(** The committed entry is on no follower, and the follower that leads next does
    not have it. *)
Lemma heartbeat_cuts_witness :
  commitIndex committed_leader = 1 ∧
  entries (FileHandler (served "f" "g").2) = [entry_at 1 1 "{}"] ∧
  entries (FileHandler (served "g" "f").2) = [entry_at 1 1 "{}"] ∧
  entries (FileHandler (cut "f" "g")) = [] ∧ entries (FileHandler (cut "g" "f")) = [] ∧
  match candidate.1 with Some req => granted 2 0 req (cut "g" "f") | None => False end ∧
  role (state successor) = Leader ∧ currentTerm (state successor) = 2 ∧ entries (FileHandler successor) = [].
Proof.
  assert (∀ name peer, (name = "f" ∧ peer = "g") ∨ (name = "g" ∧ peer = "f") →
    entries (FileHandler (cut name peer)) = []) as Hcut.
  { intros name peer Hn.
    assert (log_core (store (served name peer).2)) as H1
      by (rewrite served_store by exact Hn; apply (reachable_ok default_order 64 _ (one_entry_reachable _ _))).
    assert (currentTerm (state (served name peer).2) ≤ currentTerm (state committed_leader)) as H2
      by (destruct Hn as [[-> ->]|[-> ->]]; vm_compute; discriminate).
    assert (discTerm (FileHandler (served name peer).2) ≤ currentTerm (state committed_leader)) as H3
      by (destruct Hn as [[-> ->]|[-> ->]]; vm_compute; discriminate).
    assert (discIndex (FileHandler (served name peer).2) < 1 ≤ prevIndex (FileHandler (served name peer).2)) as H4
      by (unfold FileHandler; rewrite served_store by exact Hn; vm_compute; split; [reflexivity | discriminate]).
    assert (initNextIndex fresh_leader !! name = Some 1) as H5
      by (destruct Hn as [[-> ->]|[-> ->]]; vm_compute; reflexivity).
    pose proof (heartbeat_cuts 0 0 committed_leader (served name peer).2 name (initNextIndex fresh_leader) 1
      (entry_at 1 1 "{}") committed_sends H1 H2 H3 H4 H5) as H.
    cbv zeta in H. fold first_heartbeat in H. unfold cut.
    destruct (AppendEntries 0 0 first_heartbeat (served name peer).2) as [resp F'].
    destruct H as (_ & He & _). cbn [snd]. rewrite He. unfold FileHandler.
    rewrite served_store by exact Hn. vm_compute. reflexivity. }
  split; [vm_compute; reflexivity|]. split; [vm_compute; reflexivity|]. split; [vm_compute; reflexivity|].
  split; [apply Hcut; left; split; reflexivity|]. split; [apply Hcut; right; split; reflexivity|].
  split; [vm_compute; reflexivity|]. split; [vm_compute; reflexivity|]. split; vm_compute; reflexivity.
Defined.

Definition fresh_group : group :=
  mkGroup fresh_leader [] {["f" := fresh_follower "f" "g"; "g" := fresh_follower "g" "f"]} [].

Lemma fresh_group_start : group_start fresh_group.
Proof.
  assert (∀ name r peers, orderly (FileHandler (fresh name r peers)) ∧ entries (FileHandler (fresh name r peers)) = [])
    as Ho by (intros; repeat split; constructor).
  split; [apply Ho|reflexivity|reflexivity|].
  intros v n Hn. assert (n = fresh_follower "f" "g" ∨ n = fresh_follower "g" "f") as Hn'.
  { cbn in Hn. apply lookup_insert_Some in Hn as [[_ <-]|[_ Hn]]; [by left|].
    apply lookup_singleton_Some in Hn as [_ <-]. by right. }
  destruct Hn' as [-> | ->]; (split; [apply Ho|]; intros e He; exfalso; revert He;
    match goal with |- context [fresh_follower ?a ?b] => unfold fresh_follower; rewrite (proj2 (Ho a Follower ["l"; b])) end;
    apply not_elem_of_nil).
Qed.

(** The entry is appended and reaches "f". *)
Definition sent_group : group :=
  mkGroup (addLog_begin default_order client_request fresh_leader).2 [appended_entry client_append]
    (<["f" := (AppendEntries 0 0 client_append (fresh_follower "f" "g")).2]> (followers fresh_group)) [client_append].

Lemma sent_group_reachable : rtc group_step fresh_group sent_group.
Proof.
  eapply rtc_l.
  - apply (gs_client default_order client_request (mkPending client_append 1 1 2
        (filter (λ s, Connection s = true) (Peers default_order fresh_leader)) false) fresh_leader
      (addLog_begin default_order client_request fresh_leader).2). vm_compute. reflexivity.
  - apply rtc_once. apply (gs_deliver "f" (fresh_follower "f" "g") 0 0 client_append); [reflexivity | left].
Qed.

Lemma logs_agree_witness :
  sublist (key <$> entries (FileHandler (served "f" "g").2)) (key <$> history sent_group) ∧
  last (entries (FileHandler (served "g" "f").2)) = Some (appended_entry client_append).
Proof.
  destruct (logs_agree fresh_group sent_group fresh_group_start sent_group_reachable) as (H1 & _ & H3).
  split.
  - apply (H1 "f" (served "f" "g").2). reflexivity.
  - apply (H3 "g" (fresh_follower "g" "f") 0 0 client_append); [reflexivity|left|vm_compute; discriminate|].
    vm_compute. reflexivity.
Defined.
