(* ===== verification/RaftBoot.v ===== *)
(** * The loops of a consensus node

    [src/cmd/consensus_node]: the wait for a majority of the cluster at the start,
    and the loop that starts an election when the leader has been silent. *)

From Stdlib Require Import Strings.String.
From S2P Require Import Prelude.
From S2P Require Import Bytes.
From S2P Require Import LogCodec.
From S2P Require Import Fs.
From S2P Require Import Storage.
From S2P Require Import RaftState.
From S2P Require Import RaftNode.
From S2P Require Import RaftElection.
From S2P Require Import RaftReplication.

(** ** The start *)

(** src/cmd/consensus_node/main.go:113-132 (waitForMajorityConnected)

    [readings] is what each tick finds connected, until the context or the time is
    over; true for a nil error, [None] when it still waits. *)
Fixpoint waitForMajorityConnected (numberOfPeers : Z) (readings : list (option Z)) : option bool :=
  match readings with
  | [] => None
  | None :: _ => Some false
  | Some connected :: readings =>
      if (numberOfPeers + 1) / 2 <=? connected then Some true
      else waitForMajorityConnected numberOfPeers readings
  end.

(** src/cmd/consensus_node/main.go:142-145 (runRaftLoops, a tick) *)
Definition raft_tick (ord : MapOrder) (now rnd : Z) (env : environment) (n : Node) : Node :=
  if Node_IsElectionTimeout now n then StartElection ord now rnd env n else n.

(** The wait ends well only with a strict majority: the connected peers and the
    node itself. *)
Lemma majority_connected numberOfPeers readings :
  waitForMajorityConnected numberOfPeers readings = Some true →
  ∃ connected, Some connected ∈ readings ∧ numberOfPeers + 1 < 2 * (connected + 1).
Proof.
  induction readings as [|[c|] l IH]; cbn; [done| |done].
  destruct (_ <=? c) eqn:E.
  - intros _. exists c. split; [left|]. bool_to_prop.
    pose proof (Z.div_mod (numberOfPeers + 1) 2). pose proof (Z.mod_pos_bound (numberOfPeers + 1) 2). lia.
  - intros H. destruct (IH H) as (c' & ? & ?). exists c'. split; [by right | done].
Qed.

(** ** Elections start by silence *)

(** A follower whose timer is in the range [resetElectionTimer] draws from. *)
Record follows (t last : Z) (n : Node) : Prop := {
  fo_role : role (state n) = Follower;
  fo_term : currentTerm (state n) ≤ t;
  fo_contact : LastContact (state n) = last;
  fo_timeout : 150 * Millisecond ≤ ElectionTimeout (state n) < 300 * Millisecond
}.

(** What happens to the node: a tick of its loop, or an append that arrives. *)
Inductive raft_event :=
| LoopTick (now rnd : Z) (env : environment)
| Append_at (now rnd : Z) (req : AppendRequest).

Definition raft_event_step (ord : MapOrder) (n : Node) (e : raft_event) : Node :=
  match e with
  | LoopTick now rnd env => raft_tick ord now rnd env n
  | Append_at now rnd req => (AppendEntries now rnd req n).2
  end.

(** The appends of a leader of term [t] are never more than 150 ms apart. *)
Fixpoint heard (t last : Z) (es : list raft_event) : Prop :=
  match es with
  | [] => True
  | LoopTick now _ _ :: es => now ≤ last + 150 * Millisecond ∧ heard t last es
  | Append_at now _ req :: es => ar_Term req = t ∧ heard t now es
  end.

Definition is_append (e : raft_event) : bool := match e with Append_at _ _ _ => true | _ => false end.

Lemma follows_tick ord now rnd env t last n :
  follows t last n → now ≤ last + 150 * Millisecond → raft_tick ord now rnd env n = n.
Proof.
  intros [Hr _ Hc Ht] Hn. unfold raft_tick, Node_IsElectionTimeout, IsElectionTimeout.
  rewrite bool_decide_eq_false_2 by congruence. rewrite (proj2 (Z.ltb_ge _ _)); [done|]. lia.
Qed.

Lemma follows_append now rnd req t last n :
  follows t last n → ar_Term req = t → follows t now (AppendEntries now rnd req n).2.
Proof.
  intros [Hr Hct Hc Ht] Hreq.
  assert (state (AppendEntries now rnd req n).2 = state (accept_leader now rnd req n)) as Hs.
  { rewrite AppendEntries_eq. cbv zeta. rewrite (proj2 (Z.ltb_ge _ _)) by lia.
    split_matches; try done. by rewrite append_to_log_state. }
  destruct (accept_leader_spec now rnd req n) as (_ & Hr' & _ & Hct' & _).
  split; rewrite Hs; [done | lia | |].
  all: unfold accept_leader; destruct (currentTerm (state n) <? ar_Term req); simpl; by rewrite Hr.
Qed.

(** A follower that hears from a leader at least every 150 ms never starts an
    election: the ticks of its loop change nothing. *)
Theorem heard_follower_waits ord t es : ∀ last n,
  follows t last n → heard t last es →
  foldl (raft_event_step ord) n es = foldl (raft_event_step ord) n (filter (λ e, is_append e = true) es) ∧
  role (state (foldl (raft_event_step ord) n es)) = Follower.
Proof.
  induction es as [|e es IH]; intros last n Hf Hh; [split; [done | apply Hf]|].
  rewrite filter_cons. cbn [foldl]. destruct e as [now rnd env|now rnd req]; cbn [heard] in Hh.
  - destruct Hh as [Hn Hh]. cbn [is_append]. rewrite decide_False by done.
    cbn [raft_event_step]. rewrite (follows_tick _ _ _ _ t last) by done. by eapply IH.
  - destruct Hh as [Hreq Hh]. cbn [is_append]. rewrite decide_True by done. cbn [foldl].
    eapply IH; [|exact Hh]. by eapply follows_append.
Qed.

(** After 300 ms of silence the next tick starts one. *)
Theorem silent_follower_runs ord now rnd env t last n :
  follows t last n → last + 300 * Millisecond ≤ now →
  raft_tick ord now rnd env n = StartElection ord now rnd env n ∧
  ∃ req, (start_prevote now n).1 = Some (req, currentTerm (state n)) ∧
    vr_OriginNodeId req = id (state n) ∧ vr_Gossip req = true.
Proof.
  intros [Hr _ Hc Ht] Hn. split.
  - unfold raft_tick, Node_IsElectionTimeout, IsElectionTimeout.
    rewrite bool_decide_eq_false_2 by congruence. by rewrite (proj2 (Z.ltb_lt _ _)) by lia.
  - unfold start_prevote. rewrite bool_decide_eq_false_2 by congruence. by eexists.
Qed.
