(* ===== verification/RaftClient.v ===== *)
(** * Clients of the consensus node

    [internal/consensus/service/serve.go]: appends from clients with the guard
    against duplicate claims, and reads. *)

From Stdlib Require Import Strings.Byte Strings.String.
From S2P Require Import Prelude.
From S2P Require Import Bytes.
From S2P Require Import Json.
From S2P Require Import JsonAny.
From S2P Require Import Models.
From S2P Require Import LogCodec.
From S2P Require Import Fs.
From S2P Require Import Storage.
From S2P Require Import Queries.
From S2P Require Import RaftState.
From S2P Require Import RaftNode.

(** ** The payload the guard looks at *)

(** src/internal/consensus/service/serve.go:91-96 (peekPayload)

    [Entry any] is kept as the JSON value; [null] and an absent key are [None]. *)
Record peekPayload := mkPeekPayload {
  pk_ID : string; pk_State : option Z; pk_Entry : option json; pk_Timestamp : Z
}.

(** [a * 2^-k <= lit <= b * 2^-k]. *)
Definition literal_between (a b k : Z) (lit : list byte) : bool :=
  let '(m, e) := literal_value lit in
  let num := if 0 <=? e then m * 10 ^ e * 2 ^ k else m * 2 ^ k in
  let den := if 0 <=? e then 1 else 10 ^ (- e) in
  (a * den <=? num) && (num <=? b * den).

Definition into_any (v : json) : option (option json) :=
  match v with
  | JNull => Some None
  | _ => if any_ok v then Some (Some v) else None
  end.

(** [fmt.Sprintf("%v", entry)] as far as it can be one of the texts the guard
    looks for: a string is itself; a number prints as 2 or 3 exactly when its
    [float64] is that integer (neighbouring doubles are 2^-52 apart below 2 and
    2^-51 above it, and ties go to even); every other value prints as something else ([None]). *)
Definition entry_text (v : json) : option string :=
  match v with
  | JString s => Some (string_of_list_byte s)
  | JNumber lit =>
      if literal_between (2 ^ 54 - 1) (2 ^ 54 + 2) 53 lit then Some "2"%string
      else if literal_between (3 * 2 ^ 52 - 1) (3 * 2 ^ 52 + 1) 52 lit then Some "3"%string
      else None
  | _ => None
  end.

Definition peekPayload_member (p : peekPayload) (key : list byte) (v : json)
    : option peekPayload :=
  let '(mkPeekPayload i s e t) := p in
  if key_is "id" key then x ← into_string i v; Some (mkPeekPayload x s e t)
  else if key_is "state" key then x ← into_ptr into_int 0 s v; Some (mkPeekPayload i x e t)
  else if key_is "entry" key then x ← into_any v; Some (mkPeekPayload i s x t)
  else if key_is "timestamp" key then x ← into_int t v; Some (mkPeekPayload i s e x)
  else Some p.

Definition peek_cas (payload : list byte) : option peekPayload :=
  unmarshal (λ p k _ v, peekPayload_member p k v) (mkPeekPayload EmptyString None None 0) payload.

(** src/internal/consensus/service/serve.go:81-87 (casConflict) *)
Inductive casConflict := casNoConflict | casConcurrentClaim | casDuplicateSchedulerEvent.

#[export] Instance casConflict_eq_dec : EqDecision casConflict.
Proof. solve_decision. Defined.

(** src/internal/consensus/service/serve.go:132-132 (isThunderingHerdEvent) *)
Definition thundering (s : option string) : bool :=
  match s with
  | Some s => bool_decide (s = SchedulerEvent_String HeartbeatFailed)
              || bool_decide (s = SchedulerEvent_String RedistributedJobs)
              || bool_decide (s = "2"%string) || bool_decide (s = "3"%string)
  | None => false
  end.

Definition claims (p : peekPayload) : bool :=
  match pk_State p with Some s => 0 <=? s | None => false end.

(** src/internal/consensus/service/serve.go:122-146 (checkCASConflict, the two guards) *)
Definition cas_guards (incoming current : peekPayload) : casConflict :=
  if claims incoming && claims current && bool_decide (pk_State current = pk_State incoming)
  then casConcurrentClaim else
  match pk_Entry incoming, pk_Entry current with
  | Some ie, Some ce =>
      let inStr := entry_text ie in
      let curStr := entry_text ce in
      let timeDiffMillis := wrap64 (pk_Timestamp incoming - pk_Timestamp current) in
      if thundering inStr && bool_decide (inStr = curStr)
         && (-5000 <? timeDiffMillis) && (timeDiffMillis <? 5000)
      then casDuplicateSchedulerEvent else casNoConflict
  | _, _ => casNoConflict
  end.

(** src/internal/consensus/service/serve.go:90-147 (checkCASConflict) *)
Definition checkCASConflict (payload : list byte) (h : Handler) : casConflict :=
  match peek_cas payload with
  | None => casNoConflict
  | Some incoming =>
      if bool_decide (pk_ID incoming = EmptyString) then casNoConflict else
      if negb (claims incoming) && bool_decide (pk_Entry incoming = None) then casNoConflict else
      match QueryEntries None (Some (pk_ID incoming)) h with
      | [] => casNoConflict
      | e :: _ =>
          match peek_cas (Payload e) with
          | None => casNoConflict
          | Some current => cas_guards incoming current
          end
      end
  end.

(** ** Appends *)

(** src/internal/consensus/service/serve.go:15-36 (ClientAppend, the standard response) *)
Definition std_response (req : RawAppendRequest) (n : Node) : AppendResponse :=
  let l := leaderID (state n) in
  let leaderAddr :=
    if bool_decide (role (state n) = Leader) then EmptyString
    else if bool_decide (l = EmptyString) then EmptyString
    else if bool_decide (l = id (state n)) then address (state n)
    else match peers_map n !! l with Some peer => address peer | None => EmptyString end in
  mkAppendResponse (raw_RequestId req) BAD_PAYLOAD (-1) (-1) leaderAddr.

Definition with_status (s : AppendResponseStatus) (r : AppendResponse) : AppendResponse :=
  mkAppendResponse (RequestId r) s (PrevLogTerm r) (PrevLogIndex r) (LeaderAddress r).

(** src/internal/consensus/service/serve.go:38-58 (ClientAppend, the guards)

    The response when the request goes no further. *)
Definition clientAppend_guard (req : RawAppendRequest) (n : Node) : option AppendResponse :=
  let stdResp := std_response req n in
  if negb (bool_decide (role (state n) = Leader)) then Some stdResp else
  match checkCASConflict (raw_Payload req) (FileHandler n) with
  | casNoConflict => None
  | casDuplicateSchedulerEvent => Some (with_status BAD_PAYLOAD stdResp)
  | casConcurrentClaim => Some (with_status CONCURRENT_CLAIM stdResp)
  end.

Definition chan_capacity : nat := 100.

(** src/internal/consensus/service/serve.go:60-64 (ClientAppend, the send)

    [None]: the channel is full or closed to nil, and the call waits for its
    context. *)
Definition clientAppend_send (req : RawAppendRequest) (n : Node) : option Node :=
  match appendChan n with
  | Some q => if (length q <? chan_capacity)%nat then Some (set_chan (Some (q ++ [req])) n) else None
  | None => None
  end.

(** src/internal/consensus/service/serve.go:67-78 (ClientAppend, the wait)

    [None]: the context ended first. *)
Definition clientAppend_answer (stdResp : AppendResponse) (r : option bool) : AppendResponse :=
  match r with
  | None => stdResp
  | Some true => with_status SUCCESS stdResp
  | Some false => with_status FAILED_CONSENSUS stdResp
  end.

(** src/internal/consensus/service/serve.go:14-79 (ClientAppend)

    [before] is what the node does between the send and the registration,
    [after] what it does until the caller looks at its channel or gives up. *)
Definition ClientAppend (before after : Node → Node) (req : RawAppendRequest) (n : Node)
    : option AppendResponse * Node :=
  match clientAppend_guard req n with
  | Some resp => (Some resp, n)
  | None =>
      let stdResp := std_response req n in
      match clientAppend_send req n with
      | None => (None, n)
      | Some n =>
          let n := before n in
          let '(ch, r) := Register (raw_RequestId req) (reqRegistry n) in
          let n := after (set_registry r n) in
          (Some (clientAppend_answer stdResp (received ch (reqRegistry n))), n)
      end
  end.

(** src/internal/consensus/service/serve.go:151-172 (GetData) *)
Definition GetData (req : GetDataRequest) (n : Node) : GetDataResponse :=
  let es := QueryEntries (SchedulerIdQuery req) (PayloadIdQuery req) (FileHandler n) in
  mkGetDataResponse (id (state n)) (0 <? len es) (Payload <$> es).

(** ** The registry delivers to whoever registered first *)

Inductive registry_op := OpRegister (rid : string) | OpResolve (rid : string) (v : bool)
  | OpDeregister (rid : string).

Definition op_id (o : registry_op) : string :=
  match o with OpRegister r | OpResolve r _ | OpDeregister r => r end.

Definition registry_run (ops : list registry_op) (r : requestRegistry) : requestRegistry :=
  foldl (λ r o, match o with
                | OpRegister rid => (Register rid r).2
                | OpResolve rid v => Resolve rid v r
                | OpDeregister rid => Deregister rid r
                end) r ops.

Lemma registry_ok_Deregister rid r : registry_ok r → registry_ok (Deregister rid r).
Proof.
  intros [Hb Hi]. split; simpl.
  - intros k c [_ Hc]%lookup_delete_Some. by apply (Hb k).
  - intros a b c [_ Ha]%lookup_delete_Some [_ Hb']%lookup_delete_Some. by eapply Hi.
Qed.

(** Operations on other ids keep a registration. *)
Lemma registry_run_keeps rid ch ops r :
  registry_ok r → channels r !! rid = Some ch → Forall (λ o, op_id o ≠ rid) ops →
  registry_ok (registry_run ops r) ∧ channels (registry_run ops r) !! rid = Some ch.
Proof.
  intros Hr Hc Hops. revert r Hr Hc. induction Hops as [|o ops Ho _ IH]; intros r Hr Hc; [done|].
  simpl. apply IH.
  - destruct o; [by apply registry_ok_Register|by apply registry_ok_Resolve|by apply registry_ok_Deregister].
  - destruct o as [k|k v|k]; simpl in *; [by rewrite lookup_insert_ne| |by rewrite lookup_delete_ne].
    unfold Resolve. destruct (channels r !! k); [|done]. simpl. by rewrite lookup_delete_ne.
Qed.

Lemma received_Resolve rid ch v r :
  registry_ok r → channels r !! rid = Some ch → received ch (Resolve rid v r) = Some v.
Proof.
  intros [Hb _] Hc. unfold received, Resolve. rewrite Hc. simpl.
  rewrite list_lookup_insert_eq; [done|]. apply Hb in Hc. by eapply lookup_lt_Some.
Qed.

(** What a client is told. If the decision on its request is made after the
    client registered, the answer reports it: success exactly when the entry was
    committed. If the decision is made between the send and the registration, it
    is lost: whatever it was, the client waits for its context to end and is then
    told BAD_PAYLOAD. *)
Theorem ClientAppend_reports before req n v ops :
  clientAppend_guard req n = None → is_Some (clientAppend_send req n) →
  (∀ m, registry_ok (reqRegistry (before m))) →
  Forall (λ o, op_id o ≠ raw_RequestId req) ops →
  let others m := set_registry (registry_run ops (reqRegistry m)) m in
  let decide m := set_registry (Resolve (raw_RequestId req) v (reqRegistry m)) m in
  AStatus <$> (ClientAppend before (λ m, decide (others m)) req n).1 =
    Some (if v then SUCCESS else FAILED_CONSENSUS) ∧
  AStatus <$> (ClientAppend (λ m, decide (before m)) others req n).1 = Some BAD_PAYLOAD.
Proof.
  intros Hg [n1 Hs] Hok Hops others decide. unfold ClientAppend. rewrite Hg, Hs.
  set (rid := raw_RequestId req) in *. split.
  - pose proof (registry_ok_Register rid _ (Hok n1)) as Hr.
    assert (channels (Register rid (reqRegistry (before n1))).2 !! rid =
      Some (length (bufs (reqRegistry (before n1))))) as Hc by (simpl; by rewrite lookup_insert_eq).
    destruct (registry_run_keeps rid _ ops _ Hr Hc Hops) as [Hr' Hc'].
    unfold Register. unfold decide, others. cbn [reqRegistry set_registry fst].
    cbn [Register fst snd] in Hr', Hc'. rewrite received_Resolve by done. by destruct v.
  - pose proof (registry_ok_Resolve rid v _ (Hok n1)) as Hr0.
    set (r0 := Resolve rid v (reqRegistry (before n1))) in *.
    pose proof (registry_ok_Register rid _ Hr0) as Hr.
    assert (channels (Register rid r0).2 !! rid = Some (length (bufs r0))) as Hc
      by (simpl; by rewrite lookup_insert_eq).
    destruct (registry_run_keeps rid _ ops _ Hr Hc Hops) as [[Hb _] Hc'].
    apply Hb in Hc'. unfold decide, others. cbn [reqRegistry set_registry]. fold r0.
    unfold Register in *. cbn [fst snd reqRegistry set_registry] in *.
    unfold received. rewrite Hc'. done.
Qed.

Definition sample_req : RawAppendRequest :=
  mkRawAppendRequest "o" "r1" "node-1" (text "{'id':'a','state':0}").
Definition lone_leader : Node :=
  NewNode (mkState "l" "addr" EmptyString Leader false 0 0 None None 1 EmptyString)
    (mkStore (mkFS ∅ []) (mkHandler None None 0 64 0 0 0 0 [] (Some false))).

Lemma ClientAppend_reports_witness :
  AStatus <$> (ClientAppend (λ m, m)
    (λ m, set_registry (Resolve "r1" true (reqRegistry m)) m) sample_req lone_leader).1 =
  Some SUCCESS.
Proof.
  destruct (ClientAppend_reports (λ _, lone_leader) sample_req lone_leader true []) as [H _].
  - vm_compute. reflexivity.
  - vm_compute. by eexists.
  - intros m. exact registry_ok_new.
  - constructor.
  - rewrite <- H. vm_compute. reflexivity.
Defined.

(** ** The guard against duplicate claims *)

(** The newest entry of the log whose payload carries the id. *)
Definition newest_entry (i : string) (h : Handler) : option LogEntry :=
  last (filter (matches None (Some i)) (entries h)).

(** C27: a client's append is refused as a concurrent claim exactly when it names a
    job state that the newest entry recorded for the same id already has; claims
    of another state, payloads that do not parse or have no id, and ids the log
    does not know are let through by this guard. *)
Theorem checkCASConflict_claim payload h :
  checkCASConflict payload h = casConcurrentClaim ↔
  ∃ p e c s, peek_cas payload = Some p ∧ pk_ID p ≠ EmptyString ∧
    newest_entry (pk_ID p) h = Some e ∧ peek_cas (Payload e) = Some c ∧
    pk_State p = Some s ∧ pk_State c = Some s ∧ 0 ≤ s.
Proof.
  unfold checkCASConflict. split.
  - destruct (peek_cas payload) as [p|]; [|done]. case_bool_decide as Hid; [done|].
    destruct (_ && _); [done|]. rewrite QueryEntries_payload. fold (newest_entry (pk_ID p) h).
    destruct (newest_entry _ h) as [e|] eqn:He; [|done].
    change (option_list (Some e)) with [e]. cbv iota.
    destruct (peek_cas (Payload e)) as [c|] eqn:Hc; [|done]. unfold cas_guards.
    destruct (claims p && claims c && _) eqn:E.
    2: { intros Hres. exfalso. revert Hres. repeat case_match; done. }
    intros _. bool_to_prop.
    unfold claims in *. destruct (pk_State p) as [s|] eqn:Hs; [|done]. bool_to_prop.
    exists p, e, c, s. by split_and!.
  - intros (p & e & c & s & -> & Hid & He & Hc & Hs & Hs' & Hpos).
    rewrite bool_decide_eq_false_2 by done. rewrite QueryEntries_payload.
    fold (newest_entry (pk_ID p) h). rewrite He.
    change (option_list (Some e)) with [e]. cbv iota. rewrite Hc.
    unfold cas_guards, claims. rewrite Hs, Hs', (proj2 (Z.leb_le _ _)) by done. simpl.
    by rewrite bool_decide_eq_true_2.
Qed.
