(* ===== verification/Arbiter.v ===== *)
(** * The generic packing queue of the arbiter package

    [internal/arbiter/packer.go]: a map of live items, a slice [order] that may
    hold removed items until the next compaction, and a [dirty] flag. The
    element type is a parameter; its fields are read through accessors. In Go
    the accessors are closures that dereference a pointer, so they are an
    argument of the operations: a client whose elements are pointers passes
    the accessors of its current heap. *)

From S2P Require Import Prelude.

Section Queue.
Context {T : Type}.

(** src/internal/arbiter/packer.go:18-21 (Queue accessors) *)
Record Accessors := {
  idFn : T → string;
  prioFn : T → Z;
  cpuFn : T → Z;
  memFn : T → Z
}.

(** src/internal/arbiter/packer.go:12-22 (Queue) *)
Record Queue := mkQueue {
  items : gmap string T;
  order : list T;
  dirty : bool
}.

(** src/internal/arbiter/packer.go:27-37 (NewQueue) *)
Definition NewQueue : Queue := mkQueue ∅ [] false.

Context (acc : Accessors).

(** src/internal/arbiter/packer.go:41-54 (Queue.Push) *)
Definition Push (item : T) (q : Queue) : Queue :=
  let id := idFn acc item in
  let q1 := match items q !! id with
            | None => mkQueue (items q) (order q ++ [item]) true
            | Some _ => q
            end in
  mkQueue (<[id := item]> (items q1)) (order q1) (dirty q1).

(** src/internal/arbiter/packer.go:59-75 (Queue.PushBatch) *)
Definition PushBatch (its : list T) (q : Queue) : Queue :=
  match its with
  | [] => q
  | _ => foldl (λ q it, Push it q) q its
  end.

(** src/internal/arbiter/packer.go:78-94 (Queue.PeekForHeuristic) *)
Definition PeekForHeuristic (ord : MapOrder) (heuristic : T → bool) (q : Queue) : list T :=
  if (size (items q) =? 0)%nat then []
  else filter (λ v, heuristic v = true) (range ord (items q)).*2.

(** src/internal/arbiter/packer.go:98-106 (Queue.RemoveByID) *)
Definition RemoveByID (id : string) (q : Queue) : Queue :=
  match items q !! id with
  | Some _ => mkQueue (delete id (items q)) (order q) true
  | None => q
  end.

(** src/internal/arbiter/packer.go:109-116 (Queue.Clear) *)
Definition Clear (q : Queue) : Queue := mkQueue ∅ [] false.

(** src/internal/arbiter/packer.go:120-129 (Queue.IDs) *)
Definition IDs (ord : MapOrder) (q : Queue) : list string := (range ord (items q)).*1.

(** src/internal/arbiter/packer.go:132-136 (Queue.Size) *)
Definition Size (q : Queue) : Z := wrap32 (Z.of_nat (size (items q))).

(** src/internal/arbiter/packer.go:139-148 (Queue.Items) *)
Definition Items (ord : MapOrder) (q : Queue) : list T := (range ord (items q)).*2.

(** src/internal/arbiter/packer.go:225-234 (sortAndCompact less) *)
Definition less (x y : T) : bool :=
  let prioI := prioFn acc x in
  let prioJ := prioFn acc y in
  if negb (prioI =? prioJ) then prioI >? prioJ
  else memFn acc x >? memFn acc y.

(** src/internal/arbiter/packer.go:216-237 (Queue.sortAndCompact) *)
Definition sortAndCompact (q : Queue) : Queue :=
  let compacted := filter (λ it, is_Some (items q !! idFn acc it)) (order q) in
  mkQueue (items q) (stable_sort less compacted) false.

(** src/internal/arbiter/packer.go:166-166 (PopBestFit constraint) *)
Definition fits (availCPU availMem : Z) (it : T) : bool :=
  (cpuFn acc it <=? availCPU) && (memFn acc it <=? availMem).

(** src/internal/arbiter/packer.go:152-178 (Queue.PopBestFit) *)
Definition PopBestFit (availCPU availMem : Z) (q : Queue) : option T * Queue :=
  if (size (items q) =? 0)%nat then (None, q)
  else
    let q := if dirty q then sortAndCompact q else q in
    match pop_first (fits availCPU availMem) (order q) with
    | Some (it, rest) =>
        (Some it, mkQueue (delete (idFn acc it) (items q)) rest (dirty q))
    | None => (None, q)
    end.

(** src/internal/arbiter/packer.go:181-211 (Queue.PopBestFitHeuristic) *)
Definition PopBestFitHeuristic (availCPU availMem : Z) (heuristic : T → bool)
    (q : Queue) : option T * Queue :=
  if (size (items q) =? 0)%nat then (None, q)
  else
    let q := if dirty q then sortAndCompact q else q in
    match pop_first (λ it, fits availCPU availMem it && heuristic it) (order q) with
    | None => (None, q)
    | Some (bestItem, rest) =>
        (Some bestItem, mkQueue (delete (idFn acc bestItem) (items q)) rest (dirty q))
    end.

(** ** Ranking *)

Lemma less_asym x y : less x y = true → less y x = false.
Proof.
  unfold less. rewrite (Z.eqb_sym (prioFn acc y)).
  destruct (prioFn acc x =? prioFn acc y) eqn:E; simpl; intros; bool_to_prop; lia.
Qed.

Lemma before_rank x y :
  before less x y ↔
  prioFn acc y < prioFn acc x ∨ (prioFn acc y = prioFn acc x ∧ memFn acc y ≤ memFn acc x).
Proof.
  unfold before, less.
  destruct (prioFn acc y =? prioFn acc x) eqn:E; simpl;
    rewrite Z.gtb_ltb, Z.ltb_ge; bool_to_prop; lia.
Qed.

Lemma before_trans x y z : before less x y → before less y z → before less x z.
Proof. rewrite !before_rank. lia. Qed.

(** ** Well-formed queues

    [order] holds every live item once, possibly together with items that were
    removed; a clean queue holds exactly the live items, best first. *)

Record queue_wf (q : Queue) : Prop := {
  wf_keys : ∀ id it, items q !! id = Some it → idFn acc it = id;
  wf_nodup : NoDup (idFn acc <$> order q);
  wf_items : ∀ id it, items q !! id = Some it → it ∈ order q;
  wf_clean : dirty q = false →
    (∀ it, it ∈ order q → items q !! idFn acc it = Some it) ∧
    StronglySorted (before less) (order q)
}.

(** An item may be pushed when its id is new to [order], or when it is the
    very item already queued under that id. *)
Definition pushable (it : T) (q : Queue) : Prop :=
  items q !! idFn acc it = Some it ∨ idFn acc it ∉ (idFn acc <$> order q).

Lemma queue_wf_new : queue_wf NewQueue.
Proof. split; simpl; [done | constructor | done | set_solver || (split; [set_solver | constructor])]. Qed.

Lemma Push_items it q : items (Push it q) = <[idFn acc it := it]> (items q).
Proof. unfold Push. by destruct (items q !! _). Qed.

Lemma Push_wf it q : queue_wf q → pushable it q → queue_wf (Push it q).
Proof.
  intros [Hk Hn Hi Hc] Hp. unfold Push.
  destruct (items q !! idFn acc it) as [it'|] eqn:E; simpl.
  - destruct Hp as [Hp | Hp].
    + rewrite insert_id by done. by split.
    + destruct Hp. rewrite <- (Hk _ _ E). apply list_elem_of_fmap; eauto.
  - destruct Hp as [Hp | Hp]; [congruence|]. split; simpl.
    + intros id x [[<- <-] | [Hne Hx]]%lookup_insert_Some; eauto.
    + rewrite fmap_app. apply NoDup_app. split_and!; [done | | apply NoDup_singleton].
      intros id Hid ->%list_elem_of_singleton. done.
    + intros id x [[<- <-] | [Hne Hx]]%lookup_insert_Some; apply elem_of_app; [right|left].
      * by apply list_elem_of_singleton.
      * eauto.
    + done.
Qed.

Lemma RemoveByID_items id q : items (RemoveByID id q) = delete id (items q).
Proof.
  unfold RemoveByID. destruct (items q !! id) eqn:E; [done|]. by rewrite delete_id.
Qed.

Lemma RemoveByID_wf id q : queue_wf q → queue_wf (RemoveByID id q).
Proof.
  intros [Hk Hn Hi Hc]. unfold RemoveByID. destruct (items q !! id); [|done].
  split; simpl; try done; intros ? ? [_ ?]%lookup_delete_Some; eauto.
Qed.

Lemma elem_of_sortAndCompact it q :
  it ∈ order (sortAndCompact q) ↔ it ∈ order q ∧ is_Some (items q !! idFn acc it).
Proof.
  simpl. rewrite (stable_sort_perm less), list_elem_of_filter. tauto.
Qed.

(** A listed element with a live id is the live item. *)
Lemma wf_live q it :
  queue_wf q → it ∈ order q → is_Some (items q !! idFn acc it) →
  items q !! idFn acc it = Some it.
Proof.
  intros Hq Hin [it' Hl]. rewrite Hl. f_equal.
  eapply (NoDup_fmap_inj_in (idFn acc)); eauto using wf_nodup, wf_items, wf_keys.
Qed.

Lemma sortAndCompact_wf q : queue_wf q → queue_wf (sortAndCompact q).
Proof.
  intros Hq. pose proof Hq as [Hk Hn Hi Hc]. split.
  - done.
  - eapply fmap_perm_NoDup; [symmetry; apply stable_sort_perm|].
    by apply NoDup_fmap_filter.
  - intros id it Hl. rewrite elem_of_sortAndCompact.
    rewrite (Hk _ _ Hl). split; [|by eexists]. by eapply Hi.
  - intros _. split.
    + intros it [Hin Hl]%elem_of_sortAndCompact. by apply (wf_live q).
    + apply stable_sort_sorted; eauto using less_asym, before_trans.
Qed.

(** Removing the element a pop selected. *)
Lemma take_wf q (p : T → bool) it rest :
  queue_wf q → dirty q = false → pop_first p (order q) = Some (it, rest) →
  queue_wf (mkQueue (delete (idFn acc it) (items q)) rest (dirty q)).
Proof.
  intros [Hk Hn Hi Hc] Hd (l1 & l2 & Ho & -> & _ & _)%pop_first_Some.
  destruct (Hc Hd) as [Hlive Hs]. rewrite Ho in Hn, Hs, Hlive.
  apply NoDup_fmap_middle in Hn as [Hn Hfresh]. split; simpl.
  - intros id x [_ Hx]%lookup_delete_Some. eauto.
  - done.
  - intros id x [Hne Hx]%lookup_delete_Some. pose proof (Hk _ _ Hx) as <-.
    apply Hi in Hx. rewrite Ho in Hx.
    rewrite elem_of_app, elem_of_cons in Hx. rewrite elem_of_app.
    destruct Hx as [?|[->|?]]; [tauto | done | tauto].
  - intros _. split; [|by eapply StronglySorted_app_remove].
    intros x Hx. rewrite lookup_delete_ne by (symmetry; by apply Hfresh).
    apply Hlive. rewrite elem_of_app, elem_of_cons. rewrite elem_of_app in Hx. tauto.
Qed.

(** ** What the pops return *)

(** The queue a pop searches: compacted when dirty. *)
Definition settled (q : Queue) : Queue := if dirty q then sortAndCompact q else q.

Lemma settled_wf q : queue_wf q → queue_wf (settled q) ∧ dirty (settled q) = false.
Proof.
  intros Hq. unfold settled. destruct (dirty q) eqn:E; [|done].
  split; [by apply sortAndCompact_wf | done].
Qed.

Lemma settled_items q : items (settled q) = items q.
Proof. unfold settled. by destruct (dirty q). Qed.

Lemma PopBestFit_eq c m q : PopBestFit c m q = PopBestFitHeuristic c m (λ _, true) q.
Proof.
  unfold PopBestFit, PopBestFitHeuristic. destruct (_ =? 0)%nat; [done|].
  rewrite (pop_first_ext _ (λ it, fits c m it && true)); [done|].
  intros. by rewrite andb_true_r.
Qed.

(** The contract of a pop, on the live items alone. *)
Definition pop_spec (good : T → bool) (live : gmap string T) (r : option T)
    (live' : gmap string T) : Prop :=
  match r with
  | Some it =>
      live !! idFn acc it = Some it ∧ good it = true ∧
      live' = delete (idFn acc it) live ∧
      ∀ id it', live !! id = Some it' → good it' = true → it' = it ∨ before less it it'
  | None => live' = live ∧ ∀ id it', live !! id = Some it' → good it' = false
  end.

#[export] Instance pop_spec_proper :
  Proper (pointwise_relation T eq ==> eq ==> eq ==> eq ==> impl) pop_spec.
Proof.
  intros g g' Hg l ? <- r ? <- l' ? <-. unfold pop_spec.
  destruct r as [it|]; setoid_rewrite <- Hg; done.
Qed.

Lemma PopBestFitHeuristic_sound c m h q r q' :
  queue_wf q → PopBestFitHeuristic c m h q = (r, q') →
  queue_wf q' ∧ pop_spec (λ it, fits c m it && h it) (items q) r (items q').
Proof.
  intros Hq. unfold PopBestFitHeuristic. destruct (_ =? 0)%nat eqn:Hz.
  - intros [= <- <-]. split; [done|]. split; [done|].
    apply Nat.eqb_eq, map_size_empty_inv in Hz. rewrite Hz. intros id it' H.
    by rewrite lookup_empty in H.
  - fold (settled q). destruct (settled_wf q Hq) as [Hs Hd].
    pose proof (settled_items q) as Hi.
    destruct (pop_first _ (order (settled q))) as [[it rest]|] eqn:E;
      intros [= <- <-]; simpl; (split; [by eapply take_wf || done |]).
    + rewrite Hi. destruct (wf_clean _ Hs Hd) as [Hlive Hsort].
      pose proof E as (l1 & l2 & Ho & _ & Hg & _)%pop_first_Some.
      split_and!; [|done|done|].
      * rewrite <- Hi. apply Hlive. rewrite Ho. set_solver.
      * intros id it' Hl Hg'. rewrite <- Hi in Hl. apply (wf_items _ Hs) in Hl.
        by eapply pop_first_best.
    + split; [done|]. intros id it' Hl. rewrite <- Hi in Hl.
      apply (wf_items _ Hs) in Hl. apply pop_first_None in E.
      rewrite Forall_forall in E. auto.
Qed.

(** ** Reachable queues

    One step of a client that never pushes an id while a removed element of
    that id still waits for compaction. *)
Inductive queue_step : Queue → Queue → Prop :=
| step_push it q : pushable it q → queue_step q (Push it q)
| step_remove id q : queue_step q (RemoveByID id q)
| step_clear q : queue_step q (Clear q)
| step_pop c m q : queue_step q (PopBestFit c m q).2
| step_pop_heuristic c m h q : queue_step q (PopBestFitHeuristic c m h q).2.

Lemma PopBestFitHeuristic_wf c m h q :
  queue_wf q → queue_wf (PopBestFitHeuristic c m h q).2.
Proof.
  intros Hq. destruct (PopBestFitHeuristic c m h q) as [r q'] eqn:E.
  by apply PopBestFitHeuristic_sound in E as [??].
Qed.

Lemma queue_step_wf q q' : queue_wf q → queue_step q q' → queue_wf q'.
Proof.
  intros Hq. inversion 1; subst; rewrite ?PopBestFit_eq;
    auto using Push_wf, RemoveByID_wf, PopBestFitHeuristic_wf.
  apply queue_wf_new.
Qed.

Lemma queue_steps_wf q q' : queue_wf q → rtc queue_step q q' → queue_wf q'.
Proof. intros Hq. induction 1; eauto using queue_step_wf. Qed.

(** ** Draining *)

(** [n] unconstrained pops in a row. *)
Fixpoint drain (c m : Z) (n : nat) (q : Queue) : list T :=
  match n with
  | O => []
  | S n =>
      match PopBestFit c m q with
      | (Some it, q') => it :: drain c m n q'
      | (None, _) => []
      end
  end.

Lemma PopBestFit_sound c m q r q' :
  queue_wf q → PopBestFit c m q = (r, q') →
  queue_wf q' ∧ pop_spec (fits c m) (items q) r (items q').
Proof.
  intros Hq. rewrite PopBestFit_eq. intros [? Hr]%PopBestFitHeuristic_sound; [|done].
  split; [done|]. revert Hr. apply pop_spec_proper; try done.
  intros it. by rewrite andb_true_r.
Qed.

Lemma drain_spec c m q :
  queue_wf q → (∀ id it, items q !! id = Some it → fits c m it = true) →
  drain c m (size (items q)) q ≡ₚ (map_to_list (items q)).*2 ∧
  StronglySorted (before less) (drain c m (size (items q)) q).
Proof.
  remember (size (items q)) as n eqn:Hn. revert q Hn.
  induction n as [|n IH]; intros q Hn Hq Hf; simpl.
  - symmetry in Hn. apply map_size_empty_inv in Hn. rewrite Hn, map_to_list_empty.
    split; [done | constructor].
  - destruct (PopBestFit c m q) as [[it|] q'] eqn:E;
      apply PopBestFit_sound in E as [Hq' Hs]; try done.
    + destruct Hs as (Hl & _ & Hd & Hbest).
      assert (Hn' : n = size (items q')).
      { rewrite Hd, map_size_delete_Some by eauto. lia. }
      destruct (IH q' Hn' Hq') as [Hp Hsort].
      { rewrite Hd. intros ? ? [_ ?]%lookup_delete_Some. eauto. }
      split.
      * rewrite Hp, Hd. rewrite <- (insert_id _ _ _ Hl) at 2.
        rewrite <- insert_delete_eq, map_to_list_insert by apply lookup_delete_eq.
        done.
      * constructor; [done|]. rewrite Hp, Hd, Forall_forall.
        intros x ([id y] & -> & Hy)%list_elem_of_fmap.
        apply elem_of_map_to_list, lookup_delete_Some in Hy as [Hne Hy]. simpl.
        destruct (Hbest _ _ Hy) as [-> | ?]; [eauto | | done].
        by destruct Hne; apply (wf_keys _ Hq).
    + destruct Hs as [_ Hnone]. exfalso.
      destruct (map_choose (items q)) as (id & it & Hl).
      { intros He. rewrite He, map_size_empty in Hn. lia. }
      specialize (Hnone _ _ Hl). by rewrite (Hf _ _ Hl) in Hnone.
Qed.
(** ** Queues in which ids are pushed again

    The queue hands out the elements of its slice; the map only says which of them
    are live. *)

(** What the queue will hand out, by id. *)
Definition queued (q : Queue) : gmap string T :=
  list_to_map ((λ it, (idFn acc it, it)) <$> filter (λ it, is_Some (items q !! idFn acc it)) (order q)).

(** An id of which no removed element is in the slice: it is live, or nothing in
    the slice has it. *)
Definition reusable (it : T) (q : Queue) : Prop :=
  is_Some (items q !! idFn acc it) ∨ idFn acc it ∉ (idFn acc <$> order q).

Inductive use_step : Queue → Queue → Prop :=
| use_push it q : reusable it q → use_step q (Push it q)
| use_remove id q : use_step q (RemoveByID id q)
| use_clear q : use_step q (Clear q)
| use_pop c m q : use_step q (PopBestFit c m q).2
| use_pop_heuristic c m h q : use_step q (PopBestFitHeuristic c m h q).2.

(** The same queue but for the values in the map. *)
Record same_ids (q w : Queue) : Prop := {
  si_live : ∀ id, is_Some (items q !! id) ↔ is_Some (items w !! id);
  si_order : order q = order w;
  si_dirty : dirty q = dirty w
}.

Lemma queued_items q w : queue_wf w → same_ids q w → queued q = items w.
Proof.
  intros [Hk Hn Hi _] [Hl Ho _]. unfold queued. rewrite Ho. apply map_eq. intros id.
  assert (NoDup ((λ it, (idFn acc it, it)) <$>
    filter (λ it, is_Some (items q !! idFn acc it)) (order w)).*1) as Hnd.
  { rewrite <- list_fmap_compose. eapply sublist_NoDup; [exact Hn|].
    clear. induction (order w) as [|x l IH]; [done|]. rewrite filter_cons. case_decide; cbn; by constructor. }
  apply option_eq. intros it. rewrite <- elem_of_list_to_map by done. rewrite list_elem_of_fmap. split.
  - intros (x & [= -> ->] & [Hx Hin]%list_elem_of_filter). apply Hl in Hx as [y Hy].
    pose proof (Hi _ _ Hy) as Hyo. pose proof (Hk _ _ Hy) as Hyk.
    rewrite Hy. f_equal.
    apply list_elem_of_lookup in Hin as [a Ha], Hyo as [b Hb].
    assert (a = b) as ->.
    { eapply NoDup_lookup; [exact Hn|rewrite list_lookup_fmap, Ha; done|].
      rewrite list_lookup_fmap, Hb. cbn. by rewrite Hyk. }
    congruence.
  - intros Hit. exists it. rewrite (Hk _ _ Hit). split; [done|]. apply list_elem_of_filter.
    split; [|by eapply Hi]. rewrite (Hk _ _ Hit). apply Hl. eauto.
Qed.

Lemma same_ids_settled q w : same_ids q w → same_ids (settled q) (settled w).
Proof.
  intros Hs. pose proof Hs as [Hl Ho Hd]. unfold settled, sortAndCompact. rewrite Hd.
  destruct (dirty w); [|done].
  split; [done| |done]. cbn. rewrite Ho. f_equal. apply list_filter_iff. intros x. apply Hl.
Qed.

Lemma same_ids_empty q w : same_ids q w → (size (items q) =? 0)%nat = (size (items w) =? 0)%nat.
Proof.
  intros [Hl _ _]. f_equal. rewrite <- !size_dom. f_equal. apply set_eq. intros id.
  rewrite !elem_of_dom. apply Hl.
Qed.

Lemma same_ids_pop c m h q w :
  same_ids q w →
  (PopBestFitHeuristic c m h q).1 = (PopBestFitHeuristic c m h w).1 ∧
  same_ids (PopBestFitHeuristic c m h q).2 (PopBestFitHeuristic c m h w).2.
Proof.
  intros Hs. unfold PopBestFitHeuristic. rewrite (same_ids_empty _ _ Hs).
  destruct (_ =? 0)%nat; [done|]. fold (settled q) (settled w).
  destruct (same_ids_settled _ _ Hs) as [Hl Ho Hd]. rewrite Ho.
  destruct (pop_first _ _) as [[it rest]|]; [|done]. split; [done|]. split; cbn; [|done|done].
  intros id. destruct (decide (idFn acc it = id)) as [->|Hne].
  - rewrite !lookup_delete_eq. done.
  - by rewrite !lookup_delete_ne.
Qed.

Lemma same_ids_push it q w :
  queue_wf w → same_ids q w → reusable it q →
  ∃ it', pushable it' w ∧ same_ids (Push it q) (Push it' w) ∧
    items (Push it' w) = match items w !! idFn acc it with
                         | Some _ => items w | None => <[idFn acc it := it]> (items w) end.
Proof.
  intros Hw [Hl Ho Hd] Hr. destruct (items w !! idFn acc it) as [x|] eqn:Ex.
  - pose proof (wf_keys _ Hw _ _ Ex) as Hk.
    assert (is_Some (items q !! idFn acc it)) as [y Hy] by (apply Hl; eauto).
    exists x. unfold pushable, Push. rewrite Hk, Ex, Hy. cbn. split; [by left|].
    rewrite (insert_id (items w)) by done. split; [split; cbn; [|done|exact Hd]|done].
    intros id. destruct (decide (idFn acc it = id)) as [<-|Hne].
    + rewrite lookup_insert_eq, Ex. by split; intros _.
    + by rewrite lookup_insert_ne.
  - assert (items q !! idFn acc it = None) as Hy.
    { apply eq_None_not_Some. intros Hs. apply Hl in Hs. rewrite Ex in Hs. by destruct Hs. }
    exists it. unfold pushable, Push. rewrite Ex, Hy. cbn. split.
    { right. destruct Hr as [[? Hr]|Hr]; [congruence|]. by rewrite <- Ho. }
    split; [|done]. split; cbn; [|by rewrite Ho|done].
    intros id. destruct (decide (idFn acc it = id)) as [<-|Hne].
    + by rewrite !lookup_insert_eq.
    + by rewrite !lookup_insert_ne.
Qed.

Lemma same_ids_step q q1 w :
  use_step q q1 → queue_wf w → same_ids q w → ∃ w1, queue_step w w1 ∧ same_ids q1 w1.
Proof.
  intros Hst Hw Hs. destruct Hst as [it q Hr|id q|q|c m q|c m h q].
  - destruct (same_ids_push _ _ _ Hw Hs Hr) as (it' & Hp & Hs' & _). eexists. split; [by constructor|done].
  - eexists. split; [apply (step_remove id)|]. destruct Hs as [Hl Ho Hd]. unfold RemoveByID.
    pose proof (Hl id) as Hid. destruct (items q !! id) as [x|] eqn:Ex, (items w !! id) as [y|] eqn:Ey.
    + split; cbn; [|done|done]. intros id'. destruct (decide (id = id')) as [<-|Hne].
      * by rewrite !lookup_delete_eq.
      * by rewrite !lookup_delete_ne.
    + exfalso. destruct (proj1 Hid) as [? ?]; eauto. done.
    + exfalso. destruct (proj2 Hid) as [? ?]; eauto. done.
    + done.
  - eexists. split; [apply step_clear|]. done.
  - eexists. split; [apply (step_pop c m)|]. rewrite !PopBestFit_eq. by apply same_ids_pop.
  - eexists. split; [apply (step_pop_heuristic c m h)|]. by apply same_ids_pop.
Qed.

Lemma same_ids_run q : rtc use_step NewQueue q → ∃ w, queue_wf w ∧ same_ids q w.
Proof.
  assert (∃ w, queue_wf w ∧ same_ids NewQueue w) as H0 by (exists NewQueue; split; [apply queue_wf_new|done]).
  revert H0. generalize NewQueue. intros q0 H0 Hr. induction Hr as [|q1 q2 q3 Hst _ IH]; [done|].
  apply IH. destruct H0 as (w & Hw & Hs). destruct (same_ids_step _ _ _ Hst Hw Hs) as (w1 & Hst1 & Hs1).
  exists w1. split; [|done]. by eapply queue_step_wf.
Qed.
End Queue.

Arguments Accessors : clear implicits.
Arguments Queue : clear implicits.

(** A queue stays well formed when its accessors change only on items it does not
    hold. *)
Lemma queue_wf_ext {T} (acc acc' : Accessors T) q :
  (∀ x, x ∈ order q → idFn acc' x = idFn acc x ∧ prioFn acc' x = prioFn acc x ∧
    memFn acc' x = memFn acc x) →
  queue_wf acc q → queue_wf acc' q.
Proof.
  intros Hx [Hk Hn Hi Hc]. split.
  - intros i it Hl. rewrite (proj1 (Hx it (Hi _ _ Hl))). by apply Hk.
  - erewrite list_fmap_ext; [exact Hn|]. intros i x Hl. simpl.
    apply list_elem_of_lookup_2 in Hl. by apply Hx.
  - done.
  - intros Hd. destruct (Hc Hd) as [Hlive Hs]. split.
    + intros it Hin. rewrite (proj1 (Hx it Hin)). by apply Hlive.
    + revert Hs. apply StronglySorted_impl_in. intros x y Hix Hiy. rewrite !before_rank.
      destruct (Hx _ Hix) as (_ & -> & ->), (Hx _ Hiy) as (_ & -> & ->). done.
Qed.

(** A push reads only the id of the item. *)
Lemma Push_ext {T} (acc acc' : Accessors T) x q :
  idFn acc x = idFn acc' x → Push acc x q = Push acc' x q.
Proof. unfold Push. by intros ->. Qed.

(** What a pop takes out of the slice. *)
Lemma PopBestFitHeuristic_order {T} (acc : Accessors T) c m h q it q' :
  queue_wf acc q → PopBestFitHeuristic acc c m h q = (Some it, q') →
  ∀ y, y ∈ order q' → y ∈ order q ∧ idFn acc y ≠ idFn acc it.
Proof.
  intros Hq. unfold PopBestFitHeuristic.
  destruct (_ =? 0)%nat; [done|]. fold (settled acc q).
  destruct (settled_wf acc q Hq) as [Hs _].
  destruct (pop_first _ _) as [[x rest]|] eqn:E; [|done]. intros [= -> <-] y. simpl.
  apply pop_first_Some in E as (l1 & l2 & Ho & -> & _). intros Hy. split.
  - assert (y ∈ order (settled acc q)) as Hin by (rewrite Ho; set_solver).
    revert Hin. unfold settled. destruct (dirty q); [|done].
    rewrite elem_of_sortAndCompact. tauto.
  - pose proof (wf_nodup _ _ Hs) as Hn. rewrite Ho in Hn.
    apply NoDup_fmap_middle in Hn as [_ Hf]. by apply Hf.
Qed.

Lemma PopBestFitHeuristic_order_None {T} (acc : Accessors T) c m h q q' :
  PopBestFitHeuristic acc c m h q = (None, q') → ∀ y, y ∈ order q' → y ∈ order q.
Proof.
  unfold PopBestFitHeuristic. destruct (_ =? 0)%nat; [by intros [= <-]|]. fold (settled acc q).
  destruct (pop_first _ _) as [[? ?]|]; [done|]. intros [= <-] y. unfold settled.
  destruct (dirty q); [|done]. rewrite elem_of_sortAndCompact. tauto.
Qed.

Lemma PopBestFit_order {T} (acc : Accessors T) c m q it q' :
  queue_wf acc q → PopBestFit acc c m q = (Some it, q') →
  ∀ y, y ∈ order q' → y ∈ order q ∧ idFn acc y ≠ idFn acc it.
Proof. rewrite PopBestFit_eq. apply PopBestFitHeuristic_order. Qed.

Lemma PopBestFit_order_None {T} (acc : Accessors T) c m q q' :
  PopBestFit acc c m q = (None, q') → ∀ y, y ∈ order q' → y ∈ order q.
Proof. rewrite PopBestFit_eq. apply PopBestFitHeuristic_order_None. Qed.

Lemma order_Push {T} (acc : Accessors T) x q y :
  y ∈ order (Push acc x q) → y ∈ order q ∨ y = x.
Proof. unfold Push. destruct (items q !! _); simpl; set_solver. Qed.

Lemma order_RemoveByID {T} i (q : Queue T) : order (RemoveByID i q) = order q.
Proof. unfold RemoveByID. by destruct (items q !! i). Qed.

#[export] Hint Resolve queue_wf_new RemoveByID_wf PopBestFitHeuristic_wf : hive.
#[export] Hint Rewrite @Push_items @RemoveByID_items : hive.

(** ** Properties *)

Section properties.
Context {T : Type} (acc : Accessors T).
Implicit Types q : Queue T.

(** C10: the queue of a client hands out the best fit. Build it from [NewQueue] by
    any sequence of pushes, removals, clears and pops, without pushing an id of which
    a removed element is still in the slice ([Push_after_RemoveByID_pops_twice]).
    What it has [queued] is, for every live id, the item pushed when the id was not
    live: pushing an item under a live id changes what [Items] shows, not what is
    popped ([Push_same_id_pops_old]). On such a queue [PopBestFit] returns the queued
    item of highest priority (then largest memory) among those that fit and removes
    exactly that item, and returns nothing only when no queued item fits. *)
Theorem reachable_PopBestFit_optimal q c m r q' :
  rtc (use_step acc) NewQueue q → PopBestFit acc c m q = (r, q') →
  (∀ id, is_Some (queued acc q !! id) ↔ is_Some (items q !! id)) ∧
  (∀ it, reusable acc it q →
     queued acc (Push acc it q) =
       match queued acc q !! idFn acc it with
       | Some _ => queued acc q | None => <[idFn acc it := it]> (queued acc q) end) ∧
  pop_spec acc (fits acc c m) (queued acc q) r (queued acc q').
Proof.
  intros (w & Hw & Hs)%same_ids_run Hp. rewrite (queued_items _ _ _ Hw Hs). split_and!.
  - intros id. symmetry. apply Hs.
  - intros it Hr. destruct (same_ids_push _ _ _ _ Hw Hs Hr) as (it' & Hpu & Hs' & <-).
    apply queued_items; [by apply Push_wf | done].
  - destruct (PopBestFit acc c m w) as [r1 w1] eqn:Ew.
    pose proof (same_ids_pop acc c m (λ _, true) _ _ Hs) as [Hr1 Hs1].
    rewrite <- !PopBestFit_eq, Hp, Ew in *. cbn in *. subst r1.
    destruct (PopBestFit_sound _ _ _ _ _ _ Hw Ew) as [Hw1 Hspec].
    by rewrite (queued_items _ _ _ Hw1 Hs1).
Qed.

(** Popping a well-formed queue as many times as it has items, with
    limits that every item meets, returns each live item exactly once, in
    descending order of priority and then memory. *)
Theorem drain_sorts q c m :
  queue_wf acc q → (∀ id it, items q !! id = Some it → fits acc c m it = true) →
  drain acc c m (size (items q)) q ≡ₚ (map_to_list (items q)).*2 ∧
  StronglySorted
    (λ x y, prioFn acc y < prioFn acc x ∨
            (prioFn acc y = prioFn acc x ∧ memFn acc y ≤ memFn acc x))
    (drain acc c m (size (items q)) q).
Proof.
  intros Hq Hf. destruct (drain_spec acc c m q Hq Hf) as [Hp Hs]. split; [done|].
  clear Hp. induction Hs as [|x l _ IH Hx]; constructor; [done|].
  eapply Forall_impl; [exact Hx|]. intros y. apply before_rank.
Qed.

(** Pushing a second item under a queued id replaces it in the map that
    [Items], [IDs] and [PeekForHeuristic] read, but [PopBestFit] still hands
    out the item pushed first: the comments "it is overwritten" and "it updates
    the data" do not describe the pop. *)
Theorem Push_same_id_pops_old a a' c m :
  idFn acc a' = idFn acc a → fits acc c m a = true →
  let q := Push acc a' (Push acc a NewQueue) in
  items q !! idFn acc a = Some a' ∧ (PopBestFit acc c m q).1 = Some a.
Proof.
  intros Hid Hf q.
  assert (Hq : q = mkQueue {[idFn acc a := a']} [a] true).
  { unfold q, Push. simpl. rewrite Hid, lookup_empty. simpl.
    rewrite lookup_insert_eq. simpl. by rewrite insert_insert_eq. }
  rewrite Hq. clear q Hq. split; [apply lookup_singleton_eq|].
  unfold PopBestFit, sortAndCompact. simpl. rewrite map_size_singleton. simpl.
  rewrite filter_cons_True by (rewrite lookup_singleton_eq; eauto).
  simpl. by rewrite Hf.
Qed.

(** Removing an id and pushing it again before the next compaction leaves
    two entries for it in the slice; two consecutive pops then return the same
    item, although it is gone from the map after the first. *)
Theorem Push_after_RemoveByID_pops_twice a b c m :
  idFn acc a ≠ idFn acc b → less acc a b = true → fits acc c m a = true →
  let q := Push acc a (RemoveByID (idFn acc a) (Push acc b (Push acc a NewQueue))) in
  let (r1, q1) := PopBestFit acc c m q in
  let (r2, q2) := PopBestFit acc c m q1 in
  r1 = Some a ∧ items q1 !! idFn acc a = None ∧ r2 = Some a.
Proof.
  intros Hne Hl Hf.
  set (live := {[idFn acc b := b]} : gmap string T).
  assert (Hnl : live !! idFn acc a = None) by (by apply lookup_singleton_ne).
  assert (Hsz : size live = 1%nat) by apply map_size_singleton.
  assert (Hb : live !! idFn acc b = Some b) by apply lookup_singleton_eq.
  assert (Hq : Push acc a (RemoveByID (idFn acc a) (Push acc b (Push acc a NewQueue)))
               = mkQueue (<[idFn acc a := a]> live) [a; b; a] true).
  { unfold Push at 2 3. simpl. rewrite lookup_empty. simpl.
    rewrite lookup_insert_ne, lookup_empty by done. simpl.
    unfold RemoveByID. simpl. rewrite lookup_insert_ne, lookup_insert_eq by done. simpl.
    rewrite delete_insert_ne, delete_insert_eq, delete_empty by done.
    unfold Push. simpl. change (<[idFn acc b := b]> ∅) with live. by rewrite Hnl. }
  cbv zeta. rewrite Hq. unfold PopBestFit at 1, sortAndCompact. simpl.
  rewrite map_size_insert_None, Hsz by done. simpl.
  rewrite !filter_cons, !lookup_insert_eq, lookup_insert_ne, Hb by done.
  rewrite !decide_True by eauto. simpl.
  pose proof (less_asym acc _ _ Hl) as Hl'. rewrite Hl. simpl.
  assert (Haa : less acc a a = false).
  { destruct (less acc a a) eqn:E; [|done]. by apply less_asym in E as E'; rewrite E in E'. }
  rewrite Haa. simpl. rewrite Hf. simpl.
  rewrite delete_insert_id by done.
  unfold PopBestFit. simpl. rewrite Hsz. simpl. by rewrite Hf.
Qed.
End properties.

(** ** Witnesses *)

Definition example_accessors : Accessors (string * Z) :=
  {| idFn := fst; prioFn := snd; cpuFn := λ _, 1; memFn := λ _, 1 |}.

Definition example_queue : Queue (string * Z) :=
  Push example_accessors ("b", 7) (Push example_accessors ("a", 3) NewQueue).

Lemma example_queue_reachable : rtc (queue_step example_accessors) NewQueue example_queue.
Proof.
  eapply rtc_l; [apply (step_push _ ("a", 3)) | apply rtc_once, (step_push _ ("b", 7))];
    right; refine (bool_decide_unpack _ _); vm_compute; exact I.
Qed.

(** "a" is pushed once more, with a higher priority than "b". *)
Definition overwritten : Queue (string * Z) := Push example_accessors ("a", 9) example_queue.

Lemma overwritten_use : rtc (use_step example_accessors) NewQueue overwritten.
Proof.
  eapply rtc_l; [apply (use_push _ ("a", 3)); right; refine (bool_decide_unpack _ _); vm_compute; exact I|].
  eapply rtc_l; [apply (use_push _ ("b", 7)); right; refine (bool_decide_unpack _ _); vm_compute; exact I|].
  apply rtc_once, (use_push _ ("a", 9)). left. vm_compute. eauto.
Qed.

Lemma reachable_PopBestFit_optimal_witness :
  pop_spec example_accessors (fits example_accessors 5 5) (queued example_accessors overwritten)
    (Some ("b", 7)) (queued example_accessors (PopBestFit example_accessors 5 5 overwritten).2).
Proof.
  refine (proj2 (proj2 (reachable_PopBestFit_optimal example_accessors overwritten 5 5 _ _
            overwritten_use _))).
  vm_compute. reflexivity.
Defined.

Lemma example_queue_wf : queue_wf example_accessors example_queue.
Proof. eapply queue_steps_wf; [apply queue_wf_new | apply example_queue_reachable]. Qed.

Lemma drain_sorts_witness :
  drain example_accessors 5 5 2 example_queue = [("b", 7); ("a", 3)] ∧
  StronglySorted
    (λ x y, prioFn example_accessors y < prioFn example_accessors x ∨
            (prioFn example_accessors y = prioFn example_accessors x ∧
             memFn example_accessors y ≤ memFn example_accessors x))
    (drain example_accessors 5 5 (size (items example_queue)) example_queue).
Proof.
  split; [vm_compute; reflexivity|].
  apply (drain_sorts example_accessors example_queue 5 5 example_queue_wf).
  intros; vm_compute; reflexivity.
Defined.

Lemma Push_same_id_pops_old_witness :
  (PopBestFit example_accessors 5 5
    (Push example_accessors ("a", 9) (Push example_accessors ("a", 3) NewQueue))).1
  = Some ("a", 3).
Proof.
  apply (Push_same_id_pops_old example_accessors ("a", 3) ("a", 9) 5 5);
    vm_compute; reflexivity.
Defined.

Lemma Push_after_RemoveByID_pops_twice_witness :
  idFn example_accessors ("a", 9) = "a" ∧
  let q := Push example_accessors ("a", 9) (RemoveByID "a"
             (Push example_accessors ("b", 1) (Push example_accessors ("a", 9) NewQueue))) in
  let (r1, q1) := PopBestFit example_accessors 5 5 q in
  let (r2, q2) := PopBestFit example_accessors 5 5 q1 in
  r1 = Some ("a", 9) ∧ items q1 !! "a" = None ∧ r2 = Some ("a", 9).
Proof.
  split; [reflexivity|].
  apply (Push_after_RemoveByID_pops_twice example_accessors ("a", 9) ("b", 1) 5 5);
    [discriminate | vm_compute; reflexivity | vm_compute; reflexivity].
Defined.
