(* ===== verification/SchedState.v ===== *)
(** * The state machine of a scheduler

    [internal/scheduler/states]: the jobs a scheduler knows, the queue of the
    unassigned ones, the clusters it drives and what it knows of its peers.
    Jobs and cluster states are shared through pointers ([*core.Job],
    [*ClusterState]), so the state carries the two heaps; a pointer is an index
    in its heap, and allocation appends. Every method holds the mutex of the
    state from its first line to its last: each is one atomic step. *)

From Stdlib Require Import Strings.Byte.
From S2P Require Import Prelude.
From S2P Require Import Models.
From S2P Require Import Arbiter.

(** src/internal/scheduler/core/models.go:7-17 (Job) *)
Record Job := mkJob {
  j_Id : string;
  j_ImageAlias : string;
  j_AssignedClusterId : string;
  j_Status : Status;
  j_CPURequirement : Z;
  j_MemoryRequirement : Z;
  j_Priority : Z;
  j_Payload : list byte;
  j_Response : list byte
}.

(** src/internal/scheduler/core/models.go:19-29 (Job.CastFromGlobalModel) *)
Definition CastFromGlobalModel (job : JobPayload) : Job :=
  mkJob (jp_ID job) (jp_Image job) EmptyString (jp_State job) (jp_CPURequirement job)
    (jp_MemoryRequirement job) (jp_Priority job) (jp_Payload job) [].

(** src/internal/scheduler/states/externs.go:15-23 (ClusterState) *)
Record ClusterState := mkClusterState {
  c_ID : string;
  c_UsedCpu : Z;
  c_UsedMem : Z;
  c_MaxCpu : Z;
  c_MaxMem : Z;
  c_OptimisticUpdates : Z;
  c_LastUpdated : Z
}.

(** src/internal/scheduler/states/externs.go:9-13 (SchedulerState)

    The cluster states of a peer are allocated for one heartbeat and never
    written again: they are values. *)
Record SchedulerState := mkSchedulerState {
  p_ID : string;
  p_ClusterStates : gmap string ClusterState;
  p_LastUpdated : Z
}.

Abbreviation loc := nat.

(** src/internal/scheduler/states/state.go:15-30 (State) *)
Record State := mkState {
  id : string;
  address : string;
  jobs : gmap string loc;
  unassignedJobs : Queue loc;
  assignedJobs : gmap string unit;
  completedJobs : gmap string unit;
  readJobs : gmap string Z;
  clusters : gmap string loc;
  peers : list SchedulerState;
  jobHeap : list Job;
  clusterHeap : list ClusterState
}.

(** ** The heaps *)

Definition zero_Job : Job :=
  mkJob EmptyString EmptyString EmptyString Pending 0 0 0 [] [].
Definition zero_ClusterState : ClusterState := mkClusterState EmptyString 0 0 0 0 0 0.

Definition deref (h : list Job) (p : loc) : Job := default zero_Job (h !! p).
Definition cluster_at (s : State) (p : loc) : ClusterState :=
  default zero_ClusterState (clusterHeap s !! p).

(** The closures of [NewState]: they read the job behind the pointer at the time
    of the call. *)
(** src/internal/scheduler/states/state.go:49-54 (NewState, the accessors) *)
Definition job_accessors (h : list Job) : Accessors loc := {|
  idFn := λ p, j_Id (deref h p);
  prioFn := λ p, j_Priority (deref h p);
  cpuFn := λ p, j_CPURequirement (deref h p);
  memFn := λ p, j_MemoryRequirement (deref h p)
|}.
Definition accs (s : State) : Accessors loc := job_accessors (jobHeap s).

Definition set_jobs v (s : State) : State :=
  mkState (id s) (address s) v (unassignedJobs s) (assignedJobs s) (completedJobs s)
    (readJobs s) (clusters s) (peers s) (jobHeap s) (clusterHeap s).
Definition set_queue v (s : State) : State :=
  mkState (id s) (address s) (jobs s) v (assignedJobs s) (completedJobs s)
    (readJobs s) (clusters s) (peers s) (jobHeap s) (clusterHeap s).
Definition set_assigned v (s : State) : State :=
  mkState (id s) (address s) (jobs s) (unassignedJobs s) v (completedJobs s)
    (readJobs s) (clusters s) (peers s) (jobHeap s) (clusterHeap s).
Definition set_completed v (s : State) : State :=
  mkState (id s) (address s) (jobs s) (unassignedJobs s) (assignedJobs s) v
    (readJobs s) (clusters s) (peers s) (jobHeap s) (clusterHeap s).
Definition set_read v (s : State) : State :=
  mkState (id s) (address s) (jobs s) (unassignedJobs s) (assignedJobs s) (completedJobs s)
    v (clusters s) (peers s) (jobHeap s) (clusterHeap s).
Definition set_clusters v (s : State) : State :=
  mkState (id s) (address s) (jobs s) (unassignedJobs s) (assignedJobs s) (completedJobs s)
    (readJobs s) v (peers s) (jobHeap s) (clusterHeap s).
Definition set_peers v (s : State) : State :=
  mkState (id s) (address s) (jobs s) (unassignedJobs s) (assignedJobs s) (completedJobs s)
    (readJobs s) (clusters s) v (jobHeap s) (clusterHeap s).
Definition set_jobHeap v (s : State) : State :=
  mkState (id s) (address s) (jobs s) (unassignedJobs s) (assignedJobs s) (completedJobs s)
    (readJobs s) (clusters s) (peers s) v (clusterHeap s).
Definition set_clusterHeap v (s : State) : State :=
  mkState (id s) (address s) (jobs s) (unassignedJobs s) (assignedJobs s) (completedJobs s)
    (readJobs s) (clusters s) (peers s) (jobHeap s) v.

(** An assignment to fields of the job behind a pointer. *)
Definition write_job (f : Job → Job) (p : loc) (s : State) : State :=
  set_jobHeap (alter f p (jobHeap s)) s.
Definition write_cluster (f : ClusterState → ClusterState) (p : loc) (s : State) : State :=
  set_clusterHeap (alter f p (clusterHeap s)) s.

Definition with_Status v '(mkJob i im a st c m p pl r) := mkJob i im a v c m p pl r.
Definition with_Cluster v '(mkJob i im a st c m p pl r) := mkJob i im v st c m p pl r.
Definition with_Response v '(mkJob i im a st c m p pl r) := mkJob i im a st c m p pl v.

(** ** Jobs *)

(** src/internal/scheduler/states/state.go:43-60 (NewState) *)
Definition NewState (id address : string) : State :=
  mkState id address ∅ NewQueue ∅ ∅ ∅ ∅ [] [] [].

(** src/internal/scheduler/states/state.go:62-66 (State.Id) *)
Definition get_Id (s : State) : string := id s.
(** src/internal/scheduler/states/state.go:68-72 (State.Address) *)
Definition get_Address (s : State) : string := address s.

(** src/internal/scheduler/states/state.go:74-81 (State.AppendJob) *)
Definition AppendJob (job : loc) (s : State) : State :=
  let s := write_job (with_Status Pending) job s in
  let i := j_Id (deref (jobHeap s) job) in
  let s := set_jobs (<[i := job]> (jobs s)) s in
  set_queue (Push (accs s) job (unassignedJobs s)) s.

(** [AppendJob(&core.Job{...})], as every caller does. *)
Definition AppendNew (j : Job) (s : State) : State :=
  AppendJob (length (jobHeap s)) (set_jobHeap (jobHeap s ++ [j]) s).

Definition packing : string := "packing-in-progress".

(** src/internal/scheduler/states/state.go:85-100 (State.NextPendingJob) *)
Definition NextPendingJob (availCPU availMem : Z) (s : State) : option loc * State :=
  match PopBestFit (accs s) availCPU availMem (unassignedJobs s) with
  | (None, q) => (None, set_queue q s)
  | (Some job, q) =>
      let s := set_queue q s in
      let s := set_assigned (<[j_Id (deref (jobHeap s) job) := tt]> (assignedJobs s)) s in
      (Some job, write_job (with_Status Running) job (write_job (with_Cluster packing) job s))
  end.

(** The errors of the package, all of the form "job with ID %s not found". *)
Inductive JobError := JobNotFound (jobId : string).

(** src/internal/scheduler/states/state.go:102-118 (State.AssignJob) *)
Definition AssignJob (jobId clusterId : string) (s : State) : outcome JobError State :=
  match jobs s !! jobId with
  | None => Err (JobNotFound jobId)
  | Some job =>
      let s := set_queue (RemoveByID jobId (unassignedJobs s)) s in
      let s := set_assigned (<[jobId := tt]> (assignedJobs s)) s in
      Ok (write_job (with_Status Running) job (write_job (with_Cluster clusterId) job s))
  end.

(** src/internal/scheduler/states/state.go:120-141 (State.CompleteJob) *)
Definition CompleteJob (jobId : string) (result : list byte) (success : bool) (s : State)
    : outcome JobError State :=
  match jobs s !! jobId with
  | None => Err (JobNotFound jobId)
  | Some job =>
      let s := set_assigned (delete jobId (assignedJobs s)) s in
      let s := set_queue (RemoveByID jobId (unassignedJobs s)) s in
      let s := set_completed (<[jobId := tt]> (completedJobs s)) s in
      let s := write_job (with_Status (if success then Completed else Failed)) job s in
      Ok (write_job (with_Response result) job s)
  end.

(** src/internal/scheduler/states/state.go:144-166 (State.UnassignJob) *)
Definition UnassignJob (jobId : string) (s : State) : State :=
  match jobs s !! jobId with
  | None => s
  | Some job =>
      match completedJobs s !! jobId with
      | Some _ => s
      | None =>
          let s := set_assigned (delete jobId (assignedJobs s)) s in
          let s := set_completed (delete jobId (completedJobs s)) s in
          let s := write_job (with_Status Pending) job s in
          let s := write_job (with_Response []) job s in
          let s := write_job (with_Cluster EmptyString) job s in
          set_queue (Push (accs s) job (unassignedJobs s)) s
      end
  end.

(** src/internal/scheduler/states/state.go:169-182 (State.PurgeJob) *)
Definition PurgeJob (jobId : string) (s : State) : State :=
  match jobs s !! jobId with
  | None => s
  | Some _ =>
      let s := set_jobs (delete jobId (jobs s)) s in
      let s := set_queue (RemoveByID jobId (unassignedJobs s)) s in
      let s := set_assigned (delete jobId (assignedJobs s)) s in
      let s := set_completed (delete jobId (completedJobs s)) s in
      set_read (delete jobId (readJobs s)) s
  end.

(** src/internal/scheduler/states/state.go:184-196 (State.JobsInCluster) *)
Definition JobsInCluster (ord : MapOrder) (clusterId : string) (s : State) : list string :=
  filter (λ i, match jobs s !! i with
               | Some job => (j_AssignedClusterId (deref (jobHeap s) job) == clusterId)%go
               | None => false
               end = true) (range ord (assignedJobs s)).*1.

(** src/internal/scheduler/states/state.go:198-205 (State.Job) *)
Definition get_Job (jobId : string) (s : State) : outcome JobError loc :=
  match jobs s !! jobId with Some job => Ok job | None => Err (JobNotFound jobId) end.

(** src/internal/scheduler/states/state.go:207-210 (State.PendingJobs) *)
Definition PendingJobs (ord : MapOrder) (s : State) : list string := IDs ord (unassignedJobs s).
(** src/internal/scheduler/states/state.go:212-221 (State.ActiveJobs) *)
Definition ActiveJobs (ord : MapOrder) (s : State) : list string :=
  (range ord (assignedJobs s)).*1.
(** src/internal/scheduler/states/state.go:223-232 (State.CompletedJobs) *)
Definition CompletedJobs (ord : MapOrder) (s : State) : list string :=
  (range ord (completedJobs s)).*1.

(** src/internal/scheduler/states/state.go:235-247 (State.QueueFreeCompletedJob) *)
Definition QueueFreeCompletedJob (now : Z) (jobId : string) (s : State)
    : outcome JobError State :=
  match jobs s !! jobId with
  | None => Err (JobNotFound jobId)
  | Some _ =>
      match readJobs s !! jobId with
      | Some _ => Ok s
      | None => Ok (set_read (<[jobId := now]> (readJobs s)) s)
      end
  end.

Definition seconds (n : Z) : Z := n * 1000000000.

(** src/internal/scheduler/states/state.go:249-276 (State.ClearCompletedJobs, one tick)

    The list is collected under the read lock and purged after its release;
    [between] is what other goroutines do in the meantime. *)
Definition clear_tick (ord : MapOrder) (now : Z) (between : State → State) (s : State) : State :=
  let removeList :=
    filter (λ i, match readJobs s !! i with
                 | Some t => (seconds 10 <? now - t) || (100 <? size (completedJobs s))%nat
                 | None => false
                 end = true) (range ord (completedJobs s)).*1 in
  foldl (λ s i, PurgeJob i s) (between s) removeList.
