(* ===== verification/SchedExterns.v ===== *)
(** * What a scheduler knows of clusters and peers

    [internal/scheduler/states/externs.go]: the usage of the local clusters,
    updated optimistically between two polls, the states that peers report in
    their heartbeats, and the choices made from both. The clock is an argument
    [now], in nanoseconds. *)

From S2P Require Import Prelude.
From S2P Require Import Arbiter.
From S2P Require Import SchedState.

(** ** Local clusters *)

(** A composite literal whose address is stored in the map of clusters. *)
Definition store_cluster (i : string) (c : ClusterState) (s : State) : State :=
  set_clusters (<[i := length (clusterHeap s)]> (clusters s))
    (set_clusterHeap (clusterHeap s ++ [c]) s).

(** src/internal/scheduler/states/externs.go:25-37 (State.AddLocalCluster) *)
Definition AddLocalCluster (now : Z) (i : string) (s : State) : State :=
  store_cluster i (mkClusterState i 0 0 0 0 0 now) s.

(** src/internal/scheduler/states/externs.go:39-47 (State.LocalClusters) *)
Definition LocalClusters (ord : MapOrder) (s : State) : list loc := (range ord (clusters s)).*2.

(** src/internal/scheduler/states/externs.go:49-57 (State.LocalCluster) *)
Definition LocalCluster (i : string) (s : State) : option loc := clusters s !! i.

Definition add_usage (addCpu addMem : Z) '(mkClusterState i uc um mc mm o t) :=
  mkClusterState i (wrap64 (uc + addCpu)) (wrap64 (um + addMem)) mc mm o t.
Definition count_optimistic '(mkClusterState i uc um mc mm o t) :=
  mkClusterState i uc um mc mm (wrap16 (o + 1)) t.

(** src/internal/scheduler/states/externs.go:60-68 (State.SoftUpdateCluster) *)
Definition SoftUpdateCluster (clusterID : string) (addCpu addMem : Z) (s : State) : State :=
  match clusters s !! clusterID with
  | Some cluster => write_cluster (count_optimistic ∘ add_usage addCpu addMem) cluster s
  | None => s
  end.

(** src/internal/scheduler/states/externs.go:70-82 (State.UpdateCluster) *)
Definition UpdateCluster (now : Z) (clusterID : string) (usedCpu usedMem maxCpu maxMem : Z)
    (s : State) : State :=
  store_cluster clusterID (mkClusterState clusterID usedCpu usedMem maxCpu maxMem 0 now) s.

Definition cpuDiff (c : ClusterState) : Z := wrap64 (c_MaxCpu c - c_UsedCpu c).
Definition memDiff (c : ClusterState) : Z := wrap64 (c_MaxMem c - c_UsedMem c).

(** src/internal/scheduler/states/externs.go:84-98 (State.LeastUtilizedCluster) *)
Definition LeastUtilizedCluster (ord : MapOrder) (cpuReq memReq : Z) (s : State) : string :=
  (foldl (λ '(leastUsedID, leastUsedCpu) '(i, p),
     let cs := cluster_at s p in
     if (cpuDiff cs >? cpuReq) && (memDiff cs >? memReq) && (cpuDiff cs >? leastUsedCpu)
     then (i, cpuDiff cs) else (leastUsedID, leastUsedCpu))
   (EmptyString, -1) (range ord (clusters s))).1.

(** src/internal/scheduler/states/externs.go:100-127 (State.AtMaximumCapacity) *)
Definition AtMaximumCapacity (ord qord : MapOrder) (cpuReq memReq : Z) (s : State) : bool :=
  let '(totalClustersCpu, totalClustersMem, canFitInSingleCluster) :=
    foldl (λ '(tc, tm, can) p,
      let cs := cluster_at s p in
      (wrap64 (tc + c_MaxCpu cs), wrap64 (tm + c_MaxMem cs),
       if (cpuReq <=? c_MaxCpu cs) && (memReq <=? c_MaxMem cs) then true else can))
    (0, 0, false) (range ord (clusters s)).*2 in
  let '(totalPendingCpu, totalPendingMem) :=
    foldl (λ '(tc, tm) p,
      let job := deref (jobHeap s) p in
      (wrap64 (tc + j_CPURequirement job), wrap64 (tm + j_MemoryRequirement job)))
    (0, 0) (Items qord (unassignedJobs s)) in
  (totalPendingCpu >? totalClustersCpu) || (totalPendingMem >? totalClustersMem) ||
  negb canFitInSingleCluster.

(** src/internal/scheduler/states/externs.go:129-139 (State.StaleClusters) *)
Definition StaleClusters (ord : MapOrder) (now heartbeatTimeout : Z) (s : State)
    : list string :=
  (filter (λ '(_, p), heartbeatTimeout < now - c_LastUpdated (cluster_at s p))
    (range ord (clusters s))).*1.

(** ** Peers *)

(** src/internal/scheduler/states/externs.go:141-155 (State.ForEachPeer)

    [ctxErr i] is [ctx.Err()] if the context is done before the i-th call. The
    result is the error returned, if any; [op] may change the peer. *)
Definition ForEachPeer {E} (ctxErr : nat → option E)
    (op : SchedulerState → SchedulerState * option E) (s : State) : State * option E :=
  let fix go (i : nat) (l : list SchedulerState) : list SchedulerState * option E :=
    match l with
    | [] => ([], None)
    | peer :: l =>
        match ctxErr i with
        | Some e => (peer :: l, Some e)
        | None =>
            match op peer with
            | (peer, Some e) => (peer :: l, Some e)
            | (peer, None) => let '(l, r) := go (S i) l in (peer :: l, r)
            end
        end
    end in
  let '(l, r) := go O (peers s) in (set_peers l s, r).

(** src/internal/scheduler/states/externs.go:157-165 (State.AddPeerScheduler) *)
Definition AddPeerScheduler (now : Z) (i : string) (s : State) : State :=
  set_peers (peers s ++ [mkSchedulerState i ∅ now]) s.

(** src/internal/scheduler/states/externs.go:167-176 (State.PeerSchedulerState) *)
Definition PeerSchedulerState (i : string) (s : State) : option SchedulerState :=
  snd <$> list_find (λ peer, p_ID peer = i) (peers s).

(** src/internal/scheduler/states/externs.go:178-190 (State.UpdateSchedulerState) *)
Definition UpdateSchedulerState (now : Z) (schedulerID : string)
    (clusterStates : gmap string ClusterState) (s : State) : bool * State :=
  match list_find (λ peer, p_ID peer = schedulerID) (peers s) with
  | Some (k, peer) =>
      (true, set_peers (<[k := mkSchedulerState (p_ID peer) clusterStates now]> (peers s)) s)
  | None => (false, s)
  end.

(** src/internal/scheduler/states/externs.go:192-202 (State.StaleSchedulers) *)
Definition StaleSchedulers (now heartbeatTimeout : Z) (s : State) : list string :=
  p_ID <$> filter (λ peer, heartbeatTimeout < now - p_LastUpdated peer) (peers s).

Definition can_hold (cpuReq memReq : Z) (c : ClusterState) : bool :=
  (cpuReq <=? cpuDiff c) && (memReq <=? memDiff c).

(** src/internal/scheduler/states/externs.go:204-224 (State.LeastUtilizedPeer) *)
Definition LeastUtilizedPeer (ord : MapOrder) (now heartbeatTimeout cpuReq memReq : Z)
    (s : State) : string :=
  (foldl (λ acc peer,
     if heartbeatTimeout <? now - p_LastUpdated peer then acc else
     foldl (λ '(mostOpenId, greatestCPUDiff) '(i, c),
       if can_hold cpuReq memReq c && (cpuDiff c >? greatestCPUDiff)
       then (i, cpuDiff c) else (mostOpenId, greatestCPUDiff))
     acc (range ord (p_ClusterStates peer)))
   (EmptyString, -1) (peers s)).1.

(** src/internal/scheduler/states/externs.go:242-253 (State.TopFreePeers, the best of a peer) *)
Definition bestAvailCPU (ord : MapOrder) (cpuReq memReq : Z) (peer : SchedulerState) : Z :=
  foldl (λ best c, if can_hold cpuReq memReq c then
                     if cpuDiff c >? best then cpuDiff c else best
                   else best)
    (-1) (range ord (p_ClusterStates peer)).*2.

(** src/internal/scheduler/states/externs.go:226-276 (State.TopFreePeers) *)
Definition TopFreePeers (ss : SliceSort) (ord : MapOrder)
    (limit now heartbeatTimeout cpuReq memReq : Z) (s : State) : list string :=
  let candidates :=
    omap (λ peer,
      if heartbeatTimeout <? now - p_LastUpdated peer then None else
      let best := bestAvailCPU ord cpuReq memReq peer in
      if best =? -1 then None else Some (p_ID peer, best)) (peers s) in
  let candidates :=
    slice_sort ss (λ x y : string * Z, x.2 >? y.2) candidates in
  take (Z.to_nat limit) candidates.*1.

(** ** Scanning for the best *)

Lemma scan_best {A B} (ok : A → bool) (score : A → Z) (name : A → B) l : ∀ b m,
  let r := foldl (λ '(b, m) x, if ok x && (score x >? m) then (name x, score x) else (b, m))
             (b, m) l in
  (r = (b, m) ∧ ∀ x, x ∈ l → ok x = true → score x ≤ m) ∨
  (∃ x, x ∈ l ∧ ok x = true ∧ m < score x ∧ r = (name x, score x) ∧
     ∀ y, y ∈ l → ok y = true → score y ≤ score x).
Proof.
  induction l as [|x l IH]; intros b m; simpl; [left; split; [done|]; by intros x ?%not_elem_of_nil|].
  destruct (ok x && (score x >? m)) eqn:E.
  - bool_to_prop. right. destruct (IH (name x) (score x)) as [[-> Hl] | (y & Hy & Hok & Hlt & -> & Hl)].
    + exists x. split_and!; [by left | done | lia | done|].
      intros y [->|Hy]%elem_of_cons; [lia | auto].
    + exists y. split_and!; [by right | done | lia | done|].
      intros z [->|Hz]%elem_of_cons; [lia | auto].
  - assert (ok x = true → score x ≤ m) as Hx.
    { intros Hok. rewrite Hok in E. simpl in E. bool_to_prop. lia. }
    destruct (IH b m) as [[-> Hl] | (y & Hy & Hok & Hlt & -> & Hl)].
    + left. split; [done|]. intros y [->|Hy]%elem_of_cons; auto.
    + right. exists y. split_and!; [by right | done..|].
      intros z [->|Hz]%elem_of_cons Hz'; [specialize (Hx Hz'); lia | auto].
Qed.

Lemma foldl_ext {A B} (f g : B → A → B) l b :
  (∀ b x, f b x = g b x) → foldl f b l = foldl g b l.
Proof. intros Hfg. revert b. induction l as [|x l IH]; intros b; [done|]. simpl. by rewrite Hfg, IH. Qed.

(** A cluster has strictly more than the request left. *)
Definition roomy (cpuReq memReq : Z) (c : ClusterState) : bool :=
  (cpuDiff c >? cpuReq) && (memDiff c >? memReq).

(** [LeastUtilizedCluster] names a cluster that has strictly more CPU and
    memory left than the request, and the most CPU left among these; it answers
    with the empty id exactly when there is no such cluster. In particular a
    cluster that the job would fill exactly is never chosen. *)
Theorem LeastUtilizedCluster_best ord s cpuReq memReq :
  0 ≤ cpuReq → clusters s !! EmptyString = None →
  let i := LeastUtilizedCluster ord cpuReq memReq s in
  (i = EmptyString ↔ ∀ k p, clusters s !! k = Some p → roomy cpuReq memReq (cluster_at s p) = false) ∧
  (i ≠ EmptyString → ∃ p, clusters s !! i = Some p ∧ roomy cpuReq memReq (cluster_at s p) = true ∧
    ∀ k q, clusters s !! k = Some q → roomy cpuReq memReq (cluster_at s q) = true →
      cpuDiff (cluster_at s q) ≤ cpuDiff (cluster_at s p)).
Proof.
  intros Hreq Hne. unfold LeastUtilizedCluster.
  rewrite (foldl_ext _ (λ '(b, m) (x : string * loc),
    if roomy cpuReq memReq (cluster_at s x.2) && (cpuDiff (cluster_at s x.2) >? m)
    then (x.1, cpuDiff (cluster_at s x.2)) else (b, m))) by (by intros [] []).
  destruct (scan_best (λ x : string * loc, roomy cpuReq memReq (cluster_at s x.2))
    (λ x, cpuDiff (cluster_at s x.2)) fst (range ord (clusters s)) EmptyString (-1))
    as [[-> Hl] | ([k p] & Hin & Hok & Hlt & -> & Hl)]; simpl.
  - split; [|done]. split; [|done]. intros _ k p Hk%(elem_of_range ord).
    apply not_true_is_false. intros Hr. specialize (Hl _ Hk Hr). simpl in Hl.
    unfold roomy in Hr. bool_to_prop. lia.
  - apply elem_of_range in Hin. simpl in Hok. split.
    + split; [intros ->; congruence|]. intros Hnone. rewrite (Hnone _ _ Hin) in Hok. done.
    + intros _. exists p. split_and!; [done..|]. intros k' q Hk%(elem_of_range ord) Hr.
      by apply (Hl _ Hk).
Qed.

(** ** The peers to shed load to *)

Lemma bestAvailCPU_spec ord cpuReq memReq peer :
  let r := bestAvailCPU ord cpuReq memReq peer in
  (r = -1 ∧ ∀ k c, p_ClusterStates peer !! k = Some c → can_hold cpuReq memReq c = true →
    cpuDiff c ≤ -1) ∨
  (∃ k c, p_ClusterStates peer !! k = Some c ∧ can_hold cpuReq memReq c = true ∧
    r = cpuDiff c ∧ -1 < cpuDiff c ∧
    ∀ k' c', p_ClusterStates peer !! k' = Some c' → can_hold cpuReq memReq c' = true →
      cpuDiff c' ≤ cpuDiff c).
Proof.
  intros r. set (l := (range ord (p_ClusterStates peer)).*2).
  assert (r = (foldl (λ '(b, m) x, if can_hold cpuReq memReq x && (cpuDiff x >? m)
                then (tt, cpuDiff x) else (b, m)) (tt, -1) l).2) as ->.
  { unfold r, bestAvailCPU. fold l. generalize (-1). induction l as [|c l IH]; [done|].
    intros m. simpl. destruct (can_hold _ _ c); simpl; [|apply IH].
    destruct (cpuDiff c >? m); apply IH. }
  assert (∀ c, c ∈ l ↔ ∃ k, p_ClusterStates peer !! k = Some c) as Hl
    by apply elem_of_range_vals.
  destruct (scan_best (can_hold cpuReq memReq) cpuDiff (λ _, tt) l tt (-1))
    as [[-> Hb] | (c & Hin & Hok & Hlt & -> & Hb)].
  - left. split; [done|]. intros k c Hk. apply Hb, Hl. eauto.
  - right. apply Hl in Hin as [k Hk]. exists k, c. split_and!; try done.
    intros k' c' Hk'. apply Hb, Hl. eauto.
Qed.

(** The peer was heard of in time and one of its clusters can hold the job. *)
Definition free_peer (now timeout cpuReq memReq : Z) (peer : SchedulerState) : Prop :=
  now - p_LastUpdated peer ≤ timeout ∧
  map_Exists (λ _ c, can_hold cpuReq memReq c = true) (p_ClusterStates peer).

#[export] Instance free_peer_dec now timeout cpuReq memReq peer :
  Decision (free_peer now timeout cpuReq memReq peer).
Proof. unfold free_peer. apply _. Defined.

(** The most CPU that such a cluster of the peer has left. *)
Definition is_best (cpuReq memReq : Z) (peer : SchedulerState) (n : Z) : Prop :=
  (∃ k c, p_ClusterStates peer !! k = Some c ∧ can_hold cpuReq memReq c = true ∧
    cpuDiff c = n) ∧
  ∀ k c, p_ClusterStates peer !! k = Some c → can_hold cpuReq memReq c = true → cpuDiff c ≤ n.

Definition free_best (ord : MapOrder) (now timeout cpuReq memReq : Z) (peer : SchedulerState)
    : option (string * Z) :=
  if timeout <? now - p_LastUpdated peer then None else
  let best := bestAvailCPU ord cpuReq memReq peer in
  if best =? -1 then None else Some (p_ID peer, best).

Lemma free_best_spec ord now timeout cpuReq memReq peer :
  0 ≤ cpuReq →
  match free_best ord now timeout cpuReq memReq peer with
  | Some (i, n) => free_peer now timeout cpuReq memReq peer ∧ i = p_ID peer ∧
      is_best cpuReq memReq peer n
  | None => ¬ free_peer now timeout cpuReq memReq peer
  end.
Proof.
  intros Hreq. unfold free_best, free_peer. destruct (timeout <? _) eqn:Et; bool_to_prop; [lia|].
  destruct (bestAvailCPU_spec ord cpuReq memReq peer)
    as [[-> Hn] | (k & c & Hk & Hc & -> & Hlt & Hb)]; simpl.
  - intros [_ (k & c & Hk & Hc)]. specialize (Hn _ _ Hk Hc). unfold can_hold in Hc.
    bool_to_prop. lia.
  - rewrite (proj2 (Z.eqb_neq _ _)) by lia. split; [|split; [done|split]].
    + split; [lia | by exists k, c].
    + by exists k, c.
    + done.
Qed.

Lemma is_best_unique cpuReq memReq p m n :
  is_best cpuReq memReq p m → is_best cpuReq memReq p n → m = n.
Proof.
  intros [(k & c & Hk & Hc & <-) Hm] [(k' & c' & Hk' & Hc' & <-) Hn].
  specialize (Hm _ _ Hk' Hc'). specialize (Hn _ _ Hk Hc). lia.
Qed.

Lemma omap_free_best ord now timeout cpuReq memReq (l : list SchedulerState) :
  0 ≤ cpuReq → omap (free_best ord now timeout cpuReq memReq) l =
    (λ p, (p_ID p, bestAvailCPU ord cpuReq memReq p)) <$>
      filter (free_peer now timeout cpuReq memReq) l.
Proof.
  intros Hreq. induction l as [|x l IH]; [done|].
  pose proof (free_best_spec ord now timeout cpuReq memReq x Hreq) as Hx.
  rewrite filter_cons. set (fb := free_best ord now timeout cpuReq memReq) in *.
  change (omap fb (x :: l)) with
    (match fb x with Some y => y :: omap fb l | None => omap fb l end).
  destruct (fb x) as [[i n]|] eqn:E.
  - destruct Hx as (Hfree & -> & _). rewrite decide_True by done. rewrite IH. simpl. f_equal.
    revert E. unfold fb, free_best. repeat case_match; congruence.
  - rewrite decide_False by done. done.
Qed.

Lemma TopFreePeers_peers ss ord limit now timeout cpuReq memReq s k :
  k ∈ TopFreePeers ss ord limit now timeout cpuReq memReq s → ∃ p, p ∈ peers s ∧ p_ID p = k.
Proof.
  unfold TopFreePeers. intros Hk%elem_of_take. destruct Hk as (n & Hk & _).
  apply list_elem_of_lookup_2, list_elem_of_fmap in Hk as ([i b] & -> & Hin).
  rewrite (slice_sort_perm ss) in Hin. apply list_elem_of_omap in Hin as (p & Hp & Hf).
  exists p. split; [done|]. revert Hf. repeat case_match; naive_solver.
Qed.

(** [TopFreePeers] returns the ids of the [limit] best peers to take a job:
    the peers heard of in time that have a cluster able to hold it, ranked by the
    most CPU such a cluster has left, cut after [limit]. No other peer is
    returned, whatever the order in which maps are visited and equals sorted. *)
Theorem TopFreePeers_ranked ss ord limit now timeout cpuReq memReq s :
  0 ≤ cpuReq →
  ∃ ranked, TopFreePeers ss ord limit now timeout cpuReq memReq s =
      take (Z.to_nat limit) (p_ID <$> ranked) ∧
    ranked ≡ₚ filter (free_peer now timeout cpuReq memReq) (peers s) ∧
    StronglySorted (λ x y, ∀ m n, is_best cpuReq memReq x m → is_best cpuReq memReq y n → n ≤ m)
      ranked.
Proof.
  intros Hreq. unfold TopFreePeers.
  set (pairs := omap _ _). assert (pairs = omap (free_best ord now timeout cpuReq memReq) (peers s))
    as -> by done. rewrite omap_free_best by done.
  set (free := filter _ _).
  set (key := λ p, (p_ID p, bestAvailCPU ord cpuReq memReq p)).
  set (lt := λ x y : string * Z, x.2 >? y.2).
  pose proof (slice_sort_perm ss _ lt (key <$> free)) as Hp.
  apply Permutation_map_inv in Hp as (ranked & Hr & Hperm).
  exists ranked. split_and!.
  - rewrite Hr. rewrite <- list_fmap_compose. done.
  - done.
  - assert (StronglySorted (before lt) (key <$> ranked)) as Hsort.
    { change (key <$> ranked) with (map key ranked). rewrite <- Hr.
      apply slice_sort_sorted; unfold before, lt; intros;
        rewrite Z.gtb_ltb in *; bool_to_prop; rewrite ?Z.ltb_ge in *; lia. }
    assert (∀ p, p ∈ ranked → is_best cpuReq memReq p (bestAvailCPU ord cpuReq memReq p)) as Hbest.
    { intros p Hin. rewrite <- Hperm in Hin. unfold free in Hin.
      apply list_elem_of_filter in Hin as [Hfree _].
      pose proof (free_best_spec ord now timeout cpuReq memReq p Hreq) as Hx.
      destruct (free_best _ _ _ _ _ p) as [[i n]|] eqn:E; [|done].
      destruct Hx as (_ & _ & Hb). revert E. unfold free_best. repeat case_match; congruence. }
    clear -Hsort Hbest. revert Hbest. induction ranked as [|x l IH]; intros Hbest; [constructor|].
    inversion Hsort as [|? ? Hl Hx]; subst. constructor; [apply IH; [done|]; intros; apply Hbest; by right|].
    apply Forall_forall. intros y Hy m n Hm Hn.
    rewrite Forall_forall in Hx. specialize (Hx (key y) (list_elem_of_fmap_2 key _ _ Hy)).
    pose proof (is_best_unique _ _ _ _ _ Hm (Hbest x ltac:(by left))) as ->.
    pose proof (is_best_unique _ _ _ _ _ Hn (Hbest y ltac:(by right))) as ->.
    unfold before, lt, key in Hx. simpl in Hx. rewrite Z.gtb_ltb, Z.ltb_ge in Hx. done.
Qed.

(** ** Witnesses *)

(** Two clusters, of which one would be filled exactly, and two peers. *)
Definition externs_state : State :=
  UpdateCluster 0 "big" 1 10 9 90 (UpdateCluster 0 "full" 0 0 4 40
    (UpdateSchedulerState 5 "p2" {["c" := mkClusterState "c" 0 0 6 60 0 5]}
      (UpdateSchedulerState 5 "p1" {["d" := mkClusterState "d" 0 0 8 80 0 5]}
        (AddPeerScheduler 0 "p1" (AddPeerScheduler 0 "p2"
          (AddPeerScheduler 0 "p0" (NewState "s1" "50050"))))).2).2).

Lemma LeastUtilizedCluster_best_witness :
  clusters externs_state !! EmptyString = None ∧
  ∃ p, clusters externs_state !! "big" = Some p ∧
    roomy 4 40 (cluster_at externs_state p) = true ∧
    ∀ k q, clusters externs_state !! k = Some q → roomy 4 40 (cluster_at externs_state q) = true →
      cpuDiff (cluster_at externs_state q) ≤ cpuDiff (cluster_at externs_state p).
Proof.
  split; [vm_compute; reflexivity|].
  refine (proj2 (LeastUtilizedCluster_best default_order externs_state 4 40 _ _) _).
  - lia.
  - vm_compute. reflexivity.
  - vm_compute. discriminate.
Defined.

Lemma TopFreePeers_ranked_witness :
  TopFreePeers insertion_slice_sort default_order 5 6 4 4 40 externs_state = ["p1"; "p2"] ∧
  ∃ ranked,
    TopFreePeers insertion_slice_sort default_order 5 6 4 4 40 externs_state =
      take 5 (p_ID <$> ranked) ∧
    ranked ≡ₚ filter (free_peer 6 4 4 40) (peers externs_state) ∧
    StronglySorted (λ x y, ∀ m n, is_best 4 40 x m → is_best 4 40 y n → n ≤ m) ranked.
Proof.
  split; [vm_compute; reflexivity|].
  refine (TopFreePeers_ranked insertion_slice_sort default_order 5 6 4 4 40 externs_state _).
  lia.
Defined.
