(* ===== verification/SchedJobs.v ===== *)
(** * No job is lost: the life of a job in a scheduler

    An abstract scheduler is a map from job ids to phases. The detailed state
    of [SchedState], with its queue, its sets and its heap of jobs, implements
    it: every operation, called the way the packer, the handlers and the
    cluster connections call it, is a transition of the abstract one. A job that is
    assigned after its completion has a phase of its own. *)

From Stdlib Require Import Strings.Byte.
From S2P Require Import Prelude.
From S2P Require Import Models.
From S2P Require Import Arbiter.
From S2P Require Import SchedState.

(** [Revived]: completed, then assigned by a dispatch that the completion overtook. *)
Inductive phase := Queued | Assigned | Done | Revived.

#[export] Instance phase_eq_dec : EqDecision phase.
Proof. solve_decision. Defined.

Definition phase_status (ph : phase) (st : Status) : Prop :=
  match ph with
  | Queued => st = Pending
  | Assigned | Revived => st = Running
  | Done => st = Completed ∨ st = Failed
  end.

(** ** Operations as values *)

Inductive op :=
| OAppend (j : Job)
| ONext (availCPU availMem : Z)
| OAssign (jobId clusterId : string)
| OComplete (jobId : string) (result : list byte) (success : bool)
| OUnassign (jobId : string)
| OPurge (jobId : string).

(** A failed call leaves the state as it was. *)
Definition settle (s : State) (r : outcome JobError State) : State :=
  match r with Ok s' => s' | _ => s end.

Definition do_op (o : op) (s : State) : State :=
  match o with
  | OAppend j => AppendNew j s
  | ONext c m => (NextPendingJob c m s).2
  | OAssign i cl => settle s (AssignJob i cl s)
  | OComplete i r ok => settle s (CompleteJob i r ok s)
  | OUnassign i => UnassignJob i s
  | OPurge i => PurgeJob i s
  end.

(** How the callers call them: a new job has a fresh id ([RequestJob] draws a
    UUID); the job that is assigned to a cluster is one that [NextPendingJob] handed
    out, and meanwhile it may have been completed, but not put back in the queue. *)
Definition disciplined (o : op) (s : State) : Prop :=
  match o with
  | OAppend j => jobs s !! j_Id j = None ∧
      (j_Id j ∉ (λ p, j_Id (deref (jobHeap s) p)) <$> order (unassignedJobs s))
  | OAssign i _ => is_Some (assignedJobs s !! i) ∨ is_Some (completedJobs s !! i)
  | _ => True
  end.

(** The abstract transitions. *)
Definition spec_step (m : gmap string phase) (o : op) (m' : gmap string phase) : Prop :=
  match o with
  | OAppend j => m !! j_Id j = None ∧ m' = <[j_Id j := Queued]> m
  | ONext _ _ => m' = m ∨ ∃ i, m !! i = Some Queued ∧ m' = <[i := Assigned]> m
  | OAssign i _ =>
      m !! i = Some Assigned ∧ m' = m ∨
      (m !! i = Some Done ∨ m !! i = Some Revived) ∧ m' = <[i := Revived]> m
  | OComplete i _ _ => m' = (if decide (is_Some (m !! i)) then <[i := Done]> m else m)
  | OUnassign i =>
      m' = match m !! i with Some Assigned => <[i := Queued]> m | _ => m end
  | OPurge i => m' = delete i m
  end.

(** ** The refinement relation *)

Record R (s : State) (m : gmap string phase) : Prop := {
  R_jobs i : is_Some (jobs s !! i) ↔ is_Some (m !! i);
  R_heap i p : jobs s !! i = Some p →
    ∃ j, jobHeap s !! p = Some j ∧ j_Id j = i ∧
         ∀ ph, m !! i = Some ph → phase_status ph (j_Status j);
  R_queued i p : items (unassignedJobs s) !! i = Some p ↔
    jobs s !! i = Some p ∧ m !! i = Some Queued;
  R_assigned i : is_Some (assignedJobs s !! i) ↔ m !! i = Some Assigned ∨ m !! i = Some Revived;
  R_done i : is_Some (completedJobs s !! i) ↔ m !! i = Some Done ∨ m !! i = Some Revived;
  R_queue : queue_wf (accs s) (unassignedJobs s);
  R_order p : p ∈ order (unassignedJobs s) → (p < length (jobHeap s))%nat ∧
    ∀ ph, m !! j_Id (deref (jobHeap s) p) = Some ph → ph ≠ Assigned
}.

(** Projections of an updated state. *)
Ltac fields :=
  unfold write_job;
  cbn [jobs unassignedJobs assignedJobs completedJobs readJobs jobHeap
       set_jobs set_queue set_assigned set_completed set_read set_jobHeap].

(** ** Writing to the heap *)

(** Assignments that leave the identity and the requirements of a job alone. *)
Definition keeps_rank (f : Job → Job) : Prop :=
  ∀ j, j_Id (f j) = j_Id j ∧ j_Priority (f j) = j_Priority j ∧
       j_CPURequirement (f j) = j_CPURequirement j ∧
       j_MemoryRequirement (f j) = j_MemoryRequirement j.

Lemma keeps_rank_Status v : keeps_rank (with_Status v).
Proof. by intros []. Qed.
Lemma keeps_rank_Cluster v : keeps_rank (with_Cluster v).
Proof. by intros []. Qed.
Lemma keeps_rank_Response v : keeps_rank (with_Response v).
Proof. by intros []. Qed.
Lemma keeps_rank_compose f g : keeps_rank f → keeps_rank g → keeps_rank (f ∘ g).
Proof.
  intros Hf Hg j. destruct (Hf (g j)) as (H1 & H2 & H3 & H4), (Hg j) as (?&?&?&?).
  simpl. rewrite H1, H2, H3, H4. done.
Qed.
#[export] Hint Resolve keeps_rank_Status keeps_rank_Cluster keeps_rank_Response
  keeps_rank_compose : hive.

Lemma deref_alter (f : Job → Job) p h q :
  deref (alter f p h) q = f (deref h q) ∨ deref (alter f p h) q = deref h q.
Proof.
  unfold deref. destruct (decide (q = p)) as [->|Hne].
  - rewrite list_lookup_alter_eq. destruct (h !! p); simpl; auto.
  - rewrite list_lookup_alter_ne by done. auto.
Qed.

Lemma deref_alter_rank f p h q :
  keeps_rank f →
  j_Id (deref (alter f p h) q) = j_Id (deref h q) ∧
  j_Priority (deref (alter f p h) q) = j_Priority (deref h q) ∧
  j_CPURequirement (deref (alter f p h) q) = j_CPURequirement (deref h q) ∧
  j_MemoryRequirement (deref (alter f p h) q) = j_MemoryRequirement (deref h q).
Proof. intros Hf. destruct (deref_alter f p h q) as [-> | ->]; [apply Hf | done]. Qed.

Lemma deref_alter_Id f p h q :
  keeps_rank f → j_Id (deref (alter f p h) q) = j_Id (deref h q).
Proof. intros Hf. by destruct (deref_alter_rank f p h q Hf). Qed.

Lemma queue_wf_alter f p h q :
  keeps_rank f → queue_wf (job_accessors h) q → queue_wf (job_accessors (alter f p h)) q.
Proof.
  intros Hf. apply queue_wf_ext. intros x _. simpl.
  pose proof (deref_alter_rank f p h x Hf). tauto.
Qed.

Lemma deref_Some h p j : h !! p = Some j → deref h p = j.
Proof. unfold deref. by intros ->. Qed.

Lemma alter_alter {A} (f g : A → A) p (h : list A) : alter f p (alter g p h) = alter (f ∘ g) p h.
Proof. revert p. induction h as [|x h IH]; intros [|p]; try done. unfold alter. simpl. f_equal. apply IH. Qed.

(** Pointers of known jobs identify them. *)
Lemma R_id s m i p : R s m → jobs s !! i = Some p → j_Id (deref (jobHeap s) p) = i.
Proof. intros HR Hi. destruct (R_heap _ _ HR _ _ Hi) as (j & Hj & <- & _). by erewrite deref_Some. Qed.

(** A job moves to another phase: what an operation has to show. *)
Lemma R_move s m s' i p f ph :
  R s m → jobs s !! i = Some p → keeps_rank f → (∀ j, phase_status ph (j_Status (f j))) →
  jobs s' = jobs s → jobHeap s' = alter f p (jobHeap s) →
  (∀ k, is_Some (assignedJobs s' !! k) ↔
     <[i:=ph]> m !! k = Some Assigned ∨ <[i:=ph]> m !! k = Some Revived) →
  (∀ k, is_Some (completedJobs s' !! k) ↔
     <[i:=ph]> m !! k = Some Done ∨ <[i:=ph]> m !! k = Some Revived) →
  (∀ k p', items (unassignedJobs s') !! k = Some p' ↔
    jobs s !! k = Some p' ∧ <[i:=ph]> m !! k = Some Queued) →
  queue_wf (accs s) (unassignedJobs s') →
  (∀ q, q ∈ order (unassignedJobs s') → q ∈ order (unassignedJobs s) ∨ q = p) →
  (ph = Assigned → ∀ q, q ∈ order (unassignedJobs s') → j_Id (deref (jobHeap s) q) ≠ i) →
  R s' (<[i := ph]> m).
Proof.
  intros HR Hi Hf Hst Hj Hh Ha Hc Hq Hw Ho Has. pose proof (R_id _ _ _ _ HR Hi) as Hid.
  split; rewrite ?Hj, ?Hh; try done.
  - intros k. rewrite (R_jobs _ _ HR). destruct (decide (k = i)) as [->|Hne].
    + rewrite lookup_insert_eq. split; [eauto|]. intros _. apply (R_jobs _ _ HR). eauto.
    + by rewrite lookup_insert_ne.
  - intros k p' Hk. destruct (R_heap _ _ HR _ _ Hk) as (j & Hp & Hjid & Hjst).
    destruct (decide (p' = p)) as [->|Hne].
    + assert (k = i) as -> by (rewrite <- Hid; by erewrite deref_Some).
      exists (f j). rewrite list_lookup_alter_eq, Hp. split_and!; [done | by rewrite (proj1 (Hf j)) |].
      rewrite lookup_insert_eq. by intros ? [= <-].
    + exists j. rewrite list_lookup_alter_ne by done. split_and!; [done..|].
      rewrite lookup_insert_ne by congruence. done.
  - unfold accs. rewrite Hh. by apply queue_wf_alter.
  - intros q Hin. rewrite length_alter. rewrite deref_alter_Id by done.
    split.
    + destruct (Ho _ Hin) as [Hq' | ->]; [by apply (R_order _ _ HR)|].
      destruct (R_heap _ _ HR _ _ Hi) as (j & Hp & _). by eapply lookup_lt_Some.
    + destruct (decide (j_Id (deref (jobHeap s) q) = i)) as [He|Hne].
      * rewrite He, lookup_insert_eq. intros ? [= <-] Hp. by apply (Has Hp q).
      * rewrite lookup_insert_ne by done. destruct (Ho _ Hin) as [Hq' | ->]; [|congruence].
        by apply (R_order _ _ HR).
Qed.

(** ** Each operation implements its transition *)

Lemma is_Some_insert_tt (X : gmap string unit) i k :
  is_Some (<[i := tt]> X !! k) ↔ k = i ∨ is_Some (X !! k).
Proof.
  destruct (decide (k = i)) as [->|?]; [rewrite lookup_insert_eq; split; eauto|].
  rewrite lookup_insert_ne by done. tauto.
Qed.

Lemma is_Some_delete_tt (X : gmap string unit) i k :
  is_Some (delete i X !! k) ↔ k ≠ i ∧ is_Some (X !! k).
Proof.
  destruct (decide (k = i)) as [->|?].
  - rewrite lookup_delete_eq. split; [by intros [] | tauto].
  - rewrite lookup_delete_ne by done. tauto.
Qed.

Lemma insert_phase (m : gmap string phase) i ph k ph' :
  <[i := ph]> m !! k = Some ph' ↔ k = i ∧ ph = ph' ∨ k ≠ i ∧ m !! k = Some ph'.
Proof. rewrite lookup_insert_Some. naive_solver. Qed.

(** A queue without the entry of [i]. *)
Lemma R_removed s m i ph k p' :
  R s m → ph ≠ Queued →
  delete i (items (unassignedJobs s)) !! k = Some p' ↔
  jobs s !! k = Some p' ∧ <[i := ph]> m !! k = Some Queued.
Proof.
  intros HR Hph. rewrite lookup_delete_Some, (R_queued _ _ HR), insert_phase.
  naive_solver.
Qed.

(** The entries of [i] in the sets, by its phase. *)
Lemma R_move_assign s m i p cl ph :
  R s m → jobs s !! i = Some p → m !! i ≠ Some Queued →
  (ph = Assigned ∧ m !! i = Some Assigned ∨
   ph = Revived ∧ (m !! i = Some Done ∨ m !! i = Some Revived)) →
  ∀ s', AssignJob i cl s = Ok s' → R s' (<[i := ph]> m).
Proof.
  intros HR Hi Hnq Hph s'. unfold AssignJob. rewrite Hi. intros [= <-].
  eapply (R_move s m _ i p (with_Status Running ∘ with_Cluster cl)); eauto with hive; fields.
  - intros []. destruct Hph as [[-> _]|[-> _]]; done.
  - by rewrite alter_alter.
  - intros k. rewrite is_Some_insert_tt, (R_assigned _ _ HR), !insert_phase.
    destruct (decide (k = i)); naive_solver.
  - intros k. rewrite (R_done _ _ HR), !insert_phase. destruct (decide (k = i)); naive_solver.
  - intros k p'. rewrite RemoveByID_items. apply (R_removed _ m); [done|]. naive_solver.
  - apply RemoveByID_wf, HR.
  - intros q. rewrite order_RemoveByID. auto.
  - intros -> q. rewrite order_RemoveByID.
    intros Hq He. destruct (R_order _ _ HR q Hq) as [_ Hn]. rewrite He in Hn.
    destruct Hph as [[_ Hm]|[? _]]; [by eapply Hn | done].
Qed.

Lemma refines_Assign s m i cl s' :
  R s m → is_Some (assignedJobs s !! i) ∨ is_Some (completedJobs s !! i) → AssignJob i cl s = Ok s' →
  (m !! i = Some Assigned ∧ R s' m) ∨
  ((m !! i = Some Done ∨ m !! i = Some Revived) ∧ R s' (<[i := Revived]> m)).
Proof.
  intros HR Ha E. rewrite (R_assigned _ _ HR), (R_done _ _ HR) in Ha.
  assert (∃ p, jobs s !! i = Some p) as [p Hi].
  { unfold AssignJob in E. destruct (jobs s !! i); [eauto|done]. }
  assert (m !! i = Some Assigned ∨ m !! i = Some Done ∨ m !! i = Some Revived) as [Hm|Hm] by tauto.
  - left. split; [done|]. rewrite <- (insert_id m i Assigned) by done.
    eapply (R_move_assign s m i p cl); try done; [congruence | tauto].
  - right. split; [done|]. eapply (R_move_assign s m i p cl); try done; [destruct Hm; congruence | tauto].
Qed.

(** The job that a worker holds. *)
Lemma refines_Assign_held s m i cl s' :
  R s m → m !! i = Some Assigned → AssignJob i cl s = Ok s' → R s' m.
Proof.
  intros HR Hm E. destruct (refines_Assign s m i cl s' HR) as [[_ ?]|[[?|?] _]]; try done;
    [|congruence..]. left. apply (R_assigned _ _ HR). by left.
Qed.

Lemma R_unknown s m i : R s m → jobs s !! i = None → m !! i = None.
Proof.
  intros HR Hi. destruct (m !! i) eqn:E; [|done].
  assert (is_Some (jobs s !! i)) as [? ?] by (apply (R_jobs _ _ HR); eauto). congruence.
Qed.

Lemma refines_Complete s m i r ok s' :
  R s m → CompleteJob i r ok s = Ok s' → R s' (<[i := Done]> m).
Proof.
  intros HR. unfold CompleteJob. destruct (jobs s !! i) as [p|] eqn:Hi; [|done]. intros [= <-].
  eapply (R_move s m _ i p (with_Response r ∘ with_Status (if ok then Completed else Failed)));
    eauto with hive; fields.
  - intros []. destruct ok; simpl; auto.
  - by rewrite alter_alter.
  - intros k. rewrite is_Some_delete_tt, (R_assigned _ _ HR), !insert_phase. naive_solver.
  - intros k. rewrite is_Some_insert_tt, (R_done _ _ HR), !insert_phase.
    destruct (decide (k = i)); naive_solver.
  - intros k p'. rewrite RemoveByID_items. by apply (R_removed _ m).
  - apply RemoveByID_wf, HR.
  - intros q. rewrite order_RemoveByID. auto.
Qed.

(** A job may be pushed back when it is not in the queue's slice, or queued. *)
Lemma R_pushable s m i p :
  R s m → jobs s !! i = Some p → m !! i = Some Assigned ∨ m !! i = Some Queued →
  pushable (accs s) p (unassignedJobs s).
Proof.
  intros HR Hi Hph. unfold pushable. simpl. rewrite (R_id _ _ _ _ HR Hi). destruct Hph as [Ha|Hq].
  - right. intros (q & Hq & Hin)%list_elem_of_fmap. destruct (R_order _ _ HR q Hin) as [_ Hn].
    rewrite <- Hq in Hn. by eapply Hn.
  - left. apply (R_queued _ _ HR). done.
Qed.

Lemma refines_Unassign s m i :
  R s m →
  R (UnassignJob i s) (match m !! i with Some Assigned => <[i := Queued]> m | _ => m end).
Proof.
  intros HR. unfold UnassignJob. destruct (jobs s !! i) as [p|] eqn:Hi.
  2: { by rewrite (R_unknown _ _ _ HR Hi). }
  assert (is_Some (m !! i)) as [ph Hph] by (apply (R_jobs _ _ HR); eauto).
  destruct (completedJobs s !! i) eqn:Hc.
  { assert (m !! i = Some Done ∨ m !! i = Some Revived) as [-> | ->] by (apply (R_done _ _ HR); eauto); done. }
  assert (¬ (m !! i = Some Done ∨ m !! i = Some Revived)) as Hnd
    by (rewrite <- (R_done _ _ HR), Hc; by intros []).
  assert (m !! i = Some Assigned ∨ m !! i = Some Queued) as Hmi
    by (rewrite Hph in Hnd |- *; destruct ph; auto; destruct Hnd; auto).
  replace (match m !! i with Some Assigned => _ | _ => _ end) with (<[i := Queued]> m)
    by (destruct Hmi as [E | E]; rewrite E; [done | by rewrite insert_id]).
  eapply (R_move s m _ i p (with_Cluster EmptyString ∘ (with_Response [] ∘ with_Status Pending)));
    eauto with hive; fields.
  - by intros [].
  - by rewrite !alter_alter.
  - intros k. rewrite is_Some_delete_tt, (R_assigned _ _ HR), !insert_phase. naive_solver.
  - intros k. rewrite is_Some_delete_tt, (R_done _ _ HR), !insert_phase. naive_solver.
  - intros k p'. rewrite Push_items. unfold accs. simpl. fields.
    rewrite !alter_alter, deref_alter_Id by eauto with hive.
    rewrite (R_id _ _ _ _ HR Hi), lookup_insert_Some, (R_queued _ _ HR), insert_phase.
    destruct (decide (k = i)); naive_solver.
  - unfold accs. fields. rewrite !alter_alter.
    rewrite (Push_ext _ (accs s)) by (apply deref_alter_Id; eauto with hive).
    apply Push_wf; [apply HR | by eapply R_pushable].
  - intros q Hq%order_Push. done.
Qed.

Lemma refines_Next s m c mm r s' :
  R s m → NextPendingJob c mm s = (r, s') →
  match r with
  | None => R s' m ∧
      ∀ i p, items (unassignedJobs s) !! i = Some p → fits (accs s) c mm p = false
  | Some p => ∃ i, jobs s !! i = Some p ∧ m !! i = Some Queued ∧ R s' (<[i := Assigned]> m) ∧
      fits (accs s) c mm p = true ∧
      ∀ k p', items (unassignedJobs s) !! k = Some p' → fits (accs s) c mm p' = true →
        p' = p ∨ before (less (accs s)) p p'
  end.
Proof.
  intros HR. unfold NextPendingJob.
  destruct (PopBestFit _ _ _ _) as [[p|] q] eqn:E;
    pose proof (PopBestFit_sound _ _ _ _ _ _ (R_queue _ _ HR) E) as [Hw Hs]; intros [= <- <-].
  - destruct Hs as (Hl & Hfit & Hitems & Hbest). simpl in Hl, Hitems.
    pose proof (proj1 (R_queued _ _ HR _ _) Hl) as [Hj Hm].
    exists (j_Id (deref (jobHeap s) p)). set (i := j_Id (deref (jobHeap s) p)) in *.
    split_and!; try done.
    eapply (R_move s m _ i p (with_Status Running ∘ with_Cluster packing));
      eauto with hive; fields.
    + by intros [].
    + by rewrite alter_alter.
    + intros k. rewrite is_Some_insert_tt, (R_assigned _ _ HR), !insert_phase.
      destruct (decide (k = i)); naive_solver.
    + intros k. rewrite (R_done _ _ HR), !insert_phase. split; [|naive_solver].
      intros [Hk|Hk]; [left|right]; right; (split; [congruence|done]).
    + intros k p'. rewrite Hitems. by apply (R_removed _ m).
    + intros y Hy. left. by eapply PopBestFit_order; [apply HR | exact E | ].
    + intros _ y Hy. by eapply (PopBestFit_order (accs s)); [apply HR | exact E |].
  - destruct Hs as [Hitems Hnone]. split; [|done]. destruct HR as [H1 H2 H3 H4 H5 H6 H7].
    split; fields; try done.
    + intros k p'. rewrite Hitems. apply H3.
    + intros y Hy. apply H7. by eapply PopBestFit_order_None.
Qed.

Lemma deref_app h j p : (p < length h)%nat → deref (h ++ [j]) p = deref h p.
Proof. intros Hp. unfold deref. by rewrite lookup_app_l. Qed.

Lemma deref_last f h j : deref (alter f (length h) (h ++ [j])) (length h) = f j.
Proof.
  unfold deref. rewrite list_lookup_alter_eq, lookup_app_r, Nat.sub_diag by done. done.
Qed.

Lemma deref_old f h j p :
  (p < length h)%nat → deref (alter f (length h) (h ++ [j])) p = deref h p.
Proof.
  intros Hp. unfold deref. rewrite list_lookup_alter_ne, lookup_app_l by lia. done.
Qed.

Lemma R_lt s m i p : R s m → jobs s !! i = Some p → (p < length (jobHeap s))%nat.
Proof. intros HR Hi. destruct (R_heap _ _ HR _ _ Hi) as (j & Hj & _). by eapply lookup_lt_Some. Qed.

Lemma refines_Append s m j :
  R s m → disciplined (OAppend j) s → m !! j_Id j = None ∧
  R (AppendNew j s) (<[j_Id j := Queued]> m).
Proof.
  intros HR [Hnew Hord].
  assert (m !! j_Id j = None) as Hm by (by apply (R_unknown s)).
  split; [done|]. unfold AppendNew, AppendJob. fields. unfold accs. fields.
  set (h := jobHeap s) in *. set (p := length h).
  assert (j_Id (deref (alter (with_Status Pending) p (h ++ [j])) p) = j_Id j) as Hid
    by (unfold p; rewrite deref_last; by destruct j).
  rewrite Hid. split; fields.
  - intros k. destruct (decide (k = j_Id j)) as [->|Hne].
    + rewrite !lookup_insert_eq. split; eauto.
    + rewrite !lookup_insert_ne by done. apply (R_jobs _ _ HR).
  - intros k q [[<- <-]|[Hne Hk]]%lookup_insert_Some.
    + exists (with_Status Pending j). unfold p.
      rewrite list_lookup_alter_eq, lookup_app_r, Nat.sub_diag, lookup_insert_eq by done.
      split_and!; [done | by destruct j | intros ? [= <-]; by destruct j].
    + pose proof (R_lt _ _ _ _ HR Hk) as Hlt. fold h in Hlt.
      destruct (R_heap _ _ HR _ _ Hk) as (j' & Hj' & Hid' & Hst). exists j'.
      rewrite list_lookup_alter_ne, lookup_app_l, lookup_insert_ne by (done || (unfold p; lia)).
      done.
  - intros k q. rewrite Push_items. simpl. rewrite Hid, !lookup_insert_Some.
    rewrite (R_queued _ _ HR). naive_solver.
  - intros k. rewrite (R_assigned _ _ HR), !insert_phase. naive_solver.
  - intros k. rewrite (R_done _ _ HR), !insert_phase. naive_solver.
  - apply Push_wf.
    + eapply queue_wf_ext; [|apply HR]. intros q Hq. simpl.
      unfold p. rewrite deref_old by apply (R_order _ _ HR q Hq). done.
    + right. simpl. rewrite Hid. intros (q & Hq & Hin)%list_elem_of_fmap. apply Hord.
      unfold p in Hq. rewrite deref_old in Hq by apply (R_order _ _ HR q Hin).
      rewrite Hq. by apply (list_elem_of_fmap_2 (λ p, j_Id (deref h p))).
  - intros q Hq%order_Push. rewrite length_alter, length_app. simpl. destruct Hq as [Hq | ->].
    + destruct (R_order _ _ HR q Hq) as [Hlt Hph]. fold h in Hlt. split; [lia|].
      unfold p. rewrite deref_old by done. intros ph [[Heq _]|[_ Hph']]%insert_phase; [|by apply Hph].
      destruct Hord. rewrite <- Heq. by apply (list_elem_of_fmap_2 (λ p, j_Id (deref h p))).
    + split; [unfold p; lia|]. rewrite Hid, lookup_insert_eq. by intros ? [= <-].
Qed.

Lemma refines_Purge s m i : R s m → R (PurgeJob i s) (delete i m).
Proof.
  intros HR. unfold PurgeJob. destruct (jobs s !! i) as [p|] eqn:Hi.
  2: { rewrite delete_id; [done|]. by apply (R_unknown s). }
  split; fields.
  - intros k. destruct (decide (k = i)) as [->|Hne].
    + by rewrite !lookup_delete_eq.
    + rewrite !lookup_delete_ne by done. apply (R_jobs _ _ HR).
  - intros k q [Hne Hk]%lookup_delete_Some. rewrite lookup_delete_ne by done.
    by apply (R_heap _ _ HR).
  - intros k q. rewrite RemoveByID_items, !lookup_delete_Some, (R_queued _ _ HR). naive_solver.
  - intros k. rewrite is_Some_delete_tt, !lookup_delete_Some, (R_assigned _ _ HR). naive_solver.
  - intros k. rewrite is_Some_delete_tt, !lookup_delete_Some, (R_done _ _ HR). naive_solver.
  - apply RemoveByID_wf, HR.
  - intros q. rewrite order_RemoveByID. intros Hq. destruct (R_order _ _ HR q Hq) as [Hl Hph].
    split; [done|]. intros ph [_ Hph']%lookup_delete_Some. by apply Hph.
Qed.

Lemma do_op_refines s m o :
  R s m → disciplined o s → ∃ m', spec_step m o m' ∧ R (do_op o s) m'.
Proof.
  intros HR Hd. destruct o as [j|c mm|i cl|i r ok|i|i]; simpl.
  - destruct (refines_Append s m j HR Hd) as [??]. eauto.
  - destruct (NextPendingJob c mm s) as [[p|] s'] eqn:E; simpl;
      apply (refines_Next s m) in E; try done.
    + destruct E as (i & _ & Hm & HR' & _). eauto 10.
    + destruct E as [HR' _]. eauto.
  - destruct (AssignJob i cl s) as [s'|e|] eqn:E; simpl.
    + destruct (refines_Assign _ _ _ _ _ HR Hd E) as [[? ?]|[? ?]]; eauto.
    + exfalso. cbn in Hd. rewrite (R_assigned _ _ HR), (R_done _ _ HR) in Hd.
      assert (is_Some (jobs s !! i)) as [p Hp]
        by (apply (R_jobs _ _ HR); destruct Hd as [[?|?]|[?|?]]; eauto).
      unfold AssignJob in E. by rewrite Hp in E.
    + exfalso. unfold AssignJob in E. by destruct (jobs s !! i).
  - destruct (CompleteJob i r ok s) as [s'|e|] eqn:E; simpl.
    + exists (<[i := Done]> m). rewrite decide_True; [eauto using refines_Complete|].
      apply (R_jobs _ _ HR). unfold CompleteJob in E. destruct (jobs s !! i); [eauto|done].
    + exists m. rewrite decide_False; [done|]. rewrite <- (R_jobs _ _ HR).
      unfold CompleteJob in E. destruct (jobs s !! i); [done | by intros []].
    + unfold CompleteJob in E. by destruct (jobs s !! i).
  - eauto using refines_Unassign.
  - eauto using refines_Purge.
Qed.

(** ** Runs *)

Fixpoint do_ops (os : list op) (s : State) : State :=
  match os with [] => s | o :: os => do_ops os (do_op o s) end.

Fixpoint disciplined_run (os : list op) (s : State) : Prop :=
  match os with [] => True | o :: os => disciplined o s ∧ disciplined_run os (do_op o s) end.

Fixpoint spec_run (os : list op) (m m' : gmap string phase) : Prop :=
  match os with
  | [] => m' = m
  | o :: os => ∃ m1, spec_step m o m1 ∧ spec_run os m1 m'
  end.

#[export] Instance disciplined_dec o s : Decision (disciplined o s).
Proof. destruct o; simpl; apply _. Defined.
#[export] Instance disciplined_run_dec os s : Decision (disciplined_run os s).
Proof. revert s. induction os; simpl; apply _. Defined.

Lemma R_new i a : R (NewState i a) ∅.
Proof.
  split; simpl.
  - intros k. by rewrite !lookup_empty.
  - done.
  - intros k p. rewrite !lookup_empty. naive_solver.
  - intros k. rewrite !lookup_empty. split; [by intros [] | by intros []].
  - intros k. rewrite !lookup_empty. split; [by intros [] | by intros []].
  - apply queue_wf_new.
  - intros p []%not_elem_of_nil.
Qed.

Lemma do_ops_refines os : ∀ s m,
  R s m → disciplined_run os s → ∃ m', spec_run os m m' ∧ R (do_ops os s) m'.
Proof.
  induction os as [|o os IH]; intros s m HR; simpl; [eauto|]. intros [Hd Hrun].
  destruct (do_op_refines s m o HR Hd) as (m1 & Hstep & HR1).
  destruct (IH _ _ HR1 Hrun) as (m' & ? & ?). eauto.
Qed.

(** The id is in exactly one place, and its job says which. *)
Definition in_phase (s : State) (i : string) (ph : phase) : Prop :=
  ∃ p j, jobs s !! i = Some p ∧ jobHeap s !! p = Some j ∧ j_Id j = i ∧
    phase_status ph (j_Status j) ∧
    items (unassignedJobs s) !! i = (if decide (ph = Queued) then Some p else None) ∧
    (is_Some (assignedJobs s !! i) ↔ ph = Assigned ∨ ph = Revived) ∧
    (is_Some (completedJobs s !! i) ↔ ph = Done ∨ ph = Revived).

Definition unknown (s : State) (i : string) : Prop :=
  jobs s !! i = None ∧ items (unassignedJobs s) !! i = None ∧
  assignedJobs s !! i = None ∧ completedJobs s !! i = None.

Lemma R_in_phase s m i ph : R s m → m !! i = Some ph → in_phase s i ph.
Proof.
  intros HR Hm. assert (is_Some (jobs s !! i)) as [p Hp] by (apply (R_jobs _ _ HR); eauto).
  destruct (R_heap _ _ HR _ _ Hp) as (j & Hj & Hid & Hst). exists p, j. split_and!; auto.
  - case_decide as Hph.
    + apply (R_queued _ _ HR). split; [done | congruence].
    + apply eq_None_not_Some. intros [q Hq]. apply (R_queued _ _ HR) in Hq as [_ Hq]. congruence.
  - rewrite (R_assigned _ _ HR), Hm. naive_solver.
  - rewrite (R_done _ _ HR), Hm. naive_solver.
Qed.

Lemma R_is_unknown s m i : R s m → m !! i = None → unknown s i.
Proof.
  intros HR Hm. split_and!; apply eq_None_not_Some.
  - rewrite (R_jobs _ _ HR), Hm. by intros [].
  - intros [q Hq]. apply (R_queued _ _ HR) in Hq as [_ Hq]. congruence.
  - rewrite (R_assigned _ _ HR), Hm. naive_solver.
  - rewrite (R_done _ _ HR), Hm. naive_solver.
Qed.

(** ** Properties *)

(** C11: the job state machine implements the abstract one. Take any run of the
    operations of the state in which new jobs have ids that are neither known nor
    still in the queue's slice, and a job assigned to a cluster is one that was
    handed out by the queue and, since then, has at most been completed, not put back
    in the queue. Some run of the abstract scheduler explains the state: every known
    job is in exactly one place - the queue, the assigned set or the completed set -
    with the status that belongs to it, except that a job whose completion overtook
    the assignment after its dispatch is in both sets, with the status Running, until
    it is completed again or purged ([AssignJob_revives_completed]); ids that the
    abstract scheduler does not know have left no trace. No job is lost, none is
    duplicated. *)
Theorem scheduler_refines i a os :
  disciplined_run os (NewState i a) →
  let s := do_ops os (NewState i a) in
  ∃ m, spec_run os ∅ m ∧
    ∀ k, match m !! k with Some ph => in_phase s k ph | None => unknown s k end.
Proof.
  intros Hd s. destruct (do_ops_refines os _ _ (R_new i a) Hd) as (m & Hrun & HR).
  exists m. split; [done|]. intros k.
  destruct (m !! k) eqn:E; [by eapply R_in_phase | by eapply R_is_unknown].
Qed.

(** In every such state [NextPendingJob] hands out a queued job that fits and
    that no queued job that fits outranks (priority first, then memory), and
    locks it as assigned; it returns nothing only when no queued job fits, and
    then changes no job. *)
Theorem NextPendingJob_best i a os c mm r s' :
  disciplined_run os (NewState i a) →
  let s := do_ops os (NewState i a) in
  NextPendingJob c mm s = (r, s') →
  match r with
  | Some p => ∃ k, in_phase s k Queued ∧ jobs s !! k = Some p ∧ in_phase s' k Assigned ∧
      fits (accs s) c mm p = true ∧
      ∀ k' p', items (unassignedJobs s) !! k' = Some p' → fits (accs s) c mm p' = true →
        p' = p ∨ before (less (accs s)) p p'
  | None => (∀ k p, items (unassignedJobs s) !! k = Some p → fits (accs s) c mm p = false) ∧
      ∀ k ph, in_phase s k ph → in_phase s' k ph
  end.
Proof.
  intros Hd s. destruct (do_ops_refines os _ _ (R_new i a) Hd) as (m & _ & HR). fold s in HR.
  intros E. pose proof (refines_Next _ _ _ _ _ _ HR E) as H. destruct r as [p|].
  - destruct H as (k & Hk & Hm & HR' & Hfit & Hbest). exists k. split_and!; try done.
    + by eapply R_in_phase.
    + eapply R_in_phase; [done|]. apply lookup_insert_eq.
  - destruct H as [HR' Hnone]. split; [done|]. intros k ph Hk.
    eapply R_in_phase; [done|]. destruct (m !! k) as [ph'|] eqn:E'.
    + destruct (R_in_phase _ _ _ _ HR E') as (p1 & j1 & _ & _ & _ & _ & Hi1 & Ha1 & Hc1).
      destruct Hk as (p & j & _ & _ & _ & _ & Hi & Ha & Hc).
      rewrite Ha1 in Ha. rewrite Hc1 in Hc. rewrite Hi in Hi1. f_equal.
      destruct ph, ph'; naive_solver.
    + destruct (R_is_unknown _ _ _ HR E') as (Hj & _). destruct Hk as (p & j & Hp & _). congruence.
Qed.

(** A completion that overtakes the dispatch is undone by it. The stream of a
    cluster may report a job complete before [DispatchJob] has seen the answer to
    its own call; the [AssignJob] that follows sets the status of the completed
    job back to Running and leaves it in both sets. A later [UnassignJob], when
    the cluster is lost, changes nothing, and as the status is not Completed the
    job is not queued for release: clients are told Running until the cluster reports
    the job once more. *)
Theorem AssignJob_revives_completed s i p j res cl :
  jobs s !! i = Some p → jobHeap s !! p = Some j →
  ∃ s1 s2, CompleteJob i res true s = Ok s1 ∧ AssignJob i cl s1 = Ok s2 ∧
    j_Status <$> jobHeap s1 !! p = Some Completed ∧
    j_Status <$> jobHeap s2 !! p = Some Running ∧
    assignedJobs s2 !! i = Some tt ∧ completedJobs s2 !! i = Some tt ∧
    UnassignJob i s2 = s2 ∧ readJobs s2 = readJobs s.
Proof.
  intros Hi Hp. unfold CompleteJob. rewrite Hi. eexists _, _. split; [done|].
  unfold AssignJob. fields. rewrite Hi. split; [done|]. fields.
  rewrite !list_lookup_alter_eq, Hp. split_and!; try done.
  - simpl. by destruct j.
  - simpl. by destruct j.
  - apply lookup_insert_eq.
  - apply lookup_insert_eq.
  - unfold UnassignJob. fields. by rewrite Hi, lookup_insert_eq.
Qed.

(** ** Witnesses *)

Definition example_job (i : string) (prio : Z) : Job :=
  mkJob i "echo" EmptyString Pending 2 64 prio [] [].

(** Three jobs; the best is packed, assigned and completed, the next one is
    packed and rolled back. *)
Definition example_run : list op :=
  [OAppend (example_job "a" 1); OAppend (example_job "b" 9); OAppend (example_job "c" 5);
   ONext 4 128; OAssign "b" "c1"; ONext 4 128; OComplete "b" [] true; OUnassign "c"].

(** The same, where the dispatch of "b" sees its answer last. *)
Definition overtaken_run : list op := example_run ++ [OAssign "b" "c1"].

Definition example_state : State := do_ops example_run (NewState "s1" "50050").

Lemma scheduler_refines_witness :
  let s := do_ops overtaken_run (NewState "s1" "50050") in
  ∃ m, spec_run overtaken_run ∅ m ∧
    ∀ k, match m !! k with Some ph => in_phase s k ph | None => unknown s k end.
Proof.
  apply (scheduler_refines "s1" "50050" overtaken_run).
  refine (bool_decide_unpack _ _). vm_compute. exact I.
Defined.

Lemma NextPendingJob_best_witness :
  ∃ k, in_phase example_state k Queued ∧ jobs example_state !! k = Some 2%nat ∧
    in_phase (NextPendingJob 4 128 example_state).2 k Assigned ∧
    fits (accs example_state) 4 128 2%nat = true ∧
    ∀ k' p', items (unassignedJobs example_state) !! k' = Some p' →
      fits (accs example_state) 4 128 p' = true →
      p' = 2%nat ∨ before (less (accs example_state)) 2%nat p'.
Proof.
  refine (NextPendingJob_best "s1" "50050" example_run 4 128 (Some 2%nat) _ _ _).
  - refine (bool_decide_unpack _ _). vm_compute. exact I.
  - apply run_eq. vm_compute. reflexivity.
Defined.

Definition packed_state : State := do_ops (take 4 example_run) (NewState "s1" "50050").

Lemma AssignJob_revives_completed_witness :
  ∃ s1 s2, CompleteJob "b" [] true packed_state = Ok s1 ∧ AssignJob "b" "c1" s1 = Ok s2 ∧
    j_Status <$> jobHeap s1 !! 1%nat = Some Completed ∧
    j_Status <$> jobHeap s2 !! 1%nat = Some Running ∧
    assignedJobs s2 !! "b" = Some tt ∧ completedJobs s2 !! "b" = Some tt ∧
    UnassignJob "b" s2 = s2 ∧ readJobs s2 = readJobs packed_state.
Proof.
  eapply (AssignJob_revives_completed packed_state "b" 1%nat); vm_compute; reflexivity.
Defined.
