(* ===== verification/SchedService.v ===== *)
(** * The connections and the handlers of a scheduler

    [internal/scheduler/service]: the connection to a cluster (what it
    dispatches, what it makes of the cluster's answers), the connections to
    peer schedulers and the handlers that serve clients and peers. The answer of
    a remote call is an argument; [None] is an error of the call. *)

From Stdlib Require Import Strings.Byte.
From S2P Require Import Prelude.
From S2P Require Import Models.
From S2P Require Import Arbiter.
From S2P Require Import SchedState.
From S2P Require Import SchedExterns.

(** ** Messages between schedulers and clusters *)

(** src/api/proto/cluster/v1/cluster.proto:15-23 (ClusterStatusResponse) *)
Record ClusterStatusResponse := mkClusterStatusResponse {
  cs_NodeId : string; cs_NodeAddress : string; cs_TotalNanoCpu : Z; cs_TotalMemoryBytes : Z;
  cs_AvailableNanoCpu : Z; cs_AvailableMemoryBytes : Z; cs_ActiveJobIds : list string
}.

(** src/api/proto/cluster/v1/cluster.proto:25-32 (JobRequest) *)
Record ClusterJobRequest := mkClusterJobRequest {
  cj_JobId : string; cj_RequiredNanoCpu : Z; cj_RequiredMemoryBytes : Z;
  cj_ImageAlias : string; cj_Priority : Z; cj_Payload : list byte
}.

(** src/api/proto/cluster/v1/cluster.proto:41-47 (JobStatusResponse)

    The status is an open enumeration: any number can arrive. *)
Record ClusterJobStatus := mkClusterJobStatus {
  js_JobId : string; js_Status : Z; js_Priority : Z; js_ImageAlias : string;
  js_Payload : option (list byte)
}.

(** ** The connection to a cluster *)

(** src/internal/scheduler/service/cluster/models.go:10-19 (Status) *)
Record ClusterStatus := mkClusterStatus {
  NodeID : string; NodeAddress : string; TotalCPU : Z; TotalMemory : Z;
  AvailableCPU : Z; AvailableMemory : Z; ActiveJobIDs : list string; StatusLastUpdated : Z
}.

(** src/internal/scheduler/service/cluster/models.go:22-29 (JobEvent) *)
Record JobEvent := mkJobEvent {
  e_JobID : string; e_Status : Status; e_Priority : Z; e_ImageAlias : string;
  e_Payload : list byte; e_Success : bool
}.

(** src/internal/scheduler/service/cluster/models.go:33-48 (ParseClusterStatus) *)
Definition ParseClusterStatus (now : Z) (resp : option ClusterStatusResponse)
    : option ClusterStatus :=
  r ← resp;
  Some (mkClusterStatus (cs_NodeId r) (cs_NodeAddress r) (cs_TotalNanoCpu r)
    (cs_TotalMemoryBytes r) (cs_AvailableNanoCpu r) (cs_AvailableMemoryBytes r)
    (cs_ActiveJobIds r) now).

(** src/internal/scheduler/service/cluster/models.go:51-82 (ParseJobEvent) *)
Definition ParseJobEvent (resp : option ClusterJobStatus) : option JobEvent :=
  r ← resp;
  let status :=
    if js_Status r =? 0 then Pending
    else if js_Status r =? 1 then Running
    else if js_Status r =? 2 then Completed
    else if js_Status r =? 3 then Failed
    else Failed in
  Some (mkJobEvent (js_JobId r) status (js_Priority r) (js_ImageAlias r)
    (default [] (js_Payload r)) false).

(** src/internal/scheduler/service/cluster/client.go:24-36 (Conn) *)
Record ClusterConn := mkClusterConn { cc_nodeID : string; cc_connected : bool }.

(** src/internal/scheduler/service/cluster/client.go:108-110 (Conn.Connection) *)
Definition Connection (c : ClusterConn) : bool := cc_connected c.

(** The states of a gRPC connection. *)
Inductive connectivity := Idle | Connecting | Ready | TransientFailure | Shutdown.

(** src/internal/scheduler/service/cluster/client.go:75-105 (Conn.monitorConnection, one change)

    The flag after the connection has changed to [newState]. *)
Definition cluster_monitor_step (newState : connectivity) (c : ClusterConn) : ClusterConn :=
  match newState with
  | Ready => mkClusterConn (cc_nodeID c) true
  | Idle | TransientFailure => mkClusterConn (cc_nodeID c) false
  | _ => c
  end.

(** src/internal/scheduler/service/cluster/client.go:114-128 (Conn.FetchClusterStatus) *)
Definition FetchClusterStatus (now : Z) (c : ClusterConn) (rpc : option ClusterStatusResponse)
    : option ClusterStatus :=
  if negb (Connection c) then None else
  resp ← rpc; ParseClusterStatus now (Some resp).

(** src/internal/scheduler/service/cluster/client.go:132-155 (Conn.DispatchJob, the request)

    The request sent, if the job passes the validation. *)
Definition dispatch_request (c : ClusterConn) (job : Job) : option ClusterJobRequest :=
  if negb (Connection c) then None else
  if (j_Id job == EmptyString)%go then None else
  if (j_ImageAlias job == EmptyString)%go then None else
  if (j_CPURequirement job <=? 0) || (j_MemoryRequirement job <=? 0) then None else
  Some (mkClusterJobRequest (j_Id job) (j_CPURequirement job) (j_MemoryRequirement job)
    (j_ImageAlias job) (j_Priority job) (j_Payload job)).

(** src/internal/scheduler/service/cluster/client.go:132-172 (Conn.DispatchJob)

    [rpc] is the [accept] of the cluster's answer, [meanwhile] what other
    goroutines do to the state during the call. The result is [(accepted, nil)]
    or an error. *)
Definition DispatchJob (c : ClusterConn) (rpc : ClusterJobRequest → option bool)
    (meanwhile : State → State) (job : loc) (s : State) : option bool * State :=
  match dispatch_request c (deref (jobHeap s) job) with
  | None => (None, s)
  | Some req =>
      let s := meanwhile s in
      match rpc req with
      | None => (None, s)
      | Some true =>
          (Some true,
           match AssignJob (j_Id (deref (jobHeap s) job)) (cc_nodeID c) s with
           | Ok s' => s'
           | _ => s
           end)
      | Some false => (Some false, s)
      end
  end.

(** src/internal/scheduler/service/cluster/client.go:217-230 (Conn.monitorJobStatuses, one event) *)
Definition status_event (resp : option ClusterJobStatus) (s : State) : State :=
  match ParseJobEvent resp with
  | None => s
  | Some event =>
      if bool_decide (e_Status event = Completed) || bool_decide (e_Status event = Failed) then
        match CompleteJob (e_JobID event) (e_Payload event)
                (bool_decide (e_Status event = Completed)) s with
        | Ok s' => s'
        | _ => s
        end
      else s
  end.

(** ** Messages between schedulers *)

(** src/api/proto/scheduling/v1/coordinate.proto:17-23 (JobRequest) *)
Record JobRequest := mkJobRequest {
  rq_RequiredNanoCpu : Z; rq_RequiredMemoryBytes : Z; rq_ImageAlias : option string;
  rq_Priority : option Z; rq_Payload : option (list byte)
}.

(** src/api/proto/scheduling/v1/coordinate.proto:25-30 (JobResponse) *)
Record JobResponse := mkJobResponse { rs_JobId : string; rs_Accept : bool }.

(** src/api/proto/scheduling/v1/coordinate.proto:36-43 (JobStatusResponse) *)
Record JobStatusResponse := mkJobStatusResponse {
  st_JobId : string; st_Status : string; st_Priority : Z; st_ImageAlias : string;
  st_Payload : option (list byte); st_Result : option (list byte)
}.

(** src/api/proto/scheduling/v1/coordinate.proto:45-54 (RedistributeRequest) *)
Record RedistributeRequest := mkRedistributeRequest {
  rd_OriginSchedulerId : string; rd_JobId : string; rd_Gossip : bool;
  rd_RequiredNanoCpu : Z; rd_RequiredMemoryBytes : Z; rd_ImageAlias : option string;
  rd_Priority : option Z; rd_Payload : option (list byte)
}.

(** src/api/proto/scheduling/v1/coordinate.proto:56-60 (RedistributeResponse) *)
Record RedistributeResponse := mkRedistributeResponse {
  rr_JobId : string; rr_AssignedSchedulerId : string; rr_Accept : bool
}.

(** src/api/proto/scheduling/v1/coordinate.proto:67-73 (ClusterUsage) *)
Record ClusterUsage := mkClusterUsage {
  us_ClusterId : string; us_CpuUsage : Z; us_MemUsage : Z; us_TotalCpu : Z; us_TotalMem : Z
}.

(** src/api/proto/scheduling/v1/coordinate.proto:62-65 (HeartbeatRequest) *)
Record HeartbeatRequest := mkHeartbeatRequest {
  hb_SchedulerId : string; hb_ClusterUsage : list ClusterUsage
}.

(** src/api/proto/scheduling/v1/coordinate.proto:75-80 (JobList) *)
Record JobList := mkJobList {
  TotalJobs : Z; PendingJobId : list string; RunningJobId : list string;
  CompletedJobId : list string
}.

(** ** The handlers *)

(** src/internal/scheduler/service/coordinate/handler.go:32-49 (Handler.RequestJob)

    [uuid] is the fresh UUID of the id. *)
Definition RequestJob (uuid : string) (req : JobRequest) (s : State) : JobResponse * State :=
  let id := NewJobID uuid in
  let job := mkJob id (default EmptyString (rq_ImageAlias req)) EmptyString Pending
    (rq_RequiredNanoCpu req) (rq_RequiredMemoryBytes req) (default 0 (rq_Priority req))
    (default [] (rq_Payload req)) [] in
  (mkJobResponse id true, AppendNew job s).

(** src/internal/scheduler/service/coordinate/handler.go:52-79 (Handler.RequestJobStatus)

    The response, or [None] for the nil response that is returned, with a nil
    error, when the job vanishes between the two calls; [meanwhile] is what
    happens there. The job is read through its pointer after both. *)
Definition RequestJobStatus (now : Z) (meanwhile : State → State) (jobId : string) (s : State)
    : option JobStatusResponse * State :=
  match get_Job jobId s with
  | Ok job =>
      let respond (s : State) :=
        let j := deref (jobHeap s) job in
        Some (mkJobStatusResponse (j_Id j) (Status_String (j_Status j)) (wrap32 (j_Priority j))
          (j_ImageAlias j) (Some (j_Payload j)) (Some (j_Response j))) in
      if bool_decide (j_Status (deref (jobHeap s) job) = Completed) then
        let s := meanwhile s in
        match QueueFreeCompletedJob now jobId s with
        | Ok s => (respond s, s)
        | _ => (None, s)
        end
      else (respond s, s)
  | _ => (Some (mkJobStatusResponse jobId "NOT_FOUND" (-1) EmptyString None None), s)
  end.

(** src/internal/scheduler/service/coordinate/handler.go:82-118 (Handler.Redistribute)

    A missing image alias or priority is dereferenced all the same. *)
Definition Redistribute_handler (ord cord qord : MapOrder) (req : RedistributeRequest) (s : State)
    : outcome unit RedistributeResponse * State :=
  let answer a := mkRedistributeResponse (rd_JobId req) (get_Id s) a in
  if (LeastUtilizedCluster ord (rd_RequiredNanoCpu req) (rd_RequiredMemoryBytes req) s
        == EmptyString)%go &&
     AtMaximumCapacity cord qord (rd_RequiredNanoCpu req) (rd_RequiredMemoryBytes req) s
  then (Ok (answer false), s)
  else if rd_Gossip req then (Ok (answer true), s)
  else match rd_ImageAlias req, rd_Priority req with
       | Some alias, Some priority =>
           (Ok (answer true),
            AppendNew (mkJob (rd_JobId req) alias EmptyString Pending (rd_RequiredNanoCpu req)
              (rd_RequiredMemoryBytes req) priority (default [] (rd_Payload req)) []) s)
       | _, _ => (Panic, s)
       end.

(** src/internal/scheduler/service/coordinate/handler.go:121-136 (Handler.Heartbeat) *)
Definition Heartbeat (now : Z) (req : HeartbeatRequest) (s : State) : State :=
  let newStates := foldl (λ m usage,
    <[us_ClusterId usage := mkClusterState (us_ClusterId usage) (us_CpuUsage usage)
        (us_MemUsage usage) (us_TotalCpu usage) (us_TotalMem usage) 0 now]> m)
    ∅ (hb_ClusterUsage req) in
  (UpdateSchedulerState now (hb_SchedulerId req) newStates s).2.

(** src/internal/scheduler/service/coordinate/handler.go:138-151 (Handler.ListJobs)

    The three lists are read one after the other. *)
Definition ListJobs (oc oa oq : MapOrder) (between1 between2 : State → State) (s : State)
    : JobList * State :=
  let completedJobs := CompletedJobs oc s in
  let s := between1 s in
  let activeJobs := ActiveJobs oa s in
  let s := between2 s in
  let pendingJobs := PendingJobs oq s in
  (mkJobList (wrap32 (Z.of_nat (length completedJobs + length activeJobs + length pendingJobs)))
    pendingJobs activeJobs completedJobs, s).

(** ** The connections to peers *)

(** src/internal/scheduler/service/coordinate/requests.go:19-31 (Conn) *)
Record PeerConn := mkPeerConn { pc_nodeID : string; pc_connected : bool }.

(** src/internal/scheduler/service/coordinate/requests.go:65-92 (Conn.monitorConnection, one state)

    The flag after the loop has seen [st]. *)
Definition peer_monitor_step (st : connectivity) (c : PeerConn) : PeerConn :=
  match st with
  | Ready => mkPeerConn (pc_nodeID c) true
  | _ => mkPeerConn (pc_nodeID c) false
  end.

(** src/internal/scheduler/service/coordinate/requests.go:95-99 (Conn.IsConnected) *)
Definition IsConnected (c : PeerConn) : bool := pc_connected c.

(** src/internal/scheduler/service/coordinate/requests.go:107-119 (Conn.Redistribute, the request) *)
Definition transfer_request (originID : string) (job : Job) (gossip : bool) : RedistributeRequest :=
  mkRedistributeRequest originID (j_Id job) gossip (j_CPURequirement job)
    (j_MemoryRequirement job) (Some (j_ImageAlias job)) (Some (j_Priority job))
    (Some (j_Payload job)).

(** src/internal/scheduler/service/coordinate/requests.go:102-130 (Conn.Redistribute)

    The answer's [accept] and assigned scheduler, or an error. *)
Definition Redistribute_call (c : PeerConn) (originID : string) (job : Job) (gossip : bool)
    (rpc : RedistributeRequest → option RedistributeResponse) : option (bool * string) :=
  if negb (IsConnected c) then None else
  resp ← rpc (transfer_request originID job gossip); Some (rr_Accept resp, rr_AssignedSchedulerId resp).

(** src/internal/scheduler/service/coordinate/requests.go:133-146 (Conn.RequestJobStatus) *)
Definition RequestJobStatus_call (c : PeerConn) (jobID : string)
    (rpc : string → option JobStatusResponse) : option JobStatusResponse :=
  if negb (IsConnected c) then None else rpc jobID.

(** src/internal/scheduler/service/coordinate/requests.go:149-176 (Conn.SendHeartbeat)

    The request sent, if any. *)
Definition SendHeartbeat (ord : MapOrder) (c : PeerConn) (s : State) : option HeartbeatRequest :=
  if negb (IsConnected c) then None else
  let usages := (λ p, let u := cluster_at s p in
    mkClusterUsage (c_ID u) (c_UsedCpu u) (c_UsedMem u) (c_MaxCpu u) (c_MaxMem u))
    <$> LocalClusters ord s in
  Some (mkHeartbeatRequest (get_Id s) usages).

(** src/internal/scheduler/service/coordinate/handler.go:153-159 (Handler.ForEach)

    Errors are logged. *)
Definition ForEach (op : PeerConn → State → option unit * State) (cliConns : list PeerConn)
    (s : State) : State :=
  foldl (λ s conn, (op conn s).2) s cliConns.

(** src/internal/scheduler/service/coordinate/handler.go:161-173 (Handler.OpConn)

    True for a nil error. *)
Definition OpConn (cliConns : list PeerConn) (schedulerId : string)
    (op : PeerConn → State → bool * State) (s : State) : bool * State :=
  match list_find (λ conn, pc_nodeID conn = schedulerId) cliConns with
  | Some (_, conn) => op conn s
  | None => (true, s)
  end.

(** ** The control plane *)

(** src/internal/scheduler/service/serve.go:18-26 (SchedulerControl) *)
Record SchedulerControl := mkSchedulerControl {
  clusterConns : gmap string ClusterConn;
  cliConns : list PeerConn
}.

(** src/internal/scheduler/service/serve.go:105-113 (SchedulerControl.ClusterIDs) *)
Definition ClusterIDs (ord : MapOrder) (sc : SchedulerControl) : list string :=
  (range ord (clusterConns sc)).*1.

(** src/internal/scheduler/service/serve.go:116-123 (SchedulerControl.Cluster)

    A missing connection is a nil pointer. *)
Definition Cluster (i : string) (sc : SchedulerControl) : option ClusterConn :=
  clusterConns sc !! i.

(** src/internal/scheduler/service/cluster/client.go:39-61 (NewConn)

    [dial] is whether [grpc.NewClient] accepts the address; the connection is not
    up yet, and its two goroutines start. *)
Definition new_cluster_conn (dial : string → bool) (i addr : string) : option ClusterConn :=
  if dial addr then Some (mkClusterConn i false) else None.

(** src/internal/scheduler/service/coordinate/requests.go:34-54 (NewConn) *)
Definition new_peer_conn (dial : string → bool) (i addr : string) : option PeerConn :=
  if dial addr then Some (mkPeerConn i false) else None.

(** src/internal/scheduler/service/serve.go:28-71 (NewSchedulerControl)

    [dial] says whether [grpc.NewClient] accepts an address: a connection that
    cannot be made is logged and left out. *)
Definition NewSchedulerControl (po co : MapOrder) (dial : string → bool)
    (peerSchedulers clusters : gmap string string) : SchedulerControl :=
  mkSchedulerControl
    (foldl (λ m '(i, addr), match new_cluster_conn dial i addr with
                            | Some conn => <[i := conn]> m
                            | None => m
                            end) ∅ (range co clusters))
    (omap (λ '(i, addr), new_peer_conn dial i addr) (range po peerSchedulers)).

(** src/internal/scheduler/service/serve.go:125-147 (SchedulerControl.ConnectClusters) *)
Definition ConnectClusters (ord : MapOrder) (dial : string → bool)
    (clusters : gmap string string) (sc : SchedulerControl) : SchedulerControl :=
  mkSchedulerControl
    (foldl (λ m '(i, addr),
      match m !! i with
      | Some _ => m
      | None => match new_cluster_conn dial i addr with
                | Some conn => <[i := conn]> m
                | None => m
                end
      end) (clusterConns sc) (range ord clusters))
    (cliConns sc).

(** ** What a heartbeat carries *)

Lemma heartbeat_fold now (s : State) (l : list (string * loc)) :
  ∀ (m : gmap string ClusterState) k,
  NoDup l.*1 → (∀ i p, (i, p) ∈ l → c_ID (cluster_at s p) = i) →
  foldl (λ m usage,
    <[us_ClusterId usage := mkClusterState (us_ClusterId usage) (us_CpuUsage usage)
        (us_MemUsage usage) (us_TotalCpu usage) (us_TotalMem usage) 0 now]> m) m
    ((λ p, let u := cluster_at s p in
       mkClusterUsage (c_ID u) (c_UsedCpu u) (c_UsedMem u) (c_MaxCpu u) (c_MaxMem u)) <$> l.*2)
    !! k =
  match list_find (λ x, x.1 = k) l with
  | Some (_, (_, p)) =>
      let c := cluster_at s p in
      Some (mkClusterState k (c_UsedCpu c) (c_UsedMem c) (c_MaxCpu c) (c_MaxMem c) 0 now)
  | None => m !! k
  end.
Proof.
  induction l as [|[i p] l IH]; intros m k Hn Hid; [done|].
  apply NoDup_cons in Hn as [Hi Hn]. simpl. rewrite IH; [|done|].
  2: { intros j q Hj. apply Hid. by right. }
  rewrite (Hid i p) by (by left). case_decide as Hk.
  - subst i. rewrite (proj2 (list_find_None _ l)), lookup_insert_eq; [done|].
    apply Forall_forall. intros [j q] Hin Hj. simpl in Hj. subst j.
    apply Hi. apply list_elem_of_fmap. by exists (k, q).
  - destruct (list_find _ l) as [[n [j q]]|]; simpl; [done|]. by rewrite lookup_insert_ne.
Qed.

Lemma list_find_range ord {V} (m : gmap string V) k :
  (λ x, x.2.2) <$> list_find (λ x : string * V, x.1 = k) (range ord m) = m !! k.
Proof.
  destruct (list_find _ _) as [[n [j v]]|] eqn:E; simpl.
  - apply list_find_Some in E as (Hl & Hj & _). simpl in Hj. subst j. symmetry.
    apply (elem_of_range ord). by eapply list_elem_of_lookup_2.
  - apply list_find_None in E. symmetry. apply eq_None_not_Some. intros [v Hv].
    apply (elem_of_range ord) in Hv. rewrite Forall_forall in E. by apply (E _ Hv).
Qed.

Lemma list_find_insert {A} (P : A → Prop) `{∀ x, Decision (P x)} l k x y :
  list_find P l = Some (k, x) → P y → list_find P (<[k := y]> l) = Some (k, y).
Proof.
  intros (Hk & Hx & Hlt)%list_find_Some Hy. apply list_find_Some.
  split_and!; [by rewrite list_lookup_insert_eq by (by eapply lookup_lt_Some) | done|].
  intros j z Hj Hjk. rewrite list_lookup_insert_ne in Hj by lia. by eapply Hlt.
Qed.

(** A heartbeat makes the receiver see the sender's clusters as the sender does:
    the usage and the capacity of every local cluster arrive under its id, nothing
    else does, the state reported before is gone, and the peer counts as heard of
    at the time of receipt. *)
Theorem heartbeat_roundtrip ord now c s t req peer :
  (∀ i p, clusters s !! i = Some p → c_ID (cluster_at s p) = i) →
  SendHeartbeat ord c s = Some req →
  PeerSchedulerState (get_Id s) t = Some peer →
  ∃ peer', PeerSchedulerState (get_Id s) (Heartbeat now req t) = Some peer' ∧
    p_LastUpdated peer' = now ∧
    ∀ i, p_ClusterStates peer' !! i =
      (λ p, let c := cluster_at s p in
         mkClusterState i (c_UsedCpu c) (c_UsedMem c) (c_MaxCpu c) (c_MaxMem c) 0 now)
      <$> clusters s !! i.
Proof.
  intros Hid. unfold SendHeartbeat. destruct (IsConnected c); [|done]. intros [= <-] Hp.
  unfold PeerSchedulerState, Heartbeat, UpdateSchedulerState in *.
  cbn [hb_ClusterUsage hb_SchedulerId] in *.
  destruct (list_find _ (peers t)) as [[k peer0]|] eqn:E; [|done]. injection Hp as ->.
  cbn [peers set_peers snd].
  erewrite list_find_insert; [|exact E|by apply list_find_Some in E as (_ & ? & _)].
  eexists. split; [done|]. split; [done|]. intros i. cbn [p_ClusterStates].
  unfold LocalClusters.
  etrans; [apply (heartbeat_fold now s (range ord (clusters s)) ∅ i)|].
  - apply NoDup_range_keys.
  - intros j p Hj%elem_of_range. by apply Hid.
  - rewrite <- (list_find_range ord (clusters s) i).
    destruct (list_find _ (range ord _)) as [[n [j p]]|]; simpl; [done|]. apply lookup_empty.
Qed.

(** A job that is shed arrives unchanged. What [Conn.Redistribute] sends, the
    handler of the peer refuses without a trace, or takes: then the peer holds, as
    its newest job, a job with the same id, image, requirements, priority and
    payload, pending, queued under its id and not yet assigned. The handler does
    not crash on such a request. *)
Theorem redistribute_transfers o1 o2 o3 origin job t :
  let '(r, t') := Redistribute_handler o1 o2 o3 (transfer_request origin job false) t in
  ∃ resp, r = Ok resp ∧ rr_AssignedSchedulerId resp = get_Id t ∧
    if rr_Accept resp then
      jobs t' !! j_Id job = Some (length (jobHeap t)) ∧
      items (unassignedJobs t') !! j_Id job = Some (length (jobHeap t)) ∧
      deref (jobHeap t') (length (jobHeap t)) =
        mkJob (j_Id job) (j_ImageAlias job) EmptyString Pending (j_CPURequirement job)
          (j_MemoryRequirement job) (j_Priority job) (j_Payload job) []
    else t' = t.
Proof.
  unfold Redistribute_handler, transfer_request.
  cbn [rd_JobId rd_Gossip rd_ImageAlias rd_Priority rd_Payload rd_RequiredNanoCpu
       rd_RequiredMemoryBytes].
  destruct (_ && _); [by eexists|]. eexists. split; [done|]. split; [done|].
  cbn [rr_Accept]. set (p := length (jobHeap t)). set (j := mkJob _ _ _ _ _ _ _ _ _).
  assert (deref (alter (with_Status Pending) p (jobHeap t ++ [j])) p = j) as Hj.
  { unfold deref, p. by rewrite list_lookup_alter_eq, lookup_app_r, Nat.sub_diag. }
  unfold AppendNew, AppendJob, write_job, accs.
  cbn [jobs unassignedJobs jobHeap set_jobs set_queue set_jobHeap]. fold p. rewrite Hj.
  split_and!; [apply lookup_insert_eq| |done].
  rewrite Push_items. cbn [idFn job_accessors]. rewrite Hj. apply lookup_insert_eq.
Qed.

(** ** Witnesses *)

Definition heartbeat_sender : State :=
  UpdateCluster 0 "c2" 1 10 9 90 (UpdateCluster 0 "c1" 0 0 4 40 (NewState "s1" "50050")).
Definition heartbeat_receiver : State := AddPeerScheduler 0 "s1" (NewState "s2" "50051").

Lemma heartbeat_roundtrip_witness :
  ∃ peer', PeerSchedulerState "s1" (Heartbeat 7
      (default (mkHeartbeatRequest EmptyString [])
        (SendHeartbeat default_order (mkPeerConn "s2" true) heartbeat_sender))
      heartbeat_receiver) = Some peer' ∧
    p_LastUpdated peer' = 7 ∧
    ∀ i, p_ClusterStates peer' !! i =
      (λ p, let c := cluster_at heartbeat_sender p in
         mkClusterState i (c_UsedCpu c) (c_UsedMem c) (c_MaxCpu c) (c_MaxMem c) 0 7)
      <$> clusters heartbeat_sender !! i.
Proof.
  refine (heartbeat_roundtrip default_order 7 (mkPeerConn "s2" true) heartbeat_sender
    heartbeat_receiver _ (mkSchedulerState "s1" ∅ 0) _ _ _).
  - refine (proj1 (map_Forall_lookup _ _) _). refine (bool_decide_unpack _ _).
    vm_compute. exact I.
  - vm_compute. reflexivity.
  - vm_compute. reflexivity.
Defined.
