(* ===== verification/SchedAnswers.v ===== *)
(** * How long a scheduler answers for a finished job

    The status of a job is asked for with [RequestJobStatus]
    ([scheduler/service/coordinate/handler.go]); [ClearCompletedJobs]
    ([scheduler/states/state.go]) forgets the jobs whose status was read some time
    ago. Here they run together, with other code beside them. *)

From Stdlib Require Import Strings.Byte Strings.String.
From S2P Require Import Prelude.
From S2P Require Import Models.
From S2P Require Import Arbiter.
From S2P Require Import SchedState.
From S2P Require Import SchedService.

(** A question for a job, a tick of the purge, or something else. *)
Inductive answer_op :=
| Ask (now : Z) (i : string)
| Clear (ord : MapOrder) (now : Z)
| Beside (f : State → State).

Definition answer_step (s : State) (o : answer_op) : State :=
  match o with
  | Ask now i => (RequestJobStatus now (λ s, s) i s).2
  | Clear ord now => clear_tick ord now (λ s, s) s
  | Beside f => f s
  end.
Definition answer_run (os : list answer_op) (s : State) : State := foldl answer_step s os.

(** The answer about a job now. *)
Definition answer (j : string) (s : State) : option JobStatusResponse :=
  (RequestJobStatus 0 (λ s, s) j s).1.

(** The answer that is in the record of a job. *)
Definition answer_of (job : Job) : JobStatusResponse :=
  mkJobStatusResponse (j_Id job) (Status_String (j_Status job)) (wrap32 (j_Priority job))
    (j_ImageAlias job) (Some (j_Payload job)) (Some (j_Response job)).

(** The job [j] is finished, its record is [job]; [read] is when its status was read
    first. *)
Record finished (j : string) (p : loc) (job : Job) (read : option Z) (s : State) : Prop := {
  fin_job : jobs s !! j = Some p;
  fin_done : completedJobs s !! j = Some tt;
  fin_record : deref (jobHeap s) p = job;
  fin_read : readJobs s !! j = read
}.

(** Code that leaves the job alone. *)
Definition aside (j : string) (p : loc) (f : State → State) : Prop :=
  ∀ s, jobs (f s) !! j = jobs s !! j ∧ completedJobs (f s) !! j = completedJobs s !! j ∧
    deref (jobHeap (f s)) p = deref (jobHeap s) p ∧ readJobs (f s) !! j = readJobs s !! j.

Lemma finished_aside j p job read f s : aside j p f → finished j p job read s → finished j p job read (f s).
Proof. intros Hf []. destruct (Hf s) as (H1 & H2 & H3 & H4). split; congruence. Qed.

(** What a question leaves behind. *)
Definition read_after (now : Z) (i j : string) (job : Job) (read : option Z) : option Z :=
  if bool_decide (i = j) && bool_decide (j_Status job = Completed)
  then match read with Some t => Some t | None => Some now end else read.

Lemma ask_finished now i j p job read s :
  finished j p job read s →
  finished j p job (read_after now i j job read) (answer_step s (Ask now i)) ∧
  completedJobs (answer_step s (Ask now i)) = completedJobs s.
Proof.
  intros [Hj Hd Hr Ht]. cbn [answer_step]. unfold RequestJobStatus, get_Job, read_after.
  destruct (decide (i = j)) as [->|Hne].
  - rewrite Hj. cbv beta iota zeta. rewrite Hr, (bool_decide_eq_true_2 (j = j)) by done. cbn [andb].
    case_bool_decide as Hc; [|split; [by split|done]].
    unfold QueueFreeCompletedJob. rewrite Hj, Ht.
    destruct read as [t|]; cbn [snd]; split; try done; split; try done. cbn. apply lookup_insert_eq.
  - rewrite (bool_decide_eq_false_2 (i = j)) by done. cbn [andb].
    destruct (jobs s !! i) as [q|] eqn:Hi; [|split; [by split|done]].
    case_bool_decide; [|split; [by split|done]].
    unfold QueueFreeCompletedJob. rewrite Hi.
    destruct (readJobs s !! i); cbn [snd]; split; try done; split; try done. cbn. by rewrite lookup_insert_ne.
Qed.

Lemma answer_finished j p job read s : finished j p job read s → answer j s = Some (answer_of job).
Proof.
  intros [Hj Hd Hr Ht]. unfold answer, RequestJobStatus, get_Job. rewrite Hj. cbv beta iota zeta. rewrite Hr.
  case_bool_decide; [|done]. unfold QueueFreeCompletedJob. rewrite Hj, Ht.
  destruct read; cbn [fst jobHeap set_read]; by rewrite Hr.
Qed.

(** The purge. *)
Lemma purge_others j p job read l s :
  finished j p job read s → j ∉ l →
  finished j p job read (foldl (λ s i, PurgeJob i s) s l) ∧
  (size (completedJobs (foldl (λ s i, PurgeJob i s) s l)) ≤ size (completedJobs s))%nat.
Proof.
  revert s. induction l as [|i l IH]; intros s H Hn; [done|].
  apply not_elem_of_cons in Hn as [Hi Hn]. cbn [foldl].
  destruct (IH (PurgeJob i s)) as [H1 H2]; [|done|].
  - destruct H. unfold PurgeJob. destruct (jobs s !! i); [|by split].
    split; cbn; rewrite ?lookup_delete_ne by done; done.
  - split; [done|]. etrans; [exact H2|]. unfold PurgeJob.
    destruct (jobs s !! i); [|done]. cbn. apply map_subseteq_size, delete_subseteq.
Qed.

Definition due (now : Z) (s : State) (i : string) : bool :=
  match readJobs s !! i with
  | Some t => (seconds 10 <? now - t) || (100 <? size (completedJobs s))%nat
  | None => false
  end.

Lemma clear_keeps ord now j p job read s :
  finished j p job read s → due now s j = false →
  finished j p job read (answer_step s (Clear ord now)) ∧
  (size (completedJobs (answer_step s (Clear ord now))) ≤ size (completedJobs s))%nat.
Proof.
  intros H Hd. cbn [answer_step]. unfold clear_tick. apply (purge_others j p job read); [done|].
  intros [Hin _]%list_elem_of_filter. unfold due in Hd. congruence.
Qed.

(** ** Properties *)

(** Nothing has been read before [t0], the purges come at most ten seconds later,
    and there are never more than a hundred finished jobs. *)
Definition within_ten (j : string) (p : loc) (t0 : Z) (o : answer_op) : Prop :=
  match o with
  | Ask now _ => t0 ≤ now
  | Clear _ now => now - t0 ≤ seconds 10
  | Beside f => aside j p f ∧
      ∀ s, (size (completedJobs s) ≤ 100)%nat → (size (completedJobs (f s)) ≤ 100)%nat
  end.

Lemma within_ten_run j p job t0 os : ∀ read s,
  finished j p job read s → (∀ t, read = Some t → t0 ≤ t) → (size (completedJobs s) ≤ 100)%nat →
  Forall (within_ten j p t0) os → ∃ read', finished j p job read' (answer_run os s).
Proof.
  induction os as [|o os IH]; intros read s H Ht Hs Ho; [by exists read|].
  apply Forall_cons in Ho as [Ho Hos]. unfold answer_run. cbn [foldl]. fold (answer_run os).
  destruct o as [now i|ord now|f]; cbn [within_ten] in Ho.
  - destruct (ask_finished now i j p job read s H) as [H1 Hc].
    apply (IH _ _ H1); [|by rewrite Hc|done]. unfold read_after. intros t.
    case_match; [|apply Ht]. destruct read; intros [= <-]; [by apply Ht|done].
  - destruct (clear_keeps ord now j p job read s H) as [H1 Hc].
    + unfold due. rewrite (fin_read _ _ _ _ _ H). destruct read as [t|]; [|done].
      specialize (Ht t eq_refl). apply orb_false_iff. split; [apply Z.ltb_ge; lia|by apply Nat.ltb_ge].
    + apply (IH _ _ H1); [done|lia|done].
  - destruct Ho as [Hf Hsz]. apply (IH read); [by apply finished_aside|done|by apply Hsz|done].
Qed.

(** C32: an answer that is lost can be asked for again. While the scheduler holds no
    more than a hundred finished jobs, and for ten seconds from the first question,
    every question for the status of a finished job gets the same answer - its
    status and its result - whatever other questions, purges and operations on
    other jobs come in between. *)
Theorem answer_repeats j p job t0 os s :
  finished j p job None s → (size (completedJobs s) ≤ 100)%nat → Forall (within_ten j p t0) os →
  answer j (answer_run os s) = Some (answer_of job).
Proof.
  intros H Hs Ho. destruct (within_ten_run j p job t0 os None s H) as [read Hr]; [done..|].
  by eapply answer_finished.
Qed.

(** The other code leaves the job alone. *)
Definition leaves (j : string) (p : loc) (o : answer_op) : Prop :=
  match o with Beside f => aside j p f | _ => True end.

Lemma unread_run j p job os : ∀ s,
  finished j p job None s → j_Status job ≠ Completed → Forall (leaves j p) os →
  finished j p job None (answer_run os s).
Proof.
  induction os as [|o os IH]; intros s H Hst Ho; [done|].
  apply Forall_cons in Ho as [Ho Hos]. unfold answer_run. cbn [foldl]. fold (answer_run os).
  apply IH; [|done..]. destruct o as [now i|ord now|f].
  - destruct (ask_finished now i j p job None s H) as [H1 _]. unfold read_after in H1.
    by rewrite (bool_decide_eq_false_2 (j_Status job = Completed)), andb_false_r in H1.
  - apply (clear_keeps ord now j p job None s H). unfold due. by rewrite (fin_read _ _ _ _ _ H).
  - by apply finished_aside.
Qed.

Lemma purged_foldl j l : ∀ s, jobs s !! j = None ∨ j ∈ l → jobs (foldl (λ s i, PurgeJob i s) s l) !! j = None.
Proof.
  induction l as [|i l IH]; intros s H; cbn [foldl]; [by destruct H as [?|?%not_elem_of_nil]|].
  apply IH. destruct (decide (i = j)) as [->|Hne].
  - left. unfold PurgeJob. destruct (jobs s !! j) eqn:Hj; [|done]. cbn. apply lookup_delete_eq.
  - destruct H as [H|[->|H]%elem_of_cons]; [left|done|by right].
    unfold PurgeJob. destruct (jobs s !! i); [|done]. cbn. by rewrite lookup_delete_ne.
Qed.

(** C33: a failed job is never forgotten. A completed job is gone with the first purge
    that comes more than ten seconds after its status was read. A failed one stays:
    however often its status is read, and whatever purges and operations on other
    jobs follow, at any time, it is listed among the completed jobs and its record,
    with payload and result, is kept. *)
Theorem failed_never_forgotten j p job s :
  finished j p job None s →
  (j_Status job = Completed → ∀ ord now now', seconds 10 < now' - now →
    answer j (answer_run [Ask now j; Clear ord now'] s) =
      Some (mkJobStatusResponse j "NOT_FOUND" (-1) EmptyString None None)) ∧
  (j_Status job ≠ Completed → ∀ os ord, Forall (leaves j p) os →
    j ∈ CompletedJobs ord (answer_run os s) ∧ answer j (answer_run os s) = Some (answer_of job)).
Proof.
  intros H. split.
  - intros Hst ord now now' Ht. unfold answer_run. cbn [foldl].
    destruct (ask_finished now j j p job None s H) as [H1 _]. unfold read_after in H1.
    rewrite !bool_decide_eq_true_2 in H1 by done. cbn [andb] in H1.
    set (s1 := answer_step s (Ask now j)) in *. cbn [answer_step]. unfold answer, RequestJobStatus, get_Job.
    unfold clear_tick. rewrite purged_foldl; [done|]. right. apply list_elem_of_filter.
    rewrite (fin_read _ _ _ _ _ H1), (proj2 (Z.ltb_lt _ _) Ht). split; [done|].
    apply list_elem_of_fmap. exists (j, tt). split; [done|]. rewrite range_perm.
    apply elem_of_map_to_list, (fin_done _ _ _ _ _ H1).
  - intros Hst os ord Hos. pose proof (unread_run j p job os s H Hst Hos) as Hr. split.
    + unfold CompletedJobs. apply list_elem_of_fmap. exists (j, tt). split; [done|]. rewrite range_perm.
      apply elem_of_map_to_list, (fin_done _ _ _ _ _ Hr).
    + by eapply answer_finished.
Qed.

(** ** Witnesses: one job, finished with a result *)

Definition asked_job (success : bool) : Job :=
  mkJob "job_a" "echo" EmptyString (if success then Completed else Failed) 1 1 5 [] [x37].
Definition finished_state (success : bool) : State :=
  let s := AppendNew (mkJob "job_a" "echo" EmptyString Pending 1 1 5 [] []) (NewState "s" "50050") in
  match CompleteJob "job_a" [x37] success s with Ok s => s | _ => s end.

Lemma finished_state_ok success :
  finished "job_a" 0%nat (asked_job success) None (finished_state success).
Proof. destruct success; split; vm_compute; reflexivity. Qed.

(** The purge of another job. *)
Definition purge_b (s : State) : State := PurgeJob "job_b" s.
Lemma purge_b_aside p : aside "job_a" p purge_b.
Proof.
  intros s. unfold purge_b, PurgeJob. destruct (jobs s !! "job_b"); [|done].
  cbn. by rewrite !lookup_delete_ne by done.
Qed.
Lemma purge_b_size s : (size (completedJobs s) ≤ 100)%nat → (size (completedJobs (purge_b s)) ≤ 100)%nat.
Proof.
  intros Hs. unfold purge_b, PurgeJob. destruct (jobs s !! "job_b"); [|done]. cbn.
  etrans; [apply map_subseteq_size, delete_subseteq|done].
Qed.

Definition ten_seconds : list answer_op :=
  [Ask 0 "job_a"; Beside purge_b; Clear default_order (seconds 10); Ask (seconds 4) "job_a"].

Lemma answer_repeats_witness :
  answer "job_a" (answer_run ten_seconds (finished_state true)) = Some (answer_of (asked_job true)).
Proof.
  apply (answer_repeats "job_a" 0%nat (asked_job true) 0 ten_seconds).
  - apply finished_state_ok.
  - vm_compute. lia.
  - repeat apply Forall_cons_2; [..|by apply Forall_nil]; cbn [within_ten].
    + lia.
    + split; [apply purge_b_aside | exact purge_b_size].
    + vm_compute. discriminate.
    + vm_compute. discriminate.
Defined.

Lemma failed_never_forgotten_witness :
  answer "job_a" (answer_run [Ask 0 "job_a"; Clear default_order (seconds 11)] (finished_state true)) =
    Some (mkJobStatusResponse "job_a" "NOT_FOUND" (-1) EmptyString None None) ∧
  "job_a" ∈ CompletedJobs default_order (answer_run [Ask 0 "job_a"; Clear default_order (seconds 11);
    Beside purge_b; Clear default_order (seconds 1000)] (finished_state false)).
Proof.
  split.
  - apply (failed_never_forgotten "job_a" 0%nat (asked_job true)); [apply finished_state_ok|reflexivity|].
    vm_compute. reflexivity.
  - apply (failed_never_forgotten "job_a" 0%nat (asked_job false)); [apply finished_state_ok|discriminate|].
    repeat apply Forall_cons_2; [exact I|exact I|apply purge_b_aside|exact I|by apply Forall_nil].
Defined.
