(* ===== verification/SchedStream.v ===== *)
(** * The status stream of a cluster, at the scheduler

    The goroutine [monitorJobStatuses] of [internal/scheduler/service/cluster]: it
    opens the stream of job events of its cluster, hands every event to the state
    and opens the stream again when it breaks. Its steps are driven by what it
    sees: the context, the flag of the connection, the results of its calls. *)

From Stdlib Require Import Strings.Byte.
From S2P Require Import Prelude.
From S2P Require Import Bytes.
From S2P Require Import Models.
From S2P Require Import Arbiter.
From S2P Require Import SchedState.
From S2P Require Import SchedExterns.
From S2P Require Import SchedService.

(** Where the goroutine is: at the top of its loop, in a wait of some
    nanoseconds, in the call that opens the stream, in a call that receives, or
    returned. *)
Inductive position := AtTop | Asleep (d : Z) | Opening | Receiving | Returned.

(** What [stream.Recv] returns: a message, the end of the stream, or another
    error, with the context cancelled by then or not. *)
Inductive received :=
| Message (resp : option ClusterJobStatus)
| EndOfStream
| Interrupted (cancelled : bool).

Inductive seen :=
| Looked (cancelled connected : bool)
| Woke (cancelled : bool)
| Opened (ok : bool)
| Recv (r : received).

(** src/internal/scheduler/service/cluster/client.go:238-245 (sleepCtx)

    Whether the wait ends with the context or with the clock. *)
Definition sleepCtx (cancelled : bool) : bool := cancelled.

(** src/internal/scheduler/service/cluster/client.go:176-236 (Conn.monitorJobStatuses)

    One step; [None] is something that can not be seen at this point. *)
Definition monitorJobStatuses (o : seen) (ps : position * State) : option (position * State) :=
  let '(p, s) := ps in
  match p, o with
  | AtTop, Looked cancelled connected =>
      if cancelled then Some (Returned, s) else
      if negb connected then Some (Asleep (seconds 2), s) else Some (Opening, s)
  | Opening, Opened ok => Some (if ok then Receiving else Asleep (seconds 3), s)
  | Receiving, Recv (Message resp) => Some (Receiving, status_event resp s)
  | Receiving, Recv EndOfStream => Some (Asleep (seconds 1), s)
  | Receiving, Recv (Interrupted cancelled) =>
      Some (if cancelled then Returned else Asleep (seconds 1), s)
  | Asleep _, Woke cancelled => Some (if sleepCtx cancelled then Returned else AtTop, s)
  | _, _ => None
  end.

(** A run of the goroutine; [meanwhile] is what other goroutines do to the state
    before each step. *)
Fixpoint watch (os : list (seen * (State → State))) (ps : position * State)
    : option (position * State) :=
  match os with
  | [] => Some ps
  | (o, meanwhile) :: os => ps' ← monitorJobStatuses o (ps.1, meanwhile ps.2); watch os ps'
  end.

(** ** How often it calls *)

Definition is_open (o : seen) : bool := match o with Opened _ => true | _ => false end.

(** The calls of [ListJobs] in a run, and the time the run has waited. *)
Definition opens (os : list (seen * (State → State))) : Z :=
  len (filter (λ o, is_open o.1 = true) os).

Fixpoint slept (os : list (seen * (State → State))) (ps : position * State) : Z :=
  match os with
  | [] => 0
  | (o, meanwhile) :: os =>
      match monitorJobStatuses o (ps.1, meanwhile ps.2) with
      | None => 0
      | Some ps' =>
          (match ps.1, o with Asleep d, Woke false => d | _, _ => 0 end) + slept os ps'
      end
  end.

(** The calls a position may still make without a wait, in time. *)
Definition credit (p : position) : Z :=
  match p with AtTop | Opening => seconds 1 | _ => 0 end.

Definition waits (p : position) : Prop :=
  match p with Asleep d => seconds 1 ≤ d | _ => True end.

Lemma opens_cons o f os : opens ((o, f) :: os) = (if is_open o then 1 else 0) + opens os.
Proof.
  unfold opens. rewrite filter_cons. cbn [fst].
  case_decide as Ho; [by rewrite Ho, len_cons | by destruct (is_open o)].
Qed.

Lemma step_credit o p s p' s' :
  waits p → monitorJobStatuses o (p, s) = Some (p', s') →
  waits p' ∧ (if is_open o then seconds 1 else 0) + credit p' ≤
    credit p + match p, o with Asleep d, Woke false => d | _, _ => 0 end.
Proof.
  unfold seconds. destruct p as [| d | | |], o as [[] []|[]|[]|[r| |[]]]; cbn; intros Hw H;
    simplify_eq; cbn; unfold seconds in *; split; try done; lia.
Qed.

Lemma watch_credit os p s ps' :
  waits p → watch os (p, s) = Some ps' →
  opens os * seconds 1 + credit ps'.1 ≤ credit p + slept os (p, s).
Proof.
  revert p s. induction os as [|[o f] os IH]; intros p s Hw Hr.
  - cbn in *. simplify_eq. change (opens []) with 0. cbn [slept fst]. lia.
  - rewrite opens_cons. cbn [watch slept fst snd] in *.
    destruct (monitorJobStatuses o (p, f s)) as [[p1 s1]|] eqn:E; [|done]. cbn in Hr.
    destruct (step_credit _ _ _ _ _ Hw E) as [Hw1 Hc]. specialize (IH _ _ Hw1 Hr).
    destruct (is_open o); lia.
Qed.

(** The monitor never hammers a cluster: in any run of it from its start,
    whatever the network and the other goroutines do, the calls of [ListJobs] are
    at most one more than the seconds the run has waited. *)
Theorem ListJobs_rate os s ps' :
  watch os (AtTop, s) = Some ps' → (opens os - 1) * seconds 1 ≤ slept os (AtTop, s).
Proof.
  intros Hr. apply watch_credit in Hr; [|done]. cbn [credit] in Hr.
  assert (0 ≤ credit ps'.1) by (destruct ps'.1; done). lia.
Qed.

(** ** How it ends *)

(** What the goroutine can see once its context is cancelled: the streams fail,
    and a wait may still end by the clock. *)
Definition after_cancel (o : seen) : bool :=
  match o with
  | Looked c _ => c
  | Recv (Message _) => false
  | Recv (Interrupted c) => c
  | _ => true
  end.

(** The steps left. *)
Definition remaining (p : position) : nat :=
  match p with Opening => 4 | Receiving => 3 | Asleep _ => 2 | AtTop => 1 | Returned => 0 end.

Lemma step_remaining o p s p' s' :
  after_cancel o = true → monitorJobStatuses o (p, s) = Some (p', s') →
  (remaining p' < remaining p)%nat.
Proof.
  destruct p as [| d | | |], o as [[] []|[]|[]|[r| |[]]]; cbn; intros H1 H2; simplify_eq;
    cbn; lia.
Qed.

Lemma never_stuck p s : p ≠ Returned → ∃ o, after_cancel o = true ∧ is_Some (monitorJobStatuses o (p, s)).
Proof.
  intros Hp. destruct p as [| d | | |]; [..|done].
  - by exists (Looked true true); split; [|eexists].
  - by exists (Woke true); split; [|eexists].
  - by exists (Opened false); split; [|eexists].
  - by exists (Recv EndOfStream); split; [|eexists].
Qed.

(** Cancelling the context ends the monitor. From any point of its loop, a run
    in which every call and every check sees the cancelled context has at most
    four steps, and as long as it has not returned it can go on. *)
Theorem cancelled_returns os p s ps' :
  Forall (λ o, after_cancel o.1 = true) os → watch os (p, s) = Some ps' →
  (length os + remaining ps'.1 ≤ 4)%nat ∧
  (ps'.1 ≠ Returned → ∃ o, after_cancel o = true ∧ is_Some (watch (os ++ [(o, λ s, s)]) (p, s))).
Proof.
  intros Hos Hr. split.
  - assert (length os + remaining ps'.1 ≤ remaining p)%nat; [|destruct p; cbn in *; lia].
    revert p s Hr. induction Hos as [|[o f] os Ho _ IH]; intros p s Hr; cbn [watch length fst snd] in *;
      [by injection Hr as <-|].
    destruct (monitorJobStatuses o (p, f s)) as [[p1 s1]|] eqn:E; [|done]. cbn in Hr.
    apply step_remaining in E; [|done]. apply IH in Hr. lia.
  - intros Hp. destruct ps' as [p' s']. destruct (never_stuck p' s' Hp) as (o & Ho & Hs).
    exists o. split; [done|]. clear Hos.
    revert p s Hr. induction os as [|[o1 f] os IH]; intros p s Hr; cbn [watch app fst snd] in *.
    + injection Hr as -> ->. destruct Hs as [x ->]. by eexists.
    + destruct (monitorJobStatuses o1 (p, f s)) as [[p1 s1]|]; [|done]. by apply IH.
Qed.

(** A run that finds the connection down, then a stream that breaks. *)
Definition sample_watch : list (seen * (State → State)) :=
  (λ o, (o, λ s, s)) <$>
  [Looked false false; Woke false; Looked false true; Opened true;
   Recv (Message (Some (mkClusterJobStatus "b" 2 0 "echo" None))); Recv (Interrupted false);
   Woke false; Looked false true; Opened false; Woke false].

Lemma ListJobs_rate_witness :
  opens sample_watch = 2 ∧ (2 - 1) * seconds 1 ≤ slept sample_watch (AtTop, NewState "s1" "50050").
Proof.
  split; [vm_compute; reflexivity|].
  apply (ListJobs_rate sample_watch (NewState "s1" "50050") (AtTop, NewState "s1" "50050")).
  vm_compute. reflexivity.
Defined.

Lemma cancelled_returns_witness :
  (2 + 0 ≤ 4)%nat.
Proof.
  apply (cancelled_returns [(Recv EndOfStream, λ s, s); (Woke true, λ s, s)] Receiving
    (NewState "s1" "50050") (Returned, NewState "s1" "50050")).
  - repeat constructor.
  - reflexivity.
Defined.
