(* ===== verification/SchedPacker.v ===== *)
(** * The packer of a scheduler

    [internal/scheduler/packer]: the loop that takes jobs from the queue and
    reserves room for them on the local clusters, the workers that commit an
    assignment to the consensus group and dispatch it, or hand the job to a
    peer, and the rounds that look after stale clusters and schedulers.

    Every method of the scheduler's state is one atomic step. Between two of
    them other goroutines run: they appear as functions on the state, arguments
    of the definitions. So do the answers of remote calls. *)

From S2P Require Import Prelude.
From S2P Require Import Models.
From S2P Require Import Arbiter.
From S2P Require Import SchedState.
From S2P Require Import SchedExterns.
From S2P Require Import SchedJobs.
From S2P Require Import SchedService.

(** What [CommitJob] answers: nil, [core.ErrCASConcurrentConflict], or another
    error. *)
Inductive CommitResult := Committed | CASConcurrentConflict | CommitFailed.

(** ** Assigning one job *)

(** What happens around the steps of one worker: the answers it gets and what
    other goroutines do before each of its next steps. *)
Record World := {
  w_commit : CommitResult;
  w_after_assign : State → State;
  w_dispatch : ClusterJobRequest → option bool;
  w_in_dispatch : State → State;
  w_after_dispatch : State → State;
  w_redistribute : string → RedistributeRequest → option RedistributeResponse;
  w_in_redistribute : string → State → State
}.

(** src/internal/scheduler/packer/operations.go:141-178 (Packer.attemptJobAssignment)

    The commit that follows a rollback has no influence on the state: its error
    is logged. A missing connection is a nil dereference in [DispatchJob]. *)
Definition attemptJobAssignment (sc : SchedulerControl) (w : World) (clusterId : string)
    (job : loc) (s : State) : outcome unit bool * State :=
  let jobId := j_Id (deref (jobHeap s) job) in
  match AssignJob jobId clusterId s with
  | Ok s =>
      let s := w_after_assign w s in
      match w_commit w with
      | CASConcurrentConflict => (Ok false, UnassignJob jobId s)
      | CommitFailed => (Ok false, UnassignJob jobId s)
      | Committed =>
          match Cluster clusterId sc with
          | None => (Panic, s)
          | Some conn =>
              match DispatchJob conn (w_dispatch w) (w_in_dispatch w) job s with
              | (Some true, s) => (Ok true, s)
              | (_, s) => (Ok false, UnassignJob jobId (w_after_dispatch w s))
              end
          end
      end
  | _ => (Ok false, s)
  end.

(** src/internal/scheduler/packer/operations.go:189-199 (Packer.Redistribute, the call to one peer)

    True for a nil error. *)
Definition offer (w : World) (job : loc) (co : PeerConn) (s : State) : bool * State :=
  let j := deref (jobHeap s) job in
  if negb (IsConnected co) then (false, s) else
  let r := Redistribute_call co (get_Id s) j false (w_redistribute w (pc_nodeID co)) in
  let s := w_in_redistribute w (pc_nodeID co) s in
  match r with
  | Some (true, _) => (true, PurgeJob (j_Id j) s)
  | _ => (false, s)
  end.

(** src/internal/scheduler/packer/operations.go:186-205 (Packer.Redistribute, the loop) *)
Fixpoint offer_all (sc : SchedulerControl) (w : World) (job : loc) (peers : list string)
    (s : State) : bool * State :=
  match peers with
  | [] => (false, s)
  | bestFitId :: peers =>
      match OpConn (cliConns sc) bestFitId (offer w job) s with
      | (true, s) => (true, s)
      | (false, s) => offer_all sc w job peers s
      end
  end.

(** src/internal/scheduler/packer/operations.go:180-206 (Packer.Redistribute)

    True for a nil error. *)
Definition Redistribute (ss : SliceSort) (ord : MapOrder) (now : Z) (sc : SchedulerControl)
    (w : World) (job : loc) (s : State) : bool * State :=
  let j := deref (jobHeap s) job in
  let peers := TopFreePeers ss ord 5 now (seconds 5) (j_CPURequirement j)
                 (j_MemoryRequirement j) s in
  match peers with
  | [] => (false, s)
  | _ => offer_all sc w job peers s
  end.

(** src/internal/scheduler/packer/operations.go:112-129 (Packer.executeJobAssignment)

    [loaded] is the value of the shared counter that the worker reads; the
    result says whether it added one to it. *)
Definition executeJobAssignment (ss : SliceSort) (ord : MapOrder) (now : Z)
    (sc : SchedulerControl) (w : World) (job : loc) (targetCluster : string)
    (loaded quota : Z) (s : State) : outcome unit bool * State :=
  if (targetCluster != EmptyString)%go then
    let '(r, s) := attemptJobAssignment sc w targetCluster job s in
    (match r with Panic => Panic | _ => Ok false end, s)
  else
    if loaded <? quota then
      match Redistribute ss ord now sc w job s with
      | (true, s) => (Ok true, s)
      | (false, s) => (Ok true, UnassignJob (j_Id (deref (jobHeap s) job)) s)
      end
    else (Ok false, UnassignJob (j_Id (deref (jobHeap s) job)) s).

(** src/internal/scheduler/packer/operations.go:132-138 (Packer.calculateRedistributionQuota)

    [jobCount * 0.25] in floating point is exact for the counts below 2^53; the
    conversion truncates. *)
Definition calculateRedistributionQuota (jobCount : Z) : Z :=
  let quota := Z.quot jobCount 4 in
  if quota <? 5 then 5 else quota.

(** ** The packing loop *)

(** src/internal/scheduler/packer/operations.go:36-44 (Packer.processPendingJobs, the ceilings) *)
Definition ceilings (s : State) (clusters : list loc) : Z * Z :=
  foldl (λ '(maxCPU, maxMem) p,
    let c := cluster_at s p in
    (if cpuDiff c >? maxCPU then cpuDiff c else maxCPU,
     if memDiff c >? maxMem then memDiff c else maxMem))
  (0, 0) clusters.

(** src/internal/scheduler/packer/operations.go:62-93 (Packer.processPendingJobs, the reservation)

    The clusters tried from [i] on, around the slice; the target and the state
    with its reservation. *)
Fixpoint reserve (job : Job) (tried : list loc) (s : State) : option loc * State :=
  match tried with
  | [] => (None, s)
  | p :: tried =>
      let cluster := cluster_at s p in
      if (j_CPURequirement job <=? cpuDiff cluster) && (j_MemoryRequirement job <=? memDiff cluster)
      then
        let s := SoftUpdateCluster (c_ID cluster) (j_CPURequirement job)
                   (j_MemoryRequirement job) s in
        let s := write_cluster (add_usage (j_CPURequirement job) (j_MemoryRequirement job)) p s in
        (Some p, s)
      else reserve job tried s
  end.

Definition rotation (i : nat) (clusters : list loc) : list loc :=
  let n := length clusters in
  drop (i mod n) clusters ++ take (i mod n) clusters.

(** src/internal/scheduler/packer/operations.go:46-105 (Packer.processPendingJobs, the loop)

    [k] iterations are left. [redistributed i] is the counter as read in the
    i-th one, [others i] what the workers and other goroutines do before the
    next. The result lists the jobs handed to workers, with their targets. *)
Fixpoint pack_loop (k i : nat) (clusters : list loc) (quota : Z) (redistributed : nat → Z)
    (others : nat → State → State) (maxCPU maxMem : Z) (s : State)
    : list (loc * string) * State :=
  match k with
  | O => ([], s)
  | S k =>
      let '(searchCPU, searchMem) :=
        if redistributed i <? quota then (2 ^ 62, 2 ^ 62) else (maxCPU, maxMem) in
      match NextPendingJob searchCPU searchMem s with
      | (None, s) => ([], s)
      | (Some job, s) =>
          let '(target, maxCPU, maxMem, s) :=
            match reserve (deref (jobHeap s) job) (rotation i clusters) s with
            | (Some p, s) =>
                let '(c, m) := ceilings s clusters in (c_ID (cluster_at s p), c, m, s)
            | (None, s) => (EmptyString, maxCPU, maxMem, s)
            end in
          let '(rest, s) :=
            pack_loop k (S i) clusters quota redistributed others maxCPU maxMem (others i s) in
          ((job, target) :: rest, s)
      end
  end.

(** src/internal/scheduler/packer/operations.go:18-109 (Packer.processPendingJobs) *)
Definition processPendingJobs (qord cord : MapOrder) (limit : nat) (redistributed : nat → Z)
    (others : nat → State → State) (s : State) : list (loc * string) * State :=
  if (length (PendingJobs qord s) =? 0)%nat then ([], s) else
  let clusters := LocalClusters cord s in
  let quota := calculateRedistributionQuota (Z.of_nat limit) in
  let '(maxCPU, maxMem) := ceilings s clusters in
  pack_loop limit 0 clusters quota redistributed others maxCPU maxMem s.

(** ** A job held by a worker

    The job is assigned - locked for packing or already bound to a cluster - and
    known under the pointer that the worker holds. *)
Definition held (s : State) (i : string) (p : loc) : Prop :=
  ∃ m, R s m ∧ m !! i = Some Assigned ∧ jobs s !! i = Some p.

(** Other goroutines that leave the job to its worker. *)
Definition quiet (i : string) (f : State → State) : Prop :=
  ∀ s p, held s i p → held (f s) i p.

Lemma held_id s i p : held s i p → j_Id (deref (jobHeap s) p) = i.
Proof. intros (m & HR & _ & Hp). by eapply R_id. Qed.

Lemma held_in_phase s i p : held s i p → in_phase s i Assigned.
Proof. intros (m & HR & Hm & _). by eapply R_in_phase. Qed.

Lemma held_Assign s i p cl :
  held s i p → ∃ s', AssignJob i cl s = Ok s' ∧ held s' i p ∧
    j_AssignedClusterId (deref (jobHeap s') p) = cl.
Proof.
  intros (m & HR & Hm & Hp).
  destruct (AssignJob i cl s) as [s'| |] eqn:E; [|by unfold AssignJob in E; rewrite Hp in E..].
  exists s'. pose proof (refines_Assign_held _ _ _ _ _ HR Hm E) as HR'. split; [done|].
  destruct (R_heap _ _ HR _ _ Hp) as (j & Hj & _). revert E HR'. unfold AssignJob. rewrite Hp.
  intros [= <-] HR'. split; [exists m; by fields|]. fields. unfold deref.
  rewrite !list_lookup_alter_eq, Hj. simpl. by destruct j.
Qed.

Lemma held_Unassign s i p : held s i p → in_phase (UnassignJob i s) i Queued.
Proof.
  intros (m & HR & Hm & Hp). pose proof (refines_Unassign s m i HR) as HR'. rewrite Hm in HR'.
  eapply R_in_phase; [done|]. apply lookup_insert_eq.
Qed.

Lemma held_Purge s i p : held s i p → unknown (PurgeJob i s) i.
Proof.
  intros (m & HR & Hm & Hp). eapply R_is_unknown; [by apply refines_Purge|].
  apply lookup_delete_eq.
Qed.

Lemma held_reachable os a b i p :
  disciplined_run os (NewState a b) →
  in_phase (do_ops os (NewState a b)) i Assigned →
  jobs (do_ops os (NewState a b)) !! i = Some p → held (do_ops os (NewState a b)) i p.
Proof.
  intros Hd Hi Hp. destruct (do_ops_refines os _ _ (R_new a b) Hd) as (m & _ & HR).
  exists m. split_and!; [done | | done].
  destruct Hi as (q & j & _ & _ & _ & _ & _ & Ha & Hc).
  rewrite (R_assigned _ _ HR) in Ha. rewrite (R_done _ _ HR) in Hc.
  destruct (proj2 Ha) as [?|Hm]; [by left|done|].
  by destruct (proj1 Hc (or_intror Hm)).
Qed.

(** Operations on other jobs are quiet. *)
Definition elsewhere (i : string) (o : op) : Prop :=
  match o with
  | OAppend _ | OAssign _ _ => False
  | ONext _ _ => True
  | OComplete k _ _ | OUnassign k | OPurge k => k ≠ i
  end.

Lemma quiet_op i o : elsewhere i o → quiet i (do_op o).
Proof.
  intros He s p (m & HR & Hm & Hp).
  assert (disciplined o s) as Hd by (by destruct o).
  destruct (do_op_refines s m o HR Hd) as (m' & Hstep & HR'). exists m'.
  assert (m' !! i = Some Assigned) as Hm'.
  { destruct o; simpl in He, Hstep; try done.
    - destruct Hstep as [->|(k & Hk & ->)]; [done|]. rewrite lookup_insert_ne; congruence.
    - subst m'. case_decide; [by rewrite lookup_insert_ne | done].
    - subst m'. destruct (m !! jobId) as [[]|]; try done. by rewrite lookup_insert_ne.
    - subst m'. by rewrite lookup_delete_ne. }
  split_and!; [done..|]. rewrite <- Hp. destruct o; simpl in *; try done.
  - unfold NextPendingJob. by destruct (PopBestFit _ _ _ _) as [[?|] ?].
  - unfold CompleteJob. by destruct (jobs s !! jobId).
  - unfold UnassignJob. destruct (jobs s !! jobId); [|done]. by destruct (completedJobs s !! jobId).
  - unfold PurgeJob. destruct (jobs s !! jobId); [|done]. fields. by rewrite lookup_delete_ne.
Qed.

(** The outcomes of a worker. *)
Definition dispatched (w : World) (target : string) (i : string) (p : loc) (s : State) : Prop :=
  in_phase s i Assigned ∧ target ≠ EmptyString ∧
  j_AssignedClusterId (deref (jobHeap s) p) = target ∧
  w_commit w = Committed ∧ ∃ req, w_dispatch w req = Some true.

Definition handed_over (w : World) (i : string) (s : State) : Prop :=
  unknown s i ∧ ∃ peer req resp, w_redistribute w peer req = Some resp ∧ rr_Accept resp = true.

Record quiet_world (i : string) (w : World) : Prop := {
  q_after_assign : quiet i (w_after_assign w);
  q_in_dispatch : quiet i (w_in_dispatch w);
  q_after_dispatch : quiet i (w_after_dispatch w);
  q_in_redistribute peer : quiet i (w_in_redistribute w peer)
}.

Lemma attemptJobAssignment_settles sc w target conn i p s :
  held s i p → quiet_world i w → target ≠ EmptyString →
  clusterConns sc !! target = Some conn → cc_nodeID conn = target →
  let '(r, s') := attemptJobAssignment sc w target p s in
  (r = Ok true ∧ dispatched w target i p s') ∨ (r = Ok false ∧ in_phase s' i Queued).
Proof.
  intros Hh [Q1 Q2 Q3 _] Ht Hconn Hid. unfold attemptJobAssignment.
  rewrite (held_id _ _ _ Hh). destruct (held_Assign s i p target Hh) as (s1 & -> & Hh1 & _).
  apply Q1 in Hh1. set (s2 := w_after_assign w s1) in *. clearbody s2.
  destruct (w_commit w) eqn:Hc; [|right; split; [done|]; by eapply held_Unassign..].
  unfold Cluster. rewrite Hconn. unfold DispatchJob.
  destruct (dispatch_request conn _) as [req|].
  2: { right. split; [done|]. eapply held_Unassign. by apply Q3. }
  apply Q2 in Hh1. set (s3 := w_in_dispatch w s2) in *. clearbody s3.
  destruct (w_dispatch w req) as [[]|] eqn:Hd.
  - left. split; [done|]. rewrite (held_id _ _ _ Hh1).
    destruct (held_Assign s3 i p (cc_nodeID conn) Hh1) as (s4 & -> & Hh4 & Hcl).
    split_and!; [by eapply held_in_phase | done | congruence | done | by eauto].
  - right. split; [done|]. eapply held_Unassign. by apply Q3.
  - right. split; [done|]. eapply held_Unassign. by apply Q3.
Qed.

Lemma offer_settles w i p co s :
  held s i p → quiet_world i w →
  let '(r, s') := offer w p co s in
  if r : bool then handed_over w i s' else held s' i p.
Proof.
  intros Hh [_ _ _ Q]. unfold offer. destruct (IsConnected co) eqn:Hc; simpl; [|done].
  rewrite (held_id _ _ _ Hh). apply (Q (pc_nodeID co)) in Hh. unfold Redistribute_call. rewrite Hc.
  simpl. set (rq := transfer_request _ _ _).
  destruct (w_redistribute w (pc_nodeID co) rq) as [resp|] eqn:Hr; simpl; [|done].
  destruct (rr_Accept resp) eqn:Ha; [|done]. split; [by eapply held_Purge|]. eauto.
Qed.

Lemma offer_all_settles sc w i p l : ∀ s,
  held s i p → quiet_world i w →
  (∀ k, k ∈ l → ∃ conn, conn ∈ cliConns sc ∧ pc_nodeID conn = k) →
  let '(r, s') := offer_all sc w p l s in
  if r : bool then handed_over w i s' else held s' i p.
Proof.
  induction l as [|k l IH]; intros s Hh Hq Hl; simpl; [done|]. unfold OpConn.
  destruct (list_find _ (cliConns sc)) as [[n conn]|] eqn:E.
  - pose proof (offer_settles w i p conn s Hh Hq) as Ho. destruct (offer w p conn s) as [[] s'].
    + done.
    + apply IH; [done..|]. intros. apply Hl. by right.
  - apply list_find_None in E. destruct (Hl k ltac:(by left)) as (conn & Hin & Hk).
    rewrite Forall_forall in E. by destruct (E conn Hin).
Qed.

(** ** Properties *)

Lemma execute_settles_held ss ord now sc w i p target loaded quota s :
  held s i p → quiet_world i w →
  (target ≠ EmptyString → ∃ conn, clusterConns sc !! target = Some conn ∧ cc_nodeID conn = target) →
  (∀ peer, peer ∈ peers s → ∃ conn, conn ∈ cliConns sc ∧ pc_nodeID conn = p_ID peer) →
  let '(r, s') := executeJobAssignment ss ord now sc w p target loaded quota s in
  is_ok r = true ∧ (in_phase s' i Queued ∨ dispatched w target i p s' ∨ handed_over w i s').
Proof.
  intros Hh Hq Ht Hpeers.
  unfold executeJobAssignment. case_bool_decide as Htarget; simpl.
  - destruct (loaded <? quota); [|split; [done|]; left; rewrite (held_id _ _ _ Hh);
      by eapply held_Unassign].
    unfold Redistribute. set (l := TopFreePeers _ _ _ _ _ _ _ _).
    assert (∀ k, k ∈ l → ∃ conn, conn ∈ cliConns sc ∧ pc_nodeID conn = k) as Hl.
    { intros k (peer & Hin & <-)%TopFreePeers_peers. by apply Hpeers. }
    pose proof (offer_all_settles sc w i p l s Hh Hq Hl) as Ho.
    destruct l as [|k l].
    + split; [done|]. left. rewrite (held_id _ _ _ Hh). by eapply held_Unassign.
    + destruct (offer_all sc w p (k :: l) s) as [[] s'].
      * split; [done|]. auto.
      * split; [done|]. left. rewrite (held_id _ _ _ Ho). by eapply held_Unassign.
  - destruct (Ht Htarget) as (conn & Hc & Hid).
    pose proof (attemptJobAssignment_settles sc w target conn i p s Hh Hq Htarget Hc Hid) as Ha.
    destruct (attemptJobAssignment sc w target p s) as [r s'].
    destruct Ha as [[-> ?]|[-> ?]]; auto.
Qed.

(** A worker never leaves a job in limbo. Let the job be assigned in a state
    reached by the operations of the scheduler, and let other goroutines do
    whatever they like to other jobs between any two steps of the worker. Then,
    whatever the consensus group, the cluster and the peers answer, the worker
    does not crash and ends with the job back in the queue, or assigned to its
    target which has accepted it after the commit, or purged after a peer accepted
    it - provided the target cluster and every peer of the state have a
    connection. *)
Theorem executeJobAssignment_settles ss ord now sc w a b os i p target loaded quota :
  disciplined_run os (NewState a b) →
  let s := do_ops os (NewState a b) in
  in_phase s i Assigned → jobs s !! i = Some p → quiet_world i w →
  (target ≠ EmptyString → ∃ conn, clusterConns sc !! target = Some conn ∧ cc_nodeID conn = target) →
  (∀ peer, peer ∈ peers s → ∃ conn, conn ∈ cliConns sc ∧ pc_nodeID conn = p_ID peer) →
  let '(r, s') := executeJobAssignment ss ord now sc w p target loaded quota s in
  is_ok r = true ∧ (in_phase s' i Queued ∨ dispatched w target i p s' ∨ handed_over w i s').
Proof.
  intros Hd s Hi Hp. apply execute_settles_held. by apply held_reachable.
Qed.

(** A peer that is known to the state but has no connection swallows jobs.
    [OpConn] returns nil when no connection carries the id, [Redistribute] takes
    that for a transfer, and the worker returns: the job is neither handed over
    nor put back, it stays locked as packing-in-progress, whatever happens. *)
Theorem Redistribute_without_connection_strands ss ord now sc w i p k l quota s :
  held s i p →
  TopFreePeers ss ord 5 now (seconds 5) (j_CPURequirement (deref (jobHeap s) p))
    (j_MemoryRequirement (deref (jobHeap s) p)) s = k :: l →
  (∀ conn, conn ∈ cliConns sc → pc_nodeID conn ≠ k) → 0 < quota →
  executeJobAssignment ss ord now sc w p EmptyString 0 quota s = (Ok true, s) ∧
  in_phase s i Assigned.
Proof.
  intros Hh Hl Hk Hq. split; [|by eapply held_in_phase].
  unfold executeJobAssignment. rewrite bool_decide_eq_true_2 by done. simpl.
  rewrite (proj2 (Z.ltb_lt _ _)) by done. unfold Redistribute. rewrite Hl. simpl.
  unfold OpConn. rewrite (proj2 (list_find_None _ _)); [done|].
  apply Forall_forall. auto.
Qed.

(** ** Witnesses *)

(** "b" is packed; its worker is told that the cluster accepts, while the packer
    takes the next job and a third one completes. *)
Definition worker_world : World := {|
  w_commit := Committed;
  w_after_assign := do_op (ONext 4 128);
  w_dispatch := λ _, Some true;
  w_in_dispatch := do_op (OComplete "a" [] true);
  w_after_dispatch := do_op (OUnassign "c");
  w_redistribute := λ _ _, None;
  w_in_redistribute := λ _, do_op (OUnassign "c")
|}.

Definition worker_control : SchedulerControl :=
  mkSchedulerControl {["c1" := mkClusterConn "c1" true]} [].

Lemma worker_world_quiet : quiet_world "b" worker_world.
Proof. split; [..|intros peer]; apply quiet_op; simpl; done. Qed.

Lemma executeJobAssignment_settles_witness :
  let '(r, s') := executeJobAssignment insertion_slice_sort default_order 0 worker_control
                    worker_world 1%nat "c1" 0 12 packed_state in
  is_ok r = true ∧ (in_phase s' "b" Queued ∨ dispatched worker_world "c1" "b" 1%nat s' ∨
                    handed_over worker_world "b" s').
Proof.
  apply (executeJobAssignment_settles insertion_slice_sort default_order 0 worker_control
    worker_world "s1" "50050" (take 4 example_run) "b" 1%nat "c1" 0 12).
  - refine (bool_decide_unpack _ _). vm_compute. exact I.
  - exists 1%nat, (mkJob "b" "echo" packing Running 2 64 9 [] []).
    split_and!; try (vm_compute; reflexivity).
    + split; [by left | intros _; vm_compute; by eexists].
    + split; [intros H | by intros []]. exfalso. revert H. vm_compute. by intros [].
  - vm_compute. reflexivity.
  - exact worker_world_quiet.
  - intros _. exists (mkClusterConn "c1" true). split; vm_compute; reflexivity.
  - intros peer Hp. vm_compute in Hp. by apply elem_of_nil in Hp.
Defined.

(** The peer "p1" is known and free, and no connection carries its id. *)
Definition stranded_state : State :=
  (Heartbeat 5 (mkHeartbeatRequest "p1" [mkClusterUsage "d" 0 0 8 800])
    (AddPeerScheduler 0 "p1" packed_state)).

Lemma stranded_held : held stranded_state "b" 1%nat.
Proof.
  assert (held packed_state "b" 1%nat) as (m & HR & Hm & Hp).
  { apply held_reachable.
    - refine (bool_decide_unpack _ _). vm_compute. exact I.
    - exists 1%nat, (mkJob "b" "echo" packing Running 2 64 9 [] []).
      split_and!; try (vm_compute; reflexivity).
      + split; [by left | intros _; vm_compute; by eexists].
      + split; [intros H | by intros []]. exfalso. revert H. vm_compute. by intros [].
    - vm_compute. reflexivity. }
  exists m. split_and!; [|done|done]. destruct HR as [H1 H2 H3 H4 H5 H6 H7].
  split; [exact H1 | exact H2 | exact H3 | exact H4 | exact H5 | exact H6 | exact H7].
Qed.

Lemma Redistribute_without_connection_strands_witness :
  executeJobAssignment insertion_slice_sort default_order 6 worker_control worker_world 1%nat
    EmptyString 0 12 stranded_state = (Ok true, stranded_state) ∧
  in_phase stranded_state "b" Assigned.
Proof.
  apply (Redistribute_without_connection_strands insertion_slice_sort default_order 6
    worker_control worker_world "b" 1%nat "p1" [] 12 stranded_state).
  - exact stranded_held.
  - vm_compute. reflexivity.
  - intros conn Hc. vm_compute in Hc. by apply elem_of_nil in Hc.
  - lia.
Defined.
