(* ===== verification/SchedReserve.v ===== *)
(** * Reservations never exceed the capacity of a cluster

    What the packing loop of [SchedPacker] reserves on the local clusters, while
    workers and other goroutines run between its iterations; and that this needs
    requirements that are not negative. *)

From S2P Require Import Prelude.
From S2P Require Import Models.
From S2P Require Import Arbiter.
From S2P Require Import SchedState.
From S2P Require Import SchedExterns.
From S2P Require Import SchedJobs.
From S2P Require Import SchedService.
From S2P Require Import SchedPacker.

(** ** Two dimensions: processor time and memory *)

Inductive dim := Cpu | Mem.

Definition used (d : dim) (c : ClusterState) : Z :=
  match d with Cpu => c_UsedCpu c | Mem => c_UsedMem c end.
Definition capacity (d : dim) (c : ClusterState) : Z :=
  match d with Cpu => c_MaxCpu c | Mem => c_MaxMem c end.
Definition need (d : dim) (j : Job) : Z :=
  match d with Cpu => j_CPURequirement j | Mem => j_MemoryRequirement j end.

(** Capacities below 2^61 and usage below 2^62 keep the sums within int64. *)
Definition small_cluster (c : ClusterState) : Prop :=
  ∀ d, 0 ≤ used d c < 2 ^ 62 ∧ 0 ≤ capacity d c < 2 ^ 61.

(** ** States in which the loop runs *)

(** The jobs are in order, no job asks for a negative amount, and the map of
    clusters is keyed by their ids. *)
Record good (s : State) : Prop := {
  g_R : ∃ m, R s m;
  g_need : ∀ d j, j ∈ jobHeap s → 0 ≤ need d j;
  g_clusters : ∀ i p, clusters s !! i = Some p →
    (p < length (clusterHeap s))%nat ∧ c_ID (cluster_at s p) = i
}.

(** Jobs that exist keep what they ask for. *)
Definition same_needs (s s' : State) : Prop :=
  (length (jobHeap s) ≤ length (jobHeap s'))%nat ∧
  ∀ d p, (p < length (jobHeap s))%nat → need d (deref (jobHeap s') p) = need d (deref (jobHeap s) p).

(** Other goroutines keep the invariant, and what the loop's pointers point to:
    a poll stores a fresh [ClusterState]. *)
Definition bystander (f : State → State) : Prop :=
  ∀ s, good s → good (f s) ∧ same_needs s (f s) ∧
    (length (clusterHeap s) ≤ length (clusterHeap (f s)))%nat ∧
    ∀ p, (p < length (clusterHeap s))%nat → cluster_at (f s) p = cluster_at s p.

#[export] Instance same_needs_preorder : PreOrder same_needs.
Proof.
  split.
  - intros s. done.
  - intros s1 s2 s3 [L1 H1] [L2 H2]. split; [lia|]. intros d p Hp. rewrite H2, H1; [done|lia..].
Qed.

(** ** One reservation *)

Lemma cluster_at_write f q s p :
  (q < length (clusterHeap s))%nat →
  cluster_at (write_cluster f q s) p = if decide (p = q) then f (cluster_at s q) else cluster_at s p.
Proof.
  intros Hq. unfold cluster_at, write_cluster. cbn [clusterHeap set_clusterHeap].
  destruct (lookup_lt_is_Some_2 _ _ Hq) as [c Hc]. case_decide as Hp.
  - subst p. by rewrite list_lookup_alter_eq, Hc.
  - by rewrite list_lookup_alter_ne.
Qed.

Lemma length_write f q s : length (clusterHeap (write_cluster f q s)) = length (clusterHeap s).
Proof. unfold write_cluster. cbn [clusterHeap set_clusterHeap]. apply length_alter. Qed.

(** The parts of the state that a write to a cluster leaves alone. *)
Lemma good_write f q s :
  (∀ c, c_ID (f c) = c_ID c) → (q < length (clusterHeap s))%nat →
  good s → good (write_cluster f q s) ∧ same_needs s (write_cluster f q s).
Proof.
  intros Hf Hq [[m HR] Hn Hc]. split; [|done]. split; [|done|].
  - exists m. destruct HR. by split.
  - intros i p Hp. rewrite length_write, cluster_at_write by done.
    destruct (Hc i p Hp) as [? Hid]. split; [done|]. case_decide; [subst; by rewrite Hf | done].
Qed.

Definition fits_cluster (j : Job) (c : ClusterState) : Prop := ∀ d, need d j ≤ capacity d c - used d c.

Lemma fits_guard j c :
  small_cluster c →
  (j_CPURequirement j <=? cpuDiff c) && (j_MemoryRequirement j <=? memDiff c) = true →
  fits_cluster j c.
Proof.
  intros Hs H. bool_to_prop. pose proof (Hs Cpu). pose proof (Hs Mem). simpl in *.
  unfold cpuDiff, memDiff in *. rewrite !wrap64_id in * by (unfold int64_ok; lia).
  intros []; simpl; lia.
Qed.

(** After a reservation [c] has become [c']: the usage has grown by at least the
    request, once or twice. *)
Definition reserved (j : Job) (c c' : ClusterState) : Prop :=
  c_ID c' = c_ID c ∧ ∀ d, capacity d c' = capacity d c ∧
    used d c + need d j ≤ used d c' ≤ used d c + 2 * need d j.

Lemma add_usage_id a b c : c_ID (add_usage a b c) = c_ID c.
Proof. by destruct c. Qed.
Lemma count_add_usage_id a b c : c_ID ((count_optimistic ∘ add_usage a b) c) = c_ID c.
Proof. by destruct c. Qed.

Lemma add_usage_reserved j c :
  small_cluster c → (∀ d, 0 ≤ need d j) → fits_cluster j c →
  let a := add_usage (j_CPURequirement j) (j_MemoryRequirement j) in
  reserved j c (a c) ∧ reserved j c (a (count_optimistic (a c))).
Proof.
  intros Hs Hn Hf. pose proof (Hs Cpu) as S1. pose proof (Hs Mem) as S2.
  pose proof (Hn Cpu) as N1. pose proof (Hn Mem) as N2.
  pose proof (Hf Cpu) as F1. pose proof (Hf Mem) as F2.
  destruct c as [i uc um mc mm o t]. simpl in *.
  rewrite !wrap64_id by (unfold int64_ok; rewrite ?wrap64_id by (unfold int64_ok; lia); lia).
  split; (split; [done|]); intros []; simpl; lia.
Qed.

Lemma reserve_spec s j l t s' :
  good s → (∀ d, 0 ≤ need d j) →
  Forall (λ p, (p < length (clusterHeap s))%nat ∧ small_cluster (cluster_at s p)) l →
  reserve j l s = (t, s') →
  good s' ∧ same_needs s s' ∧ length (clusterHeap s') = length (clusterHeap s) ∧
  match t with
  | None => s' = s
  | Some p => p ∈ l ∧ fits_cluster j (cluster_at s p) ∧
      reserved j (cluster_at s p) (cluster_at s' p) ∧
      ∀ q, q ≠ p → c_ID (cluster_at s q) ≠ c_ID (cluster_at s p) →
        cluster_at s' q = cluster_at s q
  end.
Proof.
  intros Hg Hn. induction l as [|p l IH]; simpl; intros Hl.
  { intros [= <- <-]. done. }
  apply Forall_cons in Hl as [[Hp Hs] Hl]. destruct (_ && _) eqn:E.
  2: { intros Hr. destruct (IH Hl Hr) as (? & ? & ? & Ht). split_and!; [done..|].
       destruct t; [|done]. destruct Ht as (? & ?). split; [by right | done]. }
  apply fits_guard in E; [|done]. destruct (add_usage_reserved j _ Hs Hn E) as [R1 R2].
  intros [= <- <-]. unfold SoftUpdateCluster.
  destruct (clusters s !! c_ID (cluster_at s p)) as [q|] eqn:Hq.
  - destruct (g_clusters _ Hg _ _ Hq) as [Hql Hqid].
    destruct (good_write _ q s (count_add_usage_id (j_CPURequirement j) (j_MemoryRequirement j)) Hql Hg) as [Hg1 Hk1].
    destruct (good_write _ p _ (add_usage_id (j_CPURequirement j) (j_MemoryRequirement j))
      ltac:(rewrite length_write; exact Hp) Hg1) as [Hg2 Hk2].
    split_and!; [exact Hg2 | by etrans | by rewrite !length_write | by left | done | |].
    + rewrite !cluster_at_write by (rewrite ?length_write; done).
      rewrite decide_True by done. case_decide as Heq; [by subst q | done].
    + intros r Hr Hrid. rewrite !cluster_at_write by (rewrite ?length_write; done).
      rewrite decide_False by done. rewrite decide_False; [done|]. intros ->. congruence.
  - destruct (good_write _ p s (add_usage_id (j_CPURequirement j) (j_MemoryRequirement j)) Hp Hg)
      as [Hg1 Hk1].
    split_and!; [exact Hg1 | done | by rewrite length_write | by left | done | |].
    + rewrite cluster_at_write by done. by rewrite decide_True by done.
    + intros r Hr _. rewrite cluster_at_write by done. by rewrite decide_False by done.
Qed.

(** ** The loop *)

Lemma good_Next c m s r s' :
  good s → NextPendingJob c m s = (r, s') →
  good s' ∧ same_needs s s' ∧ clusterHeap s' = clusterHeap s ∧
  (∀ p, r = Some p → (p < length (jobHeap s))%nat).
Proof.
  intros [[ph HR] Hn Hc] E. pose proof (refines_Next _ _ _ _ _ _ HR E) as H.
  assert (clusterHeap s' = clusterHeap s ∧ clusters s' = clusters s ∧
    ∃ f q, keeps_rank f ∧ jobHeap s' = alter f q (jobHeap s)) as (Hch & Hcl & f & q & Hf & Hh).
  { revert E. unfold NextPendingJob. destruct (PopBestFit _ _ _ _) as [[p|] ?]; intros [= <- <-].
    - split_and!; [done..|]. exists (with_Status Running ∘ with_Cluster packing), p.
      split; [eauto with hive|]. fields. by rewrite alter_alter.
    - split_and!; [done..|]. exists (λ j, j), O. split; [done|]. simpl.
      by destruct (jobHeap s). }
  assert (∀ d p, need d (deref (jobHeap s') p) = need d (deref (jobHeap s) p)) as Hneed.
  { intros d p. rewrite Hh. destruct (deref_alter_rank f q (jobHeap s) p Hf) as (_ & _ & ? & ?).
    by destruct d. }
  split_and!.
  - split.
    + destruct r; [destruct H as (k & _ & _ & HR' & _); eauto | destruct H; eauto].
    + intros d j Hj. apply list_elem_of_lookup in Hj as [p Hp].
      assert (need d j = need d (deref (jobHeap s) p)) as ->
        by (rewrite <- Hneed; by erewrite deref_Some).
      unfold deref. destruct (jobHeap s !! p) as [j'|] eqn:Hj'; [|by destruct d].
      apply Hn. by eapply list_elem_of_lookup_2.
    + intros i p. rewrite Hcl. intros Hi. destruct (Hc i p Hi) as [Hlt Hid].
      unfold cluster_at in *. rewrite Hch. done.
  - split; [by rewrite Hh, length_alter|]. intros d p _. apply Hneed.
  - done.
  - intros p ->. destruct H as (k & Hk & _). by eapply R_lt.
Qed.

(** What the jobs handed out for a cluster ask for. *)
Definition demand (d : dim) (s : State) (t : string) (out : list (loc * string)) : Z :=
  foldr (λ x acc, (if bool_decide (x.2 = t) then need d (deref (jobHeap s) x.1) else 0) + acc)
    0 out.

(** The local clusters that the loop works on. *)
Record workable (s : State) (cl : list loc) : Prop := {
  k_valid : Forall (λ p, (p < length (clusterHeap s))%nat ∧ small_cluster (cluster_at s p) ∧
              c_ID (cluster_at s p) ≠ EmptyString) cl;
  k_ids : ∀ p q, p ∈ cl → q ∈ cl → c_ID (cluster_at s p) = c_ID (cluster_at s q) → p = q
}.

Lemma elem_of_rotation i cl p : p ∈ rotation i cl ↔ p ∈ cl.
Proof.
  unfold rotation. rewrite elem_of_app. rewrite <- (take_drop (i mod length cl) cl) at 5.
  rewrite elem_of_app. tauto.
Qed.

Lemma reserved_small j c c' :
  small_cluster c → fits_cluster j c → (∀ d, 0 ≤ need d j) → reserved j c c' → small_cluster c'.
Proof.
  intros Hs Hf Hn [_ Hr] d. destruct (Hr d) as [-> [? ?]].
  specialize (Hs d). specialize (Hf d). specialize (Hn d). lia.
Qed.

Lemma bystander_workable f s cl :
  bystander f → good s → workable s cl → workable (f s) cl.
Proof.
  intros Hf Hg [Hv Hi]. destruct (Hf s Hg) as (_ & _ & Hlen & Hsame). rewrite Forall_forall in Hv.
  split.
  - apply Forall_forall. intros p Hp. destruct (Hv p Hp) as (? & ? & ?).
    rewrite Hsame by done. split_and!; [lia | done | done].
  - intros p q Hp Hq. destruct (Hv p Hp) as [? _], (Hv q Hq) as [? _].
    rewrite !Hsame by done. by apply Hi.
Qed.

(** The capacity that is left, as far as the loop is concerned. *)
Definition left_ (d : dim) (c : ClusterState) : Z := Z.max 0 (capacity d c - used d c).

Lemma reserve_workable s j cl i t s' :
  good s → (∀ d, 0 ≤ need d j) → workable s cl → reserve j (rotation i cl) s = (t, s') →
  good s' ∧ same_needs s s' ∧ workable s' cl ∧
  ∀ d p, p ∈ cl →
    c_ID (cluster_at s' p) = c_ID (cluster_at s p) ∧
    (if decide (t = Some p) then need d j else 0) + left_ d (cluster_at s' p) ≤ left_ d (cluster_at s p).
Proof.
  intros Hg Hn [Hv Hi] Hr. rewrite Forall_forall in Hv.
  assert (Forall (λ p, (p < length (clusterHeap s))%nat ∧ small_cluster (cluster_at s p))
    (rotation i cl)) as Hl.
  { apply Forall_forall. intros p Hp%elem_of_rotation. destruct (Hv p Hp) as (? & ? & ?). done. }
  destruct (reserve_spec _ _ _ _ _ Hg Hn Hl Hr) as (Hg' & Hk & Hlen & Ht).
  destruct t as [q|].
  2: { subst s'. split_and!; [done..| |].
       - split; [by apply Forall_forall | done].
       - intros d p Hp. split; [done|]. rewrite decide_False by done. lia. }
  destruct Ht as (Hq%elem_of_rotation & Hfit & Hres & Hoth).
  assert (∀ p, p ∈ cl → p ≠ q → cluster_at s' p = cluster_at s p) as Hother.
  { intros p Hp Hne. apply Hoth; [done|]. intros Heq. by apply Hne, Hi. }
  destruct (Hv q Hq) as (_ & Hsq & _).
  assert (∀ p, p ∈ cl → c_ID (cluster_at s' p) = c_ID (cluster_at s p)) as Hid.
  { intros p Hp. destruct (decide (p = q)) as [->|Hne]; [apply Hres | by rewrite Hother]. }
  split_and!; [done..| |].
  - split.
    + apply Forall_forall. intros p Hp. destruct (Hv p Hp) as (? & ? & ?).
      rewrite Hid, Hlen by done. split_and!; [done| |done].
      destruct (decide (p = q)) as [->|Hne]; [by eapply reserved_small | by rewrite Hother].
    + intros p p' Hp Hp'. rewrite !Hid by done. by apply Hi.
  - intros d p Hp. split; [by apply Hid|]. unfold left_. destruct (decide (p = q)) as [->|Hne].
    + rewrite decide_True by done. destruct Hres as [_ Hres]. destruct (Hres d) as [-> [? ?]].
      specialize (Hfit d). specialize (Hn d). lia.
    + rewrite decide_False by congruence. rewrite Hother by done. lia.
Qed.

Lemma reserve_in s j l p s' : reserve j l s = (Some p, s') → p ∈ l.
Proof.
  induction l as [|q l IH]; simpl; [done|]. case_match; [intros [= <- _]; by left|].
  intros Hr. right. by apply IH.
Qed.

Lemma good_deref s d p : good s → 0 ≤ need d (deref (jobHeap s) p).
Proof.
  intros Hg. unfold deref. destruct (jobHeap s !! p) as [j|] eqn:E; [|by destruct d].
  apply (g_need _ Hg). by eapply list_elem_of_lookup_2.
Qed.

Lemma workable_same_clusters s s' cl :
  clusterHeap s' = clusterHeap s → workable s cl → workable s' cl.
Proof. intros Heq [Hv Hi]. split; unfold cluster_at in *; by rewrite Heq. Qed.

Lemma left_nonneg d c : 0 ≤ left_ d c.
Proof. unfold left_. lia. Qed.

Lemma pack_loop_demand cl quota redistributed others :
  (∀ n, bystander (others n)) → ∀ k i mc mm s out s',
  good s → workable s cl →
  pack_loop k i cl quota redistributed others mc mm s = (out, s') →
  same_needs s s' ∧
  ∀ d p, p ∈ cl → demand d s' (c_ID (cluster_at s p)) out ≤ left_ d (cluster_at s p).
Proof.
  intros Hothers. induction k as [|k IH]; intros i mc mm s out s' Hg Hw; simpl.
  { intros [= <- <-]. split; [done|]. intros. apply left_nonneg. }
  destruct (if redistributed i <? quota then _ else _) as [sc sm].
  destruct (NextPendingJob sc sm s) as [[job|] s1] eqn:En;
    destruct (good_Next _ _ _ _ _ Hg En) as (Hg1 & Hk1 & Hch & Hlt).
  2: { intros [= <- <-]. split; [done|]. intros. apply left_nonneg. }
  assert (∀ p, cluster_at s1 p = cluster_at s p) as Hc1 by (intros; unfold cluster_at; by rewrite Hch).
  apply (workable_same_clusters s s1) in Hw; [|done].
  destruct (reserve _ _ s1) as [t s2] eqn:Er.
  destruct (reserve_workable _ _ _ _ _ _ Hg1 (λ d, good_deref s1 d job Hg1) Hw Er)
    as (Hg2 & Hk2 & Hw2 & Hres).
  destruct (Hothers i s2 Hg2) as (Hg3 & Hk3 & Hlen3 & Hsame3).
  pose proof (bystander_workable _ _ _ (Hothers i) Hg2 Hw2) as Hw3.
  set (target := match t with Some p => c_ID (cluster_at s2 p) | None => EmptyString end).
  set (x := match t with Some p => _ | None => _ end).
  assert (∃ mc' mm', x = (target, mc', mm', s2)) as (mc' & mm' & ->).
  { unfold x, target. destruct t; [|eauto]. destruct (ceilings s2 cl). eauto. }
  destruct (pack_loop k (S i) _ _ _ _ mc' mm' _) as [rest s4] eqn:El. intros [= <- <-].
  destruct (IH _ _ _ _ _ _ Hg3 Hw3 El) as [Hk4 Hrest].
  assert (same_needs s1 s4) as Hk14 by (etrans; [exact Hk2|]; etrans; [exact Hk3 | exact Hk4]).
  split; [by etrans|]. intros d p Hp. destruct (Hres d p Hp) as [Hid Hleft].
  destruct (proj1 (Forall_forall _ _) (k_valid _ _ Hw2) p Hp) as (Hpl & _ & Hne).
  specialize (Hrest d p Hp). rewrite Hsame3, Hid, Hc1 in Hrest by done.
  rewrite !Hc1 in Hleft. simpl.
  assert ((if bool_decide (target = c_ID (cluster_at s p)) then need d (deref (jobHeap s4) job) else 0)
    ≤ (if decide (t = Some p) then need d (deref (jobHeap s1) job) else 0)) as Hjob.
  { destruct Hk14 as [_ Hk14]. destruct Hk1 as [Hl1 _].
    rewrite Hk14 by (pose proof (Hlt job eq_refl); lia).
    case_bool_decide as Ht; [|case_decide; [apply (good_deref _ _ _ Hg1) | done]].
    rewrite decide_True; [done|]. unfold target in Ht. destruct t as [q|].
    - f_equal. apply (k_ids _ _ Hw2); [|done|].
      + apply reserve_in in Er. by apply elem_of_rotation in Er.
      + by rewrite Hid, Hc1.
    - rewrite Hid, Hc1 in Hne. by destruct Hne. }
  lia.
Qed.

(** C13: one round of the packer never promises a cluster more than it has, as long
    as no job asks for a negative amount. Let the jobs and the queue agree, no
    requirement be negative (RequestJob does not check that, and with one the claim
    fails: [negative_need_overcommits]) and the cluster map be keyed by the
    clusters' ids; let the local clusters have distinct, nonempty ids, a usage from
    0 to 2^62 and a capacity from 0 to 2^61; and let the workers and other
    goroutines do anything between the iterations that keeps the first three, the
    requirements of the known jobs and the cluster objects the loop points to
    (completions, rollbacks, polls of the clusters). Then the jobs that
    [processPendingJobs] hands out for a local cluster together ask for at most the
    processor time and the memory that the cluster had free when the round began. *)
Theorem processPendingJobs_within_capacity qord cord limit redistributed others s out s' :
  good s → workable s (LocalClusters cord s) → (∀ n, bystander (others n)) →
  processPendingJobs qord cord limit redistributed others s = (out, s') →
  ∀ d p, p ∈ LocalClusters cord s →
    demand d s' (c_ID (cluster_at s p)) out ≤
    Z.max 0 (capacity d (cluster_at s p) - used d (cluster_at s p)).
Proof.
  intros Hg Hw Ho. unfold processPendingJobs. destruct (_ =? 0)%nat.
  - intros [= <- <-] d p _. simpl. lia.
  - destruct (ceilings s _) as [mc mm]. intros E d p Hp.
    by apply (pack_loop_demand _ _ _ _ Ho _ _ _ _ _ _ _ Hg Hw E).
Qed.

(** Every reservation is counted twice. The cluster of the map and the one in
    the loop's slice are the same object unless a poll has replaced it; then
    [SoftUpdateCluster] and the direct assignment both add the request, so a
    cluster is taken for full when half of its free room is used. *)
Theorem reserve_counts_twice s j p l :
  small_cluster (cluster_at s p) → (∀ d, 0 ≤ need d j) → (p < length (clusterHeap s))%nat →
  fits_cluster j (cluster_at s p) → clusters s !! c_ID (cluster_at s p) = Some p →
  ∃ s', reserve j (p :: l) s = (Some p, s') ∧
    ∀ d, used d (cluster_at s' p) = used d (cluster_at s p) + 2 * need d j.
Proof.
  intros Hs Hn Hp Hf Hc. pose proof (Hs Cpu) as S1. pose proof (Hs Mem) as S2.
  pose proof (Hn Cpu) as N1. pose proof (Hn Mem) as N2.
  pose proof (Hf Cpu) as F1. pose proof (Hf Mem) as F2. simpl in *.
  eexists. split.
  - simpl. unfold cpuDiff, memDiff. rewrite !wrap64_id by (unfold int64_ok; lia).
    rewrite (proj2 (Z.leb_le _ _)), (proj2 (Z.leb_le _ _)) by lia. done.
  - intros d. unfold SoftUpdateCluster. rewrite Hc.
    rewrite !cluster_at_write by (rewrite ?length_write; done). rewrite !decide_True by done.
    destruct (cluster_at s p) as [i uc um mc mm o t]. simpl in *.
    destruct d; simpl; rewrite !wrap64_id; unfold int64_ok; rewrite ?wrap64_id; unfold int64_ok; lia.
Qed.

(** ** Witnesses *)

Lemma good_store i c s : c_ID c = i → good s → good (store_cluster i c s).
Proof.
  intros Hi [[m HR] Hn Hc]. unfold store_cluster. split.
  - exists m. destruct HR. by split.
  - done.
  - unfold cluster_at. cbn [clusters clusterHeap set_clusters set_clusterHeap].
    rewrite length_app. intros k p [[<- <-]|[_ Hk]]%lookup_insert_Some.
    + rewrite lookup_app_r, Nat.sub_diag by done. simpl. split; [lia | done].
    + destruct (Hc _ _ Hk) as [Hlt Hid]. rewrite lookup_app_l by done. simpl. split; [lia | done].
Qed.

(** A poll is a bystander. *)
Lemma bystander_UpdateCluster now i uc um mc mm : bystander (UpdateCluster now i uc um mc mm).
Proof.
  intros s Hg. unfold UpdateCluster. split_and!.
  - by apply good_store.
  - done.
  - unfold store_cluster. cbn [clusterHeap set_clusters set_clusterHeap]. rewrite length_app. lia.
  - intros p Hp. unfold store_cluster, cluster_at. cbn [clusterHeap set_clusters set_clusterHeap].
    by rewrite lookup_app_l.
Qed.

Lemma good_new i a : good (NewState i a).
Proof.
  split; [by exists ∅; apply R_new | by intros ?? ?%not_elem_of_nil|].
  intros k p Hk. simpl in Hk. by rewrite lookup_empty in Hk.
Qed.

Lemma good_Append j s : good s → disciplined (OAppend j) s → (∀ d, 0 ≤ need d j) → good (AppendNew j s).
Proof.
  intros [[m HR] Hn Hc] Hd Hj. split.
  - destruct (refines_Append s m j HR Hd) as [_ HR']. eauto.
  - intros d j' Hin. unfold AppendNew, AppendJob in Hin. fields.
    cbn [jobHeap set_queue set_jobs write_job set_jobHeap] in Hin.
    apply list_elem_of_lookup in Hin as [p Hp].
    destruct (decide (p = length (jobHeap s))) as [->|Hne].
    + rewrite list_lookup_alter_eq, lookup_app_r, Nat.sub_diag in Hp by done.
      injection Hp as <-. specialize (Hj d). by destruct j, d.
    + rewrite list_lookup_alter_ne in Hp by done.
      apply lookup_app_Some in Hp as [Hp|[? Hp]].
      * apply Hn. by eapply list_elem_of_lookup_2.
      * apply lookup_lt_Some in Hp as Hlt. simpl in Hlt. lia.
  - done.
Qed.

(** One cluster with room for two of the three jobs. *)
Definition reserve_state : State :=
  AppendNew (example_job "c" 2) (AppendNew (example_job "b" 3) (AppendNew (example_job "a" 4)
    (UpdateCluster 0 "c1" 3 100 9 1000 (NewState "s1" "50050")))).

Lemma reserve_state_good : good reserve_state.
Proof.
  unfold reserve_state. repeat apply good_Append.
  all: try (by intros []).
  all: try (refine (bool_decide_unpack _ _); vm_compute; exact I).
  unfold UpdateCluster. apply good_store; [done|]. apply good_new.
Qed.

Lemma reserve_state_workable : workable reserve_state (LocalClusters default_order reserve_state).
Proof.
  assert (LocalClusters default_order reserve_state = [O]) as -> by (vm_compute; reflexivity).
  split.
  - constructor; [|constructor]. split_and!.
    + vm_compute. lia.
    + intros []; vm_compute; split; split; (discriminate || reflexivity).
    + vm_compute. discriminate.
  - intros p q ->%list_elem_of_singleton ->%list_elem_of_singleton. done.
Qed.

Definition reserve_round : list (loc * string) * State :=
  processPendingJobs default_order default_order 50 (λ _, 100)
    (λ n, UpdateCluster 1 "c1" 0 0 9 1000) reserve_state.

Lemma processPendingJobs_within_capacity_witness :
  reserve_round.1 = [(O, "c1"); (1%nat, "c1")] ∧
  demand Cpu reserve_round.2 "c1" reserve_round.1 ≤ 6.
Proof.
  split; [vm_compute; reflexivity|].
  refine (processPendingJobs_within_capacity default_order default_order 50 (λ _, 100)
    (λ n, UpdateCluster 1 "c1" 0 0 9 1000) reserve_state reserve_round.1 reserve_round.2
    reserve_state_good reserve_state_workable (λ n, bystander_UpdateCluster _ _ _ _ _ _)
    _ Cpu O _).
  - unfold reserve_round. by destruct (processPendingJobs _ _ _ _ _ _).
  - refine (bool_decide_unpack _ _). vm_compute. exact I.
Defined.

Lemma reserve_counts_twice_witness :
  ∃ s', reserve (example_job "a" 4) [O] reserve_state = (Some O, s') ∧
    ∀ d, used d (cluster_at s' 0%nat) =
         used d (cluster_at reserve_state 0%nat) + 2 * need d (example_job "a" 4).
Proof.
  apply (reserve_counts_twice reserve_state (example_job "a" 4) O []).
  - intros []; vm_compute; split; split; (discriminate || reflexivity).
  - by intros [].
  - vm_compute. lia.
  - intros []; vm_compute; discriminate.
  - vm_compute. reflexivity.
Defined.

(** ** A negative requirement *)

(** A cluster with 10 units of processor time, all free; job "a" asks for -10 units,
    job "b" for 25. *)
Definition negative_state : State :=
  AppendNew (mkJob "b" "echo" EmptyString Pending 25 64 3 [] [])
    (AppendNew (mkJob "a" "echo" EmptyString Pending (-10) 64 4 [] [])
      (UpdateCluster 0 "c1" 0 0 10 1000 (NewState "s1" "50050"))).

(** The packer takes a negative requirement for room: the round hands out both jobs
    for the cluster, that is 15 units in sum, although it has 10, while everything
    else that [processPendingJobs_within_capacity] asks for holds. *)
Theorem negative_need_overcommits :
  (∃ m, R negative_state m) ∧
  workable negative_state (LocalClusters default_order negative_state) ∧
  let '(out, s') := processPendingJobs default_order default_order 50 (λ _, 100) (λ _ s, s)
                      negative_state in
  out = [(O, "c1"); (1%nat, "c1")] ∧
  demand Cpu s' "c1" out = 15 ∧
  capacity Cpu (cluster_at negative_state 0%nat) - used Cpu (cluster_at negative_state 0%nat) = 10.
Proof.
  split; [|split].
  - assert (good (UpdateCluster 0 "c1" 0 0 10 1000 (NewState "s1" "50050"))) as [[m0 H0] _ _]
      by (unfold UpdateCluster; apply good_store; [done | apply good_new]).
    edestruct refines_Append as [_ H1]; [exact H0 | |].
    2: edestruct refines_Append as [_ H2]; [exact H1 | | eexists; exact H2].
    all: refine (bool_decide_unpack _ _); vm_compute; exact I.
  - assert (LocalClusters default_order negative_state = [O]) as -> by (vm_compute; reflexivity).
    split.
    + constructor; [|constructor]. split_and!.
      * vm_compute. lia.
      * intros []; vm_compute; split; split; (discriminate || reflexivity).
      * vm_compute. discriminate.
    + intros p q ->%list_elem_of_singleton ->%list_elem_of_singleton. done.
  - vm_compute. auto.
Qed.
