(* ===== verification/SchedRaft.v ===== *)
(** * A scheduler's client of the consensus group

    [internal/scheduler/service/consensus]: one connection at a time, to the
    leader when it is known, healed from a pool of seed addresses; what the
    answers of the consensus group mean to the scheduler; the scheduler events
    by which schedulers watch each other ([internal/scheduler/packer/monitor.go]).

    [dial] says whether [grpc.NewClient] accepts an address, [alive] whether the
    node behind it answers a read. *)

From Stdlib Require Import Strings.Byte.
From S2P Require Import Prelude.
From S2P Require Import Bytes.
From S2P Require Import Json.
From S2P Require Import Models.
From S2P Require Import Payloads.
From S2P Require Import RaftNode.
From S2P Require Import Arbiter.
From S2P Require Import SchedState.
From S2P Require Import SchedExterns.
From S2P Require Import SchedJobs.
From S2P Require Import SchedService.
From S2P Require Import SchedPacker.

(** ** The connection *)

(** src/internal/scheduler/service/consensus/client.go:19-28 (RaftClient)

    [rc_conn] is the address dialled last, with whether that connection is still
    open. *)
Record RaftClient := mkRaftClient {
  rc_address : string;
  addressPool : list string;
  rc_conn : option (string * bool);
  healing : bool
}.

(** src/internal/scheduler/service/consensus/client.go:129-150 (RaftClient.switchConnection)

    True for a nil error. The old connection is closed before the dial. *)
Definition switchConnection (dial : string → bool) (newAddr : string) (c : RaftClient)
    : bool * RaftClient :=
  let c := mkRaftClient (rc_address c) (addressPool c)
             (match rc_conn c with Some (a, _) => Some (a, false) | None => None end)
             (healing c) in
  if dial newAddr
  then (true, mkRaftClient newAddr (addressPool c) (Some (newAddr, true)) (healing c))
  else (false, c).

(** src/internal/scheduler/service/consensus/client.go:61-81 (RaftClient.healConnection, the loop) *)
Fixpoint heal_loop (dial alive : string → bool) (pool : list string) (c : RaftClient)
    : bool * RaftClient :=
  match pool with
  | [] => (false, c)
  | addr :: pool =>
      match switchConnection dial addr c with
      | (false, c) => heal_loop dial alive pool c
      | (true, c) => if alive addr then (true, c) else heal_loop dial alive pool c
      end
  end.

Definition set_healing (b : bool) (c : RaftClient) : RaftClient :=
  mkRaftClient (rc_address c) (addressPool c) (rc_conn c) b.

(** src/internal/scheduler/service/consensus/client.go:51-84 (RaftClient.healConnection)

    True for a nil error. *)
Definition healConnection (dial alive : string → bool) (c : RaftClient) : bool * RaftClient :=
  if healing c then (true, c) else
  let '(r, c) := heal_loop dial alive (addressPool c) (set_healing true c) in
  (r, set_healing false c).

(** src/internal/scheduler/service/consensus/client.go:31-48 (NewRaftClient) *)
Definition NewRaftClient (dial alive : string → bool) (addresses : list string)
    : option RaftClient :=
  match addresses with
  | [] => None
  | _ => match healConnection dial alive (mkRaftClient EmptyString addresses None false) with
         | (true, c) => Some c
         | (false, _) => None
         end
  end.

(** src/internal/scheduler/service/consensus/client.go:153-159 (RaftClient.Close) *)
Definition Close_client (c : RaftClient) : RaftClient :=
  mkRaftClient (rc_address c) (addressPool c)
    (match rc_conn c with Some (a, _) => Some (a, false) | None => None end) (healing c).

(** src/internal/scheduler/service/consensus/client.go:161-181 (RaftClient.ConnectionStatus)

    [st] is the state of the connection. *)
Definition ConnectionStatus (st : connectivity) (c : RaftClient) : bool :=
  if healing c then true else
  match rc_conn c with
  | None => false
  | Some _ => match st with TransientFailure => false | _ => true end
  end.

(** ** Requests *)

(** src/internal/scheduler/service/consensus/requests.go:15-56 (RaftClient.commitPayload)

    [resp] is the answer of [ClientAppend], if the call succeeds. *)
Definition commitPayload (dial : string → bool) (resp : option AppendResponse) (c : RaftClient)
    : CommitResult * RaftClient :=
  match resp with
  | None => (CommitFailed, c)
  | Some resp =>
      let '(switched, c) :=
        if bool_decide (AStatus resp ≠ SUCCESS) && (LeaderAddress resp != rc_address c)%go
           && (LeaderAddress resp != EmptyString)%go
        then switchConnection dial (LeaderAddress resp) c
        else (true, c) in
      if negb switched then (CommitFailed, c) else
      (match AStatus resp with
       | SUCCESS => Committed
       | CONCURRENT_CLAIM => CASConcurrentConflict
       | BAD_PAYLOAD | BAD_ORIGIN_ID | FAILED_CONSENSUS | NEEDS_SNAPSHOT => CommitFailed
       end, c)
  end.

(** src/internal/scheduler/service/consensus/requests.go:59-79 (RaftClient.FetchData)

    [resp] is the answer of [GetData], if the call succeeds. *)
Definition FetchData (resp : option GetDataResponse) : option (list (list byte) * bool) :=
  r ← resp; Some (Payloads r, Exists_ r).

(** src/internal/scheduler/service/consensus/requests.go:82-99 (RaftClient.FetchJob) *)
Definition FetchJob (resp : option GetDataResponse) : option Job :=
  '(data, ok) ← FetchData resp;
  if negb ok then None else
  payload ← head data;
  job ← unmarshal_job payload;
  Some (CastFromGlobalModel job).

(** src/internal/scheduler/service/consensus/requests.go:103-109 (RaftClient.CommitJob, the payload)

    The requirements of the job are not part of it. *)
Definition commit_object (job : Job) : JobPayload :=
  mkJobPayload (j_Id job) (j_Status job) (j_ImageAlias job) (j_Priority job) 0 0 (j_Payload job).

(** src/internal/scheduler/service/consensus/requests.go:102-120 (RaftClient.CommitJob)

    [rpc] is the answer of [ClientAppend], [uuid] the fresh one of the request. *)
Definition CommitJob (dial : string → bool) (rpc : RawAppendRequest → option AppendResponse)
    (uuid schedulerID : string) (job : Job) (c : RaftClient) : CommitResult * RaftClient :=
  match marshal_job (commit_object job) with
  | None => (CommitFailed, c)
  | Some payload =>
      commitPayload dial
        (rpc (mkRawAppendRequest EmptyString (NewJobID uuid) schedulerID payload)) c
  end.

(** src/internal/scheduler/service/consensus/requests.go:123-142 (RaftClient.FetchSchedulerEvent) *)
Definition FetchSchedulerEvent (schedulerID : string) (resp : option GetDataResponse)
    : option SchedulerPayload :=
  '(data, ok) ← FetchData resp;
  if negb ok then None else
  payload ← head data;
  eventPayload ← unmarshal_scheduler payload;
  if (sp_ID eventPayload != schedulerID)%go then None else Some eventPayload.

(** src/internal/scheduler/service/consensus/requests.go:146-151 (RaftClient.CommitSchedulerEvent, the payload) *)
Definition event_object (originSchedulerID schedulerID event : string) (nowMillis : Z)
    : SchedulerPayload :=
  mkSchedulerPayload schedulerID originSchedulerID event nowMillis.

(** src/internal/scheduler/service/consensus/requests.go:145-162 (RaftClient.CommitSchedulerEvent) *)
Definition CommitSchedulerEvent (dial : string → bool)
    (rpc : RawAppendRequest → option AppendResponse) (uuid : string) (nowMillis : Z)
    (originSchedulerID schedulerID event : string) (c : RaftClient) : CommitResult * RaftClient :=
  let payload := marshal_scheduler (event_object originSchedulerID schedulerID event nowMillis) in
  commitPayload dial
    (rpc (mkRawAppendRequest EmptyString (NewRequestID uuid) schedulerID payload)) c.

(** ** Watching over clusters, the consensus group and other schedulers *)

(** src/internal/scheduler/packer/monitor.go:18-32 (Packer.checkRaftConnection, one tick)

    The new count, or [None] when the scheduler kills itself. *)
Definition raft_tick (connected : bool) (count : Z) : option Z :=
  if connected then Some 0 else
  let count := count + 1 in
  if 3 <=? count then None else Some count.

(** src/internal/scheduler/packer/monitor.go:52-65 (Packer.requestClusterState, the loop)

    [rpc] is the answer of each cluster; the round ends at the first error. A
    cluster without a connection is a nil dereference. *)
Fixpoint request_clusters (now : Z) (sc : SchedulerControl)
    (rpc : string → option ClusterStatusResponse) (l : list loc) (s : State)
    : outcome unit unit * State :=
  match l with
  | [] => (Ok tt, s)
  | p :: l =>
      let i := c_ID (cluster_at s p) in
      match Cluster i sc with
      | None => (Panic, s)
      | Some conn =>
          match FetchClusterStatus now conn (rpc i) with
          | None => (Ok tt, s)
          | Some st =>
              request_clusters now sc rpc l
                (UpdateCluster now i (wrap64 (TotalCPU st - AvailableCPU st))
                  (wrap64 (TotalMemory st - AvailableMemory st)) (TotalCPU st) (TotalMemory st) s)
          end
      end
  end.

(** src/internal/scheduler/packer/monitor.go:51-66 (Packer.requestClusterState) *)
Definition requestClusterState (ord : MapOrder) (now : Z) (sc : SchedulerControl)
    (rpc : string → option ClusterStatusResponse) (s : State) : outcome unit unit * State :=
  request_clusters now sc rpc (LocalClusters ord s) s.

(** src/internal/scheduler/packer/monitor.go:95-105 (Packer.reallocateDeadClusterJobs) *)
Definition reallocateDeadClusterJobs (cord jord : MapOrder) (now : Z) (s : State) : State :=
  foldl (λ s staleClusterID,
    foldl (λ s jobID, UnassignJob jobID s) s (JobsInCluster jord staleClusterID s))
  s (StaleClusters cord now (seconds 5) s).

(** src/internal/scheduler/packer/monitor.go:37-49 (Packer.checkSchedulers)

    The schedulers for which a takeover is started. *)
Definition checkSchedulers (now : Z) (activeEvictions : gmap string unit) (s : State)
    : list string :=
  filter (λ i, activeEvictions !! i = None) (StaleSchedulers now (seconds 5) s).

(** src/internal/scheduler/packer/monitor.go:68-93 (Packer.attemptSchedulerTakeover)

    [commit] answers the two commits, [fetch] the query five seconds after the
    first, unless the context ends before. The events that were sent. *)
Definition attemptSchedulerTakeover (self schedulerID : string) (commit : CommitResult)
    (ctxDone : bool) (fetch : option SchedulerPayload) : list SchedulerEvent :=
  match commit with
  | Committed =>
      if ctxDone then [HeartbeatFailed] else
      match fetch with
      | None => [HeartbeatFailed]
      | Some mostRecentEvent =>
          if (sp_OriginSchedulerID mostRecentEvent != schedulerID)%go ||
             (sp_Entry mostRecentEvent == SchedulerEvent_String Online)%go
          then [HeartbeatFailed]
          else [HeartbeatFailed; RedistributedJobs]
      end
  | _ => [HeartbeatFailed]
  end.

(** ** Healing *)

Definition reachable_node (dial alive : string → bool) (a : string) : bool := dial a && alive a.

Lemma heal_loop_spec dial alive pool : ∀ c,
  let '(r, c') := heal_loop dial alive pool c in
  addressPool c' = addressPool c ∧ healing c' = healing c ∧
  if r : bool then
    ∃ pre a post, pool = pre ++ a :: post ∧ reachable_node dial alive a = true ∧
      Forall (λ x, reachable_node dial alive x = false) pre ∧
      rc_address c' = a ∧ rc_conn c' = Some (a, true)
  else Forall (λ x, reachable_node dial alive x = false) pool.
Proof.
  unfold reachable_node. induction pool as [|a pool IH]; intros c; simpl; [done|].
  unfold switchConnection. destruct (dial a) eqn:Hd.
  - destruct (alive a) eqn:Ha.
    + split_and!; [done..|]. exists [], a, pool. rewrite Hd, Ha. by split_and!.
    + match goal with |- context [heal_loop _ _ _ ?c1] => specialize (IH c1);
        destruct (heal_loop dial alive pool c1) as [r c'] end.
      destruct IH as (-> & -> & Hr). split_and!; [done..|]. destruct r.
      * destruct Hr as (pre & b & post & -> & ? & ? & ? & ?). exists (a :: pre), b, post.
        split_and!; try done. constructor; [by rewrite Hd, Ha | done].
      * constructor; [by rewrite Hd, Ha | done].
  - match goal with |- context [heal_loop _ _ _ ?c1] => specialize (IH c1);
      destruct (heal_loop dial alive pool c1) as [r c'] end.
    destruct IH as (-> & -> & Hr). split_and!; [done..|]. destruct r.
    + destruct Hr as (pre & b & post & -> & ? & ? & ? & ?). exists (a :: pre), b, post.
      split_and!; try done. constructor; [by rewrite Hd | done].
    + constructor; [by rewrite Hd | done].
Qed.

(** Healing attaches the client to the first address of its pool that can be
    dialled and answers a read, with an open connection to it, and fails exactly
    when there is none; either way it ends, with the guard against concurrent
    healing released. *)
Theorem healConnection_attaches dial alive c :
  healing c = false →
  let '(r, c') := healConnection dial alive c in
  addressPool c' = addressPool c ∧ healing c' = false ∧
  if r : bool then
    ∃ pre a post, addressPool c = pre ++ a :: post ∧ reachable_node dial alive a = true ∧
      Forall (λ x, reachable_node dial alive x = false) pre ∧
      rc_address c' = a ∧ rc_conn c' = Some (a, true)
  else Forall (λ x, reachable_node dial alive x = false) (addressPool c).
Proof.
  intros Hh. unfold healConnection. rewrite Hh.
  pose proof (heal_loop_spec dial alive (addressPool c) (set_healing true c)) as H.
  destruct (heal_loop dial alive (addressPool c) (set_healing true c)) as [r c'].
  destruct H as (Hp & _ & Hr). by split_and!.
Qed.

(** ** Stale clusters *)

Definition requeue (k : string) (m : gmap string phase) : gmap string phase :=
  match m !! k with Some Assigned => <[k := Queued]> m | _ => m end.

(** The cluster that an id's job is bound to. *)
Definition bound_to (s : State) (k : string) : string :=
  match jobs s !! k with Some p => j_AssignedClusterId (deref (jobHeap s) p) | None => EmptyString end.

Lemma requeue_lookup k m k' :
  requeue k m !! k' = if decide (k' = k ∧ m !! k = Some Assigned) then Some Queued else m !! k'.
Proof.
  unfold requeue. destruct (decide (m !! k = Some Assigned)) as [E|E].
  - rewrite E. destruct (decide (k' = k)) as [->|Hne].
    + rewrite lookup_insert_eq, decide_True by done. done.
    + rewrite lookup_insert_ne, decide_False by (done || tauto). done.
  - rewrite decide_False by tauto. destruct (m !! k) as [[]|]; done.
Qed.

Lemma bound_Unassign s m k k' :
  R s m → m !! k' = Some Assigned → k' ≠ k → bound_to (UnassignJob k s) k' = bound_to s k'.
Proof.
  intros HR Hm Hne. unfold bound_to, UnassignJob.
  destruct (jobs s !! k) as [p|] eqn:Hp; [|done]. destruct (completedJobs s !! k); [done|].
  fields. destruct (jobs s !! k') as [p'|] eqn:Hp'; [|done]. f_equal.
  assert (p' ≠ p) as Hpp.
  { intros ->. apply Hne. by rewrite <- (R_id _ _ _ _ HR Hp), <- (R_id _ _ _ _ HR Hp'). }
  unfold deref. by rewrite !list_lookup_alter_ne.
Qed.

Lemma unassign_all_spec l : ∀ s m,
  R s m → ∃ m', R (foldl (λ s k, UnassignJob k s) s l) m' ∧
    (∀ k, m' !! k = if decide (k ∈ l ∧ m !! k = Some Assigned) then Some Queued else m !! k) ∧
    ∀ k, m !! k = Some Assigned → k ∉ l →
      bound_to (foldl (λ s k, UnassignJob k s) s l) k = bound_to s k.
Proof.
  induction l as [|j l IH]; intros s m HR; cbn [foldl].
  { exists m. split_and!; [done| |done]. intros k. rewrite decide_False; [done|].
    by intros [?%not_elem_of_nil _]. }
  pose proof (refines_Unassign s m j HR) as HR1. fold (requeue j m) in HR1.
  destruct (IH _ _ HR1) as (m' & HR' & Hm' & Hb). exists m'. split_and!; [done| |].
  - intros k. rewrite Hm', requeue_lookup.
    destruct (decide (k = j ∧ m !! j = Some Assigned)) as [[-> Hj]|Hne].
    + rewrite decide_False by naive_solver. rewrite decide_True; [done|]. split; [by left | done].
    + destruct (decide (k ∈ l ∧ m !! k = Some Assigned)) as [[? ?]|Hnl].
      * rewrite decide_True; [done|]. split; [by right | done].
      * rewrite decide_False; [done|]. intros [[->|?]%elem_of_cons ?]; tauto.
  - intros k Hk [Hne Hnl]%not_elem_of_cons. rewrite Hb; [|rewrite requeue_lookup, decide_False by tauto; done|done].
    by eapply bound_Unassign.
Qed.

Lemma elem_of_JobsInCluster ord s m cl k :
  R s m → k ∈ JobsInCluster ord cl s ↔
    (m !! k = Some Assigned ∨ m !! k = Some Revived) ∧ bound_to s k = cl.
Proof.
  intros HR. unfold JobsInCluster, bound_to. rewrite list_elem_of_filter, elem_of_range_keys.
  rewrite (R_assigned _ _ HR). destruct (jobs s !! k) as [p|] eqn:Hp.
  - rewrite bool_decide_eq_true. tauto.
  - rewrite (R_unknown _ _ _ HR Hp). split; [by intros [? _] | by intros [[]]].
Qed.

Lemma reallocate_spec jord l : ∀ s m,
  R s m → ∃ m', R (foldl (λ s cl, foldl (λ s k, UnassignJob k s) s (JobsInCluster jord cl s)) s l) m' ∧
    ∀ k, m' !! k = if decide (m !! k = Some Assigned ∧ bound_to s k ∈ l) then Some Queued else m !! k.
Proof.
  induction l as [|cl l IH]; intros s m HR; cbn [foldl].
  { exists m. split; [done|]. intros k. rewrite decide_False; [done|].
    by intros [_ ?%not_elem_of_nil]. }
  destruct (unassign_all_spec (JobsInCluster jord cl s) s m HR) as (m1 & HR1 & Hm1 & Hb).
  destruct (IH _ _ HR1) as (m' & HR' & Hm'). exists m'. split; [done|]. intros k.
  rewrite Hm'. specialize (Hm1 k). specialize (Hb k).
  pose proof (elem_of_JobsInCluster jord s m cl k HR) as Hin.
  destruct (decide (m !! k = Some Assigned)) as [Ha|Hna].
  2: { rewrite decide_False in Hm1 by tauto. rewrite Hm1, !decide_False by tauto. done. }
  destruct (decide (bound_to s k = cl)) as [Hcl|Hncl].
  - rewrite decide_True in Hm1 by tauto. rewrite Hm1, decide_False by naive_solver.
    rewrite decide_True; [done|]. split; [done | by rewrite elem_of_cons; left].
  - rewrite decide_False in Hm1 by tauto. rewrite Hm1, Hb by tauto.
    destruct (decide (bound_to s k ∈ l)) as [?|?].
    + by rewrite !decide_True by (rewrite ?elem_of_cons; auto).
    + by rewrite !decide_False by (rewrite ?elem_of_cons; tauto).
Qed.

(** The jobs of a lost cluster are rescheduled. In a state that implements the
    abstract scheduler [m], a round of [reallocateDeadClusterJobs] puts back in
    the queue exactly the assigned jobs whose cluster has not been heard of for
    five seconds; every other job keeps its phase. *)
Theorem reallocate_requeues cord jord now s m k ph :
  R s m → m !! k = Some ph →
  in_phase (reallocateDeadClusterJobs cord jord now s) k
    (if decide (ph = Assigned ∧ bound_to s k ∈ StaleClusters cord now (seconds 5) s)
     then Queued else ph).
Proof.
  intros HR Hk. unfold reallocateDeadClusterJobs.
  destruct (reallocate_spec jord (StaleClusters cord now (seconds 5) s) s m HR) as (m' & HR' & Hm').
  eapply R_in_phase; [exact HR'|]. rewrite Hm', Hk.
  destruct (decide (ph = Assigned)) as [->|Hne].
  - destruct (decide (bound_to s k ∈ StaleClusters cord now (seconds 5) s)) as [?|?].
    + by rewrite !decide_True by done.
    + by rewrite !decide_False by tauto.
  - rewrite !decide_False by (intros [? _]; congruence). done.
Qed.

(** A scheduler that has stopped answering is not taken over: five seconds after
    the watcher's own HeartbeatFailed, the newest event about it is that event,
    and its origin is the watcher. *)
Lemma silent_scheduler_not_taken_over self schedulerID ctxDone t :
  self ≠ schedulerID →
  attemptSchedulerTakeover self schedulerID Committed ctxDone
    (Some (event_object self schedulerID (SchedulerEvent_String HeartbeatFailed) t)) =
  [HeartbeatFailed].
Proof.
  intros Hne. unfold attemptSchedulerTakeover, event_object. cbn [sp_OriginSchedulerID].
  rewrite bool_decide_eq_false_2 by done. by destruct ctxDone.
Qed.

(** ** Witnesses *)

Definition lost_client : RaftClient :=
  mkRaftClient "a" ["a"; "bad address"; "b"; "c"] (Some ("a", true)) false.

Lemma healConnection_attaches_witness :
  healConnection (λ x, bool_decide (x ≠ "bad address")) (λ x, bool_decide (x ≠ "a")) lost_client
    = (true, mkRaftClient "b" ["a"; "bad address"; "b"; "c"] (Some ("b", true)) false) ∧
  let '(r, c') := healConnection (λ x, bool_decide (x ≠ "bad address"))
                    (λ x, bool_decide (x ≠ "a")) lost_client in
  addressPool c' = addressPool lost_client ∧ healing c' = false ∧
  if r : bool then
    ∃ pre a post, addressPool lost_client = pre ++ a :: post ∧
      reachable_node (λ x, bool_decide (x ≠ "bad address")) (λ x, bool_decide (x ≠ "a")) a = true ∧
      Forall (λ x, reachable_node (λ x, bool_decide (x ≠ "bad address"))
                     (λ x, bool_decide (x ≠ "a")) x = false) pre ∧
      rc_address c' = a ∧ rc_conn c' = Some (a, true)
  else Forall (λ x, reachable_node (λ x, bool_decide (x ≠ "bad address"))
                      (λ x, bool_decide (x ≠ "a")) x = false) (addressPool lost_client).
Proof.
  split; [vm_compute; reflexivity|].
  apply (healConnection_attaches (λ x, bool_decide (x ≠ "bad address"))
    (λ x, bool_decide (x ≠ "a")) lost_client).
  reflexivity.
Defined.

(** "b" runs on a cluster last heard of at time 0. *)
Definition stale_run : list op := take 5 example_run.
Definition stale_state : State := AddLocalCluster 0 "c1" (do_ops stale_run (NewState "s1" "50050")).

Lemma R_AddLocalCluster now i s m : R s m → R (AddLocalCluster now i s) m.
Proof. intros []. by split. Qed.

Lemma stale_state_R : ∃ m, R stale_state m ∧ m !! "b" = Some Assigned.
Proof.
  destruct (do_ops_refines stale_run _ _ (R_new "s1" "50050")) as (m & _ & HR).
  { refine (bool_decide_unpack _ _). vm_compute. exact I. }
  exists m. split; [by apply R_AddLocalCluster|].
  destruct (proj1 (R_assigned _ _ HR "b")) as [?|Hm]; [vm_compute; by eexists|done|].
  assert (is_Some (completedJobs (do_ops stale_run (NewState "s1" "50050")) !! "b")) as Hc
    by (apply (R_done _ _ HR); by right).
  vm_compute in Hc. by destruct Hc.
Qed.

Lemma reallocate_requeues_witness :
  in_phase (reallocateDeadClusterJobs default_order default_order (seconds 6) stale_state) "b"
    Queued.
Proof.
  destruct stale_state_R as (m & HR & Hm).
  pose proof (reallocate_requeues default_order default_order (seconds 6) stale_state m "b" Assigned
    HR Hm) as H.
  rewrite decide_True in H; [exact H|]. refine (bool_decide_unpack _ _). vm_compute. exact I.
Defined.
