(* ===== verification/SchedRound.v ===== *)
(** * The rounds of a scheduler

    [internal/scheduler/packer/pack.go]: the ticks of the packer, which put its
    parts together: jobs of lost clusters go back to the queue, queued jobs are
    handed to workers, clusters are polled and schedulers watched. *)

From S2P Require Import Prelude.
From S2P Require Import Models.
From S2P Require Import Arbiter.
From S2P Require Import SchedState.
From S2P Require Import SchedExterns.
From S2P Require Import SchedJobs.
From S2P Require Import SchedService.
From S2P Require Import SchedPacker.
From S2P Require Import SchedReserve.
From S2P Require Import SchedRaft.

(** src/internal/scheduler/packer/pack.go:48-53 (Packer.schedule, a tick) *)
Definition schedule_tick (qord cord jord : MapOrder) (now : Z) (redistributed : nat → Z)
    (others : nat → State → State) (s : State) : list (loc * string) * State :=
  processPendingJobs qord cord 50 redistributed others (reallocateDeadClusterJobs cord jord now s).

(** src/internal/scheduler/packer/pack.go:65-67 (Packer.requestStates, a tick)

    The schedulers for which a takeover is started come with the state. *)
Definition requestStates_tick (ord : MapOrder) (now : Z) (sc : SchedulerControl)
    (rpc : string → option ClusterStatusResponse) (activeEvictions : gmap string unit) (s : State)
    : outcome unit (list string) * State :=
  match requestClusterState ord now sc rpc s with
  | (Ok _, s) => (Ok (checkSchedulers now activeEvictions s), s)
  | (Err e, s) => (Err e, s)
  | (Panic, s) => (Panic, s)
  end.

(** ** Every job that is handed out is held *)

(** The states in which the loop sends a job to the workers. *)
Fixpoint handovers (k i : nat) (clusters : list loc) (quota : Z) (redistributed : nat → Z)
    (others : nat → State → State) (maxCPU maxMem : Z) (s : State) : list (State * loc * string) :=
  match k with
  | O => []
  | S k =>
      let '(searchCPU, searchMem) :=
        if redistributed i <? quota then (2 ^ 62, 2 ^ 62) else (maxCPU, maxMem) in
      match NextPendingJob searchCPU searchMem s with
      | (None, s) => []
      | (Some job, s) =>
          let '(target, maxCPU, maxMem, s) :=
            match reserve (deref (jobHeap s) job) (rotation i clusters) s with
            | (Some p, s) =>
                let '(c, m) := ceilings s clusters in (c_ID (cluster_at s p), c, m, s)
            | (None, s) => (EmptyString, maxCPU, maxMem, s)
            end in
          (s, job, target) ::
            handovers k (S i) clusters quota redistributed others maxCPU maxMem (others i s)
      end
  end.

Lemma handovers_out k : ∀ i cl quota redistributed others mc mm s,
  (λ e : State * loc * string, (e.1.2, e.2)) <$> handovers k i cl quota redistributed others mc mm s =
  (pack_loop k i cl quota redistributed others mc mm s).1.
Proof.
  induction k as [|k IH]; intros; [done|]. cbn [handovers pack_loop].
  destruct (if _ <? quota then _ else _) as [sc sm].
  destruct (NextPendingJob sc sm s) as [[job|] s1]; [|done].
  destruct (reserve _ _ s1) as [[p|] s2]; [destruct (ceilings s2 cl)|];
    rewrite fmap_cons, IH; by destruct (pack_loop _ _ _ _ _ _ _ _ _).
Qed.

Lemma handovers_length k : ∀ i cl quota redistributed others mc mm s,
  (length (handovers k i cl quota redistributed others mc mm s) <= k)%nat.
Proof.
  induction k as [|k IH]; intros; [done|]. cbn [handovers].
  destruct (if _ <? quota then _ else _) as [sc sm].
  destruct (NextPendingJob sc sm s) as [[job|] s1]; [|cbn; lia].
  destruct (reserve _ _ s1) as [[p|] s2]; [destruct (ceilings s2 cl)|]; cbn [length];
    apply le_n_S, IH.
Qed.

(** What other goroutines do keeps the scheduler explainable. *)
Definition lawful (f : State → State) : Prop := ∀ s m, R s m → ∃ m', R (f s) m'.

(** The parts of the state that [R] speaks of. *)
Definition same_jobs (s s' : State) : Prop :=
  jobs s' = jobs s ∧ unassignedJobs s' = unassignedJobs s ∧ assignedJobs s' = assignedJobs s ∧
  completedJobs s' = completedJobs s ∧ jobHeap s' = jobHeap s.

Lemma R_same_jobs s s' m : same_jobs s s' → R s m → R s' m.
Proof.
  destruct s, s'. intros (E1 & E2 & E3 & E4 & E5) [H1 H2 H3 H4 H5 H6 H7]. cbn in *. subst.
  by split.
Qed.

Lemma reserve_same_jobs j l : ∀ s t s', reserve j l s = (t, s') → same_jobs s s'.
Proof.
  induction l as [|p l IH]; intros s t s'; cbn [reserve]; [by intros [= <- <-]|].
  destruct (_ && _); [|by apply IH]. intros [= <- <-]. unfold SoftUpdateCluster.
  by destruct (clusters s !! _).
Qed.

(** The target of a hand-over: nothing, or a cluster of the round. *)
Definition target_of (cl : list loc) (s : State) (target : string) : Prop :=
  target = EmptyString ∨ ∃ p, p ∈ cl ∧ target = c_ID (cluster_at s p).

Lemma handovers_held cl quota redistributed others : (∀ n, lawful (others n)) →
  ∀ k i mc mm s m, R s m → ∀ s1 p target,
  (s1, p, target) ∈ handovers k i cl quota redistributed others mc mm s →
  (∃ id, held s1 id p) ∧ target_of cl s1 target.
Proof.
  intros Ho. induction k as [|k IH]; intros i mc mm s m HR s1 p target; cbn [handovers];
    [by intros ?%not_elem_of_nil|].
  destruct (if redistributed i <? quota then _ else _) as [sc sm].
  destruct (NextPendingJob sc sm s) as [[job|] s2] eqn:En; [|by intros ?%not_elem_of_nil].
  pose proof (refines_Next s m _ _ _ _ HR En) as (id & Hp & Hm & HR2 & _).
  destruct (reserve _ _ s2) as [t s3] eqn:Er. pose proof (reserve_same_jobs _ _ _ _ _ Er) as Hsame.
  pose proof (R_same_jobs _ _ _ Hsame HR2) as HR3.
  set (tgt := match t with Some p => c_ID (cluster_at s3 p) | None => EmptyString end).
  set (x := match t with Some p => _ | None => _ end).
  assert (∃ mc' mm', x = (tgt, mc', mm', s3)) as (mc' & mm' & ->).
  { unfold x, tgt. destruct t; [|eauto]. destruct (ceilings s3 cl). eauto. }
  intros [Heq | Hin]%elem_of_cons.
  - injection Heq as -> -> ->. split.
    + exists id, (<[id := Assigned]> m). split_and!; [done | apply lookup_insert_eq |].
      destruct Hsame as (-> & _). unfold NextPendingJob in En.
      destruct (PopBestFit _ _ _ _) as [[?|] ?]; simplify_eq. by fields.
    + unfold tgt. destruct t as [q|]; [right|by left]. exists q. split; [|done].
      apply reserve_in in Er. by apply elem_of_rotation in Er.
  - destruct (Ho i s3 _ HR3) as (m' & HR'). by eapply IH.
Qed.

(** The hand-overs of a tick of [schedule], with the state in which each happens. *)
Definition tick_handovers (qord cord jord : MapOrder) (now : Z) (redistributed : nat → Z)
    (others : nat → State → State) (s : State) : list (State * loc * string) :=
  let s := reallocateDeadClusterJobs cord jord now s in
  if (length (PendingJobs qord s) =? 0)%nat then [] else
  let clusters := LocalClusters cord s in
  let '(maxCPU, maxMem) := ceilings s clusters in
  handovers 50 0 clusters (calculateRedistributionQuota 50) redistributed others maxCPU maxMem s.

Lemma tick_handovers_out qord cord jord now redistributed others s :
  (λ e : State * loc * string, (e.1.2, e.2)) <$> tick_handovers qord cord jord now redistributed others s =
  (schedule_tick qord cord jord now redistributed others s).1.
Proof.
  unfold tick_handovers, schedule_tick, processPendingJobs. destruct (_ =? 0)%nat; [done|].
  destruct (ceilings _ _) as [mc mm]. apply handovers_out.
Qed.

(** C12: a scheduling round puts every job it takes in good hands, as long as the
    connections it needs exist. Start a tick of [schedule] in a state that implements the
    abstract scheduler, and let other goroutines run lawfully between its
    iterations. The tick hands out at most fifty jobs; in the state in which a job
    is handed to a worker it is assigned, under the pointer the worker gets, and its
    target is empty or a cluster of the round; and from that state, if the target
    cluster and every peer that the state knows have a connection, the worker settles
    the job, whatever the network answers on those connections and whatever other
    goroutines do to other jobs: the job ends queued again, on its target, or with a
    peer that accepted it. (Without a connection the job is stranded:
    [Redistribute_without_connection_strands].) *)
Theorem schedule_round_settles qord cord jord now redistributed others s m :
  R s m → (∀ n, lawful (others n)) →
  let moments := tick_handovers qord cord jord now redistributed others s in
  (λ e, (e.1.2, e.2)) <$> moments = (schedule_tick qord cord jord now redistributed others s).1 ∧
  (length moments <= 50)%nat ∧
  ∀ s1 p target, (s1, p, target) ∈ moments →
    target_of (LocalClusters cord (reallocateDeadClusterJobs cord jord now s)) s1 target ∧
    ∃ i, in_phase s1 i Assigned ∧ jobs s1 !! i = Some p ∧
      ∀ ss ord now sc w loaded quota, quiet_world i w →
      (target ≠ EmptyString → ∃ conn, clusterConns sc !! target = Some conn ∧ cc_nodeID conn = target) →
      (∀ peer, peer ∈ peers s1 → ∃ conn, conn ∈ cliConns sc ∧ pc_nodeID conn = p_ID peer) →
      let '(r, s2) := executeJobAssignment ss ord now sc w p target loaded quota s1 in
      is_ok r = true ∧ (in_phase s2 i Queued ∨ dispatched w target i p s2 ∨ handed_over w i s2).
Proof.
  intros HR Ho moments. split; [apply tick_handovers_out|]. unfold moments, tick_handovers.
  destruct (reallocate_spec jord (StaleClusters cord now (seconds 5) s) s m HR) as (m1 & HR1 & _).
  fold (reallocateDeadClusterJobs cord jord now s) in HR1.
  set (s0 := reallocateDeadClusterJobs cord jord now s) in *. destruct (_ =? 0)%nat.
  { split; [cbn; lia|]. by intros s1 p target ?%not_elem_of_nil. }
  destruct (ceilings s0 _) as [mc mm]. split; [apply handovers_length|].
  intros s1 p target Hin.
  destruct (handovers_held _ _ _ _ Ho _ _ _ _ _ _ HR1 _ _ _ Hin) as [[i Hi] Ht].
  split; [done|]. exists i.
  split_and!; [by eapply held_in_phase | by destruct Hi as (? & _ & _ & ?) |].
  intros. by apply execute_settles_held.
Qed.

(** ** Witnesses *)

(** Job "b" ran on a cluster that has been silent for six seconds: the tick puts it
    back and hands it out again, before the two jobs that are queued. *)
Lemma schedule_round_settles_witness :
  let tick := schedule_tick default_order default_order default_order (seconds 6) (λ _, 0)
                (λ _ s, s) stale_state in
  tick.1 = [(1%nat, EmptyString); (2%nat, EmptyString); (0%nat, EmptyString)] ∧
  ∀ s1, (s1, 1%nat, EmptyString) ∈ tick_handovers default_order default_order default_order (seconds 6)
          (λ _, 0) (λ _ s, s) stale_state →
    ∃ i, in_phase s1 i Assigned ∧ jobs s1 !! i = Some 1%nat.
Proof.
  split; [vm_compute; reflexivity|]. intros s1 Hin. destruct stale_state_R as (m & HR & _).
  destruct (schedule_round_settles default_order default_order default_order (seconds 6) (λ _, 0)
    (λ _ s, s) stale_state m HR) as (_ & _ & H).
  - intros n s m' HR'. exists m'. exact HR'.
  - destruct (H _ _ _ Hin) as (_ & i & H1 & H2 & _). exists i. split; [exact H1 | exact H2].
Defined.
