(* ===== verification/Commits.v ===== *)
(** * Committing jobs and events

    The scheduler's client ([SchedRaft]) against the consensus node that leads
    ([RaftClient]): what was committed is what is fetched, and the guard of the
    node keeps two schedulers from committing the same state of a job. *)

From Stdlib Require Import Strings.Byte Strings.String.
From S2P Require Import Prelude.
From S2P Require Import Bytes.
From S2P Require Import Json.
From S2P Require Import JsonAny.
From S2P Require Import JsonTheory.
From S2P Require Import Models.
From S2P Require Import JsonEncode.
From S2P Require Import Payloads.
From S2P Require Import LogCodec.
From S2P Require Import Fs.
From S2P Require Import Storage.
From S2P Require Import Queries.
From S2P Require Import RaftState.
From S2P Require Import RaftNode.
From S2P Require Import RaftClient.
From S2P Require Import SchedState.
From S2P Require Import SchedJobs.
From S2P Require Import SchedPacker.
From S2P Require Import SchedRaft.

(** ** What the consensus node sees of a payload *)

Lemma peek_marshal_job j :
  job_ok j →
  ∃ data, marshal_job j = Some data ∧
    peek data = Some (mkPeek (jp_ID j) (Some (jp_State j)) None).
Proof.
  intros Hok. destruct (marshal_job_parses j Hok) as (data & v & -> & Hparse).
  destruct Hok as (_ & _ & ? & _). exists data. split; [done|].
  unfold peek, unmarshal. rewrite Hparse. unfold peek_member. by fill_struct.
Qed.

Lemma peek_cas_marshal_job j :
  job_ok j →
  ∃ data, marshal_job j = Some data ∧
    peek_cas data = Some (mkPeekPayload (jp_ID j) (Some (jp_State j)) None 0).
Proof.
  intros Hok. destruct (marshal_job_parses j Hok) as (data & v & -> & Hparse).
  destruct Hok as (_ & _ & ? & _). exists data. split; [done|].
  unfold peek_cas, unmarshal. rewrite Hparse. unfold peekPayload_member. by fill_struct.
Qed.

Lemma peek_cas_marshal_scheduler p :
  scheduler_ok p →
  peek_cas (marshal_scheduler p) = Some (mkPeekPayload (sp_ID p) None
    (Some (JString (list_byte_of_string (sp_Entry p)))) (sp_Timestamp p)).
Proof.
  intros Hok. pose proof (marshal_scheduler_parses p Hok) as Hparse. destruct Hok as (_ & _ & _ & ?).
  unfold peek_cas, unmarshal. rewrite Hparse. unfold peekPayload_member. fill_struct.
  cbn [into_any any_ok mbind option_bind]. by eval_keys.
Qed.

(** An entry of the log that later entries do not shadow. *)
Definition newest_in (h : Handler) (i : string) (e : LogEntry) : Prop :=
  payload_id e = Some i ∧
  ∃ old new, entries h = old ++ e :: new ∧ Forall (λ x, payload_id x ≠ Some i) new.

Lemma newest_in_entry h i e : newest_in h i e → newest_entry i h = Some e.
Proof.
  intros (Hi & old & new & Hent & Hnew). unfold newest_entry.
  rewrite Hent, filter_app, filter_cons, decide_True by (by split; [|rewrite Hi]).
  assert (filter (matches None (Some i)) new = []) as ->.
  { clear Hent. induction Hnew as [|x new Hx _ IH]; [done|]. rewrite filter_cons.
    assert (¬ matches None (Some i) x) as Hm.
    { unfold matches. destruct (payload_id x); [|tauto]. intros [_ ->]. done. }
    rewrite decide_False by done. exact IH. }
  by rewrite last_snoc.
Qed.

Lemma query_newest i h e :
  newest_in h i e → QueryEntries None (Some i) h = [e].
Proof.
  intros Hn%newest_in_entry. rewrite QueryEntries_payload. fold (newest_entry i h). by rewrite Hn.
Qed.

(** ** Jobs *)

(** What a scheduler gets back for a job it committed. *)
Definition fetched (job : Job) : Job :=
  mkJob (j_Id job) (j_ImageAlias job) EmptyString (j_Status job) 0 0 (j_Priority job)
    (compacted (j_Payload job)) [].

(** C26: a committed job is fetched as it was committed. When the newest entry of
    the log about a job is the one that [CommitJob] sent, [FetchJob] answers a job
    with the same id, image, status and priority, and a payload that is the same
    JSON without white space; an empty payload has become [null], and the CPU and
    memory requirements, which are not sent, are zero. The payload that is sent is
    the only thing that can fail: it exists for every job whose strings are UTF-8
    and whose payload is empty or JSON. *)
Theorem commit_fetch_roundtrip job n e :
  job_ok (commit_object job) →
  newest_in (FileHandler n) (j_Id job) e →
  is_Some (marshal_job (commit_object job)) ∧
  (marshal_job (commit_object job) = Some (Payload e) →
   FetchJob (Some (GetData (mkGetDataRequest None (Some (j_Id job))) n)) = Some (fetched job)).
Proof.
  intros Hok Hn. destruct (unmarshal_marshal_job _ Hok) as (data & -> & Hdata).
  split; [done|]. intros [= ->]. unfold FetchJob, FetchData, GetData.
  cbn [SchedulerIdQuery PayloadIdQuery]. rewrite (query_newest _ _ _ Hn).
  cbn [mbind option_bind Payloads Exists_ fmap list_fmap]. cbn. by rewrite Hdata.
Qed.

(** The log of node [n] says last that [job] is in its state. *)
Definition recorded (n : Node) (job : Job) : Prop :=
  job_ok (commit_object job) ∧ j_Id job ≠ EmptyString ∧ 0 ≤ j_Status job ∧
  ∃ e, newest_in (FileHandler n) (j_Id job) e ∧
       marshal_job (commit_object job) = Some (Payload e).

(** The guard of the leader on a commit of the same job. *)
Lemma guard_recorded n job job2 req :
  recorded n job → role (state n) = Leader → job_ok (commit_object job2) →
  j_Id job2 = j_Id job → marshal_job (commit_object job2) = Some (raw_Payload req) →
  clientAppend_guard req n =
    if decide (j_Status job2 = j_Status job)
    then Some (with_status CONCURRENT_CLAIM (std_response req n)) else None.
Proof.
  intros (Hok & Hne & Hpos & e & Hn & He) Hlead Hok2 Hid Hreq.
  destruct (peek_cas_marshal_job _ Hok) as (data & Hd & Hpk). rewrite He in Hd. simplify_eq.
  destruct (peek_cas_marshal_job _ Hok2) as (data2 & Hd2 & Hpk2). rewrite Hreq in Hd2. simplify_eq.
  simpl in *. unfold clientAppend_guard. rewrite Hlead.
  unfold checkCASConflict. rewrite Hpk2, Hid. cbn [pk_ID].
  rewrite (bool_decide_eq_false_2 _ Hne), (query_newest _ _ _ Hn), Hpk.
  unfold cas_guards, claims. cbn [pk_State pk_Entry].
  destruct (decide (j_Status job2 = j_Status job)) as [->|Hs].
  - by rewrite (proj2 (Z.leb_le _ _)), !bool_decide_eq_true_2 by done.
  - rewrite (bool_decide_eq_false_2 (Some _ = _)) by congruence.
    rewrite !andb_false_r. by destruct (negb _ && _).
Qed.

Lemma CommitJob_conflict n job job2 dial before after uuid schedulerID c :
  recorded n job → role (state n) = Leader → job_ok (commit_object job2) →
  j_Id job2 = j_Id job → j_Status job2 = j_Status job →
  CommitJob dial (λ req, (ClientAppend before after req n).1) uuid schedulerID job2 c
    = (CASConcurrentConflict, c).
Proof.
  intros Hr Hlead Hok2 Hid Hs.
  destruct (peek_cas_marshal_job _ Hok2) as (data2 & Hd2 & _).
  unfold CommitJob. rewrite Hd2. unfold ClientAppend.
  rewrite (guard_recorded n job job2 (mkRawAppendRequest EmptyString (NewJobID uuid) schedulerID
    data2)), decide_True by done.
  unfold commitPayload, std_response. cbn [fst AStatus LeaderAddress with_status].
  rewrite Hlead. cbn. by rewrite ?andb_false_r.
Qed.

(** C25: two schedulers do not commit the same state of a job. While the leader's log
    says last that a job is in some state, another [CommitJob] of a job with this
    id and this state, whatever else it says, whoever sends it and whatever the
    node does meanwhile, answers [ErrCASConcurrentConflict] and leaves the node as
    it is; a commit of another state passes the guard. *)
Theorem commit_claims_exclusive n job job2 dial before after uuid schedulerID c :
  recorded n job → role (state n) = Leader → job_ok (commit_object job2) →
  j_Id job2 = j_Id job →
  if decide (j_Status job2 = j_Status job)
  then CommitJob dial (λ req, (ClientAppend before after req n).1) uuid schedulerID job2 c
         = (CASConcurrentConflict, c) ∧
       ∀ req, marshal_job (commit_object job2) = Some (raw_Payload req) →
         (ClientAppend before after req n).2 = n
  else ∀ req, marshal_job (commit_object job2) = Some (raw_Payload req) →
         clientAppend_guard req n = None.
Proof.
  intros Hr Hlead Hok2 Hid. pose proof (guard_recorded n job job2) as Hg.
  destruct (decide (j_Status job2 = j_Status job)) as [Hs|Hs]; [|by intros; apply Hg].
  split; [by eapply CommitJob_conflict|].
  intros req Hreq. unfold ClientAppend. by rewrite Hg.
Qed.

(** A job whose claim the log still holds cannot be assigned again, not even by
    the scheduler that made the claim. A scheduler that has put such a job back
    into its queue, because its cluster was lost ([reallocateDeadClusterJobs]
    commits nothing) or because its rollback was not committed, assigns it, commits
    the same state as before, is told that somebody else claimed the job, and puts
    it back; the log is as it was, so every later attempt ends the same way. *)
Theorem recorded_claim_blocks_job n job s p cl s' sc w dial before after uuid c :
  recorded n job → role (state n) = Leader → j_Status job = Running →
  jobs s !! j_Id job = Some p → (p < length (jobHeap s))%nat →
  j_Id (deref (jobHeap s) p) = j_Id job →
  AssignJob (j_Id job) cl s = Ok s' →
  let j := deref (jobHeap (w_after_assign w s')) p in
  j = deref (jobHeap s') p → job_ok (commit_object j) →
  w_commit w = (CommitJob dial (λ req, (ClientAppend before after req n).1) uuid (id s) j c).1 →
  attemptJobAssignment sc w cl p s = (Ok false, UnassignJob (j_Id job) (w_after_assign w s')).
Proof.
  intros Hr Hlead Hrun Hjob Hp Hid Hassign j Hj Hok Hcommit.
  assert (j_Id j = j_Id job ∧ j_Status j = Running) as [Hjid Hjs].
  { unfold AssignJob in Hassign. rewrite Hjob in Hassign. simplify_eq/=.
    destruct (lookup_lt_is_Some_2 _ _ Hp) as [j0 Hj0]. pose proof Hid as Hi. revert Hi.
    rewrite Hj. unfold deref. simpl. rewrite !list_lookup_alter_eq, Hj0. simpl.
    intros Hi. split; [by destruct j0 | by destruct j0]. }
  rewrite (CommitJob_conflict _ job) in Hcommit by congruence || done.
  unfold attemptJobAssignment. by rewrite Hid, Hassign, Hcommit.
Qed.

(** ** Scheduler events *)

(** The same guard on events: of several schedulers that report the failure of one
    scheduler within five seconds, one is heard. *)
Lemma events_exclusive n origin origin2 sid ev t t2 e dial before after uuid c :
  scheduler_ok (event_object origin sid ev t) → scheduler_ok (event_object origin2 sid ev t2) →
  sid ≠ EmptyString →
  ev = SchedulerEvent_String HeartbeatFailed ∨ ev = SchedulerEvent_String RedistributedJobs →
  role (state n) = Leader → newest_in (FileHandler n) sid e →
  Payload e = marshal_scheduler (event_object origin sid ev t) → - 5000 < t2 - t < 5000 →
  CommitSchedulerEvent dial (λ req, (ClientAppend before after req n).1) uuid t2 origin2 sid ev c
    = (CommitFailed, c).
Proof.
  intros Hok Hok2 Hne Hev Hlead Hn He Ht.
  pose proof (peek_cas_marshal_scheduler _ Hok) as Hpk. rewrite <- He in Hpk.
  pose proof (peek_cas_marshal_scheduler _ Hok2) as Hpk2. cbn [event_object sp_ID sp_Entry sp_Timestamp] in *.
  assert (Hcas : checkCASConflict (marshal_scheduler (event_object origin2 sid ev t2))
    (FileHandler n) = casDuplicateSchedulerEvent).
  { unfold checkCASConflict. rewrite Hpk2. cbn [pk_ID].
    rewrite (bool_decide_eq_false_2 _ Hne), (query_newest _ _ _ Hn), Hpk.
    unfold cas_guards, claims. cbn [pk_State pk_Entry pk_Timestamp andb negb entry_text].
    rewrite string_of_bytes_of_string. rewrite wrap64_id by (unfold int64_ok; lia).
    rewrite (bool_decide_eq_true_2 (Some ev = Some ev)) by done.
    rewrite (proj2 (Z.ltb_lt _ (t2 - t))), (proj2 (Z.ltb_lt (t2 - t) _)) by lia.
    by destruct Hev as [-> | ->]. }
  unfold CommitSchedulerEvent, ClientAppend, clientAppend_guard. rewrite Hlead. cbn [raw_Payload].
  rewrite Hcas. unfold commitPayload, std_response. cbn. rewrite Hlead.
  change (bool_decide (Leader = Leader)) with true. cbn. by rewrite ?andb_false_r.
Qed.

(** ** Witnesses *)

(** "b" was committed as running on a cluster that has been lost since. *)
Definition claimed : Job :=
  mkJob "b" "echo" "c1" Running 2 64 9 (text "{ 'cmd': ['a<b', 1.50e+2] }") [].

Definition claimed_data : list byte := default [] (marshal_job (commit_object claimed)).

Definition claimed_entry : LogEntry := mkEntry 2 1 "s1" claimed_data.

Definition claimed_node : Node :=
  NewNode (RaftState.mkState "l" "addr" EmptyString Leader false 0 0 None None 1 EmptyString)
    (mkStore (mkFS ∅ []) (mkHandler None None 0 64 2 1 2 0
      [mkEntry 1 1 "s1" (text "{'id':'a','state':0}"); claimed_entry;
       mkEntry 3 1 "s2" (text "{'id':'a','state':1}")] (Some false))).

Lemma claimed_ok : job_ok (commit_object claimed).
Proof. repeat (split; [vm_compute; (reflexivity || done)|]). right. vm_compute. reflexivity. Qed.

Lemma claimed_newest : newest_in (FileHandler claimed_node) "b" claimed_entry.
Proof.
  split; [vm_compute; reflexivity|].
  exists [mkEntry 1 1 "s1" (text "{'id':'a','state':0}")],
    [mkEntry 3 1 "s2" (text "{'id':'a','state':1}")].
  split; [reflexivity|]. repeat constructor. vm_compute. congruence.
Qed.

Lemma claimed_recorded : recorded claimed_node claimed.
Proof.
  split; [exact claimed_ok|]. split; [done|]. split; [done|].
  exists claimed_entry. split; [exact claimed_newest | vm_compute; reflexivity].
Qed.

Lemma commit_fetch_roundtrip_witness :
  FetchJob (Some (GetData (mkGetDataRequest None (Some "b")) claimed_node)) =
  Some (mkJob "b" "echo" EmptyString Running 0 0 9 (text "{'cmd':['a\u003cb',1.50e+2]}") []).
Proof.
  transitivity (Some (fetched claimed)); [|vm_compute; reflexivity].
  apply (commit_fetch_roundtrip claimed claimed_node claimed_entry).
  - exact claimed_ok.
  - exact claimed_newest.
  - vm_compute. reflexivity.
Defined.

(** Another scheduler has the job too. *)
Definition rival : Job := mkJob "b" "echo:2" EmptyString Running 1 1 3 [] [].
Definition rival_client : RaftClient := mkRaftClient "x" ["x"] (Some ("x", true)) false.

Lemma commit_claims_exclusive_witness :
  CommitJob (λ _, true) (λ req, (ClientAppend (λ n, n) (λ n, n) req claimed_node).1) "u" "s2" rival rival_client
    = (CASConcurrentConflict, rival_client).
Proof.
  pose proof (commit_claims_exclusive claimed_node claimed rival (λ _, true) (λ n, n) (λ n, n)
    "u" "s2" rival_client claimed_recorded) as H.
  apply H; [reflexivity| |reflexivity].
  repeat (split; [vm_compute; (reflexivity || done)|]). left. reflexivity.
Defined.

(** "b" is back in the queue. *)
Definition requeued_state : State :=
  do_ops [OAppend (example_job "a" 1); OAppend (example_job "b" 9); ONext 4 128;
    OAssign "b" "c1"; OUnassign "b"; ONext 4 128] (NewState "s1" "50050").
Definition requeued_job : Job := mkJob "b" "echo" "c2" Running 2 64 9 [] [].

Definition requeued_world : World := {|
  w_commit := (CommitJob (λ _, true) (λ req, (ClientAppend (λ n, n) (λ n, n) req claimed_node).1) "u" "s1"
    requeued_job rival_client).1;
  w_after_assign := do_op (OComplete "a" [] true);
  w_dispatch := λ _, Some true;
  w_in_dispatch := λ s, s;
  w_after_dispatch := λ s, s;
  w_redistribute := λ _ _, None;
  w_in_redistribute := λ _ s, s
|}.

Definition requeued_assigned : State :=
  match AssignJob "b" "c2" requeued_state with Ok s => s | _ => requeued_state end.

Lemma requeued_job_ok : job_ok (commit_object requeued_job).
Proof. repeat (split; [vm_compute; (reflexivity || done)|]). left. reflexivity. Qed.

Lemma requeued_deref :
  deref (jobHeap (w_after_assign requeued_world requeued_assigned)) 1 = requeued_job.
Proof. vm_compute. reflexivity. Qed.

Lemma recorded_claim_blocks_job_witness :
  attemptJobAssignment worker_control requeued_world "c2" 1%nat requeued_state =
    (Ok false, UnassignJob "b" (w_after_assign requeued_world requeued_assigned)).
Proof.
  apply (recorded_claim_blocks_job claimed_node claimed requeued_state 1 "c2" requeued_assigned
    worker_control requeued_world (λ _, true) (λ n, n) (λ n, n) "u" rival_client claimed_recorded).
  - reflexivity.
  - reflexivity.
  - vm_compute. reflexivity.
  - apply Nat.ltb_lt. vm_compute. reflexivity.
  - vm_compute. reflexivity.
  - vm_compute. reflexivity.
  - vm_compute. reflexivity.
  - rewrite requeued_deref. exact requeued_job_ok.
  - rewrite requeued_deref. reflexivity.
Defined.
