(* ===== verification/JobDirs.v ===== *)
(** * Paths and the job directories

    [path/filepath] on slash-separated paths, and the operations of package [os]
    that containers use on the tree of job directories. Every operation consumes
    one decision of a list of faults; a failing one may have done a part of its
    work. *)

From Stdlib Require Import Strings.Byte Strings.String.
From S2P Require Import Prelude.
From S2P Require Import Bytes.

(** ** Paths *)

(** A clean path: whether it starts at the root, and its components. *)
Definition path : Type := bool * list string.

Fixpoint split_slash (s : string) : list string :=
  match s with
  | EmptyString => [EmptyString]
  | String c r =>
      if bool_decide (c = Ascii.ascii_of_byte x2f) then EmptyString :: split_slash r
      else match split_slash r with
           | w :: l => String c w :: l
           | [] => [String c EmptyString]
           end
  end.

(** One component of [filepath.Clean]; the components so far are reversed. *)
Definition clean_step (rooted : bool) (acc : list string) (c : string) : list string :=
  if bool_decide (c = EmptyString) || bool_decide (c = ".") then acc
  else if bool_decide (c = "..") then
    match acc with
    | [] => if rooted then [] else [c]
    | d :: acc' => if bool_decide (d = "..") then c :: acc else acc'
    end
  else c :: acc.

Definition clean_onto (rooted : bool) (base cs : list string) : list string :=
  reverse (foldl (clean_step rooted) (reverse base) cs).

(** [filepath.Clean]. *)
Definition Clean (s : string) : path :=
  let rooted := match s with String c _ => bool_decide (c = Ascii.ascii_of_byte x2f) | _ => false end in
  (rooted, clean_onto rooted [] (split_slash s)).

(** [filepath.Join] of strings: the empty ones are ignored. *)
Definition Join (elems : list string) : path :=
  Clean (String.concat "/" (filter (λ s, s ≠ EmptyString) elems)).

(** [filepath.Join(p, name)] on a path that [Join] has made. *)
Definition sub (p : path) (name : string) : path :=
  (p.1, clean_onto p.1 p.2 (split_slash name)).

(** [filepath.Ext]: what follows the last dot, the dot included, unless a slash
    comes after it. *)
Fixpoint Ext_from (s acc : string) : string :=
  match s with
  | EmptyString => acc
  | String c r =>
      if bool_decide (c = Ascii.ascii_of_byte x2f) then Ext_from r EmptyString
      else if bool_decide (c = Ascii.ascii_of_byte x2e) then Ext_from r s
      else Ext_from r acc
  end.
Definition Ext (s : string) : string := Ext_from s EmptyString.

(** ** The tree *)

Inductive node := Reg (content : list byte) | Dir.

(** What the next call does: succeed, or fail after a part of its work: [k]
    directories made, entries removed or bytes written. *)
Inductive fault := NoFault | FailAfter (k : nat).

Inductive OsError := ErrNotExist | ErrOS.

(** Absolute paths with what they name; the root is always a directory. *)
Record Disk := mkDisk {
  tree : gmap (list string) node;
  cwd : list string;
  dfaults : list fault
}.

Definition set_tree t (d : Disk) : Disk := mkDisk t (cwd d) (dfaults d).

(** A relative path starts at the working directory. *)
Definition resolve (d : Disk) (p : path) : list string :=
  if p.1 then p.2 else clean_onto true (cwd d) p.2.

(** [filepath.Abs]; the working directory is known. *)
Definition Abs (d : Disk) (p : path) : path := (true, resolve d p).

Definition lookup_node (t : gmap (list string) node) (k : list string) : option node :=
  match k with [] => Some Dir | _ => t !! k end.

Definition is_dir (t : gmap (list string) node) (k : list string) : bool :=
  match lookup_node t k with Some Dir => true | _ => false end.

Definition parent (k : list string) : list string := removelast k.

Abbreviation osio := (io OsError Disk).

(** How far the next call gets: [None] is to the end. *)
Definition next_fault : osio (option nat) := λ d,
  match dfaults d with
  | [] => (Ok None, d)
  | NoFault :: l => (Ok None, mkDisk (tree d) (cwd d) l)
  | FailAfter k :: l => (Ok (Some k), mkDisk (tree d) (cwd d) l)
  end.

(** The work of a call and whether it is complete. *)
Definition settle_fault (f : option nat) : osio unit :=
  match f with None => ret tt | Some _ => throw ErrOS end.

(** The directories on the way to [k], the topmost first. *)
Definition prefixes (k : list string) : list (list string) :=
  (λ n, take n k) <$> seq 1 (length k).

Definition make_dir (t : gmap (list string) node) (k : list string) : gmap (list string) node :=
  match lookup_node t k with None => <[k := Dir]> t | Some _ => t end.

Definition limit {A} (f : option nat) (l : list A) : list A :=
  match f with None => l | Some k => take k l end.

(** [os.MkdirAll]: fails where a file is in the way. *)
Definition os_MkdirAll (p : path) : osio unit :=
  f ← next_fault;
  d ← get;
  let k := resolve d p in
  if forallb (λ q, match lookup_node (tree d) q with Some (Reg _) => false | _ => true end)
       (prefixes k)
  then modify (set_tree (foldl make_dir (tree d) (limit f (prefixes k)))) ;; settle_fault f
  else throw ErrOS.

(** The name of [q] in the directory [k]. *)
Definition child (k q : list string) : option string :=
  match q with
  | [] => None
  | _ => if bool_decide (parent q = k) then last q else None
  end.

Definition name_lt (a b : string * node) : bool :=
  match String.compare a.1 b.1 with Lt => true | _ => false end.

Definition children (t : gmap (list string) node) (k : list string) : list (string * node) :=
  stable_sort name_lt
    (omap (λ '(q, n), name ← child k q; Some (name, n)) (map_to_list t)).

(** [os.ReadDir]: the entries in the order of their names. *)
Definition os_ReadDir (p : path) : osio (list (string * node)) :=
  f ← next_fault;
  settle_fault f ;;
  d ← get;
  match lookup_node (tree d) (resolve d p) with
  | None => throw ErrNotExist
  | Some (Reg _) => throw ErrOS
  | Some Dir => ret (children (tree d) (resolve d p))
  end.

Definition below (k q : list string) : bool := bool_decide (take (length k) q = k).

(** [os.RemoveAll]: fine when there is nothing; the deepest entries go first. *)
Definition os_RemoveAll (p : path) : osio unit :=
  f ← next_fault;
  d ← get;
  let gone := stable_sort (λ a b, (length b <? length a)%nat)
                (filter (λ q, below (resolve d p) q = true) (map_to_list (tree d)).*1) in
  modify (set_tree (foldl (λ t q, delete q t) (tree d) (limit f gone))) ;;
  settle_fault f.

(** [os.WriteFile]: the file is truncated before it is written. *)
Definition os_WriteFile (p : path) (data : list byte) : osio unit :=
  f ← next_fault;
  d ← get;
  let k := resolve d p in
  if is_dir (tree d) k then throw ErrOS
  else if is_dir (tree d) (parent k) then
    match f with
    | Some O => ret tt
    | Some (S n) => modify (set_tree (<[k := Reg (take n data)]> (tree d)))
    | None => modify (set_tree (<[k := Reg data]> (tree d)))
    end ;; settle_fault f
  else throw ErrNotExist.

(** [os.Rename] of a regular file. *)
Definition os_Rename (p q : path) : osio unit :=
  f ← next_fault;
  settle_fault f ;;
  d ← get;
  match tree d !! resolve d p with
  | None => throw ErrNotExist
  | Some n =>
      if is_dir (tree d) (resolve d q) then throw ErrOS
      else if is_dir (tree d) (parent (resolve d q)) then
        modify (set_tree (<[resolve d q := n]> (delete (resolve d p) (tree d))))
      else throw ErrNotExist
  end.

(** [os.Remove] of a file or of an empty directory. *)
Definition os_Remove (p : path) : osio unit :=
  f ← next_fault;
  settle_fault f ;;
  d ← get;
  let gone := modify (set_tree (delete (resolve d p) (tree d))) in
  match tree d !! resolve d p with
  | None => throw ErrNotExist
  | Some (Reg _) => gone
  | Some Dir => match children (tree d) (resolve d p) with [] => gone | _ => throw ErrOS end
  end.

(** Reading a whole file with [os.Open] and [io.ReadAll]. *)
Definition os_ReadFile (p : path) : osio (list byte) :=
  f ← next_fault;
  settle_fault f ;;
  d ← get;
  match tree d !! resolve d p with
  | None => throw ErrNotExist
  | Some Dir => throw ErrOS
  | Some (Reg c) => ret c
  end.

(** ** Names *)

(** A name of one component: [Join] leaves it as it is. *)
Definition plain (s : string) : Prop :=
  split_slash s = [s] ∧ s ≠ EmptyString ∧ s ≠ "." ∧ s ≠ "..".

#[export] Instance plain_dec s : Decision (plain s).
Proof. unfold plain. apply _. Defined.

Lemma clean_plain rooted base s :
  plain s → clean_onto rooted base (split_slash s) = base ++ [s].
Proof.
  intros (-> & H1 & H2 & H3). unfold clean_onto. cbn [foldl]. unfold clean_step.
  rewrite !bool_decide_eq_false_2 by done. simpl. by rewrite reverse_cons, reverse_involutive.
Qed.

Lemma resolve_sub d p s : plain s → resolve d (sub p s) = resolve d p ++ [s].
Proof.
  intros Hs. unfold resolve, sub. cbn [fst snd]. rewrite clean_plain by done.
  destruct p.1; [done|]. destruct Hs as (_ & H1 & H2 & H3).
  unfold clean_onto. rewrite foldl_app. cbn [foldl]. unfold clean_step at 1.
  rewrite !bool_decide_eq_false_2 by done. simpl. by rewrite reverse_cons.
Qed.

Definition no_slash (s : string) : Prop := split_slash s = [s].

Lemma split_slash_app s t : no_slash s → no_slash t → no_slash (s +:+ t).
Proof.
  unfold no_slash. induction s as [|c s IH]; simpl; [done|]. intros Hs Ht.
  case_bool_decide; [done|]. destruct (split_slash s) as [|w l] eqn:E.
  - simplify_eq.
  - injection Hs as -> ->. rewrite (IH eq_refl Ht). done.
Qed.

(** ** Successful calls *)

Section success.
Context (d : Disk).

Lemma next_fault_tree f d' : next_fault d = (Ok f, d') → tree d' = tree d ∧ cwd d' = cwd d.
Proof. unfold next_fault. destruct (dfaults d) as [|[|k] l]; by intros [= <- <-]. Qed.

Lemma next_fault_eq : ∃ f d', next_fault d = (Ok f, d') ∧ tree d' = tree d ∧ cwd d' = cwd d.
Proof. unfold next_fault. destruct (dfaults d) as [|[|k] l]; eexists _, _; eauto. Qed.

Lemma resolve_cwd d' p : cwd d' = cwd d → resolve d' p = resolve d p.
Proof. intros H. unfold resolve. by rewrite H. Qed.
End success.

(** Opens the first step of a call. *)
Ltac os_start d :=
  let f := fresh "f" in let d1 := fresh "d" in
  let E := fresh "E" in let Ht := fresh "Ht" in let Hc := fresh "Hc" in
  destruct (next_fault_eq d) as (f & d1 & E & Ht & Hc);
  unfold mbind at 1, io_bind at 1; rewrite E; destruct f as [?|];
  unfold settle_fault, mbind, io_bind, ret, throw, get, modify.

Lemma os_ReadDir_Ok p d es d' :
  os_ReadDir p d = (Ok es, d') →
  tree d' = tree d ∧ cwd d' = cwd d ∧ es = children (tree d) (resolve d p).
Proof.
  unfold os_ReadDir. os_start d; [done|]. rewrite Ht, (resolve_cwd d) by done.
  destruct (lookup_node _ _) as [[]|]; [done| |done]. by intros [= <- <-].
Qed.

Lemma os_WriteFile_Ok p data d d' :
  os_WriteFile p data d = (Ok tt, d') →
  tree d' = <[resolve d p := Reg data]> (tree d) ∧ cwd d' = cwd d.
Proof.
  unfold os_WriteFile. os_start d; rewrite Ht, (resolve_cwd d) by done;
    (destruct (is_dir (tree d) (resolve d p)); [done|]);
    (destruct (is_dir (tree d) (parent (resolve d p))); [|done]).
  - by destruct n.
  - by intros [= <-].
Qed.

Lemma os_Rename_Ok p q d d' :
  os_Rename p q d = (Ok tt, d') →
  ∃ n, tree d !! resolve d p = Some n ∧ cwd d' = cwd d ∧
    tree d' = <[resolve d q := n]> (delete (resolve d p) (tree d)).
Proof.
  unfold os_Rename. os_start d; [done|]. rewrite !(resolve_cwd d d0), Ht by done.
  destruct (tree d !! _) as [n|]; [|done].
  destruct (is_dir _ (resolve d q)); [done|]. destruct (is_dir _ _); [|done].
  intros [= <-]. by exists n.
Qed.

Lemma foldl_delete_lookup {A} (l : list (list string)) : ∀ (t : gmap (list string) A) q,
  foldl (λ t q, delete q t) t l !! q = if decide (q ∈ l) then None else t !! q.
Proof.
  induction l as [|k l IH]; intros t q; cbn [foldl]; [by rewrite decide_False by apply not_elem_of_nil|].
  rewrite IH. destruct (decide (q ∈ l)) as [Hin|Hin].
  - rewrite decide_True by (by right). done.
  - destruct (decide (q = k)) as [->|Hne].
    + rewrite decide_True by left. apply lookup_delete_eq.
    + rewrite decide_False by (by intros [?|?]%elem_of_cons). by apply lookup_delete_ne.
Qed.

Lemma os_RemoveAll_Ok p d d' :
  os_RemoveAll p d = (Ok tt, d') →
  cwd d' = cwd d ∧ ∀ q, tree d' !! q = if below (resolve d p) q then None else tree d !! q.
Proof.
  unfold os_RemoveAll. os_start d; [done|]. intros [= <-]. simpl. split; [done|]. intros q.
  rewrite Ht, (resolve_cwd d) by done. rewrite foldl_delete_lookup.
  destruct (decide _) as [Hin|Hin]; rewrite stable_sort_perm in Hin.
  - apply list_elem_of_filter in Hin as [-> _]. done.
  - destruct (below (resolve d p) q) eqn:Eb; [|done].
    destruct (tree d !! q) eqn:Eq; [|done]. exfalso. apply Hin, list_elem_of_filter. split; [done|].
    apply list_elem_of_fmap. exists (q, n). split; [done|]. by apply elem_of_map_to_list.
Qed.

Lemma os_MkdirAll_cwd p d r d' : os_MkdirAll p d = (r, d') → cwd d' = cwd d.
Proof.
  unfold os_MkdirAll. os_start d; destruct (forallb _ _); by intros [= <- <-].
Qed.

(** What a directory lists. *)
Lemma child_snoc k x : child k (k ++ [x]) = Some x.
Proof.
  unfold child, parent. destruct (k ++ [x]) eqn:E; [by destruct k|]. rewrite <- E.
  rewrite removelast_last, bool_decide_eq_true_2 by done. by rewrite last_snoc.
Qed.

Lemma elem_of_children t k x n : t !! (k ++ [x]) = Some n → (x, n) ∈ children t k.
Proof.
  intros H. unfold children. rewrite stable_sort_perm. apply list_elem_of_omap.
  exists (k ++ [x], n). split; [by apply elem_of_map_to_list|]. by rewrite child_snoc.
Qed.

Lemma children_elem t k x n : (x, n) ∈ children t k → t !! (k ++ [x]) = Some n.
Proof.
  unfold children. rewrite stable_sort_perm. intros ([q n'] & Hq & Hc)%list_elem_of_omap.
  apply elem_of_map_to_list in Hq. destruct (child k q) as [y|] eqn:E; [|done].
  injection Hc as -> ->. unfold child in E. destruct q as [|a q]; [done|].
  case_bool_decide as Hp; [|done]. unfold parent in Hp.
  apply last_Some in E as [l' E]. rewrite E in Hp, Hq. rewrite removelast_last in Hp. by subst l'.
Qed.

Lemma below_self k : below k k = true.
Proof. unfold below. rewrite take_ge by lia. by apply bool_decide_eq_true_2. Qed.

(** ** Clean paths are plain *)

Lemma split_slash_pieces s : Forall no_slash (split_slash s).
Proof.
  induction s as [|c s IH]; cbn [split_slash]; [by constructor|].
  case_bool_decide as Hc; [by constructor|].
  destruct (split_slash s) as [|w l]; [constructor; [|done] | apply Forall_cons in IH as [Hw Hl];
    constructor; [|done]]; unfold no_slash; cbn [split_slash]; rewrite bool_decide_eq_false_2 by done.
  - done.
  - by rewrite Hw.
Qed.

Lemma clean_onto_plain base cs :
  Forall plain base → Forall no_slash cs → Forall plain (clean_onto true base cs).
Proof.
  unfold clean_onto. intros Hb Hc. apply Forall_reverse.
  assert (Forall plain (reverse base)) as Ha by by apply Forall_reverse.
  revert Ha. generalize (reverse base) as acc. induction Hc as [|c cs Hc _ IH]; intros acc Ha;
    cbn [foldl]; [done|]. apply IH. unfold clean_step.
  destruct (bool_decide (c = EmptyString) || bool_decide (c = ".")) eqn:E; [done|]. bool_to_prop.
  case_bool_decide as Hd.
  - destruct acc as [|x acc]; [done|]. apply Forall_cons in Ha as [Hx Ha].
    case_bool_decide as Hxd; [|done]. destruct Hx as (_ & _ & _ & Hx). done.
  - constructor; [|done]. by split_and!.
Qed.

Lemma no_slash_clean rooted base cs :
  Forall no_slash base → Forall no_slash cs → Forall no_slash (clean_onto rooted base cs).
Proof.
  unfold clean_onto. intros Hb Hc. apply Forall_reverse.
  assert (Forall no_slash (reverse base)) as Ha by by apply Forall_reverse.
  revert Ha. generalize (reverse base) as acc. induction Hc as [|c cs Hc _ IH]; intros acc Ha;
    cbn [foldl]; [done|]. apply IH. unfold clean_step.
  destruct (_ || _); [done|]. case_bool_decide.
  - destruct acc as [|x acc]; [destruct rooted; by repeat constructor|].
    case_bool_decide; [by constructor | by apply Forall_cons in Ha as [_ Ha]].
  - by constructor.
Qed.

(** The absolute path of a joined one. *)
Lemma resolve_Join_plain d elems :
  Forall plain (cwd d) → Forall plain (resolve d (Join elems)).
Proof.
  intros Hw. unfold resolve, Join, Clean. cbn [fst snd].
  destruct (match _ with EmptyString => _ | String c _ => _ end).
  - apply clean_onto_plain; [done | apply split_slash_pieces].
  - apply clean_onto_plain; [done|]. apply no_slash_clean; [done | apply split_slash_pieces].
Qed.

(** The components of every path of the tree are plain. *)
Definition tree_ok (t : gmap (list string) node) : Prop :=
  ∀ k x n, t !! (k ++ [x]) = Some n → plain x.

Lemma tree_ok_make_dirs l t :
  Forall (Forall plain) l → tree_ok t → tree_ok (foldl make_dir t l).
Proof.
  intros Hl. revert t. induction Hl as [|q l Hq _ IH]; intros t Ht; cbn [foldl]; [done|].
  apply IH. unfold make_dir. destruct (lookup_node t q); [done|].
  intros k x n [[-> _]|[_ Hx]]%lookup_insert_Some; [|by eapply Ht].
  apply Forall_app in Hq as [_ Hx]. by apply Forall_cons in Hx as [Hx _].
Qed.

Lemma os_MkdirAll_ok p d r d' :
  os_MkdirAll p d = (r, d') → Forall plain (resolve d p) → tree_ok (tree d) →
  tree_ok (tree d') ∧ cwd d' = cwd d.
Proof.
  unfold os_MkdirAll. os_start d; rewrite Ht, (resolve_cwd d) by done;
    (destruct (forallb _ _); [|intros [= _ <-] _ Hok; by rewrite Ht]);
    (intros [= _ <-] Hp Hok; cbn [tree set_tree cwd]; split; [|done]);
    (apply tree_ok_make_dirs; [|done]); cbn [limit].
  - apply Forall_take, Forall_fmap, Forall_forall. intros i _. by apply Forall_take.
  - apply Forall_fmap, Forall_forall. intros i _. by apply Forall_take.
Qed.

Lemma make_dir_lookup t k q :
  lookup_node (make_dir t k) q =
    match lookup_node t q with Some n => Some n | None => if decide (q = k) then Some Dir else None end.
Proof.
  unfold make_dir. destruct (lookup_node t k) as [n|] eqn:Ek.
  - destruct (lookup_node t q) eqn:Eq; [done|]. case_decide as H; [congruence | done].
  - destruct q as [|x q]; [done|]. cbn [lookup_node].
    destruct (decide (x :: q = k)) as [<-|Hne].
    + rewrite lookup_insert_eq. cbn [lookup_node] in Ek. by rewrite Ek.
    + rewrite lookup_insert_ne by congruence. by destruct (t !! (x :: q)).
Qed.

Lemma make_dirs_lookup l : ∀ t q,
  lookup_node (foldl make_dir t l) q =
    match lookup_node t q with Some n => Some n | None => if decide (q ∈ l) then Some Dir else None end.
Proof.
  induction l as [|k l IH]; intros t q; cbn [foldl].
  { rewrite decide_False by apply not_elem_of_nil. by destruct (lookup_node t q). }
  rewrite IH, make_dir_lookup. destruct (lookup_node t q); [done|].
  destruct (decide (q = k)) as [->|Hne].
  - by rewrite decide_True by left.
  - destruct (decide (q ∈ l)); [by rewrite decide_True by by right|].
    rewrite decide_False; [done|]. by intros [?|?]%elem_of_cons.
Qed.

Lemma os_MkdirAll_dir p d d' :
  os_MkdirAll p d = (Ok tt, d') → lookup_node (tree d') (resolve d p) = Some Dir.
Proof.
  unfold os_MkdirAll. os_start d; (destruct (forallb _ _) eqn:Ef; [|done]); [done|].
  intros [= <-]. cbn [tree set_tree limit]. rewrite Ht, (resolve_cwd d) in * by done.
  rewrite make_dirs_lookup. set (k := resolve d p) in *.
  destruct k as [|x k'] eqn:Ek; [done|]. rewrite <- Ek in *.
  assert (k ∈ prefixes k) as Hin.
  { apply list_elem_of_fmap. exists (length k). split; [by rewrite take_ge|].
    apply list_elem_of_In, in_seq. rewrite Ek. simpl. lia. }
  rewrite decide_True by done. rewrite forallb_forall in Ef.
  specialize (Ef k (proj1 (list_elem_of_In _ _) Hin)).
  by destruct (lookup_node (tree d) k) as [[]|].
Qed.

(** ** No call panics *)

#[export] Instance no_panic_next_fault : NoPanic next_fault.
Proof. intros d. unfold next_fault. by destruct (dfaults d) as [|[]]. Qed.
#[export] Instance no_panic_settle f : NoPanic (settle_fault f).
Proof. by destruct f. Qed.
#[export] Instance no_panic_MkdirAll p : NoPanic (os_MkdirAll p).
Proof. unfold os_MkdirAll. no_panic_by fail. Qed.
#[export] Instance no_panic_ReadDir p : NoPanic (os_ReadDir p).
Proof. unfold os_ReadDir. no_panic_by fail. Qed.
#[export] Instance no_panic_RemoveAll p : NoPanic (os_RemoveAll p).
Proof. unfold os_RemoveAll. no_panic_by fail. Qed.
#[export] Instance no_panic_WriteFile p data : NoPanic (os_WriteFile p data).
Proof. unfold os_WriteFile. no_panic_by fail. Qed.
#[export] Instance no_panic_Rename p q : NoPanic (os_Rename p q).
Proof. unfold os_Rename. no_panic_by fail. Qed.
#[export] Instance no_panic_Remove p : NoPanic (os_Remove p).
Proof. unfold os_Remove. no_panic_by fail. Qed.
