(* ===== verification/Environment.v ===== *)
(** * Loading of the environment

    [internal/environment/env_loader.go]: JSON files, and directories of them, as
    the values the binaries start from. *)

From Stdlib Require Import Strings.Byte Strings.String.
From S2P Require Import Prelude.
From S2P Require Import Bytes.
From S2P Require Import Json.
From S2P Require Import JobDirs.

(** ** JSON values into Go fields

    What [json.Unmarshal] stores in a [bool], a slice, a map of strings and a
    struct. The elements of an array go into the elements the slice has already
    (a key may come twice), and into zero values after them. *)

Definition into_bool (old : bool) (v : json) : option bool :=
  match v with JNull => Some old | JBool b => Some b | _ => None end.

Fixpoint into_elems {A} (into : A → json → option A) (zero : A) (old : list A) (vs : list json)
    : option (list A) :=
  match vs with
  | [] => Some []
  | v :: vs =>
      x ← into (match old with a :: _ => a | [] => zero end) v;
      l ← into_elems into zero (tail old) vs;
      Some (x :: l)
  end.

Definition into_slice {A} (into : A → json → option A) (zero : A) (old : list A) (v : json)
    : option (list A) :=
  match v with
  | JNull => Some []
  | JArray vs => into_elems into zero old vs
  | _ => None
  end.

Definition into_string_map (old : gmap string string) (v : json) : option (gmap string string) :=
  match v with
  | JNull => Some ∅
  | JObject ms =>
      foldl (λ acc m, a ← acc; x ← into_string EmptyString m.2;
                      Some (<[string_of_list_byte m.1.1 := x]> a)) (Some old) ms
  | _ => None
  end.

Definition into_struct {A} (member : A → list byte → list byte → json → option A) (old : A)
    (v : json) : option A :=
  match v with
  | JNull => Some old
  | JObject ms => foldl (λ acc m, a ← acc; member a m.1.1 m.1.2 m.2) (Some old) ms
  | _ => None
  end.

(** ** Paths as strings *)

(** The text of a clean path. *)
Definition path_string (p : path) : string :=
  if p.1 then "/" +:+ String.concat "/" p.2
  else match p.2 with [] => "." | cs => String.concat "/" cs end.

(** [strings.Contains]. *)
Fixpoint Contains (s substr : string) : bool :=
  String.prefix substr s || match s with EmptyString => false | String _ r => Contains r substr end.

Definition ends_with_slash (s : string) : bool :=
  match last (list_byte_of_string s) with Some x2f => true | _ => false end.

(** [os.Lstat]: the empty name is no file, and a name that ends with a slash no
    regular one. *)
Definition os_Lstat (s : string) : osio node :=
  f ← next_fault;
  settle_fault f ;;
  d ← get;
  if bool_decide (s = EmptyString) then throw ErrNotExist
  else match lookup_node (tree d) (resolve d (Clean s)) with
       | None => throw ErrNotExist
       | Some (Reg c) => if ends_with_slash s then throw ErrOS else ret (Reg c)
       | Some Dir => ret Dir
       end.

(** ** The loader *)

Inductive EnvError :=
| ErrReadDirectory (path : string) (e : OsError)
| ErrReadFile (path : string) (e : OsError)
| ErrParse (path : string).

Abbreviation envio := (io EnvError Disk).

Definition map_err {E1 E2 S A} (g : E1 → E2) (m : io E1 S A) : io E2 S A := λ s,
  match m s with
  | (Ok a, s') => (Ok a, s')
  | (Err e, s') => (Err (g e), s')
  | (Panic, s') => (Panic, s')
  end.

Fixpoint walk_all (f : string → node → osio (list path)) (l : list (string * node))
    : osio (list path) :=
  match l with
  | [] => ret []
  | (x, n) :: l => a ← f x n; b ← walk_all f l; ret (a ++ b)
  end.

(** The files [filepath.WalkDir] comes to below [p], in its order. *)
Fixpoint walk (fuel : nat) (p : path) (n : node) : osio (list path) :=
  match n with
  | Reg _ => ret [p]
  | Dir =>
      match fuel with
      | O => panic
      | S fuel => dirs ← os_ReadDir p; walk_all (λ name, walk fuel (sub p name)) dirs
      end
  end.

(** src/internal/environment/env_loader.go:64-84 (GetAllFiles)

    The root is reported as it was given. A directory is one level deeper than
    its parent, so that the number of nodes bounds the depth. *)
Definition GetAllFiles (rootDir : string) : osio (list string) :=
  n ← os_Lstat rootDir;
  match n with
  | Reg _ => ret [rootDir]
  | Dir =>
      d ← get;
      files ← walk (S (size (tree d))) (Clean rootDir) Dir;
      ret (path_string <$> files)
  end.

Section loader.
Context {T : Type} (Unmarshal : list byte → option T).

(** src/internal/environment/env_loader.go:50-61 (ImportFile) *)
Definition ImportFile (path : string) : envio T :=
  fileBytes ← map_err (ErrReadFile path) (os_ReadFile (Clean path));
  match Unmarshal fileBytes with
  | Some t => ret t
  | None => throw (ErrParse path)
  end.

(** src/internal/environment/env_loader.go:20-46 (ImportDirectory, the loop) *)
Fixpoint import_files (exclude files : list string) : envio (list T) :=
  match files with
  | [] => ret []
  | file :: files =>
      if negb (bool_decide (Ext file = ".json")) then import_files exclude files
      else if existsb (Contains file) exclude then import_files exclude files
      else data ← ImportFile file; dataList ← import_files exclude files; ret (data :: dataList)
  end.

(** src/internal/environment/env_loader.go:13-47 (ImportDirectory) *)
Definition ImportDirectory (path : string) (exclude : list string) : envio (list T) :=
  files ← map_err (ErrReadDirectory path) (GetAllFiles path);
  import_files exclude files.
End loader.
