(* ===== verification/Paths.v ===== *)
(** * Paths and their texts

    [Clean] takes the text of a clean path back to the path; what [Join] and the
    plain concatenation of a directory and a name denote. *)

From Stdlib Require Import Strings.Byte Strings.String.
From S2P Require Import Prelude.
From S2P Require Import Bytes.
From S2P Require Import JobDirs.
From S2P Require Import Environment.

(** ** Strings *)

Lemma append_nil_r s : s +:+ EmptyString = s.
Proof. induction s as [|a s IH]; [done|]. change (String a (s +:+ EmptyString) = String a s). by rewrite IH. Qed.

Lemma append_assoc s t u : (s +:+ t) +:+ u = s +:+ (t +:+ u).
Proof.
  induction s as [|a s IH]; [done|].
  change (String a ((s +:+ t) +:+ u) = String a (s +:+ (t +:+ u))). by rewrite IH.
Qed.

(** ** Paths and their texts *)

Lemma split_slash_cons c s :
  no_slash c → split_slash (c +:+ String (Ascii.ascii_of_byte x2f) s) = c :: split_slash s.
Proof.
  unfold no_slash. induction c as [|a c IH]; intros Hc.
  - done.
  - cbn [append split_slash] in *. case_bool_decide; [done|].
    destruct (split_slash c) as [|w l] eqn:E; [by destruct c; simpl in E; repeat case_match|].
    injection Hc as -> ->.
    change (String a c +:+ ?x) with (String a (c +:+ x)). cbn [split_slash].
    by rewrite bool_decide_eq_false_2, IH.
Qed.

Lemma split_concat cs :
  cs ≠ [] → Forall no_slash cs → split_slash (String.concat "/" cs) = cs.
Proof.
  intros Hne Hcs. induction Hcs as [|c cs Hc Hcs IH]; [done|].
  destruct cs as [|c' cs]; [exact Hc|].
  change (String.concat "/" (c :: c' :: cs))
    with (c +:+ String (Ascii.ascii_of_byte x2f) (String.concat "/" (c' :: cs))).
  by rewrite split_slash_cons, IH.
Qed.

(** The reversed components of a clean path: [".."] only at its start. *)
Fixpoint tidy (rooted : bool) (acc : list string) : Prop :=
  match acc with
  | [] => True
  | c :: acc =>
      c ≠ EmptyString ∧ c ≠ "." ∧ no_slash c ∧
      (c = ".." → rooted = false ∧ match acc with [] => True | d :: _ => d = ".." end) ∧
      tidy rooted acc
  end.

Definition canonical (p : path) : Prop := tidy p.1 (reverse p.2).

Lemma tidy_step rooted acc c : tidy rooted acc → no_slash c → tidy rooted (clean_step rooted acc c).
Proof.
  intros Ha Hc. unfold clean_step.
  destruct (_ || _) eqn:E; [done|]. bool_to_prop.
  case_bool_decide as Hd; [|by split_and!].
  destruct acc as [|d acc].
  - destruct rooted; [done|]. by split_and!.
  - case_bool_decide as Hdd; [|apply Ha]. subst.
    split_and!; [done..| |done]. intros _. split; [|done].
    destruct Ha as (_ & _ & _ & Hr & _). by apply Hr.
Qed.

Lemma tidy_foldl rooted cs : ∀ acc,
  tidy rooted acc → Forall no_slash cs → tidy rooted (foldl (clean_step rooted) acc cs).
Proof.
  induction cs as [|c cs IH]; intros acc Ha Hcs; cbn [foldl]; [done|].
  apply Forall_cons in Hcs as [Hc Hcs]. apply IH; [by apply tidy_step | done].
Qed.

Lemma tidy_again rooted acc :
  tidy rooted acc → foldl (clean_step rooted) [] (reverse acc) = acc.
Proof.
  induction acc as [|c acc IH]; [done|]. intros (H1 & H2 & _ & H3 & H).
  rewrite reverse_cons, foldl_app, IH by done. cbn [foldl]. unfold clean_step.
  rewrite !bool_decide_eq_false_2 by done. cbn [orb].
  case_bool_decide as Hd; [|done]. destruct (H3 Hd) as [-> Hacc]. subst c.
  destruct acc as [|d acc]; [done|]. subst d. by rewrite bool_decide_eq_true_2.
Qed.

Lemma canonical_Clean s : canonical (Clean s).
Proof.
  unfold canonical, Clean, clean_onto. cbn [fst snd]. rewrite reverse_involutive.
  by apply tidy_foldl; [|apply split_slash_pieces].
Qed.

Lemma tidy_forall rooted acc : tidy rooted acc → Forall (λ c, c ≠ EmptyString ∧ no_slash c) acc.
Proof. induction acc as [|c acc IH]; [by constructor|]. intros (? & _ & ? & _ & ?). by auto. Qed.

Lemma canonical_app p r : canonical p → Forall plain r → canonical (p.1, p.2 ++ r).
Proof.
  unfold canonical. cbn [fst snd]. intros Hp Hr. rewrite reverse_app.
  apply Forall_reverse in Hr. induction Hr as [|c l (Hc & H1 & H2 & H3) Hl IH]; [done|].
  by split_and!.
Qed.

Lemma Clean_path_string p : canonical p → Clean (path_string p) = p.
Proof.
  destruct p as [b cs]. unfold canonical, path_string. cbn [fst snd]. intros Ht.
  pose proof (tidy_again _ _ Ht) as Ha. rewrite reverse_involutive in Ha.
  pose proof (tidy_forall _ _ Ht) as Hne. apply Forall_reverse in Hne.
  rewrite reverse_involutive in Hne.
  assert (Forall no_slash cs) as Hn by (eapply Forall_impl; [exact Hne | by intros ? []]).
  assert (Hcl : clean_onto b [] cs = cs).
  { unfold clean_onto. change (reverse []) with (@nil string). by rewrite Ha, reverse_involutive. }
  destruct b.
  - change ("/" +:+ ?x) with (String (Ascii.ascii_of_byte x2f) x).
    unfold Clean. cbn [split_slash]. rewrite bool_decide_eq_true_2 by done. f_equal.
    destruct cs as [|c cs]; [done|]. by rewrite split_concat.
  - destruct cs as [|c cs]; [done|]. apply Forall_cons in Hne as [[Hc1 Hc2] _].
    destruct c as [|a c]; [done|].
    assert (∃ r, String.concat "/" (String a c :: cs) = String a r) as [r Hr]
      by (destruct cs; by eexists).
    unfold Clean. rewrite split_concat by done. rewrite Hr, bool_decide_eq_false_2, Hcl; [done|].
    intros ->. unfold no_slash in Hc2. cbn [split_slash] in Hc2.
    by rewrite bool_decide_eq_true_2 in Hc2.
Qed.

(** ** Joining *)

Abbreviation slash := (Ascii.ascii_of_byte x2f).

Lemma append_cons c s t : String c s +:+ t = String c (s +:+ t).
Proof. done. Qed.

Lemma split_slash_join s t :
  split_slash (s +:+ String slash t) = split_slash s ++ split_slash t.
Proof.
  induction s as [|c s IH]; [done|]. rewrite append_cons. cbn [split_slash].
  rewrite IH. case_bool_decide; [done|]. destruct (split_slash s) as [|w l] eqn:E; [|done].
  destruct s as [|c' s]; simpl in E; [done|]. case_bool_decide; [done|]. by destruct (split_slash s).
Qed.

(** A name glued to a text makes its last component longer. *)
Lemma split_slash_glue s f :
  no_slash f → ∃ l w, split_slash s = l ++ [w] ∧ split_slash (s +:+ f) = l ++ [w +:+ f].
Proof.
  intros Hf. induction s as [|c s (l & w & IH1 & IH2)]; [by exists [], EmptyString|].
  rewrite append_cons. cbn [split_slash]. rewrite IH1, IH2. case_bool_decide.
  - by exists (EmptyString :: l), w.
  - destruct l as [|x l]; [by exists [], (String c w) | by exists (String c x :: l), w].
Qed.

Lemma Join_two folder f :
  folder ≠ EmptyString → f ≠ EmptyString → Join [folder; f] = sub (Clean folder) f.
Proof.
  intros Hd Hf. unfold Join. rewrite !filter_cons_True by done. change (filter _ []) with (@nil string).
  change (String.concat "/" [folder; f]) with (folder +:+ String slash f).
  unfold Clean, sub. cbn [fst snd]. destruct folder as [|c folder]; [done|].
  rewrite split_slash_join, append_cons. f_equal. unfold clean_onto.
  change (reverse []) with (@nil string). by rewrite foldl_app, reverse_involutive.
Qed.

Lemma Clean_Join folder f :
  folder ≠ EmptyString → plain f → Clean (path_string (Join [folder; f])) = sub (Clean folder) f.
Proof.
  intros Hd Hf. rewrite Clean_path_string, Join_two; [done..|by apply Hf|apply canonical_Clean].
Qed.

(** ** More elements *)

Lemma concat_snoc cs x :
  cs ≠ [] → String.concat "/" (cs ++ [x]) = (String.concat "/" cs +:+ "/") +:+ x.
Proof.
  intros Hne. induction cs as [|c cs IH]; [done|]. destruct cs as [|c' cs].
  - change (c +:+ "/" +:+ x = (c +:+ "/") +:+ x). by rewrite append_assoc.
  - change (c +:+ "/" +:+ String.concat "/" ((c' :: cs) ++ [x]) =
            ((c +:+ "/" +:+ String.concat "/" (c' :: cs)) +:+ "/") +:+ x).
    rewrite IH by done. by rewrite !append_assoc.
Qed.

(** A last component that is a name stays as it is. *)
Lemma clean_onto_name rooted base l c :
  c ≠ EmptyString → c ≠ "." → c ≠ ".." →
  clean_onto rooted base (l ++ [c]) = clean_onto rooted base l ++ [c].
Proof.
  intros H1 H2 H3. unfold clean_onto. rewrite foldl_app. cbn [foldl]. unfold clean_step at 1.
  rewrite !bool_decide_eq_false_2 by done. cbn [orb]. by rewrite reverse_cons.
Qed.

(** Joined paths with a last element that is a name. *)
Lemma resolve_Join_snoc d l x :
  plain x → resolve d (Join (l ++ [x])) = resolve d (Join l) ++ [x].
Proof.
  intros Hx. pose proof Hx as (Hs & H1 & H2 & H3). unfold Join. rewrite filter_app.
  rewrite (filter_cons_True _ x) by done. rewrite filter_nil.
  set (L := filter _ l). destruct (decide (L = [])) as [->|Hne].
  { unfold resolve, Clean. cbn [app String.concat fst snd].
    assert (match x with String c _ => bool_decide (c = Ascii.ascii_of_byte x2f) | EmptyString => false end = false)
      as ->.
    { destruct x as [|c x]; [done|]. cbn [split_slash] in Hs. by case_bool_decide. }
    cbn [split_slash]. rewrite (clean_plain false []) by done. cbn [app].
    change [x] with ([] ++ [x]) at 1. by rewrite clean_onto_name. }
  rewrite concat_snoc, append_assoc by done. set (s := String.concat "/" L).
  assert (s ≠ EmptyString) as Hse.
  { unfold s. destruct L as [|a L'] eqn:EL; [done|].
    assert (a ≠ EmptyString) as Ha.
    { assert (a ∈ L) as Hin by (rewrite EL; by left). unfold L in Hin.
      by apply list_elem_of_filter in Hin as [? _]. }
    destruct a as [|c a]; [done|]. by destruct L'. }
  unfold resolve, Clean. change ("/" +:+ x) with (String (Ascii.ascii_of_byte x2f) x).
  rewrite split_slash_join, Hs. destruct s as [|c s']; [done|].
  change (String c s' +:+ ?u) with (String c (s' +:+ u)). cbn [fst snd].
  destruct (bool_decide (c = _)); by rewrite !clean_onto_name by done.
Qed.
