(* ===== verification/FileHandler.v ===== *)
(** * Files

    [internal/filehandler]: [File] with its lines and its JSON, and clusters of
    files. Every method holds the lock of its file from the first line to the
    last, so that it is one step. Permissions are kept but not enforced. *)

From Stdlib Require Import Strings.Byte Strings.String.
From S2P Require Import Prelude.
From S2P Require Import Bytes.
From S2P Require Import JobDirs.
From S2P Require Import Environment.

(** ** Calls of package [os] on names *)

(** The empty name names no file. *)
Definition with_name {A} (s : string) (m : path → osio A) : osio A :=
  if bool_decide (s = EmptyString) then throw ErrNotExist else m (Clean s).

(** [os.OpenFile] for writing: the place of the file. *)
Definition os_OpenFile (s : string) (create trunc : bool) : osio (list string) :=
  with_name s (λ p,
    f ← next_fault;
    settle_fault f ;;
    d ← get;
    let k := resolve d p in
    if ends_with_slash s then throw ErrOS else
    match lookup_node (tree d) k with
    | Some Dir => throw ErrOS
    | Some (Reg _) =>
        if trunc then modify (set_tree (<[k := Reg []]> (tree d))) ;; ret k else ret k
    | None =>
        if create && is_dir (tree d) (parent k)
        then modify (set_tree (<[k := Reg []]> (tree d))) ;; ret k
        else throw ErrNotExist
    end).

(** A write at the end of an open file; a failing one leaves a prefix. Writes
    to a file that has been removed are lost with it. *)
Definition os_append (k : list string) (data : list byte) : osio unit :=
  f ← next_fault;
  d ← get;
  match tree d !! k with
  | Some (Reg c) => modify (set_tree (<[k := Reg (c ++ limit f data)]> (tree d)))
  | _ => ret tt
  end ;;
  settle_fault f.

(** ** Files *)

Inductive FileError := ErrEmptyName | ErrFile (e : OsError) | ErrMarshal | ErrUnmarshal.

Abbreviation fileio := (io FileError Disk).

Definition file_err {A} (m : osio A) : fileio A := map_err ErrFile m.

(** src/internal/filehandler/file_handler.go:10-16 (File) *)
Record File := mkFile { Name : string; Permissions : Z }.

(** src/internal/filehandler/file_handler.go:19-46 (SetUpFile) *)
Definition SetUpFile (fileName : string) (permissions : Z) : fileio File :=
  if bool_decide (fileName = EmptyString) then throw ErrEmptyName else
  r ← try_ (file_err (os_Lstat fileName));
  match r with
  | inr (ErrFile ErrNotExist) => file_err (os_OpenFile fileName true false) ;; ret tt
  | inr err => throw err
  | inl _ => ret tt
  end ;;
  ret (mkFile fileName permissions).

(** src/internal/filehandler/file_handler.go:49-59 (File.ReadLines) *)
Definition ReadLines (f : File) : fileio (list byte) :=
  file_err (with_name (Name f) os_ReadFile).

Definition line_bytes (line : string) : list byte := list_byte_of_string line ++ [x0a].

Definition write_lines (k : list string) (lines : list string) : osio unit :=
  for_each (λ line, os_append k (line_bytes line)) lines.

(** src/internal/filehandler/file_handler.go:62-83 (File.WriteLines) *)
Definition WriteLines (f : File) (lines : list string) : fileio unit :=
  file_err (k ← os_OpenFile (Name f) false true; write_lines k lines).

(** src/internal/filehandler/file_handler.go:86-107 (File.AppendLines) *)
Definition AppendLines (f : File) (lines : list string) : fileio unit :=
  file_err (k ← os_OpenFile (Name f) false false; write_lines k lines).

(** src/internal/filehandler/file_handler.go:110-122 (File.Delete)

    The file as it is afterwards. *)
Definition Delete (f : File) : fileio File :=
  file_err (with_name (Name f) os_Remove) ;; ret (mkFile EmptyString 0).

Section json.
Context {T : Type} (Marshal : T → option (list byte)) (Unmarshal : list byte → T → option T).

(** src/internal/filehandler/json_handler.go:10-24 (File.ReadJSON)

    [format] points to the value [old]; the result is what it holds then. *)
Definition ReadJSON (f : File) (old : T) : fileio T :=
  data ← file_err (with_name (Name f) os_ReadFile);
  match Unmarshal data old with Some t => ret t | None => throw ErrUnmarshal end.

(** src/internal/filehandler/json_handler.go:27-51 (File.WriteJSON) *)
Definition WriteJSON (f : File) (format : T) : fileio unit :=
  match Marshal format with
  | None => throw ErrMarshal
  | Some data => file_err (k ← os_OpenFile (Name f) false true; os_append k data)
  end.
End json.

(** ** Clusters of files

    A map to pointers; [deref] reads the current heap. *)
Section cluster.
Context {P : Type} (deref : P → File).

(** src/internal/filehandler/files_manager.go:8-15 (FileCluster.ContainsFile) *)
Definition ContainsFile (fileName : string) (files : gmap string P) : bool :=
  if bool_decide (fileName = EmptyString) then false else bool_decide (is_Some (files !! fileName)).

(** src/internal/filehandler/files_manager.go:17-22 (FileCluster.GetFile) *)
Definition GetFile (fileName : string) (files : gmap string P) : option P :=
  if ContainsFile fileName files then files !! fileName else None.

(** src/internal/filehandler/files_manager.go:24-28 (FileCluster.AddFile) *)
Definition AddFile (file : P) (files : gmap string P) : gmap string P :=
  if ContainsFile (Name (deref file)) files then files else <[Name (deref file) := file]> files.

(** src/internal/filehandler/files_manager.go:30-34 (FileCluster.RemoveFile) *)
Definition RemoveFile (fileName : string) (files : gmap string P) : gmap string P :=
  if ContainsFile fileName files then delete fileName files else files.
End cluster.

(** ** A file without faults *)

(** [f] names a regular file that holds [c]. *)
Record holds (f : File) (d : Disk) (c : list byte) : Prop := {
  ho_calm : dfaults d = [];
  ho_named : Name f ≠ EmptyString;
  ho_regular : ends_with_slash (Name f) = false;
  ho_content : lookup_node (tree d) (resolve d (Clean (Name f))) = Some (Reg c)
}.

(** Nothing else changes. *)
Definition same_elsewhere (f : File) (d d' : Disk) : Prop :=
  cwd d' = cwd d ∧ ∀ q, q ≠ resolve d (Clean (Name f)) → tree d' !! q = tree d !! q.

#[export] Instance same_elsewhere_refl f : Reflexive (same_elsewhere f).
Proof. by intros d. Qed.
#[export] Instance same_elsewhere_trans f : Transitive (same_elsewhere f).
Proof.
  intros d1 d2 d3 [Hc H] [Hc' H']. split; [congruence|]. intros q Hq.
  rewrite H' by (by rewrite (resolve_cwd d1)). by apply H.
Qed.

Definition put (f : File) (c : list byte) (d : Disk) : Disk :=
  set_tree (<[resolve d (Clean (Name f)) := Reg c]> (tree d)) d.

Section holds.
Context (f : File) (d : Disk) (c : list byte) (H : holds f d c).

Lemma holds_lookup : tree d !! resolve d (Clean (Name f)) = Some (Reg c).
Proof using H. pose proof (ho_content _ _ _ H) as Hc. by destruct (resolve d _). Qed.

Lemma holds_put c' : holds f (put f c' d) c' ∧ same_elsewhere f d (put f c' d).
Proof using H.
  destruct H as [H1 H2 H3 H4]. unfold put. split; [split; try done|split; [done|]].
  - change (resolve (set_tree _ d) ?p) with (resolve d p). cbn [tree set_tree].
    destruct (resolve d _); [done|]. cbn [lookup_node]. by rewrite lookup_insert_eq.
  - intros q Hq. cbn [tree set_tree]. by rewrite lookup_insert_ne.
Qed.

Lemma os_OpenFile_holds create (trunc : bool) :
  os_OpenFile (Name f) create trunc d =
    (Ok (resolve d (Clean (Name f))), if trunc then put f [] d else d).
Proof using H.
  destruct H as [H1 H2 H3 H4]. unfold os_OpenFile, with_name. rewrite bool_decide_eq_false_2 by done.
  unfold next_fault, settle_fault, mbind, io_bind. rewrite H1. cbn.
  unfold get, modify, mbind, io_bind. rewrite H3, H4. by destruct trunc.
Qed.

Lemma os_append_holds data :
  os_append (resolve d (Clean (Name f))) data d = (Ok tt, put f (c ++ data) d).
Proof using H.
  pose proof holds_lookup as Hl. destruct H as [H1 H2 H3 H4].
  unfold os_append, next_fault, settle_fault, mbind, io_bind. rewrite H1. cbn.
  unfold get, modify, mbind, io_bind. by rewrite Hl.
Qed.

Lemma ReadLines_holds : ReadLines f d = (Ok c, d).
Proof using H.
  pose proof holds_lookup as Hl. destruct H as [H1 H2 H3 H4].
  unfold ReadLines, file_err, map_err, with_name. rewrite bool_decide_eq_false_2 by done.
  unfold os_ReadFile, next_fault, settle_fault, mbind, io_bind. rewrite H1. cbn.
  unfold get, mbind, io_bind. by rewrite Hl.
Qed.
End holds.

Lemma put_put f c c' d : put f c' (put f c d) = put f c' d.
Proof. unfold put, set_tree. cbn. by rewrite (resolve_cwd d), insert_insert_eq. Qed.

(** What a file of lines holds. *)
Definition text_of (lines : list string) : list byte := concat (line_bytes <$> lines).

Lemma write_lines_holds f ls : ∀ d c,
  holds f d c →
  write_lines (resolve d (Clean (Name f))) ls d =
    (Ok tt, match ls with [] => d | _ => put f (c ++ text_of ls) d end).
Proof.
  induction ls as [|l ls IH]; intros d c H; [done|]. unfold write_lines in *. cbn [for_each].
  rewrite (os_append_holds _ _ _ H). destruct (holds_put _ _ _ H (c ++ line_bytes l)) as [H' [Hc _]].
  rewrite <- (resolve_cwd d (put f (c ++ line_bytes l) d)) by done. rewrite (IH _ _ H').
  destruct ls as [|l' ls]; [unfold text_of; cbn [fmap list_fmap concat]; by rewrite app_nil_r|].
  rewrite put_put. unfold text_of. rewrite (fmap_cons _ l). cbn [concat]. by rewrite app_assoc.
Qed.

(** ** Files as lists of lines *)

Inductive file_op := OpWrite (lines : list string) | OpAppend (lines : list string).

(** What a method promises: the file is a list of lines. *)
Definition op_spec (op : file_op) (lines : list string) : list string :=
  match op with OpWrite ls => ls | OpAppend ls => lines ++ ls end.
Definition op_run (f : File) (op : file_op) : fileio unit :=
  match op with OpWrite ls => WriteLines f ls | OpAppend ls => AppendLines f ls end.

Lemma text_of_app ls ls' : text_of (ls ++ ls') = text_of ls ++ text_of ls'.
Proof. unfold text_of. by rewrite fmap_app, concat_app. Qed.

Lemma op_run_holds f op d ls :
  holds f d (text_of ls) →
  ∃ d', op_run f op d = (Ok tt, d') ∧ holds f d' (text_of (op_spec op ls)) ∧ same_elsewhere f d d'.
Proof.
  intros H. destruct op as [new|new]; cbn [op_run op_spec].
  - destruct (holds_put _ _ _ H []) as [H0 S0]. exists (put f (text_of new) d).
    destruct (holds_put _ _ _ H (text_of new)) as [H1 S1]. split_and!; [|done..].
    unfold WriteLines, file_err, map_err. rewrite (io_bind_Ok _ _ _ _ _ (os_OpenFile_holds _ _ _ H false true)).
    rewrite <- (resolve_cwd d (put f [] d)) by done. rewrite (write_lines_holds _ _ _ _ H0).
    destruct new; [done|]. by rewrite put_put.
  - exists (match new with [] => d | _ => put f (text_of ls ++ text_of new) d end).
    unfold AppendLines, file_err, map_err.
    rewrite (io_bind_Ok _ _ _ _ _ (os_OpenFile_holds _ _ _ H false false)).
    rewrite (write_lines_holds _ _ _ _ H), text_of_app. split; [done|].
    destruct new; [|by apply holds_put with (text_of ls)].
    split; [|done]. change (text_of []) with (@nil byte). by rewrite app_nil_r.
Qed.

(** A [File] is a list of lines: any sequence of [WriteLines] and
    [AppendLines] on a file without faults succeeds, [ReadLines] then returns
    the lines that the sequence leaves, each with its newline, and no other file
    has changed. *)
Theorem File_lines f d ls ops :
  holds f d (text_of ls) →
  ∃ d', for_each (op_run f) ops d = (Ok tt, d') ∧
    ReadLines f d' = (Ok (text_of (foldl (λ l op, op_spec op l) ls ops)), d') ∧
    same_elsewhere f d d'.
Proof.
  revert d ls. induction ops as [|op ops IH]; intros d ls H; cbn [for_each foldl].
  - exists d. split_and!; [done | by apply ReadLines_holds | done].
  - destruct (op_run_holds f op d ls H) as (d1 & -> & H1 & S1).
    destruct (IH d1 _ H1) as (d' & -> & Hr & S2). exists d'. split_and!; [done..|]. by etrans.
Qed.

(** A new file is empty, an old one keeps what it holds. *)
Lemma SetUpFile_holds name permissions d :
  dfaults d = [] → name ≠ EmptyString → ends_with_slash name = false →
  is_dir (tree d) (parent (resolve d (Clean name))) = true →
  is_dir (tree d) (resolve d (Clean name)) = false →
  ∃ d' c, SetUpFile name permissions d = (Ok (mkFile name permissions), d') ∧
    holds (mkFile name permissions) d' c ∧ same_elsewhere (mkFile name permissions) d d' ∧
    (tree d !! resolve d (Clean name) = Some (Reg c) ∨
     tree d !! resolve d (Clean name) = None ∧ c = []).
Proof.
  intros Hf Hn Hs Hp Hk. set (f := mkFile name permissions). unfold SetUpFile.
  rewrite bool_decide_eq_false_2 by done.
  assert (Hstat : os_Lstat name d =
    (match lookup_node (tree d) (resolve d (Clean name)) with
     | None => Err ErrNotExist | Some n => Ok n end, d)).
  { unfold os_Lstat, next_fault, settle_fault, mbind, io_bind. rewrite Hf. cbn.
    unfold get, mbind, io_bind. rewrite bool_decide_eq_false_2, Hs by done.
    by destruct (lookup_node _ _) as [[]|]. }
  unfold is_dir in Hk. destruct (lookup_node (tree d) (resolve d (Clean name))) as [[c|]|] eqn:E.
  - exists d, c. split_and!; [| by split | done |].
    + unfold file_err, try_, map_err, mbind, io_bind. by rewrite Hstat.
    + left. by destruct (resolve d _).
  - done.
  - exists (put f [] d), []. assert (holds f (put f [] d) []) as H.
    { unfold put. split; [done..|]. change (resolve (set_tree _ d) ?p) with (resolve d p).
      change (Name f) with name. cbn [tree set_tree]. destruct (resolve d (Clean name)); [done|].
      cbn [lookup_node]. by rewrite lookup_insert_eq. }
    split_and!; [|done| |].
    + unfold file_err, try_, map_err, mbind, io_bind. rewrite Hstat.
      unfold os_OpenFile, with_name. rewrite bool_decide_eq_false_2 by done.
      unfold next_fault, settle_fault, mbind, io_bind. rewrite Hf. cbn.
      unfold get, modify, mbind, io_bind. by rewrite Hs, E, Hp.
    + split; [done|]. intros q Hq. unfold put. cbn [tree set_tree]. by rewrite lookup_insert_ne.
    + right. by destruct (resolve d _).
Qed.

(** What was written as JSON is read back. *)
Lemma JSON_roundtrip {T} (Marshal : T → option (list byte)) Unmarshal f d c v old data :
  holds f d c → Marshal v = Some data → Unmarshal data old = Some v →
  ∃ d', WriteJSON Marshal f v d = (Ok tt, d') ∧ ReadJSON Unmarshal f old d' = (Ok v, d') ∧
    same_elsewhere f d d'.
Proof.
  intros H Hm Hu. destruct (holds_put _ _ _ H []) as [H0 S0].
  destruct (holds_put _ _ _ H data) as [H1 S1]. exists (put f data d). split_and!; [| |done].
  - unfold WriteJSON, file_err, map_err. rewrite Hm.
    rewrite (io_bind_Ok _ _ _ _ _ (os_OpenFile_holds _ _ _ H false true)).
    rewrite <- (resolve_cwd d (put f [] d)) by done. by rewrite (os_append_holds _ _ _ H0), put_put.
  - unfold ReadJSON. pose proof (ReadLines_holds _ _ _ H1) as Hr. unfold ReadLines in Hr.
    rewrite (io_bind_Ok _ _ _ _ _ Hr). by rewrite Hu.
Qed.

(** A deleted file has no name any more, and every method fails on it. *)
Lemma Delete_final f f' d d' :
  Delete f d = (Ok f', d') →
  (ReadLines f' d').1 = Err (ErrFile ErrNotExist) ∧
  (∀ op, (op_run f' op d').1 = Err (ErrFile ErrNotExist)) ∧
  (Delete f' d').1 = Err (ErrFile ErrNotExist).
Proof.
  unfold Delete, mbind, io_bind. destruct (file_err _ d) as [[]]; [|done..].
  intros [= <- <-]. split_and!; [done | by intros [] | done].
Qed.

(** A cluster finds a file under the name it had when it was added, and never
    replaces one. *)
Lemma AddFile_GetFile {P} (deref : P → File) file files :
  Name (deref file) ≠ EmptyString →
  GetFile (Name (deref file)) (AddFile deref file files) =
    match files !! Name (deref file) with Some old => Some old | None => Some file end.
Proof.
  intros Hn. unfold AddFile, GetFile, ContainsFile. rewrite bool_decide_eq_false_2 by done.
  destruct (files !! Name (deref file)) as [old|] eqn:E.
  - rewrite (bool_decide_eq_true_2 (is_Some (Some old))) by by eexists.
    by rewrite E, bool_decide_eq_true_2 by by eexists.
  - rewrite (bool_decide_eq_false_2 (is_Some None)) by by intros [].
    by rewrite lookup_insert_eq, bool_decide_eq_true_2 by by eexists.
Qed.

(** ** Witness *)

Definition notes : File := mkFile "notes.txt" 420.
Definition notes_disk : Disk := mkDisk (list_to_map [(["notes.txt"], Reg [])]) [] [].

Lemma File_lines_witness :
  ∃ d', for_each (op_run notes) [OpWrite ["a"]; OpAppend ["b"; "c"]] notes_disk = (Ok tt, d') ∧
    ReadLines notes d' = (Ok (text_of ["a"; "b"; "c"]), d').
Proof.
  destruct (File_lines notes notes_disk [] [OpWrite ["a"]; OpAppend ["b"; "c"]])
    as (d' & Hr & Hl & _).
  - by split.
  - exists d'. split; [exact Hr | exact Hl].
Defined.
