(* ===== verification/LogWriter.v ===== *)
(** * The log writer

    [internal/filehandler/logger.go] and the stream of a container's log
    ([streamContainerLogs] in [internal/cluster/container/monitor.go]): many
    goroutines add entries to a queue, one goroutine writes them to their files.
    The parts between two accesses to shared state are steps of their own. *)

From Stdlib Require Import Strings.Byte Strings.String.
From S2P Require Import Prelude.
From S2P Require Import Bytes.
From S2P Require Import JobDirs.
From S2P Require Import Environment.
From S2P Require Import FileHandler.

(** ** State *)

(** src/internal/filehandler/logger.go:21-24 (Log) *)
Record Log := mkLog { FileName : string; Entries : list string }.

(** An open file, always in append mode; [files] holds pointers to them, which
    may be nil. *)
Record handle := mkHandle { h_at : list string; h_open : bool }.
Definition pointer : Type := option nat.

(** src/internal/filehandler/logger.go:14-19 (LogWriter)

    The channel with its capacity, and what goes with the files: the heap of
    open files and the disk. *)
Record LogWriter := mkLogWriter {
  folderPath : string;
  dataQueue : list Log;
  queueSize : nat;
  q_closed : bool;
  lfiles : gmap string pointer;
  handles : list handle;
  ldisk : Disk
}.

Definition set_queue q (w : LogWriter) : LogWriter :=
  mkLogWriter (folderPath w) q (queueSize w) (q_closed w) (lfiles w) (handles w) (ldisk w).
Definition set_q_closed (w : LogWriter) : LogWriter :=
  mkLogWriter (folderPath w) (dataQueue w) (queueSize w) true (lfiles w) (handles w) (ldisk w).
Definition set_lfiles m (w : LogWriter) : LogWriter :=
  mkLogWriter (folderPath w) (dataQueue w) (queueSize w) (q_closed w) m (handles w) (ldisk w).
Definition set_handles h (w : LogWriter) : LogWriter :=
  mkLogWriter (folderPath w) (dataQueue w) (queueSize w) (q_closed w) (lfiles w) h (ldisk w).
Definition set_ldisk d (w : LogWriter) : LogWriter :=
  mkLogWriter (folderPath w) (dataQueue w) (queueSize w) (q_closed w) (lfiles w) (handles w) d.

Abbreviation logio := (io OsError LogWriter).

Definition on_ldisk {A} (m : osio A) : logio A := zoom ldisk set_ldisk m.

(** src/internal/filehandler/logger.go:27-39 (NewLogWriter)

    [make] panics for a negative size. *)
Definition NewLogWriter (logFolderPath : string) (queueSize : Z) : osio LogWriter :=
  with_name logFolderPath os_MkdirAll ;;
  if queueSize <? 0 then panic else
  d ← get;
  ret (mkLogWriter logFolderPath [] (Z.to_nat queueSize) false ∅ [] d).

(** [os.OpenFile] with O_CREATE, O_WRONLY and O_APPEND. *)
Definition open_log (filePath : string) : logio nat :=
  k ← on_ldisk (os_OpenFile filePath true false);
  w ← get;
  modify (set_handles (handles w ++ [mkHandle k true])) ;;
  ret (length (handles w)).

(** [file.Close()]; a nil pointer and a closed file only give an error. *)
Definition close_log (p : pointer) : logio unit :=
  match p with
  | Some i => modify (λ w, set_handles (alter (λ h, mkHandle (h_at h) false) i (handles w)) w)
  | None => ret tt
  end.

(** ** The goroutines that log *)

(** src/internal/filehandler/logger.go:43-51 (LogWriter.Add, the file)

    Whether the entry is to be queued. *)
Definition add_file (filename : string) : logio bool :=
  w ← get;
  match lfiles w !! filename with
  | Some _ => ret true
  | None =>
      r ← try_ (open_log (path_string (Join [folderPath w; filename])));
      match r with
      | inr _ => ret false
      | inl i => modify (λ w, set_lfiles (<[filename := Some i]> (lfiles w)) w) ;; ret true
      end
  end.

(** src/internal/filehandler/logger.go:53-56 (LogWriter.Add, the queue)

    [None]: the channel is full. *)
Definition enqueue (l : Log) : bio OsError LogWriter unit := λ w,
  if q_closed w then Some (Panic, w)
  else if (length (dataQueue w) <? queueSize w)%nat
  then Some (Ok tt, set_queue (dataQueue w ++ [l]) w)
  else None.

(** Code that does not wait. *)
Definition at_once {A} (m : logio A) : bio OsError LogWriter A := λ w, Some (m w).

(** src/internal/filehandler/logger.go:42-57 (LogWriter.Add) *)
Definition Add (entry : list string) (filename : string) : bio OsError LogWriter unit :=
  ok ← at_once (add_file filename);
  if ok : bool then enqueue (mkLog filename entry) else at_once (ret tt).

(** src/internal/filehandler/logger.go:60-70 (LogWriter.FreeFile) *)
Definition FreeFile (filename : string) : logio unit :=
  w ← get;
  match lfiles w !! filename with
  | Some p => close_log p ;; modify (λ w, set_lfiles (delete filename (lfiles w)) w)
  | None => ret tt
  end.

(** src/internal/filehandler/logger.go:73-84 (LogWriter.Close)

    The order in which [Range] comes to the files does not matter; a second call
    panics. *)
Definition Close : logio unit :=
  w ← get;
  if q_closed w then panic else
  modify set_q_closed ;;
  for_each (λ kp, close_log kp.2) (map_to_list (lfiles w)).

(** ** The goroutine that writes *)

(** src/internal/filehandler/logger.go:91-100 (LogWriter.AsyncWrite, the check)

    Note how the path is put together; what was opened is stored also when
    opening failed. *)
Definition aw_check (val : Log) : logio unit :=
  w ← get;
  match lfiles w !! FileName val with
  | Some _ => ret tt
  | None =>
      r ← try_ (open_log (folderPath w +:+ FileName val));
      let file := match r with inl i => Some i | inr _ => None end in
      modify (λ w, set_lfiles (<[FileName val := file]> (lfiles w)) w)
  end.

(** src/internal/filehandler/logger.go:102-103 (LogWriter.AsyncWrite, the file)

    The type assertion panics when the file is gone. *)
Definition aw_load (val : Log) : logio pointer :=
  w ← get;
  match lfiles w !! FileName val with Some p => ret p | None => panic end.

(** src/internal/filehandler/logger.go:105-116 (LogWriter.AsyncWrite, the lines)

    [bufio.Writer] hands the text over in pieces, the last with [Flush], and
    stops at the first that fails: a prefix of the text is written. Nothing is
    written for no text, to a nil pointer and to a closed file. *)
Definition aw_flush (p : pointer) (val : Log) : logio unit :=
  w ← get;
  match text_of (Entries val), p ≫= λ i, handles w !! i with
  | (_ :: _) as text, Some (mkHandle k true) => ignore (on_ldisk (os_append k text))
  | _, _ => ret tt
  end.

(** src/internal/filehandler/logger.go:91-117 (LogWriter.AsyncWrite, one turn)

    Without interruption. *)
Definition AsyncWrite_turn (val : Log) : logio unit :=
  aw_check val ;; p ← aw_load val; aw_flush p val.

(** src/internal/filehandler/logger.go:89-118 (LogWriter.AsyncWrite)

    The loop, for what is in the queue and no more. *)
Definition AsyncWrite : logio unit :=
  w ← get; for_each (λ val, modify (λ w, set_queue (tail (dataQueue w)) w) ;; AsyncWrite_turn val)
             (dataQueue w).

(** ** A container's log *)

(** src/internal/cluster/container/monitor.go:267-275 (logBridge.Write) *)
Definition logBridge_Write (logName : string) (p : string) : bio OsError LogWriter unit :=
  if bool_decide (p = EmptyString) then at_once (ret tt) else Add [p] logName.

Fixpoint bridge_all (logName : string) (chunks : list string) : bio OsError LogWriter unit :=
  match chunks with
  | [] => at_once (ret tt)
  | p :: chunks => logBridge_Write logName p ;; bridge_all logName chunks
  end.

(** What Docker answers to [ContainerLogs]: the text of an error, or the chunks
    that [stdcopy] takes out of the stream and the error at its end. *)
Definition stream : Type := string + list string * option string.

(** The end of a context is no error. *)
Definition stream_error (err : string) : option string :=
  if Contains err "context canceled" then None else Some err.

(** src/internal/cluster/container/monitor.go:215-259 (Container.streamContainerLogs)

    [started] is the time as text; the result is the text of the error. The log
    is freed when the stream ends. *)
Definition streamContainerLogs (id alias started : string) (out : stream)
    : bio OsError LogWriter (option string) :=
  match out with
  | inl err => at_once (ret (stream_error err))
  | inr (chunks, err) =>
      let logName := id +:+ ".log" in
      let logHeader := "-----Log Data for [" +:+ id +:+ "] Image [" +:+ alias +:+
                       "] Started [" +:+ started +:+ "]-----" in
      Add [logHeader] logName ;;
      bridge_all logName chunks ;;
      at_once (FreeFile logName) ;;
      at_once (ret (match err with
                    | Some e => if bool_decide (e = "EOF") then None else stream_error e
                    | None => None
                    end))
  end.
