(* ===== verification/LogDelivery.v ===== *)
(** * What becomes of the entries

    The log writer as a transition system. As long as a file is freed only when
    nothing of its waits, every entry ends in its file, in order; when it is
    freed earlier, entries go astray. *)

From Stdlib Require Import Strings.Byte Strings.String.
From S2P Require Import Prelude.
From S2P Require Import Bytes.
From S2P Require Import JobDirs.
From S2P Require Import Environment.
From S2P Require Import Paths.
From S2P Require Import FileHandler.
From S2P Require Import LogWriter.

(** ** The goroutines *)

(** Where [AsyncWrite] is between two accesses to shared state. *)
Inductive wphase := WIdle | WTook (val : Log) | WChecked (val : Log) | WLoaded (val : Log) (p : pointer).

Definition in_hand (p : wphase) : list Log :=
  match p with WIdle => [] | WTook x | WChecked x | WLoaded x _ => [x] end.

(** The writer's state, the goroutines in the middle of [Add], and the phase of
    [AsyncWrite]. *)
Record Sys := mkSys { world : LogWriter; sending : list Log; writer : wphase }.

Definition waiting (s : Sys) : list Log := in_hand (writer s) ++ dataQueue (world s) ++ sending s.

Inductive event := EAdd (l : Log) | EFree (filename : string) | ETau.

(** One goroutine logs under one name, so that it does not add or free while it
    is still waiting for the queue. *)
Inductive log_step : event → Sys → Sys → Prop :=
| ls_add l w w' snd ph :
    FileName l ∉ FileName <$> snd → add_file (FileName l) w = (Ok true, w') →
    log_step (EAdd l) (mkSys w snd ph) (mkSys w' (snd ++ [l]) ph)
| ls_drop f w w' snd ph :
    f ∉ FileName <$> snd → add_file f w = (Ok false, w') →
    log_step ETau (mkSys w snd ph) (mkSys w' snd ph)
| ls_send l w w' snd1 snd2 ph :
    enqueue l w = Some (Ok tt, w') →
    log_step ETau (mkSys w (snd1 ++ l :: snd2) ph) (mkSys w' (snd1 ++ snd2) ph)
| ls_free f w w' snd ph :
    f ∉ FileName <$> snd → FreeFile f w = (Ok tt, w') →
    log_step (EFree f) (mkSys w snd ph) (mkSys w' snd ph)
| ls_take l q w snd :
    dataQueue w = l :: q →
    log_step ETau (mkSys w snd WIdle) (mkSys (set_queue q w) snd (WTook l))
| ls_check l w w' snd :
    aw_check l w = (Ok tt, w') →
    log_step ETau (mkSys w snd (WTook l)) (mkSys w' snd (WChecked l))
| ls_load l p w w' snd :
    aw_load l w = (Ok p, w') →
    log_step ETau (mkSys w snd (WChecked l)) (mkSys w' snd (WLoaded l p))
| ls_flush l p w w' snd :
    aw_flush p l w = (Ok tt, w') →
    log_step ETau (mkSys w snd (WLoaded l p)) (mkSys w' snd WIdle).

(** Runs that free a file only when nothing waits for it, with what was added. *)
Inductive patient (s0 : Sys) : list Log → Sys → Prop :=
| pt_start : patient s0 [] s0
| pt_add tr l s s' :
    patient s0 tr s → plain (FileName l) → log_step (EAdd l) s s' → patient s0 (tr ++ [l]) s'
| pt_tau tr s s' : patient s0 tr s → log_step ETau s s' → patient s0 tr s'
| pt_free tr f s s' :
    patient s0 tr s → f ∉ FileName <$> waiting s → log_step (EFree f) s s' → patient s0 tr s'.

(** The text of the entries for one file. *)
Definition texts (f : string) (l : list Log) : list byte :=
  concat ((λ x, text_of (Entries x)) <$> filter (λ x, FileName x = f) l).

#[global] Arguments texts : simpl never.
#[global] Arguments waiting : simpl never.

Lemma texts_app f l l' : texts f (l ++ l') = texts f l ++ texts f l'.
Proof. unfold texts. by rewrite filter_app, fmap_app, concat_app. Qed.

Lemma texts_other f l : f ∉ FileName <$> l → texts f l = [].
Proof.
  intros H. unfold texts. induction l as [|x l IH]; [done|].
  rewrite fmap_cons, not_elem_of_cons in H. destruct H as [Hx Hl].
  rewrite filter_cons_False by congruence. by apply IH.
Qed.

Lemma texts_one l : texts (FileName l) [l] = text_of (Entries l).
Proof. unfold texts. rewrite filter_cons_True by done. cbn. by rewrite app_nil_r. Qed.

(** ** The disk *)

Definition content_at (d : Disk) (k : list string) : list byte :=
  match lookup_node (tree d) k with Some (Reg c) => c | _ => [] end.
Definition regular (d : Disk) (k : list string) : Prop :=
  ∃ c, lookup_node (tree d) k = Some (Reg c).

(** What a call on a disk without faults keeps. *)
Record kept (d d' : Disk) : Prop := {
  kp_calm : dfaults d' = [];
  kp_cwd : cwd d' = cwd d;
  kp_regular : ∀ q, regular d q → regular d' q
}.

Lemma lookup_node_insert t k n q :
  k ≠ [] → lookup_node (<[k := n]> t) q = if decide (q = k) then Some n else lookup_node t q.
Proof.
  intros Hk. destruct q as [|x q]; [by rewrite decide_False|]. cbn [lookup_node].
  case_decide as H; [rewrite <- H; apply lookup_insert_eq | by apply lookup_insert_ne, not_eq_sym].
Qed.

Lemma kept_refl d : dfaults d = [] → kept d d.
Proof. by split. Qed.
Lemma kept_trans d1 d2 d3 : kept d1 d2 → kept d2 d3 → kept d1 d3.
Proof. intros [_ H1 H2] [H3 H4 H5]. split; [done | congruence | auto]. Qed.

Lemma os_OpenFile_inv s d r d' :
  dfaults d = [] → os_OpenFile s true false d = (r, d') →
  kept d d' ∧ (∀ q, content_at d' q = content_at d q) ∧ r ≠ Panic ∧
  match r with
  | Ok k => k = resolve d (Clean s) ∧ regular d' k
  | _ => d' = d
  end.
Proof.
  intros Hf. assert (∀ e : OsError, (Err e, d) = (r, d') → kept d d' ∧
    (∀ q, content_at d' q = content_at d q) ∧ r ≠ Panic ∧
    match r with Ok k => k = resolve d (Clean s) ∧ regular d' k | _ => d' = d end) as Herr
    by (intros e [= <- <-]; split_and!; [by apply kept_refl | done..]).
  unfold os_OpenFile, with_name. case_bool_decide; [by apply Herr|].
  unfold next_fault, settle_fault, mbind, io_bind. rewrite Hf. cbn.
  unfold get, modify, mbind, io_bind. destruct (ends_with_slash s); [by apply Herr|].
  set (k := resolve d (Clean s)) in *.
  destruct (lookup_node (tree d) k) as [[c|]|] eqn:E; [|by apply Herr|].
  - intros [= <- <-]. split_and!; [by apply kept_refl | done.. | by exists c].
  - destruct (is_dir (tree d) (parent k)); [|by apply Herr].
    assert (k ≠ []) as Hk by (by intros Hk; rewrite Hk in E).
    intros [= <- <-]. split_and!.
    + split; [done..|]. intros q [c Hc]. unfold regular. cbn [tree set_tree].
      rewrite lookup_node_insert by done. case_decide; [by eexists | by exists c].
    + intros q. unfold content_at. cbn [tree set_tree]. rewrite lookup_node_insert by done.
      case_decide as Hq; [|done]. by rewrite Hq, E.
    + done.
    + done.
    + exists []. cbn [tree set_tree]. rewrite lookup_node_insert by done. by rewrite decide_True.
Qed.

Lemma os_append_inv k data d :
  dfaults d = [] → regular d k →
  ∃ d', os_append k data d = (Ok tt, d') ∧ kept d d' ∧
    ∀ q, content_at d' q = if decide (q = k) then content_at d k ++ data else content_at d q.
Proof.
  intros Hf [c Hc]. assert (k ≠ []) as Hk by (by intros ->).
  exists (set_tree (<[k := Reg (c ++ data)]> (tree d)) d). split_and!.
  - unfold os_append, next_fault, settle_fault, mbind, io_bind. rewrite Hf. cbn.
    unfold get, modify, mbind, io_bind.
    assert (tree d !! k = Some (Reg c)) as -> by by destruct k. done.
  - split; [done..|]. intros q [c' Hq]. unfold regular. cbn [tree set_tree].
    rewrite lookup_node_insert by done. case_decide; [by eexists | by exists c'].
  - intros q. unfold content_at. cbn [tree set_tree]. rewrite lookup_node_insert by done.
    case_decide; [by rewrite Hc | done].
Qed.

(** Opening a file makes no directory. *)
Lemma os_OpenFile_dirs s d r d' q :
  dfaults d = [] → os_OpenFile s true false d = (r, d') → is_dir (tree d') q = is_dir (tree d) q.
Proof.
  intros Hf. unfold os_OpenFile, with_name. case_bool_decide; [by intros [= _ <-]|].
  unfold next_fault, settle_fault, mbind, io_bind. rewrite Hf. cbn.
  unfold get, modify, mbind, io_bind. destruct (ends_with_slash s); [by intros [= _ <-]|].
  set (k := resolve d (Clean s)).
  destruct (lookup_node (tree d) k) as [[c|]|] eqn:E; [by intros [= _ <-]..|].
  destruct (is_dir (tree d) (parent k)); [|by intros [= _ <-]].
  assert (k ≠ []) as Hk by (by intros Hk; rewrite Hk in E).
  intros [= _ <-]. unfold is_dir. cbn [tree set_tree]. rewrite lookup_node_insert by done.
  case_decide as Hq; [|done]. by rewrite Hq, E.
Qed.

Lemma os_OpenFile_calm s d :
  dfaults d = [] → s ≠ EmptyString → ends_with_slash s = false →
  is_dir (tree d) (parent (resolve d (Clean s))) = true → is_dir (tree d) (resolve d (Clean s)) = false →
  (os_OpenFile s true false d).1 = Ok (resolve d (Clean s)).
Proof.
  intros Hf Hs He Hp Hk. unfold os_OpenFile, with_name. rewrite bool_decide_eq_false_2 by done.
  unfold next_fault, settle_fault, mbind, io_bind. rewrite Hf. cbn.
  unfold get, modify, mbind, io_bind. rewrite He, Hp. unfold is_dir in Hk.
  by destruct (lookup_node (tree d) _) as [[]|].
Qed.

(** Writing an entry to an open file. *)
Lemma aw_flush_at l i k w :
  dfaults (ldisk w) = [] → handles w !! i = Some (mkHandle k true) → regular (ldisk w) k →
  ∃ d', aw_flush (Some i) l w = (Ok tt, set_ldisk d' w) ∧ kept (ldisk w) d' ∧
    ∀ q, content_at d' q = if decide (q = k) then content_at (ldisk w) q ++ text_of (Entries l)
                           else content_at (ldisk w) q.
Proof.
  intros Hf Hi Hreg. unfold aw_flush, mbind, io_bind, get. cbn [option_bind]. rewrite Hi.
  destruct (text_of (Entries l)) as [|b t] eqn:Et.
  - exists (ldisk w). split_and!; [by destruct w | by apply kept_refl|].
    intros q. case_decide; [by rewrite app_nil_r | done].
  - destruct (os_append_inv k (b :: t) (ldisk w) Hf Hreg) as (d' & Ha & K & Hc).
    exists d'. split_and!; [|done|].
    + cbn. unfold ignore, on_ldisk, zoom. by rewrite Ha.
    + intros q. rewrite Hc. case_decide as Hq; [by rewrite Hq | done].
Qed.

(** ** The invariant *)

Section delivery.
Context (folder : string) (d0 : Disk).
Context (Hfolder : folder ≠ EmptyString).

(** The place of a log. *)
Definition log_at (f : string) : list string := resolve d0 (Clean folder) ++ [f].

Lemma log_at_inj f f' : log_at f = log_at f' → f = f'.
Proof. unfold log_at. intros H. by apply app_inj_2 in H as [_ [= ->]]. Qed.

(** A stored file is the open log of its name. *)
Definition stored_ok (w : LogWriter) (f : string) (p : pointer) : Prop :=
  plain f ∧ ∃ i, p = Some i ∧ handles w !! i = Some (mkHandle (log_at f) true) ∧
    regular (ldisk w) (log_at f).

Record writer_ok (w : LogWriter) : Prop := {
  wo_folder : folderPath w = folder;
  wo_open : q_closed w = false;
  wo_room : (0 < queueSize w)%nat;
  wo_calm : dfaults (ldisk w) = [];
  wo_cwd : cwd (ldisk w) = cwd d0;
  wo_stored : ∀ f p, lfiles w !! f = Some p → stored_ok w f p
}.

Record delivering (tr : list Log) (s : Sys) : Prop := {
  dl_ok : writer_ok (world s);
  dl_known : ∀ x, x ∈ waiting s → is_Some (lfiles (world s) !! FileName x);
  dl_loaded : match writer s with
              | WLoaded x p => lfiles (world s) !! FileName x = Some p
              | _ => True
              end;
  dl_nodup : NoDup (FileName <$> sending s);
  dl_text : ∀ f, plain f →
    content_at (ldisk (world s)) (log_at f) ++ texts f (waiting s) =
    content_at d0 (log_at f) ++ texts f tr
}.

(** Opening the file of a name. *)
Lemma add_file_ok f w b w' :
  writer_ok w → plain f → add_file f w = (Ok b, w') →
  writer_ok w' ∧ dataQueue w' = dataQueue w ∧
  (∀ q, content_at (ldisk w') q = content_at (ldisk w) q) ∧
  (∀ g p, lfiles w !! g = Some p → lfiles w' !! g = Some p) ∧
  (b = true → is_Some (lfiles w' !! f)).
Proof using Hfolder.
  intros [H1 H2 H3 H4 H5 H6] Hf. unfold add_file, mbind, io_bind, get.
  destruct (lfiles w !! f) as [p|] eqn:E.
  { intros [= <- <-]. split_and!; [done..|]. by eexists. }
  unfold try_, open_log, on_ldisk, zoom, mbind, io_bind.
  destruct (os_OpenFile _ true false (ldisk w)) as [r d'] eqn:Eo.
  apply os_OpenFile_inv in Eo as (Hk & Hc & Hp & Hr); [|done]. destruct Hk as [Hk1 Hk2 Hk3].
  destruct r as [k|e|]; [|subst d'|done].
  - destruct Hr as [-> Hr]. cbn. unfold modify. intros [= <- <-]. cbn.
    rewrite H1, Clean_Join, resolve_sub in Hr by done. rewrite H1, Clean_Join, resolve_sub by done.
    rewrite (resolve_cwd d0) in * by done.
    split_and!; [|done|done| |].
    + split; [done | done | done | done | cbn; congruence |]. cbn. intros g p Hg.
      apply lookup_insert_Some in Hg as [[<- <-] | [Hne Hg]].
      * split; [done|]. eexists. split_and!; [done| |done].
        cbn [handles set_lfiles set_handles]. by rewrite lookup_app_r, Nat.sub_diag by lia.
      * destruct (H6 g p Hg) as (Hpl & i & -> & Hi & Hreg). split; [done|]. exists i.
        cbn [handles set_lfiles set_handles]. split_and!; [done | by apply lookup_app_l_Some | by apply Hk3].
    + intros g p Hg. rewrite lookup_insert_ne; [done|]. congruence.
    + intros _. rewrite lookup_insert_eq. by eexists.
  - cbn. unfold ret. intros [= <- <-]. destruct w. by split_and!.
Qed.

Lemma add_file_dropped f w w' :
  dfaults (ldisk w) = [] → add_file f w = (Ok false, w') → w' = w.
Proof using.
  intros Hd. unfold add_file, mbind, io_bind, get.
  destruct (lfiles w !! f) as [p|]; [done|].
  unfold try_, open_log, on_ldisk, zoom, mbind, io_bind.
  destruct (os_OpenFile _ true false (ldisk w)) as [r d'] eqn:Eo.
  apply os_OpenFile_inv in Eo as (_ & _ & _ & Hr); [|done].
  destruct r as [k|e|]; [done| |done]. subst d'. cbn. unfold ret. intros [= <-]. by destruct w.
Qed.

Lemma FreeFile_ok f w w' :
  writer_ok w → FreeFile f w = (Ok tt, w') →
  writer_ok w' ∧ dataQueue w' = dataQueue w ∧ ldisk w' = ldisk w ∧
  (∀ g, g ≠ f → lfiles w' !! g = lfiles w !! g).
Proof using.
  intros [H1 H2 H3 H4 H5 H6]. unfold FreeFile, mbind, io_bind, get.
  destruct (lfiles w !! f) as [p|] eqn:E; [|by intros [= <-]].
  destruct (H6 f p E) as (Hpl & i & -> & Hi & Hreg). cbn. unfold modify. intros [= <-]. cbn.
  split_and!; [|done|done|].
  - split; [done..|]. cbn. intros g p Hg. apply lookup_delete_Some in Hg as [Hne Hg].
    destruct (H6 g p Hg) as (Hpl' & j & -> & Hj & Hreg'). split; [done|]. exists j.
    cbn [handles set_lfiles set_handles]. split_and!; [done| |done].
    rewrite list_lookup_alter_ne; [done|]. intros ->. rewrite Hi in Hj.
    injection Hj as Hj. by apply log_at_inj in Hj.
  - intros g Hg. by apply lookup_delete_ne, not_eq_sym.
Qed.

Lemma aw_flush_ok l p w :
  writer_ok w → lfiles w !! FileName l = Some p →
  ∃ w', aw_flush p l w = (Ok tt, w') ∧ writer_ok w' ∧ dataQueue w' = dataQueue w ∧
    lfiles w' = lfiles w ∧
    ∀ q, content_at (ldisk w') q =
      if decide (q = log_at (FileName l)) then content_at (ldisk w) q ++ text_of (Entries l)
      else content_at (ldisk w) q.
Proof using.
  intros Hw Hl. destruct (wo_stored _ Hw _ _ Hl) as (Hpl & i & -> & Hi & Hreg).
  destruct (aw_flush_at l i _ w (wo_calm _ Hw) Hi Hreg) as (d' & Ha & [K1 K2 K3] & Hc).
  exists (set_ldisk d' w). split_and!; [done|split|done|done|done]; try apply Hw; try done.
  - rewrite <- (wo_cwd _ Hw). apply K2.
  - intros f p Hp. destruct (wo_stored _ Hw f p Hp) as (? & j & -> & ? & ?).
    split; [done|]. exists j. by split_and!; [..|apply K3].
Qed.

(** ** Every step keeps the invariant *)

(** What is written and what waits are the same before and after. *)
Lemma waiting_eq w snd ph : waiting (mkSys w snd ph) = in_hand ph ++ dataQueue w ++ snd.
Proof using. done. Qed.

Lemma delivering_add tr l s s' :
  delivering tr s → plain (FileName l) → log_step (EAdd l) s s' → delivering (tr ++ [l]) s'.
Proof using Hfolder.
  intros [H1 H2 H3 H4 H5] Hl Hs. inversion Hs as [l' w w' snd ph Hn Ha| | | | | | |]; subst. cbn in *.
  destruct (add_file_ok _ _ _ _ H1 Hl Ha) as (Hw & Hq & Hc & Hm & Hk).
  split; cbn; [done| | | |].
  - intros x. rewrite waiting_eq, Hq, !app_assoc, elem_of_app, list_elem_of_singleton.
    intros [Hx | ->]; [|by apply Hk]. rewrite <- app_assoc in Hx.
    destruct (H2 x Hx) as [p Hp]. exists p. by apply Hm.
  - destruct ph; [done..|]. by apply Hm.
  - rewrite fmap_app. apply NoDup_app. split_and!; [done| |apply NoDup_singleton].
    intros x Hx Hx'. apply list_elem_of_singleton in Hx'. by subst.
  - intros f Hf. rewrite waiting_eq, Hq, !app_assoc, !texts_app, !app_assoc, Hc. f_equal.
    rewrite <- !app_assoc, <- !texts_app. by apply H5.
Qed.

Lemma delivering_free tr f s s' :
  delivering tr s → f ∉ FileName <$> waiting s → log_step (EFree f) s s' → delivering tr s'.
Proof using.
  intros [H1 H2 H3 H4 H5] Hf Hs. inversion Hs as [| | |f' w w' snd ph Hn Ha| | | |]; subst. cbn in *.
  destruct (FreeFile_ok _ _ _ H1 Ha) as (Hw & Hq & Hd & Hm).
  assert (∀ x, x ∈ waiting (mkSys w snd ph) → FileName x ≠ f) as Hne.
  { intros x Hx Heq. apply Hf. rewrite <- Heq. by apply list_elem_of_fmap_2. }
  split; cbn; [done| |  |done|].
  - intros x. rewrite waiting_eq, Hq. intros Hx. rewrite Hm; [by apply H2 | by apply Hne].
  - destruct ph as [| | |x p]; [done..|]. rewrite Hm; [done|]. apply Hne. by left.
  - intros g Hg. rewrite waiting_eq, Hq, Hd. by apply H5.
Qed.

Lemma delivering_tau tr s s' : delivering tr s → log_step ETau s s' → delivering tr s'.
Proof using Hfolder.
  intros Hd Hs. pose proof Hd as [H1 H2 H3 H4 H5].
  inversion Hs as [|f w w' snd ph Hn Ha|l w w' snd1 snd2 ph He| |l q w snd Hq|l w w' snd Ha
    |l p w w' snd Ha|l p w w' snd Ha]; subst; cbn in *.
  - apply add_file_dropped in Ha as ->; [done | by apply wo_calm].
  - unfold enqueue in He. rewrite (wo_open _ H1) in He. destruct (_ <? _)%nat; [|done].
    injection He as <-.
    assert (∀ x, x ∈ waiting (mkSys (set_queue (dataQueue w ++ [l]) w) (snd1 ++ snd2) ph) ↔
                 x ∈ waiting (mkSys w (snd1 ++ l :: snd2) ph)) as Hin.
    { intros x. rewrite !waiting_eq. cbn. set_solver. }
    split; cbn.
    + by destruct H1.
    + intros x Hx. by apply H2, Hin.
    + done.
    + rewrite fmap_app, fmap_cons in H4. rewrite fmap_app.
      apply NoDup_app in H4 as (Ha & Hb & [_ Hc]%NoDup_cons). apply NoDup_app.
      split_and!; [done| |done]. intros x Hx Hx'. apply (Hb x Hx). by right.
    + intros f Hf. rewrite <- (H5 f Hf). f_equal. rewrite !waiting_eq. cbn.
      rewrite !texts_app. f_equal. rewrite <- app_assoc. f_equal.
      change (l :: snd2) with ([l] ++ snd2). rewrite texts_app, !app_assoc. f_equal.
      rewrite fmap_app, fmap_cons in H4. apply NoDup_app in H4 as (_ & Hb & [Hl _]%NoDup_cons).
      destruct (decide (FileName l = f)) as [<-|Hne].
      * rewrite (texts_other _ snd1), app_nil_r; [done|]. intros Hx. apply (Hb _ Hx). by left.
      * rewrite (texts_other _ [l]), app_nil_r; [done|].
        cbn. rewrite list_elem_of_singleton. congruence.
  - split; cbn; [by destruct H1| |done|done|].
    + intros x Hx. apply H2. unfold waiting. cbn. rewrite Hq. exact Hx.
    + intros f Hf. rewrite <- (H5 f Hf). unfold waiting. cbn. by rewrite Hq.
  - destruct (H2 l) as [p Hp]; [by left|]. unfold aw_check, mbind, io_bind, get in Ha.
    rewrite Hp in Ha. injection Ha as <-. by split.
  - unfold aw_load, mbind, io_bind, get in Ha.
    destruct (lfiles w !! FileName l) as [p'|] eqn:E; [|done]. injection Ha as <- <-. by split.
  - destruct (aw_flush_ok _ _ _ H1 H3) as (w1 & Hf & Hw & Hq & Hm & Hc). rewrite Ha in Hf.
    injection Hf as <-. split; cbn; [done| |done|done|].
    + intros x. unfold waiting. cbn. rewrite Hq, Hm. intros Hx. apply H2. by right.
    + intros f Hf. rewrite <- (H5 f Hf), Hc. unfold waiting. cbn [in_hand app world sending writer].
      rewrite Hq.
      change (l :: dataQueue w ++ snd) with ([l] ++ (dataQueue w ++ snd)).
      rewrite (texts_app f [l]). case_decide as Heq.
      * apply log_at_inj in Heq as ->. by rewrite texts_one, <- app_assoc.
      * rewrite (texts_other f [l]); [done|]. cbn. rewrite list_elem_of_singleton. congruence.
Qed.

Lemma patient_delivering s0 tr s : delivering [] s0 → patient s0 tr s → delivering tr s.
Proof using Hfolder.
  intros H0. induction 1 as [|tr l s s' _ IH Hl Hs|tr s s' _ IH Hs|tr f s s' _ IH Hf Hs]; [done|..].
  - by eapply delivering_add.
  - by eapply delivering_tau.
  - by eapply delivering_free.
Qed.

(** ** The queue empties *)

Definition work (s : Sys) : nat :=
  5 * length (sending s) + 4 * length (dataQueue (world s)) +
  match writer s with WIdle => 0 | WTook _ => 3 | WChecked _ => 2 | WLoaded _ _ => 1 end.

Lemma delivering_progress tr s :
  delivering tr s → waiting s ≠ [] → ∃ s', log_step ETau s s' ∧ (work s' < work s)%nat.
Proof using.
  intros [H1 H2 H3 H4 H5] Hne. destruct s as [w snd ph]. unfold work. cbn in *. destruct ph as [|l|l|l p].
  - destruct (dataQueue w) as [|l q] eqn:Hq.
    + destruct snd as [|l snd]; [by unfold waiting in Hne; cbn in Hne; rewrite Hq in Hne|].
      eexists (mkSys (set_queue (dataQueue w ++ [l]) w) snd WIdle). split.
      * apply (ls_send l w _ []). unfold enqueue. rewrite (wo_open _ H1).
        rewrite (proj2 (Nat.ltb_lt (length (dataQueue w)) (queueSize w))); [done|].
        rewrite Hq. apply H1.
      * cbn. rewrite Hq. cbn. lia.
    + exists (mkSys (set_queue q w) snd (WTook l)). split; [by apply ls_take | cbn; lia].
  - destruct (H2 l) as [p Hp]; [by left|]. exists (mkSys w snd (WChecked l)). split; [|cbn; lia].
    apply ls_check. unfold aw_check, mbind, io_bind, get. by rewrite Hp.
  - destruct (H2 l) as [p Hp]; [by left|]. exists (mkSys w snd (WLoaded l p)). split; [|cbn; lia].
    apply ls_load. unfold aw_load, mbind, io_bind, get. by rewrite Hp.
  - destruct (aw_flush_ok _ _ _ H1 H3) as (w' & Hf & _ & Hq & _). exists (mkSys w' snd WIdle).
    split; [by apply ls_flush | cbn; rewrite Hq; lia].
Qed.

Lemma delivering_drains tr s :
  delivering tr s → ∃ s', rtc (log_step ETau) s s' ∧ delivering tr s' ∧ waiting s' = [].
Proof using Hfolder.
  remember (work s) as n eqn:Hn. revert s Hn.
  induction n as [n IH] using lt_wf_ind. intros s -> Hd.
  destruct (decide (waiting s = [])) as [He|Hne]; [by exists s|].
  destruct (delivering_progress _ _ Hd Hne) as (s1 & Hs & Hlt).
  destruct (IH _ Hlt s1 eq_refl) as (s' & Hr & Hd' & He'); [by eapply delivering_tau|].
  exists s'. split_and!; [by eapply rtc_l | done..].
Qed.
End delivery.

Lemma NewLogWriter_Ok folder n d w d' :
  NewLogWriter folder n d = (Ok w, d') → dfaults d = [] → 0 < n →
  folder ≠ EmptyString ∧ writer_ok folder d' w ∧ dataQueue w = [] ∧ ldisk w = d'.
Proof.
  unfold NewLogWriter, mbind, io_bind, with_name. intros H Hf Hn.
  case_bool_decide; [done|]. destruct (os_MkdirAll _ d) as [[[]|e|] d1] eqn:E; [|done..].
  rewrite (proj2 (Z.ltb_ge _ _)) in H by lia. unfold get, ret in H. injection H as <- <-.
  split_and!; [done| |done..]. split; cbn; [done..|lia| |done|].
  - unfold os_MkdirAll, next_fault, mbind, io_bind in E. rewrite Hf in E. cbn in E.
    unfold get in E. destruct (forallb _ _); [|done]. by injection E as <-.
  - intros f p Hp. by rewrite lookup_empty in Hp.
Qed.

(** C22: Delivery of logs. Started on a disk without faults, and as long as a
    log is freed only when none of its entries waits, whatever the goroutines
    do in whatever order: the file of a name holds, at every moment, what it
    held before and the entries added for that name, in the order they were
    added, but for those still waiting; the writer is never stuck, and from
    every state it can bring everything that waits to the disk. *)
Theorem logs_delivered folder n d w d' tr s :
  NewLogWriter folder n d = (Ok w, d') → dfaults d = [] → 0 < n →
  patient (mkSys w [] WIdle) tr s →
  (∀ f, plain f →
     content_at (ldisk (world s)) (log_at folder d' f) ++ texts f (waiting s) =
     content_at d' (log_at folder d' f) ++ texts f tr) ∧
  (waiting s ≠ [] → ∃ s', log_step ETau s s') ∧
  ∃ s', rtc (log_step ETau) s s' ∧ waiting s' = [] ∧
    ∀ f, plain f → content_at (ldisk (world s')) (log_at folder d' f) =
      content_at d' (log_at folder d' f) ++ texts f tr.
Proof.
  intros Hnew Hf Hn Hp.
  destruct (NewLogWriter_Ok _ _ _ _ _ Hnew Hf Hn) as (Hne & Hw & Hq & Hd).
  assert (delivering folder d' [] (mkSys w [] WIdle)) as H0.
  { split; cbn; [done| |done|constructor|]; unfold waiting; cbn; rewrite Hq.
    - by intros x ?%not_elem_of_nil.
    - intros f _. by rewrite Hd. }
  pose proof (patient_delivering _ _ Hne _ _ _ H0 Hp) as H. split_and!.
  - apply H.
  - intros Hwt. destruct (delivering_progress _ _ _ _ H Hwt) as (s' & Hs & _). by exists s'.
  - destruct (delivering_drains _ _ Hne _ _ H) as (s' & Hr & Hd' & He). exists s'.
    split_and!; [done..|]. intros f Hpl. rewrite <- (dl_text _ _ _ _ Hd' f Hpl), He.
    by rewrite app_nil_r.
Qed.
