(* ===== verification/LogAstray.v ===== *)
(** * Logs that go astray

    The stream of a container frees its log as soon as the stream ends, whether
    or not the writer has caught up. What becomes of the entries then, and of the
    writer when the log is freed in the middle of its turn. *)

From Stdlib Require Import Strings.Byte Strings.String.
From S2P Require Import Prelude.
From S2P Require Import Bytes.
From S2P Require Import JobDirs.
From S2P Require Import Environment.
From S2P Require Import Paths.
From S2P Require Import FileHandler.
From S2P Require Import LogWriter.
From S2P Require Import LogDelivery.

(** ** Names at the end of a path *)

Lemma bytes_app s t :
  list_byte_of_string (s +:+ t) = list_byte_of_string s ++ list_byte_of_string t.
Proof.
  induction s as [|c s IH]; [done|]. rewrite append_cons.
  change (list_byte_of_string (String c ?x)) with (Ascii.byte_of_ascii c :: list_byte_of_string x).
  by rewrite IH.
Qed.

Lemma no_slash_bytes s : no_slash s → x2f ∉ list_byte_of_string s.
Proof.
  unfold no_slash. induction s as [|c s IH]; intros H; [apply not_elem_of_nil|].
  change (list_byte_of_string (String c s)) with (Ascii.byte_of_ascii c :: list_byte_of_string s).
  cbn [split_slash] in H. case_bool_decide as Hc; [done|]. apply not_elem_of_cons. split.
  - intros Heq. apply Hc. rewrite Heq. symmetry. apply Ascii.ascii_of_byte_of_ascii.
  - apply IH. destruct (split_slash s) as [|w l] eqn:E; [|by simplify_eq].
    destruct s; simpl in E; [done|]. case_bool_decide; [done|]. by destruct (split_slash s).
Qed.

Lemma ends_with_slash_app s f : plain f → ends_with_slash (s +:+ f) = false.
Proof.
  intros (Hs & Hne & _). unfold ends_with_slash. rewrite bytes_app, last_app.
  pose proof (no_slash_bytes f Hs) as Hb.
  destruct (last (list_byte_of_string f)) as [b|] eqn:E.
  - apply last_Some_elem_of in E. destruct (decide (b = x2f)) as [->|Hbn]; [done|]. by destruct b.
  - apply last_None in E. by destruct f.
Qed.

Lemma path_string_sub p x : plain x → ∃ t, path_string (sub p x) = t +:+ x.
Proof.
  intros Hx. unfold sub. rewrite clean_plain by done. unfold path_string. cbn [fst snd].
  destruct (p.2) as [|c cs].
  - destruct p.1; [by exists "/" | by exists EmptyString].
  - change (match (c :: cs) ++ [x] with [] => "." | cs' => String.concat "/" cs' end)
      with (String.concat "/" ((c :: cs) ++ [x])).
    rewrite concat_snoc by done. destruct p.1; [|by eexists].
    exists ("/" +:+ (String.concat "/" (c :: cs) +:+ "/")). by rewrite !append_assoc.
Qed.

Lemma append_not_empty s x : x ≠ EmptyString → s +:+ x ≠ EmptyString.
Proof. by destruct s, x. Qed.

Lemma ends_with_slash_cons c s : ends_with_slash s = true → ends_with_slash (String c s) = true.
Proof.
  unfold ends_with_slash.
  change (list_byte_of_string (String c s)) with (Ascii.byte_of_ascii c :: list_byte_of_string s).
  destruct (list_byte_of_string s); [done|]. by rewrite last_cons_cons.
Qed.

Lemma split_slash_last s l :
  split_slash s = l ++ [EmptyString] → s = EmptyString ∨ ends_with_slash s = true.
Proof.
  revert l. induction s as [|c s IH]; intros l; [by left|]. cbn [split_slash]. right.
  case_bool_decide as Hc.
  - destruct l as [|x l]; [by destruct s; simplify_list_eq; repeat case_match|].
    cbn in H. injection H as _ H. destruct (IH _ H) as [-> | He]; [by rewrite Hc|].
    by apply ends_with_slash_cons.
  - destruct (split_slash s) as [|w ws] eqn:E; [by destruct l as [|? []]|].
    destruct l as [|x l]; [done|]. cbn in H. injection H as _ ->.
    destruct (IH (w :: l) eq_refl) as [-> | He]; [|by apply ends_with_slash_cons].
    simpl in E. by destruct l as [|? []].
Qed.

Lemma append_longer w f : w ≠ EmptyString → w +:+ f ≠ f.
Proof.
  intros Hw H. apply (f_equal list_byte_of_string), (f_equal length) in H.
  rewrite bytes_app, length_app in H. destruct w as [|a w]; [done|].
  change (list_byte_of_string (String a w)) with (Ascii.byte_of_ascii a :: list_byte_of_string w) in H.
  cbn [length] in H. lia.
Qed.

Lemma resolve_glue d folder f :
  folder ≠ EmptyString → plain f → ends_with_slash folder = false →
  ∃ l c, c ≠ f ∧ resolve d (Clean (folder +:+ f)) = l ++ [c].
Proof.
  intros Hf (Hs & Hne & Hd & _) He. destruct (split_slash_glue folder f Hs) as (l & w & H1 & H2).
  assert (w ≠ EmptyString) as Hw by (intros ->; destruct (split_slash_last _ _ H1); congruence).
  assert (w +:+ f ≠ EmptyString) as N1 by by destruct w.
  assert (w +:+ f ≠ ".") as N2.
  { destruct w as [|a w]; [done|]. rewrite append_cons. intros [= _ Heq].
    destruct w; [by destruct f | done]. }
  assert (w +:+ f ≠ "..") as N3.
  { destruct w as [|a w]; [done|]. rewrite append_cons. intros [= _ Heq].
    destruct w as [|a' w]; [done|]. rewrite append_cons in Heq. injection Heq as _ Heq.
    destruct w; [by destruct f | done]. }
  destruct (Clean (folder +:+ f)) as [r cs] eqn:E.
  assert (cs = clean_onto r [] l ++ [w +:+ f]) as ->.
  { unfold Clean in E. injection E as <- <-. by rewrite H2, clean_onto_name. }
  unfold resolve. cbn [fst snd]. destruct r; [|rewrite clean_onto_name by done];
    (eexists _, (w +:+ f); split; [by apply append_longer | done]).
Qed.

(** ** The stream, undisturbed *)

Definition chunk_logs (name : string) (chunks : list string) : list Log :=
  (λ p, mkLog name [p]) <$> filter (λ p, p ≠ EmptyString) chunks.

Lemma set_queue_id w : set_queue (dataQueue w) w = w.
Proof. by destruct w. Qed.

Lemma Add_known e f p w :
  lfiles w !! f = Some p → q_closed w = false → (length (dataQueue w) < queueSize w)%nat →
  Add e f w = Some (Ok tt, set_queue (dataQueue w ++ [mkLog f e]) w).
Proof.
  intros Hp Ho Hr. unfold Add, at_once, mbind, bio_bind, add_file, mbind, io_bind, get, ret.
  rewrite Hp. unfold enqueue. by rewrite Ho, (proj2 (Nat.ltb_lt _ _)).
Qed.

Lemma bridge_all_known f p chunks : ∀ w,
  lfiles w !! f = Some p → q_closed w = false →
  (length (dataQueue w) + length chunks ≤ queueSize w)%nat →
  bridge_all f chunks w = Some (Ok tt, set_queue (dataQueue w ++ chunk_logs f chunks) w).
Proof.
  induction chunks as [|c chunks IH]; intros w Hp Ho Hr; cbn [length] in Hr.
  { unfold chunk_logs. cbn. by rewrite app_nil_r, set_queue_id. }
  cbn [bridge_all]. unfold mbind at 1, bio_bind at 1, logBridge_Write, chunk_logs.
  case_bool_decide as Hc.
  - unfold at_once, ret. rewrite filter_cons_False by (by intros H). apply IH; [done..|lia].
  - rewrite filter_cons_True by done. rewrite (Add_known _ _ p) by (done || lia).
    rewrite IH; [|done..|cbn; rewrite length_app; cbn; lia].
    unfold chunk_logs. cbn. by rewrite <- app_assoc.
Qed.

Lemma FreeFile_open f i w :
  lfiles w !! f = Some (Some i : pointer) →
  FreeFile f w = (Ok tt, set_lfiles (delete f (lfiles w))
    (set_handles (alter (λ h, mkHandle (h_at h) false) i (handles w)) w)).
Proof. intros H. unfold FreeFile, mbind, io_bind, get. by rewrite H. Qed.

Definition log_header (id alias started : string) : string :=
  "-----Log Data for [" +:+ id +:+ "] Image [" +:+ alias +:+ "] Started [" +:+ started +:+ "]-----".

(** What a stream leaves behind that nobody disturbs and for which the queue has
    room: everything in the queue, and the log freed. *)
Lemma stream_alone id alias started chunks w :
  let name := id +:+ ".log" in
  let k := resolve (ldisk w) (Clean (folderPath w)) ++ [name] in
  folderPath w ≠ EmptyString → plain name → lfiles w !! name = None → q_closed w = false →
  (length (dataQueue w) + S (length chunks) ≤ queueSize w)%nat →
  dfaults (ldisk w) = [] →
  lookup_node (tree (ldisk w)) (resolve (ldisk w) (Clean (folderPath w))) = Some Dir →
  is_dir (tree (ldisk w)) k = false →
  ∃ w', streamContainerLogs id alias started (inr (chunks, None)) w = Some (Ok None, w') ∧
    folderPath w' = folderPath w ∧ lfiles w' = lfiles w ∧
    dataQueue w' = dataQueue w ++ mkLog name [log_header id alias started] :: chunk_logs name chunks ∧
    kept (ldisk w) (ldisk w') ∧
    (∀ q, content_at (ldisk w') q = content_at (ldisk w) q) ∧
    ∀ q, is_dir (tree (ldisk w')) q = is_dir (tree (ldisk w)) q.
Proof.
  intros name k Hne Hpl Hno Hop Hroom Hf Hdir Hk.
  set (s := path_string (Join [folderPath w; name])).
  assert (name ≠ EmptyString) as Hnn by apply Hpl.
  assert (Clean s = sub (Clean (folderPath w)) name) as Hs by by apply Clean_Join.
  assert (resolve (ldisk w) (Clean s) = k) as Hr by (by rewrite Hs, resolve_sub).
  assert ((os_OpenFile s true false (ldisk w)).1 = Ok k) as Hopen.
  { destruct (path_string_sub (Clean (folderPath w)) name Hpl) as [t Ht].
    rewrite <- Join_two in Ht by done. fold s in Ht.
    rewrite <- Hr. apply os_OpenFile_calm; rewrite ?Hr; try done.
    - rewrite Ht. by apply append_not_empty.
    - rewrite Ht. by apply ends_with_slash_app.
    - unfold parent, k. rewrite removelast_last. unfold is_dir. by rewrite Hdir. }
  destruct (os_OpenFile s true false (ldisk w)) as [r d'] eqn:Eo. cbn in Hopen. subst r.
  pose proof (λ q, os_OpenFile_dirs _ _ _ _ q Hf Eo) as Hdirs.
  destruct (os_OpenFile_inv _ _ _ _ Hf Eo) as (Hkept & Hc & _ & _ & Hreg).
  set (w1 := mkLogWriter (folderPath w) (dataQueue w) (queueSize w) (q_closed w)
               (<[name := Some (length (handles w))]> (lfiles w)) (handles w ++ [mkHandle k true]) d').
  assert (add_file name w = (Ok true, w1)) as Hadd.
  { unfold add_file, mbind, io_bind, get. rewrite Hno. fold s.
    unfold try_, open_log, on_ldisk, zoom, mbind, io_bind. by rewrite Eo. }
  assert (lfiles w1 !! name = Some (Some (length (handles w)) : pointer)) as Hk1 by apply lookup_insert_eq.
  assert (Add [log_header id alias started] name w =
    Some (Ok tt, set_queue (dataQueue w ++ [mkLog name [log_header id alias started]]) w1)) as Hadd1.
  { unfold Add, at_once, mbind, bio_bind. rewrite Hadd. unfold enqueue. cbn [q_closed w1 dataQueue queueSize].
    by rewrite Hop, (proj2 (Nat.ltb_lt _ _)) by lia. }
  eexists. split.
  - cbn [streamContainerLogs]. fold name. unfold mbind at 1, bio_bind at 1.
    fold (log_header id alias started). rewrite Hadd1.
    unfold mbind at 1, bio_bind at 1.
    rewrite (bridge_all_known _ (Some (length (handles w)))); [|done..|cbn; rewrite length_app; cbn; lia].
    unfold at_once, mbind, bio_bind. rewrite (FreeFile_open _ (length (handles w))) by exact Hk1.
    reflexivity.
  - cbn. split_and!; [done| | |done..].
    + rewrite delete_insert_id; done.
    + by rewrite <- app_assoc.
Qed.

(** ** The writer, afterwards *)

(** The loop of [AsyncWrite] over entries of one name whose file is open at [k]. *)
Definition drain_loop (ls : list Log) : logio unit :=
  for_each (λ val, modify (λ w, set_queue (tail (dataQueue w)) w) ;; AsyncWrite_turn val) ls.

Lemma turn_open l i k w :
  lfiles w !! FileName l = Some (Some i : pointer) → handles w !! i = Some (mkHandle k true) →
  dfaults (ldisk w) = [] → regular (ldisk w) k →
  ∃ d', AsyncWrite_turn l w = (Ok tt, set_ldisk d' w) ∧ kept (ldisk w) d' ∧
    ∀ q, content_at d' q = if decide (q = k) then content_at (ldisk w) q ++ text_of (Entries l)
                           else content_at (ldisk w) q.
Proof.
  intros Hl Hi Hf Hreg. destruct (aw_flush_at l i k w Hf Hi Hreg) as (d' & Ha & Hk & Hc).
  exists d'. split_and!; [|done..]. unfold AsyncWrite_turn.
  rewrite (io_bind_Ok _ _ w tt w)
    by (unfold aw_check, mbind, io_bind, get; by rewrite Hl).
  rewrite (io_bind_Ok _ _ w (Some i) w) by (unfold aw_load, mbind, io_bind, get; by rewrite Hl).
  exact Ha.
Qed.

Lemma drain_open f i k ls : ∀ w,
  Forall (λ l, FileName l = f) ls → dataQueue w = ls →
  lfiles w !! f = Some (Some i : pointer) → handles w !! i = Some (mkHandle k true) →
  dfaults (ldisk w) = [] → regular (ldisk w) k →
  ∃ w', drain_loop ls w = (Ok tt, w') ∧ dataQueue w' = [] ∧
    ∀ q, content_at (ldisk w') q =
      if decide (q = k) then content_at (ldisk w) q ++ texts f ls else content_at (ldisk w) q.
Proof.
  induction ls as [|l ls IH]; intros w Hn Hq Hl Hi Hf Hreg.
  { exists w. split_and!; [done..|]. intros q. unfold texts. case_decide; [by rewrite app_nil_r | done]. }
  apply Forall_cons in Hn as [Hn Hns]. unfold drain_loop. cbn [for_each].
  set (w1 := set_queue (tail (dataQueue w)) w).
  destruct (turn_open l i k w1) as (d' & Ht & [K1 K2 K3] & Hc); [by rewrite Hn | done..|].
  rewrite (io_bind_Ok _ _ w tt w1) by done. rewrite Ht.
  destruct (IH (set_ldisk d' w1)) as (w' & Hw & Hq' & Hc'); try done.
  { cbn. by rewrite Hq. }
  { by apply K3. }
  exists w'. split_and!; [exact Hw | done|]. intros q. rewrite Hc'. cbn. rewrite Hc.
  case_decide; [|done]. rewrite <- app_assoc. f_equal.
  change (l :: ls) with ([l] ++ ls). rewrite texts_app. f_equal. rewrite <- Hn. symmetry. apply texts_one.
Qed.

(** The first entry finds its log freed and opens another file. *)
Lemma drain_freed f l ls w :
  let s := folderPath w +:+ f in
  let k := resolve (ldisk w) (Clean s) in
  Forall (λ l, FileName l = f) (l :: ls) → dataQueue w = l :: ls →
  lfiles w !! f = None → dfaults (ldisk w) = [] → plain f →
  is_dir (tree (ldisk w)) (parent k) = true → is_dir (tree (ldisk w)) k = false →
  ∃ w', drain_loop (l :: ls) w = (Ok tt, w') ∧ dataQueue w' = [] ∧
    ∀ q, content_at (ldisk w') q =
      if decide (q = k) then content_at (ldisk w) q ++ texts f (l :: ls) else content_at (ldisk w) q.
Proof.
  intros s k Hn Hq Hl Hf Hpl Hp Hk.
  assert (s ≠ EmptyString) as Hs by (apply append_not_empty, Hpl).
  pose proof (ends_with_slash_app (folderPath w) f Hpl) as He. fold s in He.
  pose proof (os_OpenFile_calm s (ldisk w) Hf Hs He Hp Hk) as Hopen.
  destruct (os_OpenFile s true false (ldisk w)) as [r d'] eqn:Eo. cbn in Hopen. subst r.
  destruct (os_OpenFile_inv _ _ _ _ Hf Eo) as ([K1 K2 K3] & Hc & _ & _ & Hreg).
  set (i := length (handles w)).
  set (w1 := mkLogWriter (folderPath w) ls (queueSize w) (q_closed w)
               (<[f := Some i]> (lfiles w)) (handles w ++ [mkHandle k true]) d').
  pose proof (Forall_cons_1 _ _ _ Hn) as [Hnl Hns].
  assert (lfiles w1 !! f = Some (Some i : pointer)) as Hl1 by apply lookup_insert_eq.
  assert (handles w1 !! i = Some (mkHandle k true)) as Hi1.
  { unfold w1, i. cbn [handles]. by rewrite lookup_app_r, Nat.sub_diag by lia. }
  assert (aw_check l (set_queue ls w) = (Ok tt, w1)) as Hcheck.
  { unfold aw_check, mbind, io_bind, get. cbn [lfiles set_queue]. rewrite Hnl, Hl.
    unfold try_, open_log, on_ldisk, zoom, mbind, io_bind. cbn [folderPath set_queue ldisk]. fold s.
    by rewrite Eo. }
  destruct (turn_open l i k w1) as (d1 & Ht & [T1 T2 T3] & Hc1); [by rewrite Hnl | done..|].
  assert (AsyncWrite_turn l (set_queue ls w) = (Ok tt, set_ldisk d1 w1)) as Hturn.
  { rewrite <- Ht. unfold AsyncWrite_turn. rewrite (io_bind_Ok _ _ _ _ _ Hcheck).
    rewrite (io_bind_Ok _ _ w1 tt w1); [done|].
    unfold aw_check, mbind, io_bind, get. by rewrite Hnl, Hl1. }
  destruct (drain_open f i k ls (set_ldisk d1 w1)) as (w' & Hw & Hq' & Hc'); try done; [by apply T3|].
  exists w'. split_and!; [|done|].
  - unfold drain_loop. cbn [for_each]. rewrite (io_bind_Ok _ _ w tt (set_queue ls w))
      by (unfold modify; by rewrite Hq). rewrite Hturn. exact Hw.
  - intros q. rewrite Hc'. cbn. rewrite Hc1. cbn. rewrite Hc. case_decide; [|done].
    change (l :: ls) with ([l] ++ ls). rewrite texts_app, <- app_assoc. do 2 f_equal.
    rewrite <- Hnl. symmetry. apply texts_one.
Qed.

Lemma texts_chunks name header chunks :
  texts name (mkLog name [header] :: chunk_logs name chunks) =
  text_of (header :: filter (λ p, p ≠ EmptyString) chunks).
Proof.
  change (mkLog name [header] :: chunk_logs name chunks)
    with ([mkLog name [header]] ++ chunk_logs name chunks).
  change (header :: ?l) with ([header] ++ l).
  rewrite texts_app, text_of_app. f_equal; [apply (texts_one (mkLog name [header]))|].
  unfold chunk_logs. induction (filter _ chunks) as [|c cs IH]; [done|].
  rewrite fmap_cons. change (mkLog name [c] :: ?l) with ([mkLog name [c]] ++ l).
  change (c :: cs) with ([c] ++ cs). rewrite texts_app, text_of_app, <- IH. f_equal.
  apply (texts_one (mkLog name [c])).
Qed.

(** A stream that ends before the writer gets to its entries loses its log:
    [streamContainerLogs] frees the log when the stream ends, the writer then
    finds no file and opens one whose path is the directory and the name glued
    together without a slash. The log in the directory stays as it was, and
    header and chunks all go to the other file, beside the directory. *)
Theorem stream_outruns_writer folder n d w d' id alias started chunks :
  let name := id +:+ ".log" in
  let stray := resolve d' (Clean (folder +:+ name)) in
  NewLogWriter folder n d = (Ok w, d') → dfaults d = [] →
  ends_with_slash folder = false → plain name →
  Z.of_nat (length chunks) < n →
  is_dir (tree d') (log_at folder d' name) = false →
  is_dir (tree d') (parent stray) = true → is_dir (tree d') stray = false →
  ∃ w1 w2,
    streamContainerLogs id alias started (inr (chunks, None)) w = Some (Ok None, w1) ∧
    AsyncWrite w1 = (Ok tt, w2) ∧ dataQueue w2 = [] ∧
    stray ≠ log_at folder d' name ∧
    content_at (ldisk w2) (log_at folder d' name) = content_at d' (log_at folder d' name) ∧
    content_at (ldisk w2) stray = content_at d' stray ++
      text_of (log_header id alias started :: filter (λ p, p ≠ EmptyString) chunks).
Proof.
  intros name stray Hnew Hf Hslash Hpl Hn Hk Hp Hs.
  pose proof Hnew as Hdir. unfold NewLogWriter, with_name in Hdir.
  destruct (NewLogWriter_Ok _ _ _ _ _ Hnew Hf ltac:(lia)) as (Hne & Hw & Hq & Hd).
  rewrite bool_decide_eq_false_2 in Hdir by done. unfold mbind, io_bind in Hdir.
  destruct (os_MkdirAll (Clean folder) d) as [[[]|e|] dm] eqn:Em; [|done..].
  pose proof (os_MkdirAll_cwd _ _ _ _ Em) as Hcwd. apply os_MkdirAll_dir in Em.
  rewrite (proj2 (Z.ltb_ge _ _)) in Hdir by lia. unfold get, ret in Hdir.
  injection Hdir as Hweq ->.
  assert (queueSize w = Z.to_nat n ∧ lfiles w = ∅) as [Hsize Hempty] by (by rewrite <- Hweq).
  clear Hweq.
  pose proof (wo_folder _ _ _ Hw) as Hfold. pose proof (wo_calm _ _ _ Hw) as Hcalm.
  destruct (stream_alone id alias started chunks w)
    as (w1 & Hstream & Hfold1 & Hl1 & Hq1 & [K1 K2 _] & Hc1 & Hdirs); rewrite ?Hfold, ?Hd, ?Hq in *.
  { done. } { done. } { by rewrite Hempty. } { apply Hw. } { cbn. lia. } { done. }
  { by rewrite (resolve_cwd d). } { done. }
  destruct (drain_freed name (mkLog name [log_header id alias started]) (chunk_logs name chunks) w1)
    as (w2 & Hdrain & Hq2 & Hc2); rewrite ?Hfold1, ?(resolve_cwd d' (ldisk w1)) by done.
  { constructor; [done|]. unfold chunk_logs. by apply Forall_fmap, Forall_true. }
  { done. } { by rewrite Hl1, Hempty. } { done. } { done. }
  { by rewrite Hdirs. } { by rewrite Hdirs. }
  rewrite Hfold1, (resolve_cwd d' (ldisk w1)) in Hc2 by done. fold stray in Hc2.
  assert (stray ≠ log_at folder d' name) as Hstray.
  { destruct (resolve_glue d' folder name Hne Hpl Hslash) as (l & c & Hc & Hg).
    unfold stray. rewrite Hg. unfold log_at. by intros [_ [= ?]]%app_inj_2. }
  exists w1, w2. split_and!; [done| |done|done| |].
  - unfold AsyncWrite, mbind, io_bind, get. by rewrite Hq1.
  - by rewrite Hc2, decide_False, Hc1 by done.
  - by rewrite Hc2, decide_True, Hc1, texts_chunks by done.
Qed.

(** ** Freed in the middle of a turn *)

(** Between its check and its load the writer is defenceless: when the log is
    freed there, the type assertion panics, and the process with it. *)
Lemma free_panics_writer l s s' :
  writer s = WChecked l → log_step (EFree (FileName l)) s s' →
  writer s' = WChecked l ∧ (aw_load l (world s')).1 = Panic.
Proof.
  intros Hw Hs. inversion Hs as [| | |f w w' snd ph _ Hfree| | | |]; subst. cbn in *. split; [done|].
  unfold FreeFile, mbind, io_bind, get in Hfree. unfold aw_load, mbind, io_bind, get.
  destruct (lfiles w !! FileName l) as [p|] eqn:E.
  - destruct p; cbn in Hfree; unfold modify in Hfree; injection Hfree as <-; cbn;
      by rewrite lookup_delete_eq.
  - injection Hfree as <-. by rewrite E.
Qed.

(** After [Close] an entry that still finds its file cannot be queued: [Add]
    panics; so does a second [Close]. *)
Lemma Close_final w w' :
  Close w = (Ok tt, w') →
  q_closed w' = true ∧ (Close w').1 = Panic ∧
  ∀ e f, is_Some (lfiles w' !! f) → ∃ w'', Add e f w' = Some (Panic, w'').
Proof.
  unfold Close, mbind, io_bind, get. destruct (q_closed w) eqn:Ho; [done|]. unfold modify.
  assert (∀ l w0, q_closed w0 = true → ∀ r w1,
    for_each (λ kp : string * pointer, close_log kp.2) l w0 = (r, w1) → q_closed w1 = true) as Hall.
  { induction l as [|[k p] l IH]; intros w0 H0 r w1; cbn [for_each]; [by intros [= _ <-]|].
    destruct p; cbn; by apply IH. }
  intros H. apply Hall in H; [|done]. split_and!; [done | by rewrite H|].
  intros e f [p Hp]. unfold Add, at_once, mbind, bio_bind, add_file, mbind, io_bind, get, ret.
  rewrite Hp. unfold enqueue. rewrite H. by eexists.
Qed.

(** ** Witnesses *)

Definition log_disk : Disk := mkDisk ∅ [] [].
Definition log_start (folder : string) : LogWriter * Disk :=
  match NewLogWriter folder 100 log_disk with
  | (Ok w, d) => (w, d)
  | (_, d) => (mkLogWriter folder [] 0 false ∅ [] d, d)
  end.
Definition log_one : Log := mkLog "a.log" ["x"].
Definition log_added : LogWriter := (add_file "a.log" (log_start "logs").1).2.
Definition log_run : Sys := mkSys (set_queue [log_one] log_added) [] WIdle.

Lemma log_run_patient : patient (mkSys (log_start "logs").1 [] WIdle) [log_one] log_run.
Proof.
  apply (pt_tau _ _ (mkSys log_added [log_one] WIdle)).
  - apply (pt_add _ [] log_one (mkSys (log_start "logs").1 [] WIdle)); [constructor| |].
    + refine (bool_decide_unpack _ _). vm_compute. exact I.
    + apply (ls_add log_one _ _ []); [apply not_elem_of_nil | vm_compute; reflexivity].
  - apply (ls_send log_one log_added _ []). vm_compute. reflexivity.
Qed.

Lemma logs_delivered_witness :
  ∃ s', rtc (log_step ETau) log_run s' ∧ waiting s' = [] ∧
    content_at (ldisk (world s')) ["logs"; "a.log"] = text_of ["x"].
Proof.
  destruct (logs_delivered "logs" 100 log_disk _ (log_start "logs").2 _ _ eq_refl eq_refl eq_refl
    log_run_patient) as (_ & _ & s' & Hr & Hw & Hc).
  exists s'. split_and!; [exact Hr | exact Hw |].
  etrans; [exact (Hc "a.log" ltac:(refine (bool_decide_unpack _ _); vm_compute; exact I))|].
  vm_compute. reflexivity.
Defined.

Lemma stream_outruns_writer_witness :
  ∃ w1 w2,
    streamContainerLogs "con_1" "echo" "now" (inr (["hello"], None))
      (log_start "logs/containers").1 = Some (Ok None, w1) ∧
    AsyncWrite w1 = (Ok tt, w2) ∧
    content_at (ldisk w2) ["logs"; "containers"; "con_1.log"] = [] ∧
    content_at (ldisk w2) ["logs"; "containerscon_1.log"] =
      text_of [log_header "con_1" "echo" "now"; "hello"].
Proof.
  destruct (stream_outruns_writer "logs/containers" 100 log_disk (log_start "logs/containers").1
    (log_start "logs/containers").2 "con_1" "echo" "now" ["hello"])
    as (w1 & w2 & Hs & Ha & _ & _ & Hl & Hg).
  1-3, 5-8: vm_compute; reflexivity.
  - refine (bool_decide_unpack _ _). vm_compute. exact I.
  - exists w1, w2. split_and!; [exact Hs | exact Ha | exact Hl | exact Hg].
Defined.
