(* ===== verification/RaftConfig.v ===== *)
(** * The environment of a consensus node

    [internal/consensus/config]: its addresses, its directories and its peers. *)

From Stdlib Require Import Strings.Byte Strings.String.
From S2P Require Import Prelude.
From S2P Require Import Bytes.
From S2P Require Import Json.
From S2P Require Import JobDirs.
From S2P Require Import Environment.

(** src/internal/consensus/config/config.go:18-21 (PeerNodeConfig) *)
Record PeerNodeConfig := mkPeerNodeConfig { PeerNodeID : string; PeerNodeAddress : string }.

(** src/internal/consensus/config/config.go:7-16 (NodeConfig) *)
Record NodeConfig := mkNodeConfig {
  NodeID : string;
  NodePort : string;
  NodeAddress : string;
  ConsensusLogDirectory : string;
  LogDirectory : string;
  LogVerbosity : Z;
  LogOutputToStdErr : string;
  Peers : list PeerNodeConfig
}.

Definition zero_NodeConfig : NodeConfig :=
  mkNodeConfig EmptyString EmptyString EmptyString EmptyString EmptyString 0 EmptyString [].

Definition peer_member (o : PeerNodeConfig) (key _ : list byte) (v : json) : option PeerNodeConfig :=
  let '(mkPeerNodeConfig i a) := o in
  if key_is "node_id" key then x ← into_string i v; Some (mkPeerNodeConfig x a)
  else if key_is "node_address" key then x ← into_string a v; Some (mkPeerNodeConfig i x)
  else Some o.

Definition config_member (o : NodeConfig) (key _ : list byte) (v : json) : option NodeConfig :=
  let '(mkNodeConfig i p a c l g e ps) := o in
  if key_is "node_id" key then x ← into_string i v; Some (mkNodeConfig x p a c l g e ps)
  else if key_is "node_port" key then x ← into_string p v; Some (mkNodeConfig i x a c l g e ps)
  else if key_is "node_address" key then x ← into_string a v; Some (mkNodeConfig i p x c l g e ps)
  else if key_is "consensus_log_directory" key then
    x ← into_string c v; Some (mkNodeConfig i p a x l g e ps)
  else if key_is "log_directory" key then x ← into_string l v; Some (mkNodeConfig i p a c x g e ps)
  else if key_is "log_verbosity" key then x ← into_int g v; Some (mkNodeConfig i p a c l x e ps)
  else if key_is "log_output_location" key then
    x ← into_string e v; Some (mkNodeConfig i p a c l g x ps)
  else if key_is "peers" key then
    x ← into_slice (into_struct peer_member) (mkPeerNodeConfig EmptyString EmptyString) ps v;
    Some (mkNodeConfig i p a c l g e x)
  else Some o.

Definition unmarshal_config : list byte → option NodeConfig :=
  unmarshal config_member zero_NodeConfig.

(** src/internal/consensus/config/config.go:23-29 (ImportEnvironment) *)
Definition ImportEnvironment (configFile : string) : envio NodeConfig :=
  ImportFile unmarshal_config configFile.
