(* ===== verification/SchedConfig.v ===== *)
(** * The environment of a scheduler

    [internal/scheduler/config]: its ports, its peers and its clusters. *)

From Stdlib Require Import Strings.Byte Strings.String.
From S2P Require Import Prelude.
From S2P Require Import Bytes.
From S2P Require Import Json.
From S2P Require Import JobDirs.
From S2P Require Import Environment.

(** src/internal/scheduler/config/config.go:14-17 (PeerConfig) *)
Record PeerConfig := mkPeerConfig { PeerID : string; PeerPort : string }.

(** src/internal/scheduler/config/config.go:5-12 (SchedulerConfig) *)
Record SchedulerConfig := mkSchedulerConfig {
  SchedulerID : string;
  SchedulerPort : string;
  LogDirectory : string;
  PeerSchedulers : list PeerConfig;
  Clusters : list PeerConfig;
  RaftPorts : list string
}.

Definition zero_SchedulerConfig : SchedulerConfig :=
  mkSchedulerConfig EmptyString EmptyString EmptyString [] [] [].

Definition peer_member (o : PeerConfig) (key _ : list byte) (v : json) : option PeerConfig :=
  let '(mkPeerConfig i p) := o in
  if key_is "peer_id" key then x ← into_string i v; Some (mkPeerConfig x p)
  else if key_is "peer_port" key then x ← into_string p v; Some (mkPeerConfig i x)
  else Some o.

Definition into_peers : list PeerConfig → json → option (list PeerConfig) :=
  into_slice (into_struct peer_member) (mkPeerConfig EmptyString EmptyString).

Definition config_member (o : SchedulerConfig) (key _ : list byte) (v : json)
    : option SchedulerConfig :=
  let '(mkSchedulerConfig i p l ps cs rs) := o in
  if key_is "scheduler_id" key then x ← into_string i v; Some (mkSchedulerConfig x p l ps cs rs)
  else if key_is "scheduler_port" key then
    x ← into_string p v; Some (mkSchedulerConfig i x l ps cs rs)
  else if key_is "log_directory" key then
    x ← into_string l v; Some (mkSchedulerConfig i p x ps cs rs)
  else if key_is "peer_schedulers" key then
    x ← into_peers ps v; Some (mkSchedulerConfig i p l x cs rs)
  else if key_is "clusters" key then x ← into_peers cs v; Some (mkSchedulerConfig i p l ps x rs)
  else if key_is "raft_ports" key then
    x ← into_slice into_string EmptyString rs v; Some (mkSchedulerConfig i p l ps cs x)
  else Some o.

Definition unmarshal_config : list byte → option SchedulerConfig :=
  unmarshal config_member zero_SchedulerConfig.

(** src/internal/scheduler/config/config.go:19-25 (ImportEnvironment) *)
Definition ImportEnvironment (configFile : string) : envio SchedulerConfig :=
  ImportFile unmarshal_config configFile.
