(* ===== verification/SchedBoot.v ===== *)
(** * The start of a scheduler

    [src/cmd/scheduler_node]: what [init] makes of the configuration, and that the
    scheduler it makes meets what the rounds of the packer rely on. *)

From S2P Require Import Prelude.
From S2P Require Import Models.
From S2P Require Import Arbiter.
From S2P Require Import SchedState.
From S2P Require Import SchedExterns.
From S2P Require Import SchedJobs.
From S2P Require Import SchedService.
From S2P Require Import SchedPacker.
From S2P Require Import SchedReserve.
From S2P Require Import SchedRaft.
From S2P Require Import SchedRound.
From S2P Require Import SchedConfig.

(** src/cmd/scheduler_node/main.go:57-61 (init, the peers) *)
Definition add_peers (now : Z) (l : list PeerConfig) (ms : gmap string string * State)
    : gmap string string * State :=
  foldl (λ '(m, s) peer, (<[PeerID peer := PeerPort peer]> m, AddPeerScheduler now (PeerID peer) s)) ms l.

(** src/cmd/scheduler_node/main.go:62-66 (init, the clusters) *)
Definition add_clusters (now : Z) (l : list PeerConfig) (ms : gmap string string * State)
    : gmap string string * State :=
  foldl (λ '(m, s) c, (<[PeerID c := PeerPort c]> m, AddLocalCluster now (PeerID c) s)) ms l.

(** src/cmd/scheduler_node/main.go:55-70 (init, the components)

    [dial] and [alive]: which addresses can be dialled, which consensus nodes
    answer. [None] is the panic after an error. *)
Definition boot (po co : MapOrder) (dial alive : string → bool) (now : Z) (cfg : SchedulerConfig)
    : option (State * RaftClient * SchedulerControl) :=
  let state := NewState (SchedulerID cfg) (SchedulerPort cfg) in
  let '(peerMap, state) := add_peers now (PeerSchedulers cfg) (∅, state) in
  let '(clusterMap, state) := add_clusters now (Clusters cfg) (∅, state) in
  raft ← NewRaftClient dial alive (RaftPorts cfg);
  Some (state, raft, NewSchedulerControl po co dial peerMap clusterMap).

(** ** What the start sets up *)

Definition dialled (dial : string → bool) (l : list PeerConfig) : Prop :=
  ∀ c, c ∈ l → dial (PeerPort c) = true.

(** Every cluster and every peer of the state has its connection. *)
Record connected_to_all (s : State) (sc : SchedulerControl) : Prop := {
  ca_clusters : ∀ i, is_Some (clusters s !! i) →
    ∃ conn, clusterConns sc !! i = Some conn ∧ cc_nodeID conn = i;
  ca_peers : ∀ peer, peer ∈ peers s → ∃ conn, conn ∈ cliConns sc ∧ pc_nodeID conn = p_ID peer
}.

Lemma add_peers_spec now l : ∀ m s,
  let '(m', s') := add_peers now l (m, s) in
  same_jobs s s' ∧ clusters s' = clusters s ∧ clusterHeap s' = clusterHeap s ∧
  p_ID <$> peers s' = (p_ID <$> peers s) ++ (PeerID <$> l) ∧
  (∀ i, i ∈ PeerID <$> l → ∃ c, c ∈ l ∧ m' !! i = Some (PeerPort c)) ∧
  (∀ i, (i ∉ PeerID <$> l) → m' !! i = m !! i).
Proof.
  induction l as [|c l IH]; intros m s; cbn [add_peers foldl].
  - split; [by repeat split|]. split_and!; [done|done|by rewrite app_nil_r| |done].
    intros i Hi. by apply not_elem_of_nil in Hi.
  - specialize (IH (<[PeerID c := PeerPort c]> m) (AddPeerScheduler now (PeerID c) s)).
    fold (add_peers now l (<[PeerID c := PeerPort c]> m, AddPeerScheduler now (PeerID c) s)).
    destruct (add_peers _ _ _) as [m' s']. destruct IH as (H1 & H2 & H3 & H4 & H5 & H6).
    split_and!; try done.
    + rewrite H4. cbn. by rewrite fmap_app, <- app_assoc.
    + intros i Hi. destruct (decide (i ∈ PeerID <$> l)) as [Hl|Hl].
      * destruct (H5 i Hl) as (c' & ? & ?). exists c'. split; [by right | done].
      * rewrite fmap_cons in Hi. apply elem_of_cons in Hi as [->|?]; [|done]. exists c. split; [by left|].
        by rewrite H6, lookup_insert_eq.
    + intros i [Hne Hi]%not_elem_of_cons. rewrite H6 by done. by rewrite lookup_insert_ne.
Qed.

Lemma add_clusters_spec now l : ∀ m s,
  good s →
  let '(m', s') := add_clusters now l (m, s) in
  good s' ∧ same_jobs s s' ∧ peers s' = peers s ∧
  (∀ i, is_Some (clusters s' !! i) ↔ is_Some (clusters s !! i) ∨ i ∈ PeerID <$> l) ∧
  (∀ i, i ∈ PeerID <$> l → ∃ c, c ∈ l ∧ m' !! i = Some (PeerPort c)) ∧
  (∀ i, (i ∉ PeerID <$> l) → m' !! i = m !! i).
Proof.
  induction l as [|c l IH]; intros m s Hg; cbn [add_clusters foldl].
  - split; [done|]. split; [by repeat split|]. split_and!; [done| | |done].
    + intros i. rewrite fmap_nil, elem_of_nil. tauto.
    + intros i Hi. by apply not_elem_of_nil in Hi.
  - assert (good (AddLocalCluster now (PeerID c) s)) as Hg' by (by apply good_store).
    specialize (IH (<[PeerID c := PeerPort c]> m) _ Hg').
    fold (add_clusters now l (<[PeerID c := PeerPort c]> m, AddLocalCluster now (PeerID c) s)).
    destruct (add_clusters _ _ _) as [m' s']. destruct IH as (H1 & H2 & H3 & H4 & H5 & H6).
    split_and!; try done.
    + intros i. rewrite H4. unfold AddLocalCluster, store_cluster.
      cbn [clusters set_clusters set_clusterHeap]. rewrite fmap_cons, elem_of_cons.
      rewrite lookup_insert_is_Some. destruct (decide (i = PeerID c)); naive_solver.
    + intros i Hi. destruct (decide (i ∈ PeerID <$> l)) as [Hl|Hl].
      * destruct (H5 i Hl) as (c' & ? & ?). exists c'. split; [by right | done].
      * rewrite fmap_cons in Hi. apply elem_of_cons in Hi as [->|?]; [|done]. exists c. split; [by left|].
        by rewrite H6, lookup_insert_eq.
    + intros i [Hne Hi]%not_elem_of_cons. rewrite H6 by done. by rewrite lookup_insert_ne.
Qed.

(** The map of connections to clusters that [NewSchedulerControl] builds. *)
Lemma conns_lookup dial l : ∀ (m : gmap string ClusterConn) i,
  m !! i = Some (mkClusterConn i false) ∨ (∃ addr, (i, addr) ∈ l ∧ dial addr = true) →
  foldl (λ m '(i, addr), match new_cluster_conn dial i addr with
                         | Some conn => <[i := conn]> m
                         | None => m
                         end) m l !! i = Some (mkClusterConn i false).
Proof.
  induction l as [|[k a] l IH]; intros m i; cbn [foldl].
  - intros [?|(? & ?%not_elem_of_nil & _)]; done.
  - intros H. apply IH. unfold new_cluster_conn.
    destruct H as [Hm | (addr & [Heq|Hin]%elem_of_cons & Hd)]; [left|left|right; eauto].
    + destruct (dial a); [|done]. destruct (decide (i = k)) as [->|?];
        [by rewrite lookup_insert_eq | by rewrite lookup_insert_ne].
    + injection Heq as -> ->. by rewrite Hd, lookup_insert_eq.
Qed.

(** The state does not depend on what can be dialled. *)
Lemma boot_state po co dial alive now cfg s raft sc :
  boot po co dial alive now cfg = Some (s, raft, sc) →
  good s ∧ R s ∅ ∧
  (∀ i, is_Some (clusters s !! i) ↔ i ∈ PeerID <$> Clusters cfg) ∧
  p_ID <$> peers s = PeerID <$> PeerSchedulers cfg ∧
  ∃ pm cm, sc = NewSchedulerControl po co dial pm cm ∧
    (∀ i, i ∈ PeerID <$> PeerSchedulers cfg → ∃ c, c ∈ PeerSchedulers cfg ∧ pm !! i = Some (PeerPort c)) ∧
    (∀ i, i ∈ PeerID <$> Clusters cfg → ∃ c, c ∈ Clusters cfg ∧ cm !! i = Some (PeerPort c)).
Proof.
  intros Hb. unfold boot in Hb.
  pose proof (add_peers_spec now (PeerSchedulers cfg) ∅ (NewState (SchedulerID cfg) (SchedulerPort cfg))) as Hp.
  destruct (add_peers _ _ _) as [pm s1]. destruct Hp as (P1 & P2 & P3 & P4 & P5 & _).
  assert (R s1 ∅) as HR1 by (eapply R_same_jobs; [done | apply R_new]).
  assert (good s1) as Hg1.
  { destruct (good_new (SchedulerID cfg) (SchedulerPort cfg)) as [_ Hn Hc]. split; [by exists ∅|..].
    - destruct P1 as (_ & _ & _ & _ & ->). done.
    - unfold cluster_at. rewrite P2, P3. done. }
  pose proof (add_clusters_spec now (Clusters cfg) ∅ s1 Hg1) as Hc.
  destruct (add_clusters _ _ _) as [cm s2]. destruct Hc as (C1 & C2 & C3 & C4 & C5 & _).
  destruct (NewRaftClient _ _ _) as [raft'|]; [|done]. cbn in Hb. injection Hb as <- <- <-.
  split_and!; [done | by eapply R_same_jobs | | by rewrite C3, P4 | by exists pm, cm].
  intros i. rewrite C4, P2. cbn. rewrite lookup_empty. split; [by intros [[]|] | by right].
Qed.

(** A scheduler starts ready. When every address of the configuration can be
    dialled, what [init] makes is a state without jobs that implements the empty
    abstract scheduler and in which the packing loop may run, with exactly the
    clusters and the peers of the configuration, and every one of them has its
    connection: the conditions under which the rounds of the packer keep their
    promises. *)
Theorem boot_ready po co dial alive now cfg s raft sc :
  boot po co dial alive now cfg = Some (s, raft, sc) →
  dialled dial (PeerSchedulers cfg) → dialled dial (Clusters cfg) →
  good s ∧ R s ∅ ∧
  (∀ i, is_Some (clusters s !! i) ↔ i ∈ PeerID <$> Clusters cfg) ∧
  p_ID <$> peers s = PeerID <$> PeerSchedulers cfg ∧
  connected_to_all s sc.
Proof.
  intros Hb Hdp Hdc.
  destruct (boot_state _ _ _ _ _ _ _ _ _ Hb) as (Hg & HR & Hcl & Hpe & pm & cm & -> & Hpm & Hcm).
  split_and!; try done. split.
  - intros i Hi. apply Hcl in Hi. destruct (Hcm i Hi) as (c & Hc & Hm).
    exists (mkClusterConn i false). split; [|done]. cbn. apply conns_lookup. right.
    exists (PeerPort c). rewrite elem_of_range. auto.
  - intros peer Hin. assert (p_ID peer ∈ PeerID <$> PeerSchedulers cfg) as Hid.
    { rewrite <- Hpe. by apply (list_elem_of_fmap_2' p_ID _ peer). }
    destruct (Hpm _ Hid) as (c & Hc & Hm). exists (mkPeerConn (p_ID peer) false). split; [|done].
    cbn. apply list_elem_of_omap. exists (p_ID peer, PeerPort c). rewrite elem_of_range.
    split; [done|]. unfold new_peer_conn. by rewrite (Hdp c Hc).
Qed.

(** ** A cluster that could not be dialled *)

Lemma request_clusters_panics now sc rpc l : ∀ s,
  good s → (∀ p, p ∈ l → (p < length (clusterHeap s))%nat ∧
    (clusterConns sc !! c_ID (cluster_at s p) = None ∨
     ∃ conn resp, clusterConns sc !! c_ID (cluster_at s p) = Some conn ∧ Connection conn = true ∧
       rpc (c_ID (cluster_at s p)) = Some resp)) →
  (∃ p, p ∈ l ∧ clusterConns sc !! c_ID (cluster_at s p) = None) →
  (request_clusters now sc rpc l s).1 = Panic.
Proof.
  induction l as [|p l IH]; intros s Hg Hall (q & Hq & Hnone); [by apply not_elem_of_nil in Hq|].
  cbn [request_clusters]. unfold Cluster.
  destruct (Hall p ltac:(left)) as [Hlt [-> | (conn & resp & Hc & Hon & Hr)]]; [done|].
  rewrite Hc. unfold FetchClusterStatus. rewrite Hon, Hr. cbn [negb mbind option_bind ParseClusterStatus].
  set (s1 := UpdateCluster _ _ _ _ _ _ _).
  destruct (bystander_UpdateCluster now (c_ID (cluster_at s p))
    (wrap64 (cs_TotalNanoCpu resp - cs_AvailableNanoCpu resp))
    (wrap64 (cs_TotalMemoryBytes resp - cs_AvailableMemoryBytes resp))
    (cs_TotalNanoCpu resp) (cs_TotalMemoryBytes resp) s Hg) as (Hg1 & _ & Hlen & Hsame).
  change (UpdateCluster _ _ _ _ _ _ s) with s1 in Hg1, Hlen, Hsame.
  apply IH; [done| |].
  - intros r Hr'. destruct (Hall r ltac:(by right)) as [Hrlt Hrc]. rewrite Hsame by done.
    split; [lia | done].
  - exists q. apply elem_of_cons in Hq as [->|Hq]; [congruence|].
    destruct (Hall q ltac:(by right)) as [Hqlt _]. by rewrite Hsame.
Qed.

(** One bad address ends a scheduler. A cluster of the state without a
    connection - its address could not be dialled at the start - is skipped by
    no check: in every order of the map, a poll in which the other clusters answer
    dereferences the missing connection and panics. *)
Theorem missing_connection_panics ord now sc rpc activeEvictions s i :
  good s → is_Some (clusters s !! i) → clusterConns sc !! i = None →
  (∀ k, is_Some (clusters s !! k) → k ≠ i →
     ∃ conn resp, clusterConns sc !! k = Some conn ∧ Connection conn = true ∧ rpc k = Some resp) →
  (requestStates_tick ord now sc rpc activeEvictions s).1 = Panic.
Proof.
  intros Hg [p Hp] Hi Hothers. unfold requestStates_tick, requestClusterState.
  enough ((request_clusters now sc rpc (LocalClusters ord s) s).1 = Panic) as H.
  { destruct (request_clusters _ _ _ _ _) as [r s']. cbn in H. by subst r. }
  apply request_clusters_panics; [done| |].
  - intros q Hq. apply elem_of_range_vals in Hq as [k Hk].
    destruct (g_clusters _ Hg _ _ Hk) as [Hlt Hid]. split; [done|]. rewrite Hid.
    destruct (decide (k = i)) as [->|Hne]; [by left | right]. by apply Hothers; [eexists|].
  - exists p. destruct (g_clusters _ Hg _ _ Hp) as [_ Hid]. rewrite Hid. split; [|done].
    apply elem_of_range_vals. by exists i.
Qed.

(** ** Witnesses *)

Definition boot_config : SchedulerConfig :=
  mkSchedulerConfig "s1" "50050" "logs" [mkPeerConfig "s2" "h2:50050"]
    [mkPeerConfig "c1" "h3:50060"; mkPeerConfig "c2" "%zz"] ["h4:50051"; "h5:50051"].

Definition booted (dial : string → bool) : option (State * RaftClient * SchedulerControl) :=
  boot default_order default_order dial (λ a, bool_decide (a = "h5:50051")) 7 boot_config.

Lemma boot_ready_witness :
  match booted (λ _, true) with
  | Some (s, raft, sc) => connected_to_all s sc ∧ is_Some (clusters s !! "c2") ∧ rc_address raft = "h5:50051"
  | None => False
  end.
Proof.
  destruct (booted (λ _, true)) as [[[s raft] sc]|] eqn:E; [|vm_compute in E; discriminate E].
  destruct (boot_ready default_order default_order (λ _, true) (λ a, bool_decide (a = "h5:50051")) 7
    boot_config s raft sc E) as (_ & _ & Hc & _ & H).
  - intros c _. reflexivity.
  - intros c _. reflexivity.
  - split; [exact H|]. split.
    + apply Hc. refine (bool_decide_unpack _ _). vm_compute. exact I.
    + assert (rc_address <$> (booted (λ _, true) ≫= λ x, Some x.1.2) = Some "h5:50051") as Hr
        by (vm_compute; reflexivity).
      rewrite E in Hr. by injection Hr.
Defined.

Definition picky (a : string) : bool := bool_decide (a ≠ "%zz").

(** The connection to "c1" has come up. *)
Definition up (sc : SchedulerControl) : SchedulerControl :=
  mkSchedulerControl (cluster_monitor_step Ready <$> clusterConns sc) (cliConns sc).

Lemma missing_connection_panics_witness :
  match booted picky with
  | Some (s, _, sc) =>
      (requestStates_tick default_order 50 (up sc)
         (λ k, Some (mkClusterStatusResponse k "h3:50060" 8 1000 8 1000 [])) ∅ s).1 = Panic
  | None => False
  end.
Proof.
  destruct (booted picky) as [[[s raft] sc]|] eqn:E; [|vm_compute in E; discriminate E].
  destruct (boot_state _ _ _ _ _ _ _ _ _ E) as (Hg & _ & Hcl & _).
  assert (∀ k, clusterConns (up sc) !! k =
    cluster_monitor_step Ready <$> (booted picky ≫= λ x, clusterConns x.2 !! k)) as Hk.
  { intros k. rewrite E. cbn. by rewrite lookup_fmap. }
  apply (missing_connection_panics default_order 50 (up sc) _ ∅ s "c2"); [exact Hg| | |].
  - apply Hcl. refine (bool_decide_unpack _ _). vm_compute. exact I.
  - rewrite Hk. vm_compute. reflexivity.
  - intros k Hin%Hcl Hne. cbn in Hin.
    apply elem_of_cons in Hin as [->|Hin]; [|by apply list_elem_of_singleton in Hin].
    exists (mkClusterConn "c1" true), (mkClusterStatusResponse "c1" "h3:50060" 8 1000 8 1000 []).
    split; [rewrite Hk; vm_compute; reflexivity|]. split; reflexivity.
Defined.
