(* ===== verification/ClusterJobs.v ===== *)
(** * The job queue of a cluster

    [internal/cluster/scheduler/queue.go]: pending jobs in the arbiter's queue,
    active ones in a map, completed ones on a buffered channel. Jobs are shared
    through pointers: the state carries the heap of jobs, a pointer is an index
    in it. All methods hold the queue's mutex from start to end but for the sends
    on the channel, which are steps of their own. *)

From Stdlib Require Import Strings.Byte.
From S2P Require Import Prelude.
From S2P Require Import Arbiter.

(** src/internal/cluster/core/models.go:43-47 (Volume) *)
Record Volume := mkVolume { Type_ : string; Source : string; Target : string }.

(** src/internal/cluster/core/models.go:30-41 (Image)

    Images are never written after loading. *)
Record Image := mkImage {
  Alias : string;
  ImageName : string;
  Volumes : list Volume;
  Args : list string;
  NanoCPULimit : Z;
  MemoryBytesLimit : Z;
  Persistent : bool;
  Ports : gmap string string;
  MaxJobs : Z;
  Timeout : Z
}.

(** src/internal/cluster/core/models.go:7-15 (Job) *)
Record Job := mkJob {
  Id : string;
  JImage : Image;
  AssignedContainerID : string;
  Priority : Z;
  Payload : list byte;
  Response : list byte;
  Succeeded : bool
}.

(** src/internal/cluster/core/models.go:18-28 (NewJob) *)
Definition NewJob (id : string) (image : Image) (priority : Z) (payload : list byte) : Job :=
  mkJob id image EmptyString priority payload [] false.

(** src/internal/cluster/core/errors.go:6-11 (the errors of the queue) *)
Inductive QueueError :=
| ErrAlreadyPending
| ErrAlreadyRunning
| ErrQueue (msg jobId : string).

Abbreviation loc := nat.

(** src/internal/cluster/scheduler/queue.go:12-18 (Jobs)

    [completed] is the channel: what is buffered, oldest first, and whether it is
    closed. *)
Record Jobs := mkJobs {
  pending : Queue loc;
  active : gmap string loc;
  completed : list loc;
  closed : bool;
  heap : list Job
}.

Definition zero_image : Image := mkImage EmptyString EmptyString [] [] 0 0 false ∅ 0 0.
Definition deref (h : list Job) (p : loc) : Job :=
  default (mkJob EmptyString zero_image EmptyString 0 [] [] false) (h !! p).

(** src/internal/cluster/scheduler/queue.go:22-26 (CreateJobsQueue, the accessors) *)
Definition job_accessors (h : list Job) : Accessors loc := {|
  idFn := λ p, Id (deref h p);
  prioFn := λ p, Priority (deref h p);
  cpuFn := λ p, NanoCPULimit (JImage (deref h p));
  memFn := λ p, MemoryBytesLimit (JImage (deref h p))
|}.
Definition accs (q : Jobs) : Accessors loc := job_accessors (heap q).

(** src/internal/cluster/scheduler/queue.go:20-31 (CreateJobsQueue) *)
Definition CreateJobsQueue : Jobs := mkJobs NewQueue ∅ [] false [].

Definition set_pending v (q : Jobs) : Jobs := mkJobs v (active q) (completed q) (closed q) (heap q).
Definition set_active v (q : Jobs) : Jobs := mkJobs (pending q) v (completed q) (closed q) (heap q).
Definition set_completed v (q : Jobs) : Jobs := mkJobs (pending q) (active q) v (closed q) (heap q).
Definition set_heap v (q : Jobs) : Jobs :=
  mkJobs (pending q) (active q) (completed q) (closed q) v.
Definition write (f : Job → Job) (p : loc) (q : Jobs) : Jobs := set_heap (alter f p (heap q)) q.

Definition with_container v '(mkJob i im c pr pl r s) := mkJob i im v pr pl r s.
Definition with_result v w '(mkJob i im c pr pl r s) := mkJob i im c pr v r w.

(** A job that a caller has just made. *)
Definition allocate (j : Job) (q : Jobs) : loc * Jobs :=
  (length (heap q), set_heap (heap q ++ [j]) q).

(** ** Operations *)

(** src/internal/cluster/scheduler/queue.go:33-43 (Jobs.AddJob) *)
Definition AddJob (job : loc) (q : Jobs) : outcome QueueError unit * Jobs :=
  match active q !! Id (deref (heap q) job) with
  | Some _ => (Err ErrAlreadyRunning, q)
  | None => (Ok tt, set_pending (Push (accs q) job (pending q)) q)
  end.

(** src/internal/cluster/scheduler/queue.go:45-55 (Jobs.RemoveJob) *)
Definition RemoveJob (id : string) (q : Jobs) : outcome QueueError unit * Jobs :=
  match active q !! id with
  | Some _ => (Err (ErrQueue "is already running and cannot be removed" id), q)
  | None => (Ok tt, set_pending (RemoveByID id (pending q)) q)
  end.

(** src/internal/cluster/scheduler/queue.go:57-69 (Jobs.FindJob) *)
Definition FindJob (ord : MapOrder) (id : string) (q : Jobs) : outcome QueueError loc :=
  match PeekForHeuristic ord (λ p, bool_decide (Id (deref (heap q) p) = id)) (pending q) with
  | p :: _ => Ok p
  | [] => match active q !! id with
          | Some p => Ok p
          | None => Err (ErrQueue "not found" id)
          end
  end.

(** src/internal/cluster/scheduler/queue.go:71-75 (Jobs.PendingJobs) *)
Definition PendingJobs (ord : MapOrder) (q : Jobs) : list loc := Items ord (pending q).
(** src/internal/cluster/scheduler/queue.go:77-86 (Jobs.ActiveJobs) *)
Definition ActiveJobs (ord : MapOrder) (q : Jobs) : list loc := (range ord (active q)).*2.
(** src/internal/cluster/scheduler/queue.go:88-92 (Jobs.LenPending) *)
Definition LenPending (q : Jobs) : Z := Size (pending q).
(** src/internal/cluster/scheduler/queue.go:94-98 (Jobs.LenActive) *)
Definition LenActive (q : Jobs) : Z := wrap32 (Z.of_nat (size (active q))).

(** src/internal/cluster/scheduler/queue.go:100-110 (Jobs.MarkRunning) *)
Definition MarkRunning (id containerID : string) (q : Jobs) : outcome QueueError unit * Jobs :=
  match active q !! id with
  | Some job => (Ok tt, write (with_container containerID) job q)
  | None => (Err (ErrQueue "not found in active state" id), q)
  end.

Definition capacity : nat := 1000.

(** src/internal/cluster/scheduler/queue.go:127-127 (Jobs.MarkCompleted, the send)

    It panics when the channel is closed, and waits while 1000 jobs are buffered
    ([None]). *)
Definition send (job : loc) (q : Jobs) : option (outcome QueueError unit * Jobs) :=
  if closed q then Some (Panic, q)
  else if (length (completed q) <? capacity)%nat
       then Some (Ok tt, set_completed (completed q ++ [job]) q)
       else None.

(** src/internal/cluster/scheduler/queue.go:113-125 (Jobs.MarkCompleted, under the lock)

    The job to send, and the state when the lock is released. *)
Definition complete (id : string) (payload : list byte) (success : bool) (q : Jobs)
    : outcome QueueError loc * Jobs :=
  match active q !! id with
  | None => (Err (ErrQueue "is not active" id), q)
  | Some job =>
      (Ok job, write (with_result payload success) job (set_active (delete id (active q)) q))
  end.

(** src/internal/cluster/scheduler/queue.go:112-129 (Jobs.MarkCompleted)

    [meanwhile] is what others do before the send goes through. *)
Definition MarkCompleted (meanwhile : Jobs → Jobs) (id : string) (payload : list byte)
    (success : bool) (q : Jobs) : option (outcome QueueError unit * Jobs) :=
  match complete id payload success q with
  | (Ok job, q) => send job (meanwhile q)
  | (Err e, q) => Some (Err e, q)
  | (Panic, q) => Some (Panic, q)
  end.

(** src/internal/cluster/scheduler/queue.go:131-143 (Jobs.RollbackJob) *)
Definition RollbackJob (id : string) (q : Jobs) : outcome QueueError unit * Jobs :=
  match active q !! id with
  | Some job =>
      let q := set_active (delete id (active q)) q in
      let q := write (with_container EmptyString) job q in
      (Ok tt, set_pending (Push (accs q) job (pending q)) q)
  | None => (Err (ErrQueue "does not exist in active list" id), q)
  end.

(** src/internal/cluster/scheduler/queue.go:146-159 (Jobs.ClearAllJobs, under the lock)

    The jobs to send. *)
Definition clear (ord : MapOrder) (q : Jobs) : list loc * Jobs :=
  ((range ord (active q)).*2 ++ Items ord (pending q),
   set_pending (Clear (pending q)) (set_active ∅ q)).

(** Several sends in a row. *)
Fixpoint send_all (l : list loc) (q : Jobs) : option (outcome QueueError unit * Jobs) :=
  match l with
  | [] => Some (Ok tt, q)
  | job :: l =>
      match send job q with
      | Some (Ok _, q) => send_all l q
      | r => r
      end
  end.

(** src/internal/cluster/scheduler/queue.go:145-164 (Jobs.ClearAllJobs)

    Nothing takes from the channel while it sends: the case that blocks most. *)
Definition ClearAllJobs (ord : MapOrder) (q : Jobs) : option (outcome QueueError unit * Jobs) :=
  let '(l, q) := clear ord q in send_all l q.

(** src/internal/cluster/scheduler/queue.go:166-170 (Jobs.StreamCompleted, one job) *)
Definition stream_step (q : Jobs) : option (loc * Jobs) :=
  match completed q with job :: l => Some (job, set_completed l q) | [] => None end.

(** src/internal/cluster/scheduler/queue.go:172-177 (Jobs.Close)

    Closing a closed channel panics. *)
Definition Close (ord : MapOrder) (q : Jobs) : option (outcome QueueError unit * Jobs) :=
  match ClearAllJobs ord q with
  | Some (Ok _, q) =>
      Some (if closed q then (Panic, q)
            else (Ok tt, mkJobs (pending q) (active q) (completed q) true (heap q)))
  | r => r
  end.

(** Totals of the limits of some jobs. *)
Definition add_limits (h : list Job) (l : list loc) (acc : Z * Z) : Z * Z :=
  foldl (λ '(c, m) p, (wrap64 (c + NanoCPULimit (JImage (deref h p))),
                       wrap64 (m + MemoryBytesLimit (JImage (deref h p))))) acc l.

(** src/internal/cluster/scheduler/queue.go:179-194 (Jobs.QueueUtilization) *)
Definition QueueUtilization (ord : MapOrder) (q : Jobs) : Z * Z :=
  add_limits (heap q) (Items ord (pending q))
    (add_limits (heap q) (range ord (active q)).*2 (0, 0)).
(** src/internal/cluster/scheduler/queue.go:196-206 (Jobs.ActiveUtilization) *)
Definition ActiveUtilization (ord : MapOrder) (q : Jobs) : Z * Z :=
  add_limits (heap q) (range ord (active q)).*2 (0, 0).

(** src/internal/cluster/scheduler/queue.go:208-216 (Jobs.PendingJobTypes) *)
Definition PendingJobTypes (ord : MapOrder) (q : Jobs) : gmap string Z :=
  foldl (λ m p, let a := Alias (JImage (deref (heap q) p)) in
                <[a := wrap64 (default 0 (m !! a) + 1)]> m) ∅ (Items ord (pending q)).

Definition packing : string := "packing-in-progress".

(** src/internal/cluster/scheduler/queue.go:240-242 (Jobs.NextBestJob, handing a job out) *)
Definition activate (job : loc) (q : Jobs) : Jobs :=
  let q := write (with_container packing) job q in
  set_active (<[Id (deref (heap q) job) := job]> (active q)) q.

(** src/internal/cluster/scheduler/queue.go:218-257 (Jobs.NextBestJob) *)
Definition NextBestJob (freeContainerImageNames : list string) (freeCpus freeMem : Z) (q : Jobs)
    : option loc * Jobs :=
  let matching p := bool_decide (Alias (JImage (deref (heap q) p)) ∈ freeContainerImageNames) in
  let '(homogenousJob, pq) := PopBestFitHeuristic (accs q) freeCpus freeMem matching (pending q) in
  let '(highestPriorityJob, pq) := PopBestFit (accs q) freeCpus freeMem pq in
  let prio p := Priority (deref (heap q) p) in
  match highestPriorityJob, homogenousJob with
  | Some high, Some homo =>
      if prio high >? prio homo
      then (Some high, activate high (set_pending (Push (accs q) homo pq) q))
      else (Some homo, activate homo (set_pending (Push (accs q) high pq) q))
  | Some high, None => (Some high, activate high (set_pending pq q))
  | None, Some homo => (Some homo, activate homo (set_pending pq q))
  | None, None => (None, set_pending pq q)
  end.
