(* ===== verification/ClusterConfig.v ===== *)
(** * The environment of a cluster

    [internal/cluster/config]: the machine with its limits and its images. *)

From Stdlib Require Import Strings.Byte Strings.String.
From S2P Require Import Prelude.
From S2P Require Import Bytes.
From S2P Require Import Json.
From S2P Require Import JobDirs.
From S2P Require Import Environment.
From S2P Require Import Arbiter.
From S2P Require Import ClusterJobs.

Definition volume_member (o : Volume) (key _ : list byte) (v : json) : option Volume :=
  let '(mkVolume t s g) := o in
  if key_is "type" key then x ← into_string t v; Some (mkVolume x s g)
  else if key_is "source" key then x ← into_string s v; Some (mkVolume t x g)
  else if key_is "target" key then x ← into_string g v; Some (mkVolume t s x)
  else Some o.

Definition zero_Volume : Volume := mkVolume EmptyString EmptyString EmptyString.
Definition zero_Image : Image :=
  mkImage EmptyString EmptyString [] [] 0 0 false ∅ 0 0.

(** src/internal/cluster/core/models.go:30-41 (Image)

    Its members, by their [json] tags. *)
Definition image_member (o : Image) (key _ : list byte) (v : json) : option Image :=
  let '(mkImage a n vs args c m p ports j t) := o in
  if key_is "alias" key then x ← into_string a v; Some (mkImage x n vs args c m p ports j t)
  else if key_is "image_name" key then x ← into_string n v; Some (mkImage a x vs args c m p ports j t)
  else if key_is "volumes" key then
    x ← into_slice (into_struct volume_member) zero_Volume vs v;
    Some (mkImage a n x args c m p ports j t)
  else if key_is "args" key then
    x ← into_slice into_string EmptyString args v; Some (mkImage a n vs x c m p ports j t)
  else if key_is "NanoCPULimit" key then
    x ← into_int c v; Some (mkImage a n vs args x m p ports j t)
  else if key_is "memoryBytesLimit" key then
    x ← into_int m v; Some (mkImage a n vs args c x p ports j t)
  else if key_is "persistent" key then
    x ← into_bool p v; Some (mkImage a n vs args c m x ports j t)
  else if key_is "ports" key then
    x ← into_string_map ports v; Some (mkImage a n vs args c m p x j t)
  else if key_is "max_jobs" key then
    x ← into_int j v; Some (mkImage a n vs args c m p ports x t)
  else if key_is "timeout" key then
    x ← into_int t v; Some (mkImage a n vs args c m p ports j x)
  else Some o.

Definition unmarshal_image : list byte → option Image := unmarshal image_member zero_Image.

(** src/internal/cluster/config/config.go:19-22 (Limits) *)
Record Limits := mkLimits { MaxNanoCPULimit : Z; MaxMemoryBytesLimit : Z }.

(** src/internal/cluster/config/config.go:8-17 (Machine)

    [None] is a nil pointer. *)
Record Machine := mkMachine {
  MachineName : string;
  MachineDescription : string;
  SchedulerPort : string;
  LogDirectory : string;
  LogVerbosity : Z;
  JobPayloadDir : string;
  MLimits : option Limits;
  Images : list (option Image)
}.

Definition zero_Limits : Limits := mkLimits 0 0.
Definition zero_Machine : Machine :=
  mkMachine EmptyString EmptyString EmptyString EmptyString 0 EmptyString None [].

Definition limits_member (o : Limits) (key _ : list byte) (v : json) : option Limits :=
  let '(mkLimits c m) := o in
  if key_is "max_nano_cpu_limit" key then x ← into_int c v; Some (mkLimits x m)
  else if key_is "max_memory_bytes_limit" key then x ← into_int m v; Some (mkLimits c x)
  else Some o.

Definition machine_member (o : Machine) (key _ : list byte) (v : json) : option Machine :=
  let '(mkMachine n d p l g j m im) := o in
  if key_is "machine_name" key then x ← into_string n v; Some (mkMachine x d p l g j m im)
  else if key_is "machine_description" key then
    x ← into_string d v; Some (mkMachine n x p l g j m im)
  else if key_is "scheduler_port" key then x ← into_string p v; Some (mkMachine n d x l g j m im)
  else if key_is "log_directory" key then x ← into_string l v; Some (mkMachine n d p x g j m im)
  else if key_is "log_verbosity" key then x ← into_int g v; Some (mkMachine n d p l x j m im)
  else if key_is "job_payload_dir" key then x ← into_string j v; Some (mkMachine n d p l g x m im)
  else if key_is "Limits" key then
    x ← into_ptr (into_struct limits_member) zero_Limits m v; Some (mkMachine n d p l g j x im)
  else if key_is "Images" key then
    x ← into_slice (into_ptr (into_struct image_member) zero_Image) None im v;
    Some (mkMachine n d p l g j m x)
  else Some o.

Definition unmarshal_limits : list byte → option Limits := unmarshal limits_member zero_Limits.
Definition unmarshal_machine : list byte → option Machine := unmarshal machine_member zero_Machine.

(** src/internal/cluster/config/config.go:27-46 (ImportEnvironment) *)
Definition ImportEnvironment (config limitsFile imagesDirectory : string) : envio Machine :=
  machine ← ImportFile unmarshal_machine config;
  limits ← ImportFile unmarshal_limits limitsFile;
  images ← ImportDirectory unmarshal_image imagesDirectory ["example"];
  let '(mkMachine n d p l g j _ _) := machine in
  ret (mkMachine n d p l g j (Some limits) (Some <$> images)).

(** src/internal/cluster/config/config.go:48-50 (Machine.GetMachineLimits) *)
Definition GetMachineLimits (m : Machine) : outcome EnvError (Z * Z) :=
  match MLimits m with
  | Some l => Ok (MaxNanoCPULimit l, MaxMemoryBytesLimit l)
  | None => Panic
  end.

(** src/internal/cluster/config/config.go:52-54 (Machine.GetImages) *)
Definition GetImages (m : Machine) : list (option Image) := Images m.
