(* ===== verification/EnvWalk.v ===== *)
(** * What the loader of directories finds

    [GetAllFiles] against the tree of the disk: every regular file below the
    root, each once, in the order of [filepath.WalkDir], and [ImportDirectory]
    over the files it selects, by path and, where that is the same, by name. *)

From Stdlib Require Import Strings.Byte Strings.String.
From Stdlib Require Import Structures.OrderedTypeEx.
From S2P Require Import Prelude.
From S2P Require Import Bytes.
From S2P Require Import Json.
From S2P Require Import JobDirs.
From S2P Require Import Environment.
From S2P Require Import Paths.
From S2P Require Import Arbiter.
From S2P Require Import ClusterJobs.
From S2P Require Import ClusterConfig.

(** ** The order of a walk *)

Definition str_lt (a b : string) : Prop := String.compare a b = Lt.

Fixpoint path_lt (a b : list string) : Prop :=
  match a, b with
  | x :: a, y :: b => str_lt x y ∨ x = y ∧ path_lt a b
  | [], _ :: _ => True
  | _, [] => False
  end.

Lemma str_lt_trans a b c : str_lt a b → str_lt b c → str_lt a c.
Proof.
  unfold str_lt. intros Hab Hbc. apply String_as_OT.cmp_lt.
  apply String_as_OT.cmp_lt in Hab, Hbc. by eapply String_as_OT.lt_trans.
Qed.

Lemma str_lt_irrefl a : ¬ str_lt a a.
Proof.
  unfold str_lt. intros H. pose proof (String.compare_antisym a a) as H'. by rewrite H in H'.
Qed.

Lemma path_lt_irrefl a : ¬ path_lt a a.
Proof. induction a as [|x a IH]; simpl; intros H; [done|]. destruct H as [H%str_lt_irrefl | [_ H]]; auto. Qed.

Lemma name_lt_asym x y : name_lt x y = true → name_lt y x = false.
Proof.
  unfold name_lt. intros H. rewrite String.compare_antisym. by destruct (String.compare x.1 y.1).
Qed.

Lemma name_before x y : before name_lt x y ↔ str_lt x.1 y.1 ∨ x.1 = y.1.
Proof.
  unfold before, name_lt, str_lt. rewrite (String.compare_antisym y.1 x.1).
  destruct (String.compare x.1 y.1) eqn:E; simpl.
  - apply String.compare_eq_iff in E. split; [by right | done].
  - split; [by left | done].
  - split; [done|]. intros [? | Hxy]; [done|]. rewrite Hxy in E.
    pose proof (String.compare_antisym y.1 y.1) as H'. by rewrite E in H'.
Qed.

Lemma name_before_trans x y z :
  before name_lt x y → before name_lt y z → before name_lt x z.
Proof.
  rewrite !name_before. intros [H1|H1] [H2|H2].
  - left. by eapply str_lt_trans.
  - left. by rewrite <- H2.
  - left. by rewrite H1.
  - right. congruence.
Qed.

Lemma StronglySorted_distinct {A B} (f : A → B) (R S : A → A → Prop) l :
  (∀ x y, R x y → S x y ∨ f x = f y) → NoDup (f <$> l) → StronglySorted R l → StronglySorted S l.
Proof.
  intros HRS Hnd. induction 1 as [|x l Hl IH Hx]; [constructor|].
  rewrite fmap_cons in Hnd. apply NoDup_cons in Hnd as [Hn Hnd].
  constructor; [by apply IH|]. rewrite Forall_forall in Hx |- *. intros y Hy.
  destruct (HRS x y (Hx y Hy)) as [?|Hf]; [done|]. destruct Hn. rewrite Hf.
  by apply list_elem_of_fmap_2.
Qed.

Lemma StronglySorted_append {A} (R : A → A → Prop) l k :
  StronglySorted R l → StronglySorted R k → (∀ x y, x ∈ l → y ∈ k → R x y) →
  StronglySorted R (l ++ k).
Proof.
  induction 1 as [|x l Hl IH Hx]; intros Hk Hlk; [done|]. simpl. constructor.
  - apply IH; [done|]. intros y z Hy. apply Hlk. by right.
  - apply Forall_app. split; [done|]. apply Forall_forall. intros y. apply Hlk. by left.
Qed.

Lemma StronglySorted_map {A B} (f : A → B) (R : A → A → Prop) (S : B → B → Prop) l :
  (∀ x y, R x y → S (f x) (f y)) → StronglySorted R l → StronglySorted S (f <$> l).
Proof.
  intros Hf. induction 1 as [|x l Hl IH Hx]; [constructor|]. rewrite fmap_cons. constructor; [done|].
  apply Forall_fmap. eapply Forall_impl; [exact Hx|]. intros y. apply Hf.
Qed.

(** The names of a directory, each once. *)
Lemma children_names t k : NoDup (children t k).*1.
Proof.
  unfold children. rewrite stable_sort_perm.
  assert (NoDup (map_to_list t).*1) as Hnd by apply NoDup_fst_map_to_list.
  induction (map_to_list t) as [|[q n] l IH]; [constructor|].
  rewrite fmap_cons in Hnd. apply NoDup_cons in Hnd as [Hq Hnd]. cbn [omap list_omap].
  destruct (child k q) as [x|] eqn:E; cbn [mbind option_bind]; [|by apply IH].
  rewrite fmap_cons. apply NoDup_cons. split; [|by apply IH]. cbn [fst].
  intros ([y n'] & Hy & Hin)%list_elem_of_fmap. cbn [fst] in Hy. subst y.
  apply list_elem_of_omap in Hin as ([q' n''] & Hin & Hc).
  destruct (child k q') as [x'|] eqn:E'; [|done]. injection Hc as -> ->.
  assert (∀ q x, child k q = Some x → q = k ++ [x]) as Hchild.
  { clear. intros q x. unfold child. destruct q as [|a q]; [done|].
    case_bool_decide as Hp; [|done]. unfold parent in Hp. intros [l Hl]%last_Some.
    rewrite Hl, removelast_last in Hp. by rewrite Hl, Hp. }
  apply Hchild in E, E'. subst. apply Hq. by apply (list_elem_of_fmap_2' fst _ (k ++ [x], n')).
Qed.

Lemma children_sorted t k : StronglySorted (λ a b, str_lt a.1 b.1) (children t k).
Proof.
  eapply (StronglySorted_distinct fst); [|apply children_names|].
  - intros x y H. by apply name_before.
  - apply stable_sort_sorted; [apply name_lt_asym | apply name_before_trans].
Qed.

(** ** The walk *)

(** [r] leads from the node [n] at [k] to a regular file. *)
Fixpoint reaches (t : gmap (list string) node) (k : list string) (n : node) (r : list string) : Prop :=
  match r with
  | [] => ∃ c, n = Reg c
  | x :: r => n = Dir ∧ ∃ n', t !! (k ++ [x]) = Some n' ∧ reaches t (k ++ [x]) n' r
  end.

(** How many nodes are below [k]: it bounds the depth of a walk from there. *)
Definition weight (t : gmap (list string) node) (k : list string) : nat :=
  size (filter (λ '(q, _), below k q = true ∧ (length k < length q)%nat) t).

Lemma weight_child t k x n : t !! (k ++ [x]) = Some n → (weight t (k ++ [x]) < weight t k)%nat.
Proof.
  intros Hx. unfold weight. apply map_subset_size. split.
  - apply map_filter_subseteq_ext. intros q n' _. unfold below. rewrite length_app.
    intros [Hq Hl]. apply bool_decide_eq_true_1 in Hq. split; [|lia].
    apply bool_decide_eq_true_2. apply (f_equal (take (length k))) in Hq.
    rewrite take_take, take_app_length, Nat.min_l in Hq by lia. exact Hq.
  - intros Hsub.
    assert (filter (λ '(q, _), below k q = true ∧ (length k < length q)%nat) t !! (k ++ [x]) = Some n)
      as H.
    { apply map_lookup_filter_Some. split; [done|]. unfold below. rewrite take_app_length, length_app.
      split; [by apply bool_decide_eq_true_2 | simpl; lia]. }
    apply (lookup_weaken _ _ _ _ H) in Hsub. apply map_lookup_filter_Some in Hsub as [_ [_ Hl]]. lia.
Qed.

Lemma weight_size t k : (weight t k < S (size t))%nat.
Proof.
  unfold weight. apply Nat.lt_succ_r, map_subseteq_size, map_filter_subseteq.
Qed.

(** Where a walk from [p] ends, told by the way from there. *)
Definition onto (p : path) (r : list string) : path := (p.1, p.2 ++ r).

Definition finds (d : Disk) (p : path) (P : list string → Prop) (m : osio (list path)) : Prop :=
  ∃ rs, m d = (Ok (onto p <$> rs), d) ∧ StronglySorted path_lt rs ∧ ∀ r, r ∈ rs ↔ P r.

Lemma walk_all_finds d p (P : string → node → list string → Prop) f l :
  StronglySorted (λ a b, str_lt a.1 b.1) l →
  (∀ x n, (x, n) ∈ l → finds d (onto p [x]) (P x n) (f x n)) →
  finds d p (λ r, ∃ x n r', (x, n) ∈ l ∧ r = x :: r' ∧ P x n r') (walk_all f l).
Proof.
  induction 1 as [|[x n] l Hl IH Hx]; intros Hf.
  - exists []. split_and!; [done | constructor|]. intros r. split; [by intros ?%not_elem_of_nil|].
    by intros (? & ? & ? & ?%not_elem_of_nil & _).
  - destruct (Hf x n) as (rs1 & H1 & S1 & M1); [by left|].
    destruct IH as (rs2 & H2 & S2 & M2); [intros y m Hy; apply Hf; by right|].
    exists ((cons x <$> rs1) ++ rs2). split_and!.
    + cbn [walk_all]. unfold mbind, io_bind. rewrite H1. cbn. unfold mbind, io_bind. rewrite H2.
      unfold ret. rewrite fmap_app, <- list_fmap_compose. do 3 f_equal.
      apply list_fmap_ext. intros i r _. unfold onto, compose. cbn [fst snd]. by rewrite <- app_assoc.
    + apply StronglySorted_append; [|done|].
      * eapply StronglySorted_map; [|exact S1]. intros a b Hab. right. by split.
      * intros a b (a' & -> & _)%list_elem_of_fmap (y & m & b' & Hy & -> & _)%M2.
        rewrite Forall_forall in Hx. left. by apply (Hx (y, m)).
    + intros r. rewrite elem_of_app, M2, list_elem_of_fmap. split.
      * intros [(r' & -> & Hr%M1) | (y & m & r' & Hy & Hr)].
        -- exists x, n, r'. split_and!; [by left | done..].
        -- exists y, m, r'. split; [by right | done].
      * intros (y & m & r' & Hy & -> & Hr). apply elem_of_cons in Hy as [[= -> ->] | Hy].
        -- left. exists r'. split; [done|]. by apply M1.
        -- right. by exists y, m, r'.
Qed.

Lemma os_ReadDir_calm p d :
  dfaults d = [] → lookup_node (tree d) (resolve d p) = Some Dir →
  os_ReadDir p d = (Ok (children (tree d) (resolve d p)), d).
Proof.
  intros Hf Hn. unfold os_ReadDir, next_fault, mbind, io_bind. rewrite Hf.
  cbn. unfold get, mbind, io_bind. by rewrite Hn.
Qed.

Lemma sub_onto p x : plain x → sub p x = onto p [x].
Proof. intros Hx. unfold sub, onto. by rewrite clean_plain. Qed.

Lemma walk_finds d : dfaults d = [] → tree_ok (tree d) → ∀ fuel p n,
  lookup_node (tree d) (resolve d p) = Some n → (weight (tree d) (resolve d p) < fuel)%nat →
  finds d p (reaches (tree d) (resolve d p) n) (walk fuel p n).
Proof.
  intros Hf Ht. induction fuel as [|fuel IH]; intros p n Hn Hw; [lia|]. destruct n as [c|].
  - exists [[]]. split_and!.
    + unfold onto. cbn. rewrite app_nil_r. by destruct p.
    + by repeat constructor.
    + intros r. rewrite list_elem_of_singleton. split; [intros ->; by exists c|].
      destruct r; [done|]. by intros [? _].
  - destruct (walk_all_finds d p (λ x n, reaches (tree d) (resolve d p ++ [x]) n)
      (λ name, walk fuel (sub p name)) (children (tree d) (resolve d p))) as (rs & H & S & M).
    + apply children_sorted.
    + intros x n Hx%children_elem. pose proof (Ht _ _ _ Hx) as Hpl.
      rewrite <- sub_onto, <- resolve_sub by done. apply IH; rewrite resolve_sub by done.
      * by destruct (resolve d p).
      * pose proof (weight_child _ _ _ _ Hx). lia.
    + exists rs. split_and!; [|done|].
      * cbn [walk]. unfold mbind, io_bind. by rewrite os_ReadDir_calm.
      * intros r. rewrite M. split.
        -- intros (x & n & r' & Hx%children_elem & -> & Hr). cbn. by eauto.
        -- destruct r as [|x r]; [by intros [c ?]|]. intros (_ & n & Hx & Hr).
           exists x, n, r. by split_and!; [apply elem_of_children|..].
Qed.

(** ** All the files of a tree *)

(** Every node but the root is in a directory. *)
Definition closed (t : gmap (list string) node) : Prop :=
  t !! [] = None ∧ ∀ k x n, t !! (k ++ [x]) = Some n → lookup_node t k = Some Dir.

Lemma lookup_node_snoc t k x : lookup_node t (k ++ [x]) = t !! (k ++ [x]).
Proof. by destruct k. Qed.

Lemma closed_prefix t k x r n :
  closed t → lookup_node t (k ++ x :: r) = Some n →
  lookup_node t k = Some Dir ∧ is_Some (t !! (k ++ [x])).
Proof.
  intros [_ Hc]. revert n. induction r as [|y r IH] using rev_ind; intros n.
  - rewrite lookup_node_snoc. intros H. split; [by eapply Hc | done].
  - rewrite app_comm_cons, app_assoc, lookup_node_snoc. intros H%Hc. by eapply IH.
Qed.

Lemma reaches_lookup t r : closed t → ∀ k n,
  lookup_node t k = Some n → reaches t k n r ↔ ∃ c, lookup_node t (k ++ r) = Some (Reg c).
Proof.
  intros Hc. induction r as [|x r IH]; intros k n Hn; cbn [reaches].
  - rewrite app_nil_r, Hn. naive_solver.
  - assert (k ++ x :: r = (k ++ [x]) ++ r) as E by by rewrite <- app_assoc.
    split; [rewrite E|].
    + intros (_ & n' & Hx & Hr). apply (IH _ n'); [by rewrite lookup_node_snoc | done].
    + intros [c H]. destruct (closed_prefix _ _ _ _ _ Hc H) as [Hd [n' Hx]]. rewrite E in H.
      split; [congruence|]. exists n'. split; [done|].
      apply IH; [by rewrite lookup_node_snoc | by exists c].
Qed.

Lemma components_plain t k r n :
  tree_ok t → closed t → lookup_node t (k ++ r) = Some n → Forall plain r.
Proof.
  intros Ht [_ Hc]. revert n. induction r as [|x r IH] using rev_ind; intros n; [by constructor|].
  rewrite app_assoc, lookup_node_snoc. intros H. apply Forall_app. split; [by eapply IH, Hc|].
  constructor; [by eapply Ht | done].
Qed.

Lemma resolve_onto d p r : Forall plain r → resolve d (onto p r) = resolve d p ++ r.
Proof.
  induction r as [|x r IH] using rev_ind; intros Hr.
  - unfold onto. rewrite !app_nil_r. by destruct p.
  - apply Forall_app in Hr as [Hr [Hx _]%Forall_cons].
    replace (onto p (r ++ [x])) with (sub (onto p r) x).
    + by rewrite resolve_sub, IH, app_assoc.
    + rewrite sub_onto by done. unfold onto. cbn. by rewrite app_assoc.
Qed.

(** A disk that [GetAllFiles] can walk from [root]. *)
Record walkable (root : string) (d : Disk) : Prop := {
  wk_calm : dfaults d = [];
  wk_names : tree_ok (tree d);
  wk_closed : closed (tree d);
  wk_named : root ≠ EmptyString;
  wk_dir : lookup_node (tree d) (resolve d (Clean root)) = Some Dir
}.

(** The file at [r] below the root. *)
Definition file_name (root : string) (r : list string) : string :=
  path_string (onto (Clean root) r).
Definition file_at (root : string) (d : Disk) (r : list string) (c : list byte) : Prop :=
  lookup_node (tree d) (resolve d (Clean root) ++ r) = Some (Reg c).

Lemma Clean_file_name root r : Forall plain r → Clean (file_name root r) = onto (Clean root) r.
Proof.
  intros Hr. apply Clean_path_string, canonical_app; [apply canonical_Clean | done].
Qed.

Lemma os_Lstat_dir root d :
  dfaults d = [] → root ≠ EmptyString → lookup_node (tree d) (resolve d (Clean root)) = Some Dir →
  os_Lstat root d = (Ok Dir, d).
Proof.
  intros Hf Hr Hd. unfold os_Lstat, next_fault, settle_fault, mbind, io_bind. rewrite Hf.
  cbn. unfold get, mbind, io_bind. by rewrite bool_decide_eq_false_2, Hd.
Qed.

Lemma GetAllFiles_finds root d :
  walkable root d →
  ∃ rs, GetAllFiles root d = (Ok (file_name root <$> rs), d) ∧ StronglySorted path_lt rs ∧
    ∀ r, r ∈ rs ↔ ∃ c, file_at root d r c.
Proof.
  intros [Hf Ht Hc Hr Hd].
  destruct (walk_finds d Hf Ht (S (size (tree d))) (Clean root) Dir Hd (weight_size _ _))
    as (rs & Hw & Hs & Hm).
  exists rs. split_and!; [|done|].
  - unfold GetAllFiles. rewrite (io_bind_Ok _ _ d Dir d) by (by apply os_Lstat_dir).
    rewrite (io_bind_Ok _ _ d d d) by done. rewrite (io_bind_Ok _ _ _ _ _ Hw).
    unfold ret. by rewrite <- list_fmap_compose.
  - intros r. rewrite Hm. by apply reaches_lookup.
Qed.

(** On a disk without faults whose names are plain, [GetAllFiles] on a
    directory returns exactly the regular files below it, at any depth, each
    once and in the order of [filepath.WalkDir] (component by component); it
    never runs out of fuel and changes nothing. *)
Theorem GetAllFiles_complete root d :
  walkable root d →
  ∃ rs, GetAllFiles root d = (Ok (file_name root <$> rs), d) ∧ StronglySorted path_lt rs ∧
    NoDup (file_name root <$> rs) ∧ ∀ r, r ∈ rs ↔ ∃ c, file_at root d r c.
Proof.
  intros Hw. destruct (GetAllFiles_finds root d Hw) as (rs & H & Hs & Hm).
  exists rs. split_and!; [done..| |done]. destruct Hw as [_ Ht Hc _ _].
  apply NoDup_fmap_2_strong.
  - intros r r' [c Hr]%Hm [c' Hr']%Hm Heq. apply (f_equal Clean) in Heq.
    rewrite !Clean_file_name in Heq by by eapply components_plain.
    unfold onto in Heq. by simplify_eq/=.
  - clear -Hs. induction Hs as [|x l Hl IH Hx]; constructor; [|done].
    intros Hin. rewrite Forall_forall in Hx. by apply (path_lt_irrefl x), Hx.
Qed.

(** ** Importing a directory *)

Definition selected (exclude : list string) (file : string) : bool :=
  bool_decide (Ext file = ".json") && negb (existsb (Contains file) exclude).

Section import.
Context {T : Type} (Unmarshal : list byte → option T) (exclude : list string).

Lemma ImportFile_at root d r c :
  walkable root d → file_at root d r c →
  ImportFile Unmarshal (file_name root r) d =
    (match Unmarshal c with Some t => Ok t | None => Err (ErrParse (file_name root r)) end, d).
Proof.
  intros [Hf Ht Hc Hr Hd] H. pose proof (components_plain _ _ _ _ Ht Hc H) as Hp.
  unfold ImportFile.
  rewrite (io_bind_Ok _ _ d c d); [by destruct (Unmarshal c)|].
  unfold map_err, os_ReadFile, next_fault, settle_fault, mbind, io_bind. rewrite Hf. cbn.
  unfold get, mbind, io_bind.
  rewrite Clean_file_name, resolve_onto by done. unfold file_at in H.
  destruct (_ ++ r) as [|x l]; [done|]. cbn [lookup_node] in H. by rewrite H.
Qed.

Definition imported root d (rs : list (list string)) (result : outcome EnvError (list T)) : Prop :=
  (∃ ts, result = Ok ts ∧ Forall2 (λ r t, ∃ c, file_at root d r c ∧ Unmarshal c = Some t) rs ts) ∨
  (∃ r c, r ∈ rs ∧ file_at root d r c ∧ Unmarshal c = None ∧
     result = Err (ErrParse (file_name root r))).

Lemma import_files_imported root d rs :
  walkable root d → (∀ r, r ∈ rs → ∃ c, file_at root d r c) →
  ∃ result, import_files Unmarshal exclude (file_name root <$> rs) d = (result, d) ∧
    imported root d (filter (λ r, selected exclude (file_name root r) = true) rs) result.
Proof.
  intros Hw. induction rs as [|r rs IH]; intros Hrs.
  { eexists. split; [done|]. left. exists []. split; [done | constructor]. }
  destruct IH as (res & Hres & Himp); [intros r' Hr'; apply Hrs; by right|].
  rewrite fmap_cons. cbn [import_files]. rewrite filter_cons.
  destruct (decide (selected exclude (file_name root r) = true)) as [Hsel|Hsel].
  - unfold selected in Hsel. apply andb_true_iff in Hsel as [-> Hex].
    apply negb_true_iff in Hex. rewrite Hex. cbn [negb].
    destruct (Hrs r) as [c Hc]; [by left|].
    destruct (Unmarshal c) as [t|] eqn:Et.
    + rewrite (io_bind_Ok _ _ d t d) by (by rewrite (ImportFile_at _ _ _ c), Et).
      destruct Himp as [(ts & -> & Hts) | (r' & c' & Hr' & Hc' & He & ->)].
      * rewrite (io_bind_Ok _ _ _ _ _ Hres). eexists. split; [done|]. left.
        exists (t :: ts). split; [done|]. constructor; [by exists c | done].
      * rewrite (io_bind_Err _ _ _ _ _ Hres). eexists. split; [done|]. right.
        exists r', c'. split_and!; [by right | done..].
    + rewrite (io_bind_Err _ _ d (ErrParse (file_name root r)) d)
        by (by rewrite (ImportFile_at _ _ _ c), Et).
      eexists. split; [done|]. right. exists r, c. split_and!; [by left | done..].
  - exists res. split; [|done]. unfold selected in Hsel.
    destruct (bool_decide (Ext _ = _)); [|done].
    destruct (existsb _ _); [done|]. by destruct Hsel.
Qed.

(** What [ImportDirectory] does as it is written: the exclusion is matched with paths. *)
Lemma ImportDirectory_by_path root d :
  walkable root d →
  ∃ rs result, ImportDirectory Unmarshal root exclude d = (result, d) ∧
    StronglySorted path_lt rs ∧ (∀ r, r ∈ rs ↔ ∃ c, file_at root d r c) ∧
    imported root d (filter (λ r, selected exclude (file_name root r) = true) rs) result.
Proof.
  intros Hw. destruct (GetAllFiles_finds root d Hw) as (rs & H & Hs & Hm).
  destruct (import_files_imported root d rs Hw) as (res & Hres & Himp); [intros r; apply Hm|].
  exists rs, res. split_and!; [|done..]. unfold ImportDirectory.
  rewrite (io_bind_Ok _ _ d (file_name root <$> rs) d); [done|]. unfold map_err. by rewrite H.
Qed.

(** ** The name of a file *)

Definition name_of (r : list string) : string := default EmptyString (last r).

(** The excluded texts occur in the paths of the files only where they are meant to,
    in the names. *)
Definition names_only root d : Prop :=
  ∀ r c e, file_at root d r c → e ∈ exclude → Contains (file_name root r) e = true →
    Contains (name_of r) e = true.

Lemma Contains_suffix s t e : Contains t e = true → Contains (s +:+ t) e = true.
Proof.
  intros H. induction s as [|a s IH]; [done|]. change (String a s +:+ t) with (String a (s +:+ t)).
  cbn [Contains]. by rewrite IH, orb_true_r.
Qed.

Lemma Ext_from_slash s x acc : Ext_from (s +:+ "/" +:+ x) acc = Ext x.
Proof.
  revert acc. induction s as [|a s IH]; intros acc; [done|].
  change (String a s +:+ "/" +:+ x) with (String a (s +:+ "/" +:+ x)). cbn [Ext_from].
  by case_bool_decide; [|case_bool_decide]; apply IH.
Qed.

(** A path ends with the name, after a slash if there is anything before. *)
Lemma path_string_snoc b cs x :
  path_string (b, cs ++ [x]) = x ∨ ∃ s, path_string (b, cs ++ [x]) = s +:+ "/" +:+ x.
Proof.
  unfold path_string. cbn [fst snd]. destruct cs as [|c cs].
  - destruct b; [right; by exists EmptyString | by left].
  - right. destruct b; cbn [app]; change (c :: cs ++ [x]) with ((c :: cs) ++ [x]).
    + exists ("/" +:+ String.concat "/" (c :: cs)).
      rewrite (concat_snoc (c :: cs) x) by done. by rewrite !append_assoc.
    + exists (String.concat "/" (c :: cs)).
      rewrite (concat_snoc (c :: cs) x) by done. by rewrite !append_assoc.
Qed.

Lemma filter_agree {A} (P Q : A → Prop) `{∀ x, Decision (P x), ∀ x, Decision (Q x)} (l : list A) :
  (∀ x, x ∈ l → P x ↔ Q x) → filter P l = filter Q l.
Proof.
  induction l as [|x l IH]; intros H1; [done|]. rewrite !filter_cons.
  rewrite (decide_ext (P x) (Q x)) by (apply H1; left).
  rewrite IH by (intros y Hy; apply H1; by right). done.
Qed.

Lemma file_at_snoc root d r c : walkable root d → file_at root d r c → ∃ r' x, r = r' ++ [x].
Proof.
  intros [_ _ _ _ Hd] H. destruct r as [|x r _] using rev_ind; [|eauto].
  unfold file_at in H. rewrite app_nil_r in H. congruence.
Qed.

Lemma selected_name root d r c :
  walkable root d → names_only root d → file_at root d r c →
  selected exclude (file_name root r) = selected exclude (name_of r).
Proof.
  intros Hw Hn H. pose proof (λ e, Hn r c e H) as Hx.
  destruct (file_at_snoc _ _ _ _ Hw H) as (r' & x & ->). unfold name_of in *.
  rewrite last_snoc in *. cbn [default from_option id] in *. unfold file_name, onto in *.
  rewrite app_assoc in *. unfold selected.
  destruct (path_string_snoc (Clean root).1 ((Clean root).2 ++ r') x) as [E|[s E]]; rewrite E in *; [done|].
  f_equal; [apply bool_decide_ext; unfold Ext at 1; by rewrite (Ext_from_slash s x EmptyString)|].
  f_equal. apply eq_bool_prop_intro.
  rewrite !Is_true_true, !existsb_exists.
  split; intros (e & He & Hc); exists e; (split; [done|]).
  - apply Hx; [by apply list_elem_of_In | done].
  - by apply Contains_suffix, Contains_suffix.
Qed.

(** C24: [ImportDirectory] reads the [.json] files below the directory, at any
    depth and in the order of the walk, leaves out those whose name contains an
    excluded text, and returns their decoded values in that order; when one of them
    does not decode it returns an error that names such a file, and nothing else.
    This is for a directory that the disk lets it walk and read without a fault, and
    in which the excluded texts occur in the path of a file only within its name: the
    code matches them with the whole path, see [ImportDirectory_excluded_root]. *)
Theorem ImportDirectory_imports root d :
  walkable root d → names_only root d →
  ∃ rs result, ImportDirectory Unmarshal root exclude d = (result, d) ∧
    StronglySorted path_lt rs ∧ (∀ r, r ∈ rs ↔ ∃ c, file_at root d r c) ∧
    imported root d (filter (λ r, selected exclude (name_of r) = true) rs) result.
Proof.
  intros Hw Hn. destruct (ImportDirectory_by_path root d Hw) as (rs & res & H & Hs & Hm & Hi).
  exists rs, res. split_and!; [done..|].
  rewrite (filter_agree _ (λ r, selected exclude (file_name root r) = true)); [done|].
  intros r [c Hr]%Hm. by rewrite (selected_name root d r c).
Qed.

(** ** An exclusion that hits the directory *)

Lemma prefix_app e s t : String.prefix e s = true → String.prefix e (s +:+ t) = true.
Proof.
  revert s. induction e as [|a e IH]; intros s H; [by destruct (s +:+ t)|].
  destruct s as [|b s]; [done|]. change (String b s +:+ t) with (String b (s +:+ t)).
  cbn [String.prefix] in *. destruct (Ascii.ascii_dec a b); [by apply IH | done].
Qed.

Lemma Contains_app s t e : Contains s e = true → Contains (s +:+ t) e = true.
Proof.
  induction s as [|a s IH]; cbn [Contains]; intros H; apply orb_true_iff in H as [H|H].
  - apply (prefix_app _ _ t) in H. change (EmptyString +:+ t) with t in *.
    destruct t; cbn [Contains]; by rewrite H.
  - done.
  - apply (prefix_app _ _ t) in H. change (String a s +:+ t) with (String a (s +:+ t)) in *.
    cbn [Contains]. by rewrite H.
  - change (String a s +:+ t) with (String a (s +:+ t)). cbn [Contains].
    rewrite IH by done. by rewrite orb_true_r.
Qed.

Lemma concat_app cs r :
  cs ≠ [] → ∃ t, String.concat "/" (cs ++ r) = String.concat "/" cs +:+ t.
Proof.
  intros Hne. induction cs as [|c cs IH]; [done|]. destruct cs as [|c' cs].
  - destruct r as [|x r]; [exists EmptyString | by eexists].
    change (c = c +:+ EmptyString). by rewrite append_nil_r.
  - destruct IH as [t Ht]; [done|]. exists t.
    change (String.concat "/" ((c :: c' :: cs) ++ r))
      with (c +:+ "/" +:+ String.concat "/" ((c' :: cs) ++ r)).
    rewrite Ht. change (String.concat "/" (c :: c' :: cs))
      with (c +:+ "/" +:+ String.concat "/" (c' :: cs)). by rewrite !append_assoc.
Qed.

Lemma path_string_app p r : p.2 ≠ [] → ∃ t, path_string (onto p r) = path_string p +:+ t.
Proof.
  intros Hne. destruct (concat_app p.2 r Hne) as [t Ht]. exists t. unfold path_string, onto.
  cbn [fst snd]. destruct p as [b cs]. cbn [fst snd] in *.
  destruct b; [rewrite Ht; by rewrite <- append_assoc|].
  destruct cs as [|c cs]; [done|]. exact Ht.
Qed.

(** The exclusion is meant for the names of files, but it is matched with
    the whole path: when the path of the directory itself contains an excluded
    text, [ImportDirectory] succeeds with no file at all, whatever is in the
    directory. *)
Theorem ImportDirectory_excluded_root root d e :
  walkable root d → (Clean root).2 ≠ [] →
  e ∈ exclude → Contains (path_string (Clean root)) e = true →
  ImportDirectory Unmarshal root exclude d = (Ok [], d).
Proof.
  intros Hw Hne He Hc. destruct (GetAllFiles_finds root d Hw) as (rs & H & _ & _).
  unfold ImportDirectory.
  rewrite (io_bind_Ok _ _ d (file_name root <$> rs) d) by (unfold map_err; by rewrite H).
  clear H. induction rs as [|r rs IH]; [done|]. rewrite fmap_cons. cbn [import_files].
  assert (existsb (Contains (file_name root r)) exclude = true) as ->.
  { apply existsb_exists. exists e. split; [by apply list_elem_of_In|].
    destruct (path_string_app (Clean root) r Hne) as [t Ht]. unfold file_name. rewrite Ht.
    by apply Contains_app. }
  by destruct (bool_decide _).
Qed.
End import.

(** ** The environment of a cluster *)

(** [ImportEnvironment] takes the limits and the images from their own files,
    whatever the file of the machine says of them, and fails when one of the
    three cannot be read. *)
Lemma ImportEnvironment_parts config limitsFile imagesDirectory d m d' :
  ImportEnvironment config limitsFile imagesDirectory d = (Ok m, d') →
  ∃ m0 l images d1 d2,
    ImportFile unmarshal_machine config d = (Ok m0, d1) ∧
    ImportFile unmarshal_limits limitsFile d1 = (Ok l, d2) ∧
    ImportDirectory unmarshal_image imagesDirectory ["example"] d2 = (Ok images, d') ∧
    GetMachineLimits m = Ok (MaxNanoCPULimit l, MaxMemoryBytesLimit l) ∧
    GetImages m = Some <$> images ∧ MachineName m = MachineName m0.
Proof.
  unfold ImportEnvironment, mbind, io_bind.
  destruct (ImportFile _ config d) as [[m0|e|] d1] eqn:E1; [|done..].
  destruct (ImportFile _ limitsFile d1) as [[l|e|] d2] eqn:E2; [|done..].
  destruct (ImportDirectory _ _ _ d2) as [[images|e|] d3] eqn:E3; [|done..].
  destruct m0. intros [= <- <-]. eexists _, _, _, _, _. by split_and!.
Qed.

(** ** Witnesses *)

Definition well_formed (t : gmap (list string) node) : Prop :=
  map_Forall (λ q _, match last q with
                     | None => False
                     | Some x => plain x ∧ is_dir t (parent q) = true
                     end) t.

#[export] Instance well_formed_dec t : Decision (well_formed t).
Proof. apply map_Forall_dec. intros q _. destruct (last q); apply _. Defined.

Lemma well_formed_ok t : well_formed t → tree_ok t ∧ closed t.
Proof.
  intros H. split; [|split].
  - intros k x n Hx%H. cbn in Hx. by rewrite last_snoc in Hx; destruct Hx.
  - destruct (t !! []) eqn:E; [|done]. by apply H in E.
  - intros k x n Hx%H. cbn in Hx. rewrite last_snoc in Hx. destruct Hx as [_ Hx].
    unfold parent in Hx. rewrite removelast_last in Hx. unfold is_dir in Hx.
    by destruct (lookup_node t k) as [[]|].
Qed.

(** The directories of the example of the repository, with one more image. *)
Definition gpu_json : list byte :=
  text "{'alias':'gpu','image_name':'tensorflow/tensorflow:latest-gpu','args':['python3','/app/train.py'],'nanoCPULimit':2000000000,'persistent':false,'max_jobs':100,'timeout':3600}".

Definition env_disk : Disk :=
  mkDisk (list_to_map
    [(["srv"], Dir); (["srv"; "images"], Dir); (["srv"; "images"; "gpu.json"], Reg gpu_json);
     (["srv"; "images"; "notes.txt"], Reg []); (["srv"; "images"; "example.json"], Reg []);
     (["srv"; "config"], Dir); (["srv"; "config"; "cluster-example"], Dir);
     (["srv"; "config"; "cluster-example"; "images"], Dir);
     (["srv"; "config"; "cluster-example"; "images"; "gpu.json"], Reg gpu_json)])
    ["srv"] [].

Definition gpu : Image :=
  mkImage "gpu" "tensorflow/tensorflow:latest-gpu" [] ["python3"; "/app/train.py"]
    2000000000 0 false ∅ 100 3600.

Lemma env_walkable root :
  root ≠ EmptyString → lookup_node (tree env_disk) (resolve env_disk (Clean root)) = Some Dir →
  walkable root env_disk.
Proof.
  intros Hr Hd. destruct (well_formed_ok (tree env_disk)) as [Ht Hc].
  - refine (bool_decide_unpack _ _). vm_compute. exact I.
  - by split.
Qed.

Lemma GetAllFiles_complete_witness :
  ∃ rs, GetAllFiles "images/" env_disk = (Ok (file_name "images/" <$> rs), env_disk) ∧
    ["gpu.json"] ∈ rs ∧ ["notes.txt"] ∈ rs.
Proof.
  destruct (GetAllFiles_complete "images/" env_disk) as (rs & H & _ & _ & Hm).
  - by apply env_walkable.
  - exists rs. split_and!; [exact H | apply Hm; by exists gpu_json | apply Hm; by exists []].
Defined.

(** The only text "example" is in the name of a file. *)
Lemma env_names_only : names_only ["example"] "images" env_disk.
Proof.
  intros r c e H ->%list_elem_of_singleton. unfold file_at in H.
  change (resolve env_disk (Clean "images")) with ["srv"; "images"] in H. cbn [lookup_node app] in H.
  apply elem_of_map_to_list in H. revert H.
  assert (forallb (λ qn : list string * node, match qn.1 with
      | _ :: b :: r => implb (bool_decide (b = "images") && Contains (file_name "images" r) "example")
                         (Contains (name_of r) "example")
      | _ => true
      end) (map_to_list (tree env_disk)) = true) as Ha by (vm_compute; reflexivity).
  rewrite forallb_forall in Ha. intros H%list_elem_of_In%Ha Hc. cbn [fst] in H.
  by rewrite bool_decide_eq_true_2, Hc in H.
Qed.

Lemma ImportDirectory_imports_witness :
  ∃ rs, (["gpu.json"] ∈ rs) ∧
    ImportDirectory unmarshal_image "images" ["example"] env_disk = (Ok [gpu], env_disk) ∧
    imported unmarshal_image "images" env_disk
      (filter (λ r, selected ["example"] (name_of r) = true) rs) (Ok [gpu]).
Proof.
  destruct (ImportDirectory_imports unmarshal_image ["example"] "images" env_disk)
    as (rs & res & H & _ & Hm & Hi).
  - by apply env_walkable.
  - apply env_names_only.
  - assert (ImportDirectory unmarshal_image "images" ["example"] env_disk = (Ok [gpu], env_disk)) as E
      by (vm_compute; reflexivity).
    rewrite E in H. injection H as <-. exists rs. split_and!; [apply Hm; by exists gpu_json | exact E | exact Hi].
Defined.

Lemma ImportDirectory_excluded_root_witness :
  file_at "config/cluster-example/images/" env_disk ["gpu.json"] gpu_json ∧
  ImportDirectory unmarshal_image "config/cluster-example/images/" ["example"] env_disk =
    (Ok [], env_disk).
Proof.
  split; [done|].
  apply (ImportDirectory_excluded_root unmarshal_image ["example"] _ env_disk "example").
  - by apply env_walkable.
  - vm_compute. discriminate.
  - by left.
  - vm_compute. reflexivity.
Defined.
