(* ===== verification/ClusterQueue.v ===== *)
(** * The life of a job in a cluster

    An abstract queue maps the ids that the cluster holds to pending or active;
    the detailed one of [ClusterJobs] implements it, and [NextBestJob] picks what
    it promises. *)

From Stdlib Require Import Strings.Byte.
From S2P Require Import Prelude.
From S2P Require Import Arbiter.
From S2P Require Import ClusterJobs.

Inductive phase := PPending | PActive.

#[export] Instance phase_eq_dec : EqDecision phase.
Proof. solve_decision. Defined.

Ltac fields :=
  unfold write;
  cbn [pending active completed closed heap set_pending set_active set_completed set_heap].

(** ** Writing to the heap *)

Definition keeps_rank (f : Job → Job) : Prop :=
  ∀ j, Id (f j) = Id j ∧ Priority (f j) = Priority j ∧ JImage (f j) = JImage j.

Lemma keeps_container v : keeps_rank (with_container v).
Proof. by intros []. Qed.
Lemma keeps_result v w : keeps_rank (with_result v w).
Proof. by intros []. Qed.
#[export] Hint Resolve keeps_container keeps_result : hive.

Lemma deref_written f p h x :
  keeps_rank f →
  Id (deref (alter f p h) x) = Id (deref h x) ∧
  Priority (deref (alter f p h) x) = Priority (deref h x) ∧
  JImage (deref (alter f p h) x) = JImage (deref h x).
Proof.
  intros Hf. unfold deref. destruct (decide (x = p)) as [->|Hne].
  - rewrite list_lookup_alter_eq. destruct (h !! p) as [j|]; [apply Hf | done].
  - by rewrite list_lookup_alter_ne.
Qed.

Lemma written_Id f p h x : keeps_rank f → Id (deref (alter f p h) x) = Id (deref h x).
Proof. intros Hf. by destruct (deref_written f p h x Hf). Qed.

Lemma queue_wf_written f p h pq :
  keeps_rank f → queue_wf (job_accessors h) pq → queue_wf (job_accessors (alter f p h)) pq.
Proof.
  intros Hf. apply queue_wf_ext. intros x _. simpl.
  destruct (deref_written f p h x Hf) as (-> & -> & ->). done.
Qed.

(** ** The refinement relation *)

Record QR (q : Jobs) (m : gmap string phase) : Prop := {
  Q_pending i : is_Some (items (pending q) !! i) ↔ m !! i = Some PPending;
  Q_active i : is_Some (active q !! i) ↔ m !! i = Some PActive;
  Q_heap i p : active q !! i = Some p → Id (deref (heap q) p) = i ∧ (p < length (heap q))%nat;
  Q_queue : queue_wf (accs q) (pending q);
  Q_order p : p ∈ order (pending q) → (p < length (heap q))%nat ∧
    ∀ ph, m !! Id (deref (heap q) p) = Some ph → ph ≠ PActive
}.

Lemma QR_new : QR CreateJobsQueue ∅.
Proof.
  split; simpl.
  - intros i. rewrite !lookup_empty. split; [by intros [] | done].
  - intros i. rewrite !lookup_empty. split; [by intros [] | done].
  - intros i p. by rewrite lookup_empty.
  - apply queue_wf_new.
  - by intros p ?%not_elem_of_nil.
Qed.

(** Assignments to fields of a job that no ranking reads. *)
Lemma QR_write f p q m : keeps_rank f → QR q m → QR (write f p q) m.
Proof.
  intros Hf [H1 H2 H3 H4 H5]. split; fields; try done.
  - intros i x Hx. rewrite written_Id, length_alter by done. by apply H3.
  - unfold accs. fields. by apply queue_wf_written.
  - intros x Hx. rewrite written_Id, length_alter by done. by apply H5.
Qed.

Lemma insert_phase_Some (m : gmap string phase) i ph k ph' :
  <[i := ph]> m !! k = Some ph' ↔ k = i ∧ ph = ph' ∨ k ≠ i ∧ m !! k = Some ph'.
Proof. rewrite lookup_insert_Some. naive_solver. Qed.

Lemma is_Some_insert {A} (X : gmap string A) i x k :
  is_Some (<[i := x]> X !! k) ↔ k = i ∨ is_Some (X !! k).
Proof.
  destruct (decide (k = i)) as [->|?]; [rewrite lookup_insert_eq; split; eauto|].
  rewrite lookup_insert_ne by done. tauto.
Qed.

Lemma is_Some_delete {A} (X : gmap string A) i k :
  is_Some (delete i X !! k) ↔ k ≠ i ∧ is_Some (X !! k).
Proof.
  destruct (decide (k = i)) as [->|?].
  - rewrite lookup_delete_eq. split; [by intros [] | tauto].
  - rewrite lookup_delete_ne by done. tauto.
Qed.

(** ** Entering and leaving the pending queue *)

(** A job may be pushed when its id is not in the slice. *)
Lemma QR_push q m p :
  QR q m → m !! Id (deref (heap q) p) = None → (p < length (heap q))%nat →
  (∀ x, x ∈ order (pending q) → Id (deref (heap q) x) ≠ Id (deref (heap q) p)) →
  QR (set_pending (Push (accs q) p (pending q)) q) (<[Id (deref (heap q) p) := PPending]> m).
Proof.
  intros [H1 H2 H3 H4 H5] Hm Hp Ho. split; fields; try done.
  - intros i. rewrite Push_items. simpl. rewrite is_Some_insert, H1, insert_phase_Some.
    destruct (decide (i = Id (deref (heap q) p))); naive_solver.
  - intros i. rewrite H2, insert_phase_Some. naive_solver.
  - apply Push_wf; [done|]. right. simpl.
    intros (x & Hx & Hin)%list_elem_of_fmap. by apply (Ho x).
  - intros x Hx%order_Push. destruct Hx as [Hx | ->].
    + split; [by apply H5|]. intros ph. rewrite lookup_insert_ne by (symmetry; by apply Ho).
      by apply H5.
    + split; [done|]. rewrite lookup_insert_eq. by intros ph [= <-].
Qed.

Lemma QR_remove q m i :
  QR q m → m !! i ≠ Some PActive →
  QR (set_pending (RemoveByID i (pending q)) q) (delete i m).
Proof.
  intros [H1 H2 H3 H4 H5] Hm. split; fields; try done.
  - intros k. rewrite RemoveByID_items, is_Some_delete, H1, lookup_delete_Some. naive_solver.
  - intros k. rewrite H2, lookup_delete_Some. naive_solver.
  - by apply RemoveByID_wf.
  - intros x. rewrite order_RemoveByID. intros Hx. split; [by apply H5|].
    intros ph [_ Hph]%lookup_delete_Some. by apply (H5 x Hx).
Qed.

(** An active job leaves. *)
Lemma QR_deactivate q m i :
  QR q m → m !! i = Some PActive → QR (set_active (delete i (active q)) q) (delete i m).
Proof.
  intros [H1 H2 H3 H4 H5] Hm. split; fields; try done.
  - intros k. rewrite H1, lookup_delete_Some. naive_solver.
  - intros k. rewrite is_Some_delete, H2, lookup_delete_Some. naive_solver.
  - intros k p [_ Hk]%lookup_delete_Some. by apply H3.
  - intros x Hx. split; [by apply H5|]. intros ph [_ Hph]%lookup_delete_Some. by apply (H5 x Hx).
Qed.

(** A job that is nowhere becomes active. *)
Lemma QR_activate q m p :
  QR q m → m !! Id (deref (heap q) p) = None → (p < length (heap q))%nat →
  (∀ x, x ∈ order (pending q) → Id (deref (heap q) x) ≠ Id (deref (heap q) p)) →
  QR (activate p q) (<[Id (deref (heap q) p) := PActive]> m).
Proof.
  intros HR Hm Hp Ho. unfold activate.
  assert (Id (deref (heap (write (with_container packing) p q)) p) = Id (deref (heap q) p)) as ->
    by (fields; apply written_Id; auto with hive).
  apply (QR_write (with_container packing) p) in HR; [|auto with hive].
  destruct HR as [H1 H2 H3 H4 H5]. revert H1 H2 H3 H4 H5. unfold accs. fields.
  intros H1 H2 H3 H4 H5. split; fields; try done.
  - intros k. rewrite H1, insert_phase_Some. naive_solver.
  - intros k. rewrite is_Some_insert, H2, insert_phase_Some.
    destruct (decide (k = Id (deref (heap q) p))); naive_solver.
  - intros k x [[<- <-]|[_ Hk]]%lookup_insert_Some; [|by apply H3].
    rewrite written_Id, length_alter by auto with hive. done.
  - intros x Hx. split; [by apply H5|]. intros ph. rewrite written_Id by auto with hive.
    rewrite lookup_insert_ne by (symmetry; by apply Ho). intros Hph. apply (H5 x Hx).
    by rewrite written_Id by auto with hive.
Qed.

(** ** Popping *)

Lemma QR_pop c mm h q m p pq :
  QR q m → PopBestFitHeuristic (accs q) c mm h (pending q) = (Some p, pq) →
  let i := Id (deref (heap q) p) in
  items (pending q) !! i = Some p ∧ m !! i = Some PPending ∧
  QR (set_pending pq q) (delete i m) ∧ (p < length (heap q))%nat ∧
  (∀ x, x ∈ order pq → Id (deref (heap q) x) ≠ i) ∧
  items pq = delete i (items (pending q)) ∧
  fits (accs q) c mm p = true ∧ h p = true ∧
  ∀ k p', items (pending q) !! k = Some p' → fits (accs q) c mm p' = true → h p' = true →
    Priority (deref (heap q) p') ≤ Priority (deref (heap q) p).
Proof.
  intros HR E i. pose proof HR as [H1 H2 H3 H4 H5].
  pose proof (PopBestFitHeuristic_sound _ _ _ _ _ _ _ H4 E) as [Hw (Hl & Hg & Hi & Hbest)].
  pose proof (PopBestFitHeuristic_order _ _ _ _ _ _ _ H4 E) as Ho. bool_to_prop.
  assert (m !! i = Some PPending) as Hm by (apply H1; eauto).
  split_and!; try done.
  - split; fields; try done.
    + intros k. rewrite Hi. simpl. rewrite is_Some_delete, H1, lookup_delete_Some. naive_solver.
    + intros k. rewrite H2, lookup_delete_Some. unfold i in *. naive_solver.
    + intros x Hx. destruct (Ho x Hx) as [Hx' _]. split; [by apply H5|].
      intros ph [_ Hph]%lookup_delete_Some. by apply (H5 x Hx').
  - apply H5. by eapply wf_items.
  - intros x Hx. by apply Ho.
  - intros k p' Hk Hf Hh. destruct (Hbest k p' Hk) as [-> | Hb]; [by rewrite Hf, Hh | done |].
    apply before_rank in Hb. simpl in Hb. lia.
Qed.

Lemma QR_pop_None c mm h q m pq :
  QR q m → PopBestFitHeuristic (accs q) c mm h (pending q) = (None, pq) →
  QR (set_pending pq q) m ∧ items pq = items (pending q) ∧
  ∀ k p, items (pending q) !! k = Some p → fits (accs q) c mm p && h p = false.
Proof.
  intros [H1 H2 H3 H4 H5] E.
  pose proof (PopBestFitHeuristic_sound _ _ _ _ _ _ _ H4 E) as [Hw [Hi Hn]].
  pose proof (PopBestFitHeuristic_order_None _ _ _ _ _ _ E) as Ho. split_and!; try done.
  split; fields; try done.
  - intros k. by rewrite Hi.
  - intros x Hx. by apply H5, Ho.
Qed.

(** Back into the queue right after a pop. *)
Lemma QR_unpop q m p :
  QR q (delete (Id (deref (heap q) p)) m) → m !! Id (deref (heap q) p) = Some PPending →
  (p < length (heap q))%nat →
  (∀ x, x ∈ order (pending q) → Id (deref (heap q) x) ≠ Id (deref (heap q) p)) →
  QR (set_pending (Push (accs q) p (pending q)) q) m.
Proof.
  intros HR Hm Hp Ho. rewrite <- (insert_id m _ _ Hm), <- insert_delete_eq.
  apply QR_push; [done | apply lookup_delete_eq | done | done].
Qed.

Lemma insert_after_delete (m : gmap string phase) i ph : <[i := ph]> (delete i m) = <[i := ph]> m.
Proof. apply insert_delete_eq. Qed.

Definition warm (names : list string) (q : Jobs) (p : loc) : bool :=
  bool_decide (Alias (JImage (deref (heap q) p)) ∈ names).

(** Nothing that fits ranks above [p]; at the same priority a warm image wins. *)
Definition best_choice (names : list string) (c mm : Z) (q : Jobs) (p : loc) : Prop :=
  ∀ k p', items (pending q) !! k = Some p' → fits (accs q) c mm p' = true →
    Priority (deref (heap q) p') ≤ Priority (deref (heap q) p) ∧
    (Priority (deref (heap q) p') = Priority (deref (heap q) p) →
     warm names q p' = true → warm names q p = true).

Definition chosen (names : list string) (c mm : Z) (q : Jobs) (m : gmap string phase) (p : loc)
    (q' : Jobs) : Prop :=
  ∃ i, Id (deref (heap q) p) = i ∧ items (pending q) !! i = Some p ∧
    QR q' (<[i := PActive]> m) ∧ fits (accs q) c mm p = true ∧ best_choice names c mm q p.

(** Only one of the two pops succeeds, or both and one job goes back. *)
Lemma choose_one q m p pq :
  QR (set_pending pq q) (delete (Id (deref (heap q) p)) m) → (p < length (heap q))%nat →
  (∀ x, x ∈ order pq → Id (deref (heap q) x) ≠ Id (deref (heap q) p)) →
  QR (activate p (set_pending pq q)) (<[Id (deref (heap q) p) := PActive]> m).
Proof.
  intros HR Hp Ho. rewrite <- insert_after_delete.
  apply (QR_activate (set_pending pq q)); [done | apply lookup_delete_eq | done | done].
Qed.

Lemma choose_over q m p r pq :
  let i := Id (deref (heap q) p) in let k := Id (deref (heap q) r) in
  i ≠ k → QR (set_pending pq q) (delete i (delete k m)) →
  m !! k = Some PPending → (p < length (heap q))%nat → (r < length (heap q))%nat →
  (∀ x, x ∈ order pq → Id (deref (heap q) x) ≠ i ∧ Id (deref (heap q) x) ≠ k) →
  QR (activate p (set_pending (Push (accs q) r pq) q)) (<[i := PActive]> m).
Proof.
  intros i k Hne HR Hk Hp Hr Ho. apply choose_one; [|done|].
  - rewrite delete_delete in HR.
    apply (QR_unpop (set_pending pq q)) in HR; [exact HR | | done | ].
    + by rewrite lookup_delete_ne.
    + intros x Hx. by apply Ho.
  - intros x Hx%order_Push. destruct Hx as [Hx| ->]; [by apply Ho | done].
Qed.

(** Both pops succeed: [h] is the best warm job, [g] the best of the others. *)
Lemma pops_both names c mm q m h g pq1 pq2 :
  QR q m → PopBestFitHeuristic (accs q) c mm (warm names q) (pending q) = (Some h, pq1) →
  PopBestFitHeuristic (accs q) c mm (λ _, true) pq1 = (Some g, pq2) →
  if Priority (deref (heap q) g) >? Priority (deref (heap q) h)
  then chosen names c mm q m g (activate g (set_pending (Push (accs q) h pq2) q))
  else chosen names c mm q m h (activate h (set_pending (Push (accs q) g pq2) q)).
Proof.
  intros HR E1 E2.
  destruct (QR_pop _ _ _ _ _ _ _ HR E1) as (Hh & Hmh & HR1 & Hlh & Hoh & Hi1 & Hfh & Hwh & Hbh).
  destruct (QR_pop c mm _ (set_pending pq1 q) _ g pq2 HR1 E2)
    as (Hg & Hmg & HR2 & Hlg & Hog & _ & Hfg & _ & Hbg).
  apply lookup_delete_Some in Hmg as [Hne Hmg]. cbn [pending set_pending heap] in Hg, Hne, Hmg, Hog.
  rewrite Hi1 in Hg. apply lookup_delete_Some in Hg as [_ Hg].
  assert (∀ x, x ∈ order pq2 → Id (deref (heap q) x) ≠ Id (deref (heap q) h)) as Hoh2.
  { intros x Hx. apply Hoh. eapply PopBestFitHeuristic_order; [|exact E2|exact Hx]. apply HR1. }
  assert (∀ k p', items (pending q) !! k = Some p' → fits (accs q) c mm p' = true →
    p' = h ∨ Priority (deref (heap q) p') ≤ Priority (deref (heap q) g)) as Hrest.
  { intros k p' Hk Hf. destruct (decide (p' = h)) as [->|Hph]; [by left|right].
    apply (Hbg k p'); [|done|done]. cbn [pending set_pending]. rewrite Hi1.
    apply lookup_delete_Some. split; [|done]. intros <-. by rewrite Hh in Hk; injection Hk. }
  destruct (Priority (deref (heap q) g) >? _) eqn:Ep; bool_to_prop.
  - eexists. split_and!; [done | exact Hg | | exact Hfg |].
    { apply choose_over; try done. intros x Hx. split; [by apply Hog | by apply Hoh2]. }
    intros k p' Hk Hf. destruct (Hrest k p' Hk Hf) as [-> | Hle]; [split; lia|].
    split; [done|]. intros Heq Hwp. specialize (Hbh k p' Hk Hf Hwp). lia.
  - eexists. split_and!; [done | exact Hh | | exact Hfh |].
    { apply choose_over; try done; [by rewrite delete_delete|].
      intros x Hx. split; [by apply Hoh2 | by apply Hog]. }
    intros k p' Hk Hf. rewrite Hwh. destruct (Hrest k p' Hk Hf) as [-> | Hle]; split; try done; lia.
Qed.

(** Only the warm job fits. *)
Lemma pops_warm names c mm q m h pq1 pq2 :
  QR q m → PopBestFitHeuristic (accs q) c mm (warm names q) (pending q) = (Some h, pq1) →
  PopBestFitHeuristic (accs q) c mm (λ _, true) pq1 = (None, pq2) →
  chosen names c mm q m h (activate h (set_pending pq2 q)).
Proof.
  intros HR E1 E2.
  destruct (QR_pop _ _ _ _ _ _ _ HR E1) as (Hh & Hmh & HR1 & Hlh & Hoh & Hi1 & Hfh & Hwh & Hbh).
  destruct (QR_pop_None c mm _ (set_pending pq1 q) _ pq2 HR1 E2) as (HR2 & Hi2 & Hn).
  eexists. split_and!; [done | exact Hh | | exact Hfh |].
  - apply choose_one; [done..|]. intros x Hx. apply Hoh.
    by apply (PopBestFitHeuristic_order_None _ _ _ _ _ _ E2).
  - intros k p' Hk Hf. rewrite Hwh. destruct (decide (p' = h)) as [->|Hph]; [done|].
    exfalso. assert (items pq1 !! k = Some p') as Hk1.
    { rewrite Hi1. apply lookup_delete_Some. split; [|done]. intros <-.
      by rewrite Hh in Hk; injection Hk. }
    specialize (Hn k p' Hk1). rewrite andb_true_r in Hn. unfold accs in Hf, Hn.
    cbn [heap set_pending] in Hn. congruence.
Qed.

(** No warm job fits. *)
Lemma pops_cold names c mm q m pq1 r pq2 :
  QR q m → PopBestFitHeuristic (accs q) c mm (warm names q) (pending q) = (None, pq1) →
  PopBestFitHeuristic (accs q) c mm (λ _, true) pq1 = (r, pq2) →
  match r with
  | Some g => chosen names c mm q m g (activate g (set_pending pq2 q))
  | None => QR (set_pending pq2 q) m ∧
      ∀ k p, items (pending q) !! k = Some p → fits (accs q) c mm p = false
  end.
Proof.
  intros HR E1 E2. destruct (QR_pop_None _ _ _ _ _ _ HR E1) as (HR1 & Hi1 & Hn1). destruct r as [g|].
  - destruct (QR_pop c mm _ (set_pending pq1 q) _ g pq2 HR1 E2)
      as (Hg & Hmg & HR2 & Hlg & Hog & _ & Hfg & _ & Hbg).
    cbn [pending set_pending heap] in Hg, Hmg, Hog, Hbg. rewrite Hi1 in Hg, Hbg.
    eexists. split_and!; [done | exact Hg | | exact Hfg |].
    + by apply choose_one.
    + intros k p' Hk Hf. split; [by apply (Hbg k p')|]. intros _ Hw.
      specialize (Hn1 k p' Hk). by rewrite Hf, Hw in Hn1.
  - destruct (QR_pop_None c mm _ (set_pending pq1 q) _ pq2 HR1 E2) as (HR2 & Hi2 & Hn2).
    split; [exact HR2|]. intros k p Hk. cbn [pending set_pending] in Hn2.
    rewrite <- Hi1 in Hk. specialize (Hn2 k p Hk). by rewrite andb_true_r in Hn2.
Qed.

Lemma NextBestJob_spec names c mm q m r q' :
  QR q m → NextBestJob names c mm q = (r, q') →
  match r with
  | Some p => chosen names c mm q m p q'
  | None => QR q' m ∧ ∀ k p, items (pending q) !! k = Some p → fits (accs q) c mm p = false
  end.
Proof.
  intros HR. unfold NextBestJob. fold (warm names q).
  destruct (PopBestFitHeuristic (accs q) c mm (warm names q) (pending q)) as [[h|] pq1] eqn:E1;
    destruct (PopBestFit (accs q) c mm pq1) as [[g|] pq2] eqn:E2; rewrite PopBestFit_eq in E2.
  - pose proof (pops_both _ _ _ _ _ _ _ _ _ HR E1 E2) as H.
    destruct (_ >? _); intros [= <- <-]; exact H.
  - intros [= <- <-]. by eapply pops_warm.
  - intros [= <- <-]. by apply (pops_cold _ _ _ _ _ _ _ _ HR E1 E2).
  - intros [= <- <-]. by apply (pops_cold _ _ _ _ _ _ _ _ HR E1 E2).
Qed.

(** ** Operations as values *)

Inductive op :=
| OAdd (j : Job)
| ORemove (id : string)
| ONext (names : list string) (freeCpus freeMem : Z)
| ORunning (id containerID : string)
| OComplete (id : string) (payload : list byte) (success : bool)
| ORollback (id : string)
| OClear (ord : MapOrder)
| OStream.

(** A completed job is sent when the channel takes it; until then the sender
    waits, which does not change the queue. *)
Definition do_op (o : op) (q : Jobs) : Jobs :=
  match o with
  | OAdd j => let '(p, q) := allocate j q in (AddJob p q).2
  | ORemove i => (RemoveJob i q).2
  | ONext names c m => (NextBestJob names c m q).2
  | ORunning i c => (MarkRunning i c q).2
  | OComplete i pl ok => (complete i pl ok q).2
  | ORollback i => (RollbackJob i q).2
  | OClear ord => (clear ord q).2
  | OStream => match stream_step q with Some (_, q) => q | None => q end
  end.

(** A new job's id is not in the queue's slice: the id is neither pending nor
    waiting to be compacted away. *)
Definition disciplined (o : op) (q : Jobs) : Prop :=
  match o with
  | OAdd j => Id j ∉ (λ p, Id (deref (heap q) p)) <$> order (pending q)
  | _ => True
  end.

Definition spec_step (m : gmap string phase) (o : op) (m' : gmap string phase) : Prop :=
  match o with
  | OAdd j => m' = match m !! Id j with None => <[Id j := PPending]> m | Some _ => m end
  | ORemove i => m' = if decide (m !! i = Some PActive) then m else delete i m
  | ONext _ _ _ => m' = m ∨ ∃ i, m !! i = Some PPending ∧ m' = <[i := PActive]> m
  | ORunning _ _ | OStream => m' = m
  | OComplete i _ _ => m' = if decide (m !! i = Some PActive) then delete i m else m
  | ORollback i => m' = if decide (m !! i = Some PActive) then <[i := PPending]> m else m
  | OClear _ => m' = ∅
  end.

(** ** Each operation implements its transition *)

Lemma deref_old_job h j p : (p < length h)%nat → deref (h ++ [j]) p = deref h p.
Proof. intros Hp. unfold deref. by rewrite lookup_app_l. Qed.

Lemma deref_new_job h j : deref (h ++ [j]) (length h) = j.
Proof. unfold deref. by rewrite lookup_app_r, Nat.sub_diag by done. Qed.

(** A new job in the heap that nothing points to yet. *)
Lemma QR_allocate q m j : QR q m → QR (allocate j q).2 m.
Proof.
  intros [H1 H2 H3 H4 H5]. split; simpl; fields; try done.
  - intros i p Hp. destruct (H3 i p Hp) as [Hi Hl]. rewrite length_app, deref_old_job by done.
    simpl. split; [done | lia].
  - unfold accs. fields. eapply queue_wf_ext; [|exact H4]. intros x Hx. simpl.
    by rewrite deref_old_job by apply (H5 x Hx).
  - intros x Hx. destruct (H5 x Hx) as [Hl Hph]. rewrite length_app, deref_old_job by done.
    simpl. split; [lia | done].
Qed.

(** Pending ids are ids of elements of the slice. *)
Lemma QR_pending_order q m i :
  QR q m → m !! i = Some PPending → ∃ p, p ∈ order (pending q) ∧ Id (deref (heap q) p) = i.
Proof.
  intros HR [p Hp]%(Q_pending _ _ HR). exists p.
  split; [by eapply wf_items; [apply HR|] | by eapply (wf_keys (accs q)); [apply HR|]].
Qed.

Lemma QR_not_active q m i : QR q m → active q !! i = None → m !! i ≠ Some PActive.
Proof. intros HR Hi. rewrite <- (Q_active _ _ HR), Hi. by intros []. Qed.

Lemma QR_AddJob q m j :
  QR q m → disciplined (OAdd j) q →
  QR (do_op (OAdd j) q) (match m !! Id j with None => <[Id j := PPending]> m | Some _ => m end).
Proof.
  intros HR Hd. simpl in Hd. pose proof (QR_allocate _ _ j HR) as HR'. simpl in HR'.
  cbn [do_op allocate]. unfold AddJob. fields. rewrite deref_new_job.
  destruct (active q !! Id j) as [p|] eqn:Ha.
  - by replace (m !! Id j) with (Some PActive) by (symmetry; apply (Q_active _ _ HR); eauto).
  - assert (m !! Id j = None) as Hm.
    { destruct (m !! Id j) as [[]|] eqn:E; [| |done].
      - destruct (QR_pending_order _ _ _ HR E) as (p & Hp & Hi). destruct Hd. rewrite <- Hi.
        by apply (list_elem_of_fmap_2 (λ p, Id (deref (heap q) p))).
      - by apply (QR_not_active _ _ _ HR) in Ha. }
    rewrite Hm. apply (QR_push _ _ (length (heap q))) in HR'; revert HR'; fields;
      rewrite ?deref_new_job; try done.
    + rewrite length_app. simpl. lia.
    + intros _ x Hx Heq. destruct Hd. destruct (Q_order _ _ HR x Hx) as [Hl _].
      rewrite deref_old_job in Heq by done. rewrite <- Heq.
      by apply (list_elem_of_fmap_2 (λ p, Id (deref (heap q) p))).
Qed.

Lemma QR_NextBestJob q m names c mm :
  QR q m → ∃ m', spec_step m (ONext names c mm) m' ∧ QR (do_op (ONext names c mm) q) m'.
Proof.
  intros HR. cbn [do_op]. destruct (NextBestJob names c mm q) as [[p|] q'] eqn:E;
    apply (NextBestJob_spec _ _ _ _ m) in E; try done.
  - destruct E as (i & _ & Hi & HR' & _). eexists. split; [|exact HR'].
    right. exists i. split; [|done]. apply (Q_pending _ _ HR). eauto.
  - destruct E as [HR' _]. eexists. split; [by left | exact HR'].
Qed.

Lemma QR_RollbackJob q m i :
  QR q m →
  QR (do_op (ORollback i) q) (if decide (m !! i = Some PActive) then <[i := PPending]> m else m).
Proof.
  intros HR. cbn [do_op]. unfold RollbackJob. destruct (active q !! i) as [p|] eqn:Ha.
  - assert (m !! i = Some PActive) as Hm by (apply (Q_active _ _ HR); eauto).
    rewrite decide_True by done. destruct (Q_heap _ _ HR _ _ Ha) as [Hid Hl].
    pose proof (QR_deactivate _ _ _ HR Hm) as HR'.
    apply (QR_write (with_container EmptyString) p) in HR'; [|auto with hive].
    rewrite <- insert_after_delete.
    apply (QR_push _ _ p) in HR'; revert HR'; fields; rewrite ?written_Id, ?Hid by auto with hive;
      try done.
    + intros _. apply lookup_delete_eq.
    + by rewrite length_alter.
    + intros _ x Hx. rewrite written_Id by auto with hive. intros Heq.
      destruct (Q_order _ _ HR x Hx) as [_ Hph]. rewrite Heq in Hph. by apply (Hph PActive).
  - rewrite decide_False by (by eapply QR_not_active). done.
Qed.

Lemma QR_do_op q m o :
  QR q m → disciplined o q → ∃ m', spec_step m o m' ∧ QR (do_op o q) m'.
Proof.
  intros HR Hd. destruct o as [j|i|names c mm|i c|i pl ok|i|ord|];
    try (eexists; split; [reflexivity|]); cbn [do_op].
  - by apply QR_AddJob.
  - unfold RemoveJob. destruct (active q !! i) as [p|] eqn:Ha.
    + rewrite decide_True; [done|]. apply (Q_active _ _ HR). eauto.
    + assert (m !! i ≠ Some PActive) by (by eapply QR_not_active).
      rewrite decide_False by done. by apply QR_remove.
  - by apply QR_NextBestJob.
  - unfold MarkRunning. destruct (active q !! i); [|done]. apply QR_write; auto with hive.
  - unfold complete. destruct (active q !! i) as [p|] eqn:Ha.
    + assert (m !! i = Some PActive) as Hm by (apply (Q_active _ _ HR); eauto).
      rewrite decide_True by done. apply QR_write; [auto with hive | by apply QR_deactivate].
    + rewrite decide_False by (by eapply QR_not_active). done.
  - by apply QR_RollbackJob.
  - destruct HR. split; simpl; try done.
    + intros k. rewrite !lookup_empty. split; [by intros [] | done].
    + intros k. rewrite !lookup_empty. split; [by intros [] | done].
    + apply queue_wf_new.
    + by intros p ?%not_elem_of_nil.
  - unfold stream_step. destruct (completed q); [done|]. by destruct HR; split.
Qed.

(** ** Runs *)

Fixpoint do_ops (os : list op) (q : Jobs) : Jobs :=
  match os with [] => q | o :: os => do_ops os (do_op o q) end.

Fixpoint disciplined_run (os : list op) (q : Jobs) : Prop :=
  match os with [] => True | o :: os => disciplined o q ∧ disciplined_run os (do_op o q) end.

Fixpoint spec_run (os : list op) (m m' : gmap string phase) : Prop :=
  match os with
  | [] => m' = m
  | o :: os => ∃ m1, spec_step m o m1 ∧ spec_run os m1 m'
  end.

#[export] Instance disciplined_dec o q : Decision (disciplined o q).
Proof. destruct o; simpl; apply _. Defined.
#[export] Instance disciplined_run_dec os q : Decision (disciplined_run os q).
Proof. revert q. induction os; simpl; apply _. Defined.

Lemma QR_do_ops os : ∀ q m,
  QR q m → disciplined_run os q → ∃ m', spec_run os m m' ∧ QR (do_ops os q) m'.
Proof.
  induction os as [|o os IH]; intros q m HR; simpl; [eauto|]. intros [Hd Hrun].
  destruct (QR_do_op q m o HR Hd) as (m1 & Hstep & HR1).
  destruct (IH _ _ HR1 Hrun) as (m' & ? & ?). eauto.
Qed.

(** The id is pending or active, never both, and its entry is a job of that id. *)
Definition held (q : Jobs) (i : string) (ph : phase) : Prop :=
  ∃ p j, heap q !! p = Some j ∧ Id j = i ∧
    items (pending q) !! i = (if decide (ph = PPending) then Some p else None) ∧
    active q !! i = (if decide (ph = PActive) then Some p else None).

Definition absent (q : Jobs) (i : string) : Prop :=
  items (pending q) !! i = None ∧ active q !! i = None.

Lemma deref_held h p i : (p < length h)%nat → Id (deref h p) = i → ∃ j, h !! p = Some j ∧ Id j = i.
Proof. intros [j Hj]%lookup_lt_is_Some_2. unfold deref. rewrite Hj. eauto. Qed.

Lemma QR_held q m i ph : QR q m → m !! i = Some ph → held q i ph.
Proof.
  intros HR Hm. destruct ph.
  - pose proof (proj2 (Q_pending _ _ HR i) Hm) as [p Hp].
    destruct (deref_held (heap q) p i) as (j & Hj & Hi).
    + apply (Q_order _ _ HR). by eapply wf_items; [apply HR|].
    + by apply (wf_keys _ _ (Q_queue _ _ HR)).
    + exists p, j. split_and!; try done. apply eq_None_not_Some.
      rewrite (Q_active _ _ HR), Hm. done.
  - pose proof (proj2 (Q_active _ _ HR i) Hm) as [p Hp].
    destruct (Q_heap _ _ HR _ _ Hp) as [Hi Hl]. destruct (deref_held _ _ _ Hl Hi) as (j & Hj & Hid).
    exists p, j. split_and!; try done. apply eq_None_not_Some.
    rewrite (Q_pending _ _ HR), Hm. done.
Qed.

Lemma QR_absent q m i : QR q m → m !! i = None → absent q i.
Proof.
  intros HR Hm. split; apply eq_None_not_Some;
    [rewrite (Q_pending _ _ HR) | rewrite (Q_active _ _ HR)]; congruence.
Qed.

Lemma held_QR q m i ph : QR q m → held q i ph → m !! i = Some ph.
Proof.
  intros HR (p & j & _ & _ & Hp & Ha). destruct ph; simpl in *.
  - apply (Q_pending _ _ HR). eauto.
  - apply (Q_active _ _ HR). eauto.
Qed.

(** ** Properties *)

(** C14: a cluster loses no job and runs none twice: after any run of the queue's
    operations some run of the abstract queue explains the state, and every id is
    pending or active or gone, as the abstract queue says: it becomes active only
    from pending, leaves only through completion, removal while pending or a clear,
    and a rollback makes an active job pending again. New jobs have ids that do not
    linger in the queue's slice. *)
Theorem cluster_queue_refines os :
  disciplined_run os CreateJobsQueue →
  let q := do_ops os CreateJobsQueue in
  ∃ m, spec_run os ∅ m ∧
    ∀ k, match m !! k with Some ph => held q k ph | None => absent q k end.
Proof.
  intros Hd q. destruct (QR_do_ops os _ _ QR_new Hd) as (m & Hrun & HR).
  exists m. split; [done|]. intros k.
  destruct (m !! k) eqn:E; [by eapply QR_held | by eapply QR_absent].
Qed.

(** In every such state [NextBestJob] hands out a pending job that fits; no
    pending job that fits has a higher priority, and one of the same priority with
    a warm container is only passed over for another warm one. The job is active
    from then on and every other job stays where it was, the loser of the two pops
    included. It returns nothing only when no pending job fits. *)
Theorem NextBestJob_best os names c mm r q' :
  disciplined_run os CreateJobsQueue →
  let q := do_ops os CreateJobsQueue in
  NextBestJob names c mm q = (r, q') →
  match r with
  | Some p => ∃ i, items (pending q) !! i = Some p ∧ held q i PPending ∧ held q' i PActive ∧
      fits (accs q) c mm p = true ∧ best_choice names c mm q p ∧
      ∀ k ph, k ≠ i → held q k ph → held q' k ph
  | None => (∀ k p, items (pending q) !! k = Some p → fits (accs q) c mm p = false) ∧
      ∀ k ph, held q k ph → held q' k ph
  end.
Proof.
  intros Hd q. destruct (QR_do_ops os _ _ QR_new Hd) as (m & _ & HR). fold q in HR.
  intros E. pose proof (NextBestJob_spec _ _ _ _ _ _ _ HR E) as H. destruct r as [p|].
  - destruct H as (i & _ & Hi & HR' & Hf & Hb). exists i. split_and!; try done.
    + eapply QR_held; [done|]. apply (Q_pending _ _ HR). eauto.
    + eapply QR_held; [done|]. apply lookup_insert_eq.
    + intros k ph Hne Hk. eapply QR_held; [done|].
      rewrite lookup_insert_ne by done. by apply (held_QR q).
  - destruct H as [HR' Hn]. split; [done|]. intros k ph Hk.
    eapply QR_held; [done|]. by apply (held_QR q).
Qed.

(** ** Witnesses *)

Definition example_image (a : string) : Image := mkImage a a [] [] 2 64 false ∅ 5 60.
Definition example_job (i a : string) (prio : Z) : Job := NewJob i (example_image a) prio [].

(** Two jobs of the same priority, the second with a warm container. *)
Definition example_run : list op :=
  [OAdd (example_job "a" "echo" 5); OAdd (example_job "b" "sum" 5); OAdd (example_job "c" "sum" 1);
   ONext ["sum"] 4 128; ORunning "b" "c1"; OComplete "b" [] true;
   ONext [] 4 128; ORollback "a"].

Definition example_state : Jobs := do_ops example_run CreateJobsQueue.

Lemma cluster_queue_refines_witness :
  ∃ m, spec_run example_run ∅ m ∧
    ∀ k, match m !! k with
         | Some ph => held example_state k ph
         | None => absent example_state k
         end.
Proof.
  apply (cluster_queue_refines example_run).
  refine (bool_decide_unpack _ _). vm_compute. exact I.
Defined.

Definition tie_run : list op := take 3 example_run.
Definition tie_state : Jobs := do_ops tie_run CreateJobsQueue.

Lemma NextBestJob_best_witness :
  ∃ i, items (pending tie_state) !! i = Some 1%nat ∧ held tie_state i PPending ∧
    held (NextBestJob ["sum"] 4 128 tie_state).2 i PActive ∧
    fits (accs tie_state) 4 128 1%nat = true ∧ best_choice ["sum"] 4 128 tie_state 1%nat ∧
    ∀ k ph, k ≠ i → held tie_state k ph →
      held (NextBestJob ["sum"] 4 128 tie_state).2 k ph.
Proof.
  refine (NextBestJob_best tie_run ["sum"] 4 128 (Some 1%nat) _ _ _).
  - refine (bool_decide_unpack _ _). vm_compute. exact I.
  - apply run_eq. vm_compute. reflexivity.
Defined.
