(* ===== verification/ClusterContainer.v ===== *)
(** * Containers

    [internal/cluster/container/{container,container_state,monitor}.go]: one
    container of a cluster. The Docker daemon is third-party code: a type class of
    the calls the program makes, each on a state of the daemon. A container is
    shared by the pool, the packer and the goroutines it started: the state is a
    heap of containers and a pointer is an index in it. *)

From Stdlib Require Import Strings.Byte Strings.String.
From S2P Require Import Prelude.
From S2P Require Import Bytes.
From S2P Require Import Json.
From S2P Require Import Models.
From S2P Require Import Fs.
From S2P Require Import Arbiter.
From S2P Require Import JobDirs.
From S2P Require Import ClusterJobs.

(** ** The Docker daemon *)

Record Mount := mkMount { m_Volume : bool; m_Source : string; m_Target : string }.

Record CreateOptions := mkCreate {
  o_Image : string;
  o_Cmd : list string;
  o_Env : list string;
  o_Mounts : list Mount;
  o_NanoCPUs : Z;
  o_Memory : Z;
  o_HostPort : string
}.

(** What the program reads from an inspection. *)
Record Inspect := mkInspect { i_Running : bool; i_Health : option string }.

(** The calls to the daemon; [None] and [false] are errors, whose text the code
    only logs. *)
Class Docker (D : Type) := {
  ContainerCreate : CreateOptions → string → D → option string * D;
  ContainerStart : string → D → bool * D;
  ContainerStop : string → Z → D → bool * D;
  ContainerRemove : string → D → bool * D;
  ContainerInspect : string → D → option Inspect * D;
  DockerPing : D → bool * D
}.

(** src/internal/cluster/core/models.go:49-55 (the states of a container) *)
Inductive ContainerState := Reserved | Running | Free.

#[export] Instance ContainerState_eq_dec : EqDecision ContainerState.
Proof. solve_decision. Defined.

Inductive CError :=
| ErrNotCreated (id : string)
| ErrExists (id : string)
| ErrOccupied (id : string)
| ErrNegativeTimeout
| ErrDocker (call : string)
| ErrDisk (call : string) (e : OsError)
| ErrStatus (status : string)
| ErrNoHealthcheck
| ErrTimedOut (id : string)
| ErrInvalidJSON
| ErrNoPort
| ErrNotFound (id : string)
| ErrImageNotFound
| ErrAllOccupied
| ErrQueueCall (e : QueueError).

(** src/internal/cluster/container/container.go:26-51 (Container)

    [c_results] is what the channel of results buffers; [c_closed] whether it is
    closed. *)
Record Container := mkContainer {
  c_id : string;
  c_nanoCPULimit : Z;
  c_memBytesLimit : Z;
  c_localPort : string;
  c_image : Image;
  c_dockerID : string;
  c_payloadLocation : string;
  c_args : list string;
  c_results : list (list byte);
  c_closed : bool;
  c_totalJobs : Z;
  c_state : ContainerState;
  c_lastStateChange : Z;
  c_assignedJobID : string;
  c_volumes : list Volume
}.

Definition with_name i po '(mkContainer _ n m _ im d pl a r cl t s ls j v) :=
  mkContainer i n m po im d pl a r cl t s ls j v.
Definition with_args a '(mkContainer i n m po im d pl _ r cl t s ls j v) :=
  mkContainer i n m po im d pl a r cl t s ls j v.
Definition with_dockerID d '(mkContainer i n m po im _ pl a r cl t s ls j v) :=
  mkContainer i n m po im d pl a r cl t s ls j v.
Definition with_payloadLocation pl '(mkContainer i n m po im d _ a r cl t s ls j v) :=
  mkContainer i n m po im d pl a r cl t s ls j v.
Definition with_results r '(mkContainer i n m po im d pl a _ cl t s ls j v) :=
  mkContainer i n m po im d pl a r cl t s ls j v.
Definition with_closed '(mkContainer i n m po im d pl a r _ t s ls j v) :=
  mkContainer i n m po im d pl a r true t s ls j v.
Definition with_state s '(mkContainer i n m po im d pl a r cl t _ ls j v) :=
  mkContainer i n m po im d pl a r cl t s ls j v.
Definition with_change ls '(mkContainer i n m po im d pl a r cl t s _ j v) :=
  mkContainer i n m po im d pl a r cl t s ls j v.
Definition with_job j '(mkContainer i n m po im d pl a r cl t s ls _ v) :=
  mkContainer i n m po im d pl a r cl t s ls j v.
Definition count_job '(mkContainer i n m po im d pl a r cl t s ls j v) :=
  mkContainer i n m po im d pl a r cl (wrap64 (t + 1)) s ls j v.

(** ** Ports *)

Fixpoint contains_colon (s : string) : bool :=
  match s with
  | EmptyString => false
  | String c r => bool_decide (c = Ascii.ascii_of_byte x3a) || contains_colon r
  end.

(** src/internal/cluster/container/container.go:292-300 (normalizeHTTPPort) *)
Definition normalizeHTTPPort (port : string) : string :=
  if bool_decide (port = EmptyString) then EmptyString
  else if contains_colon port then port
  else "localhost:" +:+ port.

(** [strings.ReplaceAll(s, pat, "")] for a pattern that is not empty; [skip]
    characters of an occurrence are still to come. *)
Fixpoint remove_all (pat s : string) (skip : nat) : string :=
  match s with
  | EmptyString => EmptyString
  | String c r =>
      match skip with
      | S n => remove_all pat r n
      | O => if String.prefix pat s then remove_all pat r (String.length pat - 1)
             else String c (remove_all pat r O)
      end
  end.

Definition decimal_string (z : Z) : string := string_of_list_byte (sprint_int z).

(** ** The state *)

(** The heap of containers, the pool's slice of them, the daemon, the disk, the
    clock, the answers of the next port requests, how many UUIDs were drawn, and
    what the error stream got ([None] when it is closed). *)
Record World (D : Type) := mkWorld {
  conts : list Container;
  tracked : list loc;
  daemon : D;
  disk : Disk;
  clock : Z;
  ports : list (option Z);
  drawn : nat;
  errors : option (list CError)
}.
Arguments mkWorld {D}. Arguments conts {D}. Arguments tracked {D}. Arguments daemon {D}.
Arguments disk {D}. Arguments clock {D}. Arguments ports {D}. Arguments drawn {D}.
Arguments errors {D}.

Section container.
Context {D : Type} `{!Docker D}.

Abbreviation cio := (io CError (World D)).

Definition set_conts c (w : World D) :=
  mkWorld c (tracked w) (daemon w) (disk w) (clock w) (ports w) (drawn w) (errors w).
Definition set_tracked t (w : World D) :=
  mkWorld (conts w) t (daemon w) (disk w) (clock w) (ports w) (drawn w) (errors w).
Definition set_daemon (d : D) (w : World D) :=
  mkWorld (conts w) (tracked w) d (disk w) (clock w) (ports w) (drawn w) (errors w).
Definition set_disk d (w : World D) :=
  mkWorld (conts w) (tracked w) (daemon w) d (clock w) (ports w) (drawn w) (errors w).
Definition set_ports p (w : World D) :=
  mkWorld (conts w) (tracked w) (daemon w) (disk w) (clock w) p (drawn w) (errors w).
Definition set_drawn n (w : World D) :=
  mkWorld (conts w) (tracked w) (daemon w) (disk w) (clock w) (ports w) n (errors w).
Definition set_errors e (w : World D) :=
  mkWorld (conts w) (tracked w) (daemon w) (disk w) (clock w) (ports w) (drawn w) e.

(** The container a pointer refers to; pointers are never nil. *)
Definition self (p : loc) : cio Container := λ w,
  match conts w !! p with Some c => (Ok c, w) | None => (Panic, w) end.
Definition assign (p : loc) (f : Container → Container) : cio unit :=
  modify (λ w, set_conts (alter f p (conts w)) w).

Definition docker {A} (call : D → A * D) : cio A := λ w,
  let '(a, d) := call (daemon w) in (Ok a, set_daemon d w).

(** A call on the disk, its error wrapped. *)
Definition on_disk {A} (call : string) (m : osio A) : cio A := λ w,
  match m (disk w) with
  | (Ok a, d) => (Ok a, set_disk d w)
  | (Err e, d) => (Err (ErrDisk call e), set_disk d w)
  | (Panic, d) => (Panic, set_disk d w)
  end.

Definition now : cio Z := w ← get; ret (clock w).

(** ** Creation and deletion *)

(** src/internal/cluster/container/container.go:54-71 (NewContainer)

    [uuid] is the text of the UUID that is drawn. *)
Definition NewContainer (uuid : string) (image : Image) (payloadVolumeLocation port : string)
    (time : Z) : Container :=
  mkContainer (NewContainerID uuid) (NanoCPULimit image) (MemoryBytesLimit image)
    (normalizeHTTPPort port) image EmptyString payloadVolumeLocation [] [] false 0 Reserved time
    EmptyString (Volumes image).

(** A path as the text that Docker gets. *)
Definition path_text (p : path) : string :=
  (if p.1 then "/" else EmptyString) +:+ String.concat "/" p.2.

Definition create_options (c : Container) (args : list string) (absJobsDir : path) : CreateOptions :=
  mkCreate (ImageName (c_image c)) args
    ["CONTAINER_NAME=" +:+ c_id c; "PORT=" +:+ c_localPort c; "PYTHONUNBUFFERED=1"]
    (mkMount false (path_text absJobsDir) "/job/" ::
     ((λ v, mkMount (bool_decide (Type_ v = "volume")) (Source v) (Target v)) <$> c_volumes c))
    (c_nanoCPULimit c) (c_memBytesLimit c)
    (remove_all "localhost:" (c_localPort c) O).

(** src/internal/cluster/container/container.go:73-157 (Container.Init) *)
Definition Init (p : loc) (args : list string) : cio string :=
  c ← self p;
  if negb (bool_decide (c_dockerID c = EmptyString)) then throw (ErrExists (c_id c)) else
  assign p (with_args args) ;;
  w ← get;
  let absJobsDir := Abs (disk w) (Join [c_payloadLocation c; c_id c]) in
  on_disk "mkdir jobs" (os_MkdirAll absJobsDir) ;;
  on_disk "mkdir payload" (os_MkdirAll (sub absJobsDir "payload")) ;;
  on_disk "mkdir results" (os_MkdirAll (sub absJobsDir "results")) ;;
  resp ← docker (ContainerCreate (create_options c args absJobsDir) (c_id c));
  match resp with
  | None => throw (ErrDocker "create")
  | Some i =>
      t ← now;
      assign p (with_change t ∘ with_state Reserved ∘ with_dockerID i) ;;
      ret i
  end.

(** Closing the channel of results; a closed one panics. *)
Definition close_results (p : loc) : cio unit :=
  c ← self p;
  if c_closed c then panic else assign p with_closed.

(** src/internal/cluster/container/container.go:266-289 (Container.Delete) *)
Definition Delete (p : loc) : cio unit :=
  c ← self p;
  if bool_decide (c_dockerID c = EmptyString) then throw (ErrNotCreated (c_id c)) else
  removed ← docker (ContainerRemove (c_dockerID c));
  if negb removed then throw (ErrDocker "remove") else
  assign p (with_dockerID EmptyString) ;;
  close_results p ;;
  on_disk "remove jobs folder" (os_RemoveAll (Join [c_payloadLocation c; c_id c])) ;;
  assign p (with_payloadLocation EmptyString).

(** src/internal/cluster/container/container.go:256-259 (Container.Cleanup, under the lock) *)
Definition Cleanup_begin (p : loc) : cio unit :=
  t ← now;
  assign p (with_change t ∘ with_state Reserved).

(** src/internal/cluster/container/container.go:255-264 (Container.Cleanup)

    [meanwhile] is what others do in the half second it sleeps. *)
Definition Cleanup (meanwhile : World D → World D) (p : loc) : cio unit :=
  Cleanup_begin p ;;
  modify meanwhile ;;
  Delete p.

(** src/internal/cluster/container/container.go:234-253 (Container.Rebuild)

    [m1] and [m2]: what others do while the lock is released; [nanos]: the time. *)
Definition Rebuild (m1 m2 : World D → World D) (p : loc) (newPort : string) (nanos : Z)
    : cio unit :=
  c ← self p;
  if bool_decide (c_dockerID c = EmptyString) then throw (ErrNotCreated (c_id c)) else
  assign p (with_name (Alias (c_image c) +:+ "-" +:+ decimal_string nanos)
              (normalizeHTTPPort newPort)) ;;
  modify m1 ;;
  Delete p ;;
  modify m2 ;;
  c ← self p;
  _ ← Init p (c_args c); ret tt.

(** src/internal/cluster/container/container.go:214-232 (Container.Stop) *)
Definition Stop (p : loc) (timeout : Z) : cio unit :=
  c ← self p;
  if bool_decide (c_dockerID c = EmptyString) then throw (ErrNotCreated (c_id c)) else
  if timeout <? 0 then throw ErrNegativeTimeout else
  stopped ← docker (ContainerStop (c_dockerID c) timeout);
  if stopped : bool then ret tt else throw (ErrDocker "stop").

(** src/internal/cluster/container/container.go:159-182 (Container.Launch, the start)

    What follows waits for the container to end. *)
Definition Launch (p : loc) : cio unit :=
  c ← self p;
  if bool_decide (c_dockerID c = EmptyString) then throw (ErrNotCreated (c_id c)) else
  started ← docker (ContainerStart (c_dockerID c));
  if started : bool then ret tt else ignore (Delete p) ;; throw (ErrDocker "start").

(** ** Jobs *)

(** src/internal/cluster/container/container_state.go:37-45 (Container.Reserve) *)
Definition Reserve (p : loc) : cio bool :=
  c ← self p;
  if negb (bool_decide (c_state c = Free)) then ret false else
  assign p (with_state Reserved) ;; ret true.

(** src/internal/cluster/container/container_state.go:47-51 (Container.Release) *)
Definition Release (p : loc) : cio unit := assign p (with_state Free).

(** src/internal/cluster/container/container_state.go:69-73 (Container.AssignJob, the listing) *)
Definition list_payload (payloadDir : path) : cio (list (string * node)) := λ w,
  match on_disk "readdir payload" (os_ReadDir payloadDir) w with
  | (Err (ErrDisk _ ErrNotExist), w) => (Ok [], w)
  | r => r
  end.

(** src/internal/cluster/container/container_state.go:75-79 (Container.AssignJob, the cleanup) *)
Definition clear_entry (payloadDir : path) (entry : string * node) : cio unit :=
  let '(name, _) := entry in
  on_disk "cleanup payload" (os_RemoveAll (sub payloadDir name)).

(** src/internal/cluster/container/container_state.go:87-90 (Container.AssignJob, the rename) *)
Definition finalize (tmpPath finalPath : path) : cio unit := λ w,
  match on_disk "finalize payload" (os_Rename tmpPath finalPath) w with
  | (Err e, w) => (ignore (on_disk "remove" (os_Remove tmpPath)) ;; throw e) w
  | r => r
  end.

(** src/internal/cluster/container/container_state.go:64-90 (Container.AssignJob, the files) *)
Definition write_payload (payloadDir : path) (jobId : string) (payload : list byte) : cio unit :=
  on_disk "mkdir payload" (os_MkdirAll payloadDir) ;;
  entries ← list_payload payloadDir;
  for_each (clear_entry payloadDir) entries ;;
  let tmpPath := sub payloadDir ("job-" +:+ jobId +:+ ".tmp") in
  let finalPath := sub payloadDir ("job-" +:+ jobId +:+ ".json") in
  on_disk "write payload" (os_WriteFile tmpPath payload) ;;
  finalize tmpPath finalPath.

(** src/internal/cluster/container/container_state.go:53-98 (Container.AssignJob) *)
Definition AssignJob (p : loc) (jobId : string) (payload : list byte) : cio unit :=
  c ← self p;
  if bool_decide (c_dockerID c = EmptyString) then throw (ErrNotCreated (c_id c)) else
  if bool_decide (c_state c = Running) then throw (ErrOccupied (c_id c)) else
  write_payload (Join [c_payloadLocation c; c_id c; "payload"]) jobId payload ;;
  t ← now;
  assign p (with_change t ∘ count_job ∘ with_job jobId ∘ with_state Running).

(** src/internal/cluster/container/container_state.go:111-121 (Container.FreeJob) *)
Definition FreeJob (p : loc) : cio unit :=
  c ← self p;
  if bool_decide (c_dockerID c = EmptyString) then throw (ErrNotCreated (c_id c)) else
  t ← now;
  assign p (with_change t ∘ with_job EmptyString ∘ with_state Free).

(** One receive from the channel of results: [None] when it has to wait; a
    closed channel that is empty gives nil at once. *)
Definition receive (p : loc) (w : World D) : option (list byte * World D) :=
  match conts w !! p with
  | None => None
  | Some c =>
      match c_results c with
      | r :: rs => Some (r, set_conts (alter (with_results rs) p (conts w)) w)
      | [] => if c_closed c then Some ([], w) else None
      end
  end.

(** src/internal/cluster/container/container_state.go:100-109 (Container.WaitForJobResult)

    [meanwhile] is what happens until there is a result or the context is done. *)
Definition WaitForJobResult (meanwhile : World D → World D) (done : bool) (p : loc) (w : World D)
    : option (list byte * World D) :=
  let w := meanwhile w in
  if done then Some ([], w) else receive p w.

(** A send on the channel of results, which buffers one: [None] when it has to
    wait; a closed channel panics. *)
Definition send_result (p : loc) (r : list byte) (w : World D)
    : option (outcome CError unit * World D) :=
  match conts w !! p with
  | None => None
  | Some c =>
      if c_closed c then Some (Panic, w)
      else match c_results c with
           | [] => Some (assign p (with_results [r]) w)
           | _ => None
           end
  end.

(** ** Inspection *)

(** src/internal/cluster/container/monitor.go:19-50 (Container.Health) *)
Definition Health (p : loc) : cio Z :=
  c ← self p;
  if bool_decide (c_dockerID c = EmptyString) then throw (ErrNotCreated (c_id c)) else
  data ← docker (ContainerInspect (c_dockerID c));
  match data with
  | None => throw (ErrDocker "inspect")
  | Some data =>
      if negb (i_Running data) then ret 3 else
      match i_Health data with
      | None => throw ErrNoHealthcheck
      | Some status =>
          if bool_decide (status = "healthy") then ret 0
          else if bool_decide (status = "starting") then ret 1
          else if bool_decide (status = "unhealthy") then ret 2
          else if bool_decide (status = "none") then ret 3
          else throw (ErrStatus status)
      end
  end.

(** src/internal/cluster/container/monitor.go:118-133 (Container.Running) *)
Definition IsRunning (p : loc) : cio bool :=
  c ← self p;
  if bool_decide (c_dockerID c = EmptyString) then throw (ErrNotCreated (c_id c)) else
  data ← docker (ContainerInspect (c_dockerID c));
  match data with
  | None => throw (ErrDocker "inspect")
  | Some data => ret (i_Running data)
  end.

Definition ready (data : Inspect) : bool :=
  i_Running data &&
  match i_Health data with Some s => bool_decide (s = "healthy") | None => true end.

(** src/internal/cluster/container/monitor.go:52-78 (Container.WaitUntilReady)

    [sleeps]: what happens between the polls that the timeout leaves room for. *)
Fixpoint WaitUntilReady (sleeps : list (World D → World D)) (p : loc) : cio unit :=
  c ← self p;
  data ← docker (ContainerInspect (c_dockerID c));
  match data with
  | None => throw (ErrDocker "inspect")
  | Some data =>
      if ready data then ret tt
      else match sleeps with
           | [] => throw (ErrTimedOut (c_id c))
           | m :: sleeps => modify m ;; WaitUntilReady sleeps p
           end
  end.

(** ** Results *)

(** src/internal/cluster/container/monitor.go:194-213 (readWithRetry)

    [tries] is 5; a handle always closes. *)
Fixpoint readWithRetry (tries : nat) (filePath : path) : cio (list byte) :=
  match tries with
  | O => throw (ErrDisk "read result" ErrOS)
  | S tries => λ w,
      match on_disk "read result" (os_ReadFile filePath) w with
      | (Err _, w) => readWithRetry tries filePath w
      | r => r
      end
  end.

(** src/internal/cluster/container/monitor.go:175-192 (processAndDeleteFile)

    [json.Valid] is whether the text parses. *)
Definition processAndDeleteFile (filePath : path) : cio (list byte) :=
  fileBytes ← readWithRetry 5 filePath;
  if bool_decide (is_Some (parse_json fileBytes)) then
    on_disk "delete result" (os_Remove filePath) ;; ret fileBytes
  else throw ErrInvalidJSON.

(** [strings.ToLower] on an extension. *)
Definition lower (c : Ascii.ascii) : Ascii.ascii :=
  let z := Z.of_N (Ascii.N_of_ascii c) in
  if (65 <=? z) && (z <=? 90) then Ascii.ascii_of_N (Z.to_N (z + 32)) else c.
Fixpoint ToLower (s : string) : string :=
  match s with EmptyString => EmptyString | String c r => String (lower c) (ToLower r) end.

Definition is_result (entry : string * node) : bool :=
  match entry.2 with Reg _ => true | Dir => false end &&
  bool_decide (ToLower (Ext entry.1) = ".json").

(** src/internal/cluster/container/monitor.go:152-170 (Container.monitorForResults, the files of a tick)

    [waits]: what others do until each send goes through; [None]: a send still
    waits. *)
Fixpoint take_results (waits : list (World D → World D)) (p : loc) (resultsPath : path)
    (entries : list (string * node)) (w : World D) : option (outcome CError unit * World D) :=
  match entries with
  | [] => Some (Ok tt, w)
  | e :: entries =>
      if negb (is_result e) then take_results waits p resultsPath entries w else
      match processAndDeleteFile (sub resultsPath e.1) w with
      | (Ok r, w) =>
          match send_result p r (default (λ w, w) (head waits) w) with
          | Some (Ok _, w) => take_results (tail waits) p resultsPath entries w
          | x => x
          end
      | (Err e, w) => Some (Err e, w)
      | (Panic, w) => Some (Panic, w)
      end
  end.

(** src/internal/cluster/container/monitor.go:146-171 (Container.monitorForResults, a tick)

    The path is the one of the start of the goroutine. *)
Definition monitor_tick (waits : list (World D → World D)) (p : loc) (resultsPath : path)
    (w : World D) : option (outcome CError unit * World D) :=
  match on_disk "readdir results" (os_ReadDir resultsPath) w with
  | (Ok entries, w) => take_results waits p resultsPath entries w
  | (Err e, w) => Some (Err e, w)
  | (Panic, w) => Some (Panic, w)
  end.

End container.
