(* ===== verification/ClusterPool.v ===== *)
(** * The pool of containers

    [internal/cluster/container/pool.go]: the containers a cluster tracks. Every
    method holds the pool's mutex; the goroutines it starts are not waited for,
    except by [DestroyAll]. *)

From Stdlib Require Import Strings.Byte Strings.String.
From S2P Require Import Prelude.
From S2P Require Import Arbiter.
From S2P Require Import JobDirs.
From S2P Require Import ClusterJobs.
From S2P Require Import ClusterContainer.

(** What does not change: the directory of the jobs and the UUIDs that the
    generator of identifiers will draw. *)
Record PoolEnv := mkPoolEnv { payloadDir : string; uuids : nat → string }.

Section pool.
Context {D : Type} `{!Docker D} (env : PoolEnv).

Abbreviation cio := (io CError (World D)).

(** The first tracked container that satisfies a test, by index. *)
Fixpoint find_id (l : list loc) (i : string) (w : World D) : option loc :=
  match l with
  | [] => None
  | p :: l =>
      match conts w !! p with
      | Some c => if bool_decide (c_id c = i) then Some p else find_id l i w
      | None => find_id l i w
      end
  end.

(** The slice without the first occurrence of an element. *)
Fixpoint remove1 (p : loc) (l : list loc) : list loc :=
  match l with
  | [] => []
  | q :: l => if bool_decide (q = p) then l else q :: remove1 p l
  end.

(** ** The error stream *)

(** A send on the unbuffered stream, which the goroutine of the pool always
    empties: it goes through unless the stream is nil, when it waits for ever. *)
Definition stream_error (e : CError) (w : World D) : bool * World D :=
  match errors w with
  | Some l => (true, set_errors (Some (l ++ [e])) w)
  | None => (false, w)
  end.

(** ** Tracking *)

(** src/internal/cluster/container/pool.go:113-129 (Containers.Add) *)
Definition Add (p : loc) : cio unit :=
  c ← self p;
  w ← get;
  match find_id (tracked w) (c_id c) w with
  | Some _ => throw (ErrExists (c_id c))
  | None => modify (set_tracked (tracked w ++ [p]))
  end.

(** src/internal/cluster/container/pool.go:320-343 (GetFreePort)

    The answers of the operating system are inputs. *)
Definition GetFreePort : cio Z :=
  w ← get;
  match ports w with
  | Some port :: l => modify (set_ports l) ;; ret port
  | None :: l => modify (set_ports l) ;; throw ErrNoPort
  | [] => throw ErrNoPort
  end.

(** A new container in the heap. *)
Definition allocate (c : Container) : cio loc :=
  w ← get;
  modify (set_conts (conts w ++ [c])) ;;
  ret (length (conts w)).

(** src/internal/cluster/container/pool.go:131-144 (Containers.AddFromImage) *)
Definition AddFromImage (image : Image) : cio loc :=
  port ← GetFreePort;
  w ← get;
  modify (set_drawn (S (drawn w))) ;;
  p ← allocate (NewContainer (uuids env (drawn w)) image (payloadDir env)
                  ("localhost:" +:+ decimal_string port) (clock w));
  Init p (Args image) ;;
  Add p ;;
  ret p.

(** src/internal/cluster/container/pool.go:146-157 (Containers.Remove) *)
Definition Remove (i : string) : cio unit :=
  w ← get;
  match find_id (tracked w) i w with
  | None => throw (ErrNotFound i)
  | Some p =>
      modify (set_tracked (remove1 p (tracked w))) ;;
      Delete p
  end.

(** src/internal/cluster/container/pool.go:159-168 (Containers.Get) *)
Definition Get (i : string) : cio loc :=
  w ← get;
  match find_id (tracked w) i w with Some p => ret p | None => throw (ErrNotFound i) end.

(** src/internal/cluster/container/pool.go:228-232 (Containers.Len) *)
Definition Len (w : World D) : Z := Z.of_nat (length (tracked w)).

(** src/internal/cluster/container/pool.go:203-212 (Containers.ActiveImageNames) *)
Definition ActiveImageNames (w : World D) : list string :=
  omap (λ p, Alias ∘ c_image <$> conts w !! p) (tracked w).

(** src/internal/cluster/container/pool.go:294-305 (Containers.UsedSpace) *)
Definition UsedSpace (w : World D) : Z * Z :=
  foldl (λ '(cpu, mem) c, (wrap64 (cpu + c_nanoCPULimit c), wrap64 (mem + c_memBytesLimit c)))
    (0, 0) (omap (λ p, conts w !! p) (tracked w)).

(** src/internal/cluster/container/pool.go:307-318 (Containers.Ping) *)
Definition Ping : cio bool := docker DockerPing.

(** ** Choosing a container *)

(** The answer of a call whose error counts as "no". *)
Definition or_false (m : cio bool) : cio bool := λ w,
  match m w with (Err _, w) => (Ok false, w) | r => r end.

(** src/internal/cluster/container/pool.go:175-192 (Containers.FindFreeContainer, the loop)

    The container, or the two flags when there is none. *)
Fixpoint find_free (l : list loc) (imageName : string) (matchingImage allOccupied : bool)
    : cio (loc + bool * bool) :=
  match l with
  | [] => ret (inr (matchingImage, allOccupied))
  | p :: l =>
      running ← or_false (IsRunning p);
      if negb running then find_free l imageName matchingImage allOccupied else
      c ← self p;
      let matches := bool_decide (Alias (c_image c) = imageName) in
      let free := bool_decide (c_state c = Free) in
      if free && matches then
        reserved ← Reserve p;
        if reserved : bool then ret (inl p)
        else find_free l imageName matchingImage allOccupied
      else find_free l imageName (matches || matchingImage) (negb free && allOccupied)
  end.

(** src/internal/cluster/container/pool.go:170-201 (Containers.FindFreeContainer) *)
Definition FindFreeContainer (imageName : string) : cio loc :=
  w ← get;
  r ← find_free (tracked w) imageName false true;
  match r with
  | inl p => ret p
  | inr (matchingImage, allOccupied) =>
      if negb matchingImage then throw ErrImageNotFound
      else if allOccupied : bool then throw ErrAllOccupied
      else throw (ErrNotFound imageName)
  end.

(** src/internal/cluster/container/pool.go:219-224 (Containers.AvailableImageNames, the loop) *)
Fixpoint available (l : list loc) : cio (list string) :=
  match l with
  | [] => ret []
  | p :: l =>
      status ← try_ (Health p);
      c ← self p;
      rest ← available l;
      ret (match status with
           | inl 0 => if bool_decide (c_state c = Free) then Alias (c_image c) :: rest else rest
           | _ => rest
           end)
  end.

(** src/internal/cluster/container/pool.go:214-226 (Containers.AvailableImageNames) *)
Definition AvailableImageNames : cio (list string) := w ← get; available (tracked w).

(** ** Whole-pool operations *)

(** src/internal/cluster/container/pool.go:234-243 (Containers.ForEach) *)
Definition ForEach (action : loc → cio unit) : cio unit :=
  w ← get; for_each action (tracked w).

(** src/internal/cluster/container/pool.go:92-104 (Containers.DestroyAll, the deletions)

    The goroutines, one after the other, and the errors of those that failed. *)
Fixpoint destroy (l : list loc) : cio (list CError) :=
  match l with
  | [] => ret []
  | p :: l =>
      c ← self p;
      if bool_decide (c_id c = EmptyString) then destroy l else
      r ← try_ (Delete p);
      errs ← destroy l;
      ret (match r with inl _ => errs | inr e => e :: errs end)
  end.

(** src/internal/cluster/container/pool.go:84-111 (Containers.DestroyAll)

    [schedule] is the order in which the goroutines get to run. *)
Definition DestroyAll (schedule : list loc → list loc) : cio unit :=
  w ← get;
  modify (set_tracked []) ;;
  errs ← destroy (schedule (tracked w));
  match errs with [] => ret tt | e :: _ => throw e end.

(** src/internal/cluster/container/pool.go:47-82 (Containers.Close)

    [done]: the context ends before a tick finds the pool empty. *)
Definition Close (schedule : list loc → list loc) (done : bool) : cio unit :=
  DestroyAll schedule ;;
  entries ← on_disk "readdir" (os_ReadDir (Clean (payloadDir env)));
  for_each (λ '(name, _), ignore (on_disk "remove" (os_RemoveAll (Join [payloadDir env; name]))))
    entries ;;
  w ← get;
  if done : bool then ret tt
  else match tracked w with [] => modify (set_errors None) | _ => ret tt end.

(** The pool asks the daemon about a container and rebuilds it when it does not
    run or is not healthy. *)
Definition needs_rebuild (p : loc) : cio bool :=
  status ← or_false (IsRunning p);
  code ← try_ (Health p);
  ret (match code with
       | inr _ => true
       | inl h => negb status || negb ((h =? 0) || (h =? 1))
       end).

(** src/internal/cluster/container/pool.go:249-253 (Containers.Rebuild, the targets) *)
Fixpoint rebuild_targets (l : list loc) : cio (list loc) :=
  match l with
  | [] => ret []
  | p :: l =>
      bad ← needs_rebuild p;
      rest ← rebuild_targets l;
      ret (if bad : bool then p :: rest else rest)
  end.

(** src/internal/cluster/container/pool.go:245-268 (Containers.Rebuild)

    The containers for which a goroutine is started. *)
Definition Rebuild_pool : cio (list loc) := w ← get; rebuild_targets (tracked w).

(** src/internal/cluster/container/pool.go:255-265 (Containers.Rebuild, one goroutine)

    A failed port request leaves port 0. *)
Definition rebuild_one (m1 m2 : World D → World D) (nanos : Z) (p : loc) : cio unit := λ w,
  match (port ← try_ GetFreePort;
         Rebuild m1 m2 p (decimal_string (match port with inl z => z | inr _ => 0 end)) nanos) w with
  | (Ok _, w) =>
      match Launch p w with
      | (Err e, w) => (Ok tt, (stream_error e w).2)
      | r => r
      end
  | (Err e, w) => (Ok tt, (stream_error e w).2)
  | (Panic, w) => (Panic, w)
  end.

(** src/internal/cluster/container/pool.go:270-292 (Containers.TrackedLaunch)

    Whether the method returns; the launch itself is a goroutine. *)
Definition TrackedLaunch (i : string) (w : World D) : option loc * (bool * World D) :=
  match find_id (tracked w) i w with
  | Some p => (Some p, (true, w))
  | None => (None, stream_error (ErrNotFound i) w)
  end.

End pool.
