(* ===== verification/ClusterPacker.v ===== *)
(** * Packing jobs into containers

    [internal/cluster/scheduler/{packer,health}.go]. The packer is written against
    the interface of the pool ([core.ContainerPool]): here a type class of the
    operations it calls, and a class of the laws it relies on. *)

From Stdlib Require Import Strings.Byte Strings.String.
From S2P Require Import Prelude.
From S2P Require Import Arbiter.
From S2P Require Import JobDirs.
From S2P Require Import ClusterJobs.
From S2P Require Import ClusterContainer.
From S2P Require Import ClusterPool.

(** src/internal/cluster/core/interfaces.go:11-78 (ContainerPool)

    What the packer calls, on a state [P] of the pool and its containers. *)
Class ContainerPool (P : Type) := {
  pool_AvailableImageNames : io CError P (list string);
  pool_FindFreeContainer : string → io CError P loc;
  pool_AddFromImage : Image → io CError P loc;
  pool_TrackedLaunch : loc → bio CError P unit;
  pool_Id : loc → P → string;
  (** The container is somebody's: no other caller gets it. *)
  pool_reserved : P → loc → Prop
}.

(** What a pool promises: whoever gets a container is the only one to have it, and
    nothing the packer calls takes a container away from its owner. *)
Class PoolLaws (P : Type) `{!ContainerPool P} := {
  names_keep w r w' p :
    pool_AvailableImageNames w = (r, w') → pool_reserved w p → pool_reserved w' p;
  find_fresh a w p w' :
    pool_FindFreeContainer a w = (Ok p, w') → ¬ pool_reserved w p ∧ pool_reserved w' p;
  find_keep a w r w' p :
    pool_FindFreeContainer a w = (r, w') → pool_reserved w p → pool_reserved w' p;
  add_fresh i w p w' :
    pool_AddFromImage i w = (Ok p, w') → ¬ pool_reserved w p ∧ pool_reserved w' p;
  add_keep i w r w' p :
    pool_AddFromImage i w = (r, w') → pool_reserved w p → pool_reserved w' p;
  launch_keep q w r w' p :
    pool_TrackedLaunch q w = Some (r, w') → pool_reserved w p → pool_reserved w' p
}.

(** The points at which other goroutines may run during [PackNextJob]. *)
Inductive pack_point := BeforePick | BeforePlace | BeforeMark.

Section packer.
Context {P : Type} `{!ContainerPool P}.

Abbreviation sys := (P * Jobs)%type.
Abbreviation sio := (bio CError sys).

Definition on_pool {A} (m : io CError P A) : sio A := lift_io fst (λ p s, (p, s.2)) m.
Definition on_queue {A} (f : Jobs → A * Jobs) : sio A := λ s,
  let '(a, q) := f s.2 in Some (Ok a, (s.1, q)).
Definition others (f : sys → sys) : sio unit := λ s, Some (Ok tt, f s).

(** [if err := queue.M(...); err != nil { return err }] *)
Definition queue_call (f : Jobs → outcome QueueError unit * Jobs) : sio unit := λ s,
  match f s.2 with
  | (Ok _, q) => Some (Ok tt, (s.1, q))
  | (Err e, q) => Some (Err (ErrQueueCall e), (s.1, q))
  | (Panic, q) => Some (Panic, (s.1, q))
  end.

Definition launch (p : loc) : sio unit := λ s,
  match pool_TrackedLaunch p s.1 with
  | Some (r, w) => Some (r, (w, s.2))
  | None => None
  end.

(** src/internal/cluster/scheduler/packer.go:37-42 (PackNextJob, a new container) *)
Definition add_container (image : Image) : sio (option loc) :=
  p ← on_pool (pool_AddFromImage image);
  launch p ;;
  mret (Some p).

(** src/internal/cluster/scheduler/packer.go:28-45 (PackNextJob, the container) *)
Definition place (image : Image) (freeCpu freeMem : Z) : sio (option loc) := λ s,
  match pool_FindFreeContainer (Alias image) s.1 with
  | (Ok p, w) => Some (Ok (Some p), (w, s.2))
  | (Err (ErrAllOccupied | ErrImageNotFound), w) =>
      if (MemoryBytesLimit image >? freeMem) || (NanoCPULimit image >? freeCpu)
      then Some (Ok None, (w, s.2))
      else add_container image (w, s.2)
  | (Err e, w) => Some (Err e, (w, s.2))
  | (Panic, w) => Some (Panic, (w, s.2))
  end.

Definition mark (p job : loc) : sio unit := λ s,
  queue_call (MarkRunning (Id (deref (heap s.2) job)) (pool_Id p s.1)) s.
Definition copy (p job : loc) : sio (option (loc * Job)) := λ s,
  Some (Ok (Some (p, deref (heap s.2) job)), s).

(** src/internal/cluster/scheduler/packer.go:13-53 (PackNextJob)

    The container and the copy of the job that the goroutine [assignJob] is
    started with, if it is. *)
Definition PackNextJob (ord : MapOrder) (limits : Z * Z) (meanwhile : pack_point → sys → sys)
    : sio (option (loc * Job)) :=
  used ← on_queue (λ q, (ActiveUtilization ord q, q));
  let freeCpu := wrap64 (limits.1 - used.1) in
  let freeMem := wrap64 (limits.2 - used.2) in
  others (meanwhile BeforePick) ;;
  names ← on_pool pool_AvailableImageNames;
  nextJob ← on_queue (NextBestJob names freeCpu freeMem);
  match nextJob with
  | None => mret None
  | Some job =>
      others (meanwhile BeforePlace) ;;
      image ← on_queue (λ q, (JImage (deref (heap q) job), q));
      assignedContainer ← place image freeCpu freeMem;
      match assignedContainer with
      | None => mret None
      | Some p =>
          others (meanwhile BeforeMark) ;;
          mark p job ;;
          copy p job
      end
  end.

End packer.

(** ** The pool of [ClusterPool] is one *)

Section containers.
Context {D : Type} `{!Docker D} (env : PoolEnv).

Definition owned (w : World D) (p : loc) : Prop :=
  ∃ c, conts w !! p = Some c ∧ c_state c ≠ Free.

Definition id_of (p : loc) (w : World D) : string :=
  match conts w !! p with Some c => c_id c | None => EmptyString end.

#[export] Instance Containers_pool : ContainerPool (World D) := {|
  pool_AvailableImageNames := AvailableImageNames;
  pool_FindFreeContainer := FindFreeContainer;
  pool_AddFromImage := AddFromImage env;
  pool_TrackedLaunch p := λ w,
    match TrackedLaunch (id_of p w) w with
    | (_, (true, w)) => Some (Ok tt, w)
    | (_, (false, _)) => None
    end;
  pool_Id := id_of;
  pool_reserved := owned
|}.

(** ** The goroutine of a job *)

Abbreviation csys := (World D * Jobs)%type.
Abbreviation sio := (bio CError csys).

Definition on_world {A} (m : io CError (World D) A) : sio A := on_pool m.

(** [if err := m(); err != nil]: the error as a value. *)
Definition attempt {A} (m : sio A) : sio (A + CError) := λ s,
  match m s with
  | Some (Ok a, s) => Some (Ok (inl a), s)
  | Some (Err e, s) => Some (Ok (inr e), s)
  | Some (Panic, s) => Some (Panic, s)
  | None => None
  end.

(** [_ = queue.RollbackJob(id)] *)
Definition rollback (i : string) : sio unit := λ s,
  Some (Ok tt, (s.1, (RollbackJob i s.2).2)).

(** [queue.MarkCompleted(id, payload, success)]: the send comes after the lock is
    released. *)
Definition mark_completed (meanwhile : csys → csys) (i : string) (payload : list byte)
    (success : bool) : sio unit := λ s,
  match complete i payload success s.2 with
  | (Ok job, q) =>
      let s := meanwhile (s.1, q) in
      match send job s.2 with
      | Some (Ok _, q) => Some (Ok tt, (s.1, q))
      | Some (Err e, q) => Some (Err (ErrQueueCall e), (s.1, q))
      | Some (Panic, q) => Some (Panic, (s.1, q))
      | None => None
      end
  | (Err e, q) => Some (Err (ErrQueueCall e), (s.1, q))
  | (Panic, q) => Some (Panic, (s.1, q))
  end.

(** The points at which others may run during [assignJob]. *)
Inductive assign_point := BeforeRunning | BeforeAssign | BeforeResult | BeforeFree | BeforeSend.

(** [assignedContainer.WaitForJobResult(ctx)] *)
Definition wait_result (done : bool) (p : loc) : sio (list byte) := λ s,
  match WaitForJobResult (λ w, w) done p s.1 with
  | Some (r, w) => Some (Ok r, (w, s.2))
  | None => None
  end.

Definition undo (p : loc) (i : string) : sio unit := rollback i ;; on_world (Release p).

(** src/internal/cluster/scheduler/packer.go:78-86 (assignJob, the result) *)
Definition finish (meanwhile : assign_point → csys → csys) (done : bool) (p : loc) (job : Job)
    : sio unit :=
  others (meanwhile BeforeResult) ;;
  payload ← wait_result done p;
  others (meanwhile BeforeFree) ;;
  attempt (on_world (FreeJob p)) ;;
  attempt (mark_completed (meanwhile BeforeSend) (Id job) payload true) ;;
  mret tt.

(** src/internal/cluster/scheduler/packer.go:55-87 (assignJob)

    [sleeps]: what happens between the polls of [WaitUntilReady]; [done]: the
    context ends before there is a result. *)
Definition assignJob (sleeps : list (World D → World D)) (meanwhile : assign_point → csys → csys)
    (done : bool) (p : loc) (job : Job) : sio unit :=
  isReady ← attempt (on_world (WaitUntilReady sleeps p));
  match isReady with
  | inr _ => undo p (Id job)
  | inl _ =>
      others (meanwhile BeforeRunning) ;;
      running ← attempt (λ s, queue_call (MarkRunning (Id job) (id_of p s.1)) s);
      match running with
      | inr _ => undo p (Id job)
      | inl _ =>
          others (meanwhile BeforeAssign) ;;
          assigned ← attempt (on_world (AssignJob p (Id job) (Payload job)));
          match assigned with
          | inr _ => rollback (Id job)
          | inl _ =>
              if Persistent (JImage job) then mret tt else finish meanwhile done p job
          end
      end
  end.

(** ** Health rules *)

(** src/internal/cluster/scheduler/health.go:13-19 (HealthAction) *)
Inductive HealthAction := HealthContinue | HealthSkip | HealthDelete.

(** src/internal/cluster/scheduler/health.go:11-11 (HealthRule)

    Without the name of the rule, which is only logged. *)
Definition HealthRule : Type := loc → sio HealthAction.

Definition container (p : loc) : sio Container := on_world (self p).

(** src/internal/cluster/scheduler/health.go:59-68 (HealthRuleUnresponsive) *)
Definition HealthRuleUnresponsive : HealthRule := λ p,
  health ← attempt (on_world (Health p));
  c ← container p;
  mret (match health with
        | inr _ => HealthContinue
        | inl h =>
            if (h =? 0) || (h =? 1) || bool_decide (c_state c = Reserved)
            then HealthContinue else HealthDelete
        end).

Definition since (c : Container) (w : World D) : Z := wrap64 (clock w - c_lastStateChange c).

Definition judge (cond : World D → Jobs → Container → bool) (c : Container) : sio HealthAction :=
  λ s, Some (Ok (if cond s.1 s.2 c then HealthDelete else HealthContinue), s).
Definition when (cond : World D → Jobs → Container → bool) : HealthRule := λ p,
  c ← container p; judge cond c.

(** src/internal/cluster/scheduler/health.go:70-81 (HealthRuleTimedOut) *)
Definition HealthRuleTimedOut : HealthRule := when (λ w _ c,
  negb (Timeout (c_image c) <=? 0) &&
  ((c_totalJobs c >? 0) && bool_decide (c_state c = Free) &&
   (since c w >? wrap64 (1000000000 * Timeout (c_image c))))).

(** src/internal/cluster/scheduler/health.go:83-90 (HealthRuleExceededJobLimits) *)
Definition HealthRuleExceededJobLimits : HealthRule := when (λ _ _ c,
  (c_totalJobs c >? MaxJobs (c_image c)) && bool_decide (c_state c = Free)).

(** src/internal/cluster/scheduler/health.go:92-99 (HealthRuleNoMoreJobs) *)
Definition HealthRuleNoMoreJobs (ord : MapOrder) : HealthRule := when (λ w q c,
  bool_decide (c_state c = Free) && (since c w <? 5000000000) &&
  (default 0 (PendingJobTypes ord q !! Alias (c_image c)) =? 0)).

(** The points at which others may run during [RunHealthRule]. *)
Inductive health_point := BeforeFailSend | DuringCleanup.

(** src/internal/cluster/scheduler/health.go:31-41 (RunHealthRule, a deletion) *)
Definition condemn (meanwhile : health_point → csys → csys) (p : loc) : sio string :=
  c ← container p;
  (if bool_decide (c_state c = Running)
   then attempt (mark_completed (meanwhile BeforeFailSend) (c_assignedJobID c) [] false) ;; mret tt
   else mret tt) ;;
  c ← container p;
  on_world (Cleanup_begin p) ;;
  others (meanwhile DuringCleanup) ;;
  on_world (Delete p) ;;
  mret (c_id c).

(** src/internal/cluster/scheduler/health.go:28-46 (RunHealthRule, one container)

    The id of a container to untrack. *)
Fixpoint run_rules (meanwhile : health_point → csys → csys) (actions : list HealthRule) (p : loc)
    : sio (option string) :=
  match actions with
  | [] => mret None
  | rule :: actions =>
      action ← rule p;
      match action with
      | HealthDelete => i ← condemn meanwhile p; mret (Some i)
      | HealthSkip => mret None
      | HealthContinue => run_rules meanwhile actions p
      end
  end.

(** src/internal/cluster/scheduler/health.go:27-49 (RunHealthRule, the loop) *)
Fixpoint check_all (meanwhile : health_point → csys → csys) (actions : list HealthRule)
    (l : list loc) : sio (list string) :=
  match l with
  | [] => mret []
  | p :: l =>
      r ← run_rules meanwhile actions p;
      ids ← check_all meanwhile actions l;
      mret (match r with Some i => i :: ids | None => ids end)
  end.

Fixpoint remove_all_ids (ids : list string) : sio unit :=
  match ids with
  | [] => mret tt
  | i :: ids => attempt (on_world (Remove i)) ;; remove_all_ids ids
  end.

(** src/internal/cluster/scheduler/health.go:21-57 (RunHealthRule) *)
Definition RunHealthRule (meanwhile : health_point → csys → csys) (actions : list HealthRule)
    : sio unit := λ s,
  (ids ← check_all meanwhile actions (tracked s.1); remove_all_ids ids) s.

End containers.
