(* ===== verification/ClusterExamples.v ===== *)
(** * A small cluster to evaluate on

    A daemon that does what it is told and remembers which containers run, and
    worlds on it. *)

From Stdlib Require Import Strings.Byte Strings.String.
From S2P Require Import Prelude.
From S2P Require Import Arbiter.
From S2P Require Import JobDirs.
From S2P Require Import ClusterJobs.
From S2P Require Import ClusterQueue.
From S2P Require Import ClusterContainer.
From S2P Require Import ClusterPool.
From S2P Require Import ClusterPacker.

(** The ids of the containers, and whether they run. *)
Abbreviation Toy := (gmap string bool).

#[export] Instance toy_docker : Docker Toy := {|
  ContainerCreate o n d := (Some ("docker-" +:+ n), <["docker-" +:+ n := false]> d);
  ContainerStart i d := (bool_decide (is_Some (d !! i)), <[i := true]> d);
  ContainerStop i t d := (true, <[i := false]> d);
  ContainerRemove i d := (bool_decide (is_Some (d !! i)), delete i d);
  ContainerInspect i d := ((λ run, mkInspect run (Some "healthy")) <$> d !! i, d);
  DockerPing d := (true, d)
|}.

Definition toy_env : PoolEnv :=
  mkPoolEnv "jobs" (λ n, String.concat EmptyString (replicate (S n) "u")).

#[export] Instance toy_pool : ContainerPool (World Toy) := Containers_pool toy_env.

Definition empty_disk : Disk := mkDisk ∅ ["srv"] [].

(** Nothing tracked, ports to give, no faults. *)
Definition toy_world : World Toy :=
  mkWorld [] [] ∅ empty_disk 0 [Some 4000; Some 4001; Some 4002] O (Some []).

Definition no_others (pt : pack_point) (s : World Toy * Jobs) : World Toy * Jobs := s.
