(* ===== verification/ClusterSafety.v ===== *)
(** * One job per container, and no more than the machine has

    The pool keeps the laws of its interface; what the packer does on any pool
    that keeps them. *)

From Stdlib Require Import Strings.Byte Strings.String.
From S2P Require Import Prelude.
From S2P Require Import Arbiter.
From S2P Require Import JobDirs.
From S2P Require Import ClusterJobs.
From S2P Require Import ClusterQueue.
From S2P Require Import ClusterContainer.
From S2P Require Import ClusterPool.
From S2P Require Import ClusterPacker.
From S2P Require Import ClusterExamples.

Section laws.
Context {D : Type} `{!Docker D} (env : PoolEnv).
Implicit Types w : World D.

(** ** What the calls to the daemon leave alone *)

Definition same_but_daemon w w' : Prop := ∃ d, w' = set_daemon d w.

#[local] Instance same_but_daemon_preorder : PreOrder same_but_daemon.
Proof.
  split.
  - intros w. exists (daemon w). by destruct w.
  - intros w1 w2 w3 [d ->] [d' ->]. by exists d'.
Qed.

#[local] Instance keeps_docker {A} (call : D → A * D) : Keeps same_but_daemon (docker call).
Proof. intros w. unfold docker. destruct (call (daemon w)) as [a d]. by exists d. Qed.
#[local] Instance keeps_self p : Keeps same_but_daemon (self (D:=D) p).
Proof. intros w. unfold self. by destruct (conts w !! p). Qed.

#[local] Instance keeps_IsRunning p : Keeps same_but_daemon (IsRunning p).
Proof.
  unfold IsRunning. keeps_by fail.
Qed.

#[local] Instance keeps_Health p : Keeps same_but_daemon (Health p).
Proof.
  unfold Health. keeps_by fail.
Qed.

Lemma Health_daemon p w r w' : Health p w = (r, w') → same_but_daemon w w'.
Proof. apply (keeps_run _ _). Qed.

#[local] Instance keeps_or_false (m : io CError (World D) bool) :
  Keeps same_but_daemon m → Keeps same_but_daemon (or_false m).
Proof. intros Hm w. unfold or_false. specialize (Hm w). by destruct (m w) as [[]]. Qed.

#[local] Instance keeps_available l : Keeps same_but_daemon (available l).
Proof. induction l; simpl; apply _. Qed.

Lemma AvailableImageNames_conts w r w' :
  AvailableImageNames w = (r, w') → same_but_daemon w w'.
Proof. apply (keeps_run _ _). Qed.

(** ** Finding a free container *)

Definition reserve_at (p : loc) (w : World D) : World D :=
  set_conts (alter (with_state Reserved) p (conts w)) w.

(** [p] was free, of the image, and is now reserved; nothing else has changed but
    the daemon. *)
Definition picked (imageName : string) (p : loc) w w' : Prop :=
  ∃ c, conts w !! p = Some c ∧ c_state c = Free ∧ Alias (c_image c) = imageName ∧
    same_but_daemon (reserve_at p w) w'.

Lemma picked_daemon a p w1 w2 w3 :
  same_but_daemon w1 w2 → picked a p w2 w3 → picked a p w1 w3.
Proof. intros [d ->] (c & Hc & Hf & Ha & d' & ->). exists c. split_and!; try done. by exists d'. Qed.

Lemma find_free_spec l a mi ao : ∀ w r w',
  find_free l a mi ao w = (r, w') →
  match r with
  | Ok (inl p) => p ∈ l ∧ picked a p w w'
  | _ => same_but_daemon w w'
  end.
Proof.
  revert mi ao. induction l as [|p l IH]; intros mi ao w r w'; cbn [find_free].
  { intros [= <- <-]. done. }
  assert (∀ w1 mi ao, same_but_daemon w w1 → find_free l a mi ao w1 = (r, w') →
    match r with Ok (inl q) => q ∈ p :: l ∧ picked a q w w' | _ => same_but_daemon w w' end)
    as Hnext.
  { intros w1 mi' ao' Hw E. apply IH in E.
    destruct r as [[q|]|e|]; [|by etrans; eauto..]. destruct E as [Hin Hp].
    split; [by right | by eapply picked_daemon]. }
  unfold mbind at 1, io_bind at 1.
  destruct (or_false (IsRunning p) w) as [[run|e|] w1] eqn:E1;
    apply (keeps_run _ _) in E1; [|by intros [= <- <-]..].
  destruct run; cbn [negb]; [|by apply Hnext].
  unfold mbind at 1, io_bind at 1, self. destruct (conts w1 !! p) as [c|] eqn:Ec.
  2: { by intros [= <- <-]. }
  destruct (bool_decide (c_state c = Free) && bool_decide (Alias (c_image c) = a)) eqn:Em.
  2: { by apply Hnext. }
  bool_to_prop. unfold Reserve, mbind, io_bind, self. rewrite Ec, bool_decide_eq_true_2 by done.
  intros [= <- <-]. split; [left|]. eapply picked_daemon; [done|]. exists c. done.
Qed.

Lemma FindFreeContainer_spec a w r w' :
  FindFreeContainer a w = (r, w') →
  match r with
  | Ok p => p ∈ tracked w ∧ picked a p w w'
  | _ => same_but_daemon w w'
  end.
Proof.
  unfold FindFreeContainer, mbind, io_bind, get.
  destruct (find_free (tracked w) a false true w) as [r1 w1] eqn:E. apply find_free_spec in E.
  destruct r1 as [[p|[mi ao]]|e|]; [by intros [= <- <-] | | by intros [= <- <-]..].
  destruct mi; cbn [negb]; [destruct ao|]; by intros [= <- <-].
Qed.

(** ** Owners keep their containers *)

Definition owned_le w w' : Prop := ∀ p, owned w p → owned w' p.

#[local] Instance owned_le_preorder : PreOrder owned_le.
Proof. split; [by intros w p | by intros w1 w2 w3 H1 H2 p Hp%H1%H2]. Qed.

Lemma same_but_daemon_owned w w' : same_but_daemon w w' → owned_le w w'.
Proof. by intros [d ->] p. Qed.

Lemma keeps_owned_daemon {A} (m : io CError (World D) A) :
  Keeps same_but_daemon m → Keeps owned_le m.
Proof. intros Hm w. by apply same_but_daemon_owned. Qed.

#[local] Instance keeps_owned_docker {A} (call : D → A * D) : Keeps owned_le (docker call).
Proof. apply keeps_owned_daemon, _. Qed.
#[local] Instance keeps_owned_self p : Keeps owned_le (self (D:=D) p).
Proof. apply keeps_owned_daemon, _. Qed.

#[local] Instance keeps_owned_disk {A} c (m : osio A) : Keeps owned_le (on_disk (D:=D) c m).
Proof. intros w. unfold on_disk. destruct (m (disk w)) as [[]]; by intros p Hp. Qed.

Lemma keeps_owned_assign p f :
  (∀ c, c_state c ≠ Free → c_state (f c) ≠ Free) → Keeps owned_le (assign (D:=D) p f).
Proof.
  intros Hf w q (c & Hq & Hs). unfold assign, modify, owned. simpl.
  destruct (decide (q = p)) as [->|Hne].
  - exists (f c). rewrite list_lookup_alter_eq, Hq. auto.
  - exists c. by rewrite list_lookup_alter_ne.
Qed.

#[local] Instance keeps_owned_now : Keeps owned_le (now (D:=D)).
Proof. unfold now. apply _. Qed.

Ltac keeps_owned :=
  keeps_by ltac:(first [apply keeps_owned_assign; by intros [] ? | apply keeps_modify; by intros w q]).

#[local] Instance keeps_owned_Init p l : Keeps owned_le (Init p l).
Proof. unfold Init. keeps_owned. Qed.

#[local] Instance keeps_owned_Add p : Keeps owned_le (Add (D:=D) p).
Proof. unfold Add. keeps_owned. Qed.

#[local] Instance keeps_owned_GetFreePort : Keeps owned_le (GetFreePort (D:=D)).
Proof. unfold GetFreePort. keeps_owned. Qed.

#[local] Instance keeps_owned_allocate c : Keeps owned_le (allocate (D:=D) c).
Proof.
  intros w p (c' & Hp & Hs). exists c'. split; [|done]. cbn. by apply lookup_app_l_Some.
Qed.

#[local] Instance keeps_owned_AddFromImage i : Keeps owned_le (AddFromImage env i).
Proof. unfold AddFromImage. keeps_owned. Qed.

Lemma GetFreePort_conts w r w' : GetFreePort w = (r, w') → conts w' = conts w.
Proof.
  unfold GetFreePort, mbind, io_bind, get, modify, ret, throw.
  destruct (ports w) as [|[z|] l]; by intros [= <- <-].
Qed.

Lemma AddFromImage_fresh i w p w' :
  AddFromImage env i w = (Ok p, w') → ¬ owned w p ∧ owned w' p.
Proof.
  unfold AddFromImage. unfold mbind at 1, io_bind at 1.
  destruct (GetFreePort w) as [[port|e|] w1] eqn:E1; [|done..]. apply GetFreePort_conts in E1.
  unfold mbind at 1, io_bind at 1, get. unfold mbind at 1, io_bind at 1, modify.
  unfold mbind at 1, io_bind at 1. unfold allocate, mbind at 1, io_bind at 1, get.
  unfold mbind at 1, io_bind at 1, modify, ret at 1.
  set (w2 := set_conts _ _). set (q := length _). intros E.
  assert (owned w2 q) as Ho.
  { eexists. split; [unfold w2, q; cbn; by apply list_lookup_middle|done]. }
  pose proof (keeps_run owned_le _ _ _ _ E) as Hk. assert (p = q) as ->.
  { revert E. unfold mbind, io_bind. destruct (Init q (Args i) w2) as [[?|?|] w3]; [|done..].
    destruct (Add q w3) as [[?|?|] w4]; [|done..]. by intros [= <- <-]. }
  split; [|by apply Hk]. intros (c & Hc & _). apply lookup_lt_Some in Hc.
  unfold q in Hc. cbn in Hc. rewrite E1 in Hc. lia.
Qed.

Lemma TrackedLaunch_owned i w o b w' :
  TrackedLaunch i w = (o, (b, w')) → owned_le w w'.
Proof.
  unfold TrackedLaunch, stream_error. destruct (find_id _ _ _); [by intros [= <- <- <-]|].
  destruct (errors w); intros [= <- <- <-]; by intros q.
Qed.

#[export] Instance Containers_laws : PoolLaws (World D) (ContainerPool0 := Containers_pool env).
Proof.
  split; cbn.
  - intros w r w' p E. apply (keeps_run owned_le) in E; [by apply E | apply keeps_owned_daemon, _].
  - intros a w p w' E%FindFreeContainer_spec. destruct E as (_ & c & Hc & Hf & _ & d & ->).
    split; [intros (c' & Hc' & Hs); congruence|]. eexists. cbn.
    rewrite list_lookup_alter_eq, Hc. split; [done | by destruct c].
  - intros a w r w' p E%FindFreeContainer_spec Hp. destruct r as [q|e|];
      [|by apply (same_but_daemon_owned w)..]. destruct E as (_ & c & Hc & _ & _ & d & ->).
    apply (same_but_daemon_owned (reserve_at q w)); [by exists d|].
    by apply (keeps_owned_assign q (with_state Reserved)); [by intros []|].
  - intros i w p w'. apply AddFromImage_fresh.
  - intros i w r w' p E. by apply (keeps_run owned_le _ _ _ _ E).
  - intros q w r w' p. destruct (TrackedLaunch _ w) as [o [[] w1]] eqn:E; [|done].
    intros [= <- <-]. by apply (TrackedLaunch_owned _ _ _ _ _ E).
Qed.
End laws.

(** ** Packing on any pool *)

Section packs.
Context {P : Type} `{!ContainerPool P, !PoolLaws P}.
Implicit Types s : P * Jobs.

Definition kept s s' : Prop := ∀ p, pool_reserved s.1 p → pool_reserved s'.1 p.

#[local] Instance kept_preorder : PreOrder kept.
Proof. split; [by intros s p | by intros s1 s2 s3 H1 H2 p Hp%H1%H2]. Qed.

Definition got s p s' : Prop := ¬ pool_reserved s.1 p ∧ pool_reserved s'.1 p.

Lemma got_kept s1 s2 p s3 s4 : kept s1 s2 → got s2 p s3 → kept s3 s4 → got s1 p s4.
Proof. intros H1 [Hn Hg] H2. split; [by intros Hp%H1 | by apply H2]. Qed.

Lemma launch_kept p s r s' : launch p s = Some (r, s') → kept s s'.
Proof.
  unfold launch. destruct (pool_TrackedLaunch p s.1) as [[r1 w]|] eqn:E; [|done].
  intros [= <- <-] q. by apply (launch_keep _ _ _ _ _ E).
Qed.

(** Reservations stay, and the container that is returned is a new one. *)
Definition yields s (r : option loc) s' : Prop :=
  kept s s' ∧ ∀ p, r = Some p → got s p s'.

Lemma yields_none s s' : kept s s' → yields s None s'.
Proof. by split. Qed.

Lemma yields_after s s1 r s2 s3 : kept s s1 → yields s1 r s2 → kept s2 s3 → yields s r s3.
Proof.
  intros H1 [H2 Hg] H3. split; [by do 2 (etrans; [done|])|].
  intros p Hp. eapply got_kept; [done | by apply Hg | done].
Qed.

Definition value {A} (r : outcome CError (option A)) : option A :=
  match r with Ok o => o | _ => None end.

Lemma add_container_spec image s r s' :
  add_container image s = Some (r, s') → yields s (value r) s'.
Proof.
  unfold add_container. intros (r1 & s1 & E1 & E)%bio_bind_inv.
  unfold on_pool, lift_io in E1. destruct (pool_AddFromImage image s.1) as [r0 w] eqn:Ea.
  injection E1 as <- <-.
  assert (kept s (w, s.2)) as Hk by (intros q; by apply (add_keep _ _ _ _ _ Ea)).
  destruct r0 as [p|e|]; [|by destruct E as [-> ->]..].
  apply bio_bind_inv in E as (r2 & s2 & E2 & E). apply launch_kept in E2.
  destruct r2 as [[]|e|]; [|destruct E as [-> ->]; apply yields_none; by etrans..].
  injection E as <- <-. split; [by etrans|]. intros q [= <-].
  eapply (got_kept s s _ (w, s.2)); [done | by apply (add_fresh _ _ _ _ Ea) | done].
Qed.

Lemma place_spec image c m s r s' : place image c m s = Some (r, s') → yields s (value r) s'.
Proof.
  unfold place. destruct (pool_FindFreeContainer (Alias image) s.1) as [r0 w] eqn:Ef.
  assert (kept s (w, s.2)) as Hk by (intros q; by apply (find_keep _ _ _ _ _ Ef)).
  destruct r0 as [p|e|].
  - intros [= <- <-]. split; [done|]. intros q [= <-]. by apply (find_fresh _ _ _ _ Ef).
  - assert (Some (Err e, (w, s.2)) = Some (r, s') → yields s (value r) s') as Hother
      by (intros [= <- <-]; by apply yields_none).
    destruct e; try done; destruct (_ || _);
      solve [intros [= <- <-]; by apply yields_none
            | intros E%add_container_spec; by eapply yields_after].
  - intros [= <- <-]. by apply yields_none.
Qed.

Definition polite (meanwhile : pack_point → P * Jobs → P * Jobs) : Prop :=
  ∀ pt s, kept s (meanwhile pt s).

Lemma mark_kept p job s r s' : mark p job s = Some (r, s') → kept s s'.
Proof.
  unfold mark, queue_call. destruct (MarkRunning _ _ _) as [[]]; intros [= <- <-]; by intros q.
Qed.

Lemma pool_names_kept s r s' :
  on_pool pool_AvailableImageNames s = Some (r, s') → kept s s'.
Proof.
  unfold on_pool, lift_io. destruct (pool_AvailableImageNames s.1) as [r0 w] eqn:E.
  intros [= <- <-] q. by apply (names_keep _ _ _ _ E).
Qed.

(** What a call returns, without the copy of the job. *)
Definition placed (r : outcome CError (option (loc * Job))) : option loc := fst <$> value r.

Lemma PackNextJob_yields ord limits mw s r s' :
  polite mw → PackNextJob ord limits mw s = Some (r, s') → yields s (placed r) s'.
Proof.
  intros Hmw. unfold PackNextJob. intros (r1 & s1 & [= <- <-] & E)%bio_bind_inv.
  apply bio_bind_inv in E as (r2 & s2 & [= <- <-] & E).
  pose proof (Hmw BeforePick (s.1, s.2)) as H1. set (s2 := mw _ _) in *.
  apply bio_bind_inv in E as (r3 & s3 & E3%pool_names_kept & E).
  destruct r3 as [names|e|]; [|destruct E as [-> ->]; apply yields_none; by etrans..].
  apply bio_bind_inv in E as (r4 & s4 & E4 & E). unfold on_queue in E4.
  destruct (NextBestJob names _ _ s3.2) as [job q] eqn:Eq. injection E4 as <- <-.
  destruct job as [job|]; [|injection E as <- <-; apply yields_none; by etrans].
  apply bio_bind_inv in E as (r5 & s5 & [= <- <-] & E).
  pose proof (Hmw BeforePlace (s3.1, q)) as H2. set (s5 := mw _ (_, q)) in *.
  apply bio_bind_inv in E as (r6 & s6 & [= <- <-] & E).
  apply bio_bind_inv in E as (r7 & s7 & E7%place_spec & E).
  assert (kept s (s5.1, s5.2)) as Hk by (do 2 (etrans; [done|]); done).
  destruct r7 as [[p|]|e|].
  2: { injection E as <- <-. by eapply yields_after. }
  2-3: destruct E as [-> ->]; by eapply yields_after.
  apply bio_bind_inv in E as (r8 & s8 & [= <- <-] & E).
  pose proof (Hmw BeforeMark s7) as H3. set (s8 := mw _ s7) in *.
  apply bio_bind_inv in E as (r9 & s9 & E9%mark_kept & E).
  assert (yields s (Some p) s9) as Hy by (eapply yields_after; [done..|by etrans]).
  destruct r9 as [[]|e|].
  - by injection E as <- <-.
  - destruct E as [-> ->]. apply yields_none, Hy.
  - destruct E as [-> ->]. apply yields_none, Hy.
Qed.

(** Several calls, one after the other; each may be interrupted by others. A call
    that waits for ever ends the list. *)
Record pack_call := mkPack {
  pk_ord : MapOrder;
  pk_limits : Z * Z;
  pk_meanwhile : pack_point → P * Jobs → P * Jobs
}.

Fixpoint packs (l : list pack_call) s : list loc * (P * Jobs) :=
  match l with
  | [] => ([], s)
  | k :: l =>
      match PackNextJob (pk_ord k) (pk_limits k) (pk_meanwhile k) s with
      | Some (r, s1) =>
          let '(ps, s2) := packs l s1 in
          (match placed r with Some p => p :: ps | None => ps end, s2)
      | None => ([], s)
      end
  end.

Lemma packs_spec l : ∀ s ps s',
  Forall (λ k, polite (pk_meanwhile k)) l → packs l s = (ps, s') →
  kept s s' ∧ NoDup ps ∧ ∀ p, p ∈ ps → got s p s'.
Proof.
  induction l as [|k l IH]; intros s ps s' Hp; cbn [packs].
  { intros [= <- <-]. split_and!; [done | constructor | by intros p ?%not_elem_of_nil]. }
  inversion_clear Hp as [|? ? Hk Hl].
  destruct (PackNextJob _ _ _ s) as [[r s1]|] eqn:E.
  2: { intros [= <- <-]. split_and!; [done | constructor | by intros p ?%not_elem_of_nil]. }
  apply PackNextJob_yields in E as [H1 Hg]; [|done].
  destruct (packs l s1) as [qs s2] eqn:El. intros [= <- <-].
  destruct (IH _ _ _ Hl El) as (H2 & Hn & Hq).
  assert (∀ p, p ∈ qs → got s p s2) as Hq' by (intros p Hin; eapply got_kept; [done|by apply Hq|done]).
  split; [by etrans|]. destruct (placed r) as [p|]; [|done].
  destruct (Hg p eq_refl) as [Hn1 Hg1]. split.
  - constructor; [|done]. intros Hin. by destruct (Hq p Hin).
  - intros p' [->|Hin]%elem_of_cons; [|by apply Hq']. split; [done | by apply H2].
Qed.
End packs.

(** ** Properties *)

(** C17: no container gets two jobs: on any pool that keeps the laws of its
    interface, however the calls of the packer are interrupted by code that leaves
    reservations alone, the containers that a run of calls hands out are distinct,
    none of them was somebody's before, and all are reserved at the end. *)
Theorem packs_distinct {P : Type} `{!ContainerPool P, !PoolLaws P} l (s : P * Jobs) ps s' :
  Forall (λ k, polite (pk_meanwhile k)) l → packs l s = (ps, s') →
  NoDup ps ∧ ∀ p, p ∈ ps → ¬ pool_reserved s.1 p ∧ pool_reserved s'.1 p.
Proof. intros Hl E. by apply (packs_spec _ _ _ _ Hl E). Qed.

(** [FindFreeContainer] gives a tracked container of the image that was free,
    and reserves it; it touches no other container, and none at all when it
    fails. *)
Theorem FindFreeContainer_reserves {D : Type} `{!Docker D} a (w : World D) r w' :
  FindFreeContainer a w = (r, w') →
  tracked w' = tracked w ∧
  match r with
  | Ok p => p ∈ tracked w ∧ ∃ c, conts w !! p = Some c ∧ c_state c = Free ∧
      Alias (c_image c) = a ∧ conts w' = alter (with_state Reserved) p (conts w)
  | _ => conts w' = conts w
  end.
Proof.
  intros E%FindFreeContainer_spec. destruct r as [p|e|].
  - destruct E as (Hin & c & Hc & Hf & Ha & d & ->). split; [done|]. split; [done|]. by exists c.
  - by destruct E as [d ->].
  - by destruct E as [d ->].
Qed.

(** ** Witnesses *)

Definition two_jobs : Jobs :=
  do_ops [OAdd (example_job "a" "echo" 5); OAdd (example_job "b" "echo" 5)] CreateJobsQueue.

Definition two_packs : list (pack_call (P := World Toy)) :=
  replicate 2 (mkPack default_order (10, 1000) no_others).

Lemma packs_distinct_witness :
  let '(ps, s') := packs two_packs (toy_world, two_jobs) in
  ps = [0%nat; 1%nat] ∧ NoDup ps ∧
  ∀ p, p ∈ ps → ¬ pool_reserved toy_world p ∧ pool_reserved s'.1 p.
Proof.
  destruct (packs two_packs (toy_world, two_jobs)) as [ps s'] eqn:E. split.
  - assert ((packs two_packs (toy_world, two_jobs)).1 = [0%nat; 1%nat]) as H
      by (vm_compute; reflexivity).
    by rewrite E in H.
  - apply (packs_distinct (PoolLaws0 := Containers_laws toy_env) two_packs (toy_world, two_jobs)).
    + repeat constructor; by intros pt s q.
    + exact E.
Defined.

(** A running free container of the image. *)
Definition free_world : World Toy :=
  mkWorld [mkContainer "con_a" 2 64 EmptyString (example_image "echo") "docker-a" "jobs" [] []
             false 1 Free 0 EmptyString []]
    [0%nat] {["docker-a" := true]} empty_disk 0 [] O (Some []).

Lemma FindFreeContainer_reserves_witness :
  let w' := (FindFreeContainer "echo" free_world).2 in
  tracked w' = tracked free_world ∧ 0%nat ∈ tracked free_world ∧
  ∃ c, conts free_world !! 0%nat = Some c ∧ c_state c = Free ∧
    Alias (c_image c) = "echo" ∧ conts w' = alter (with_state Reserved) 0%nat (conts free_world).
Proof.
  apply (FindFreeContainer_reserves "echo" free_world (Ok 0%nat)).
  apply run_eq. vm_compute. reflexivity.
Defined.
