(* ===== verification/ClusterLimits.v ===== *)
(** * The packer and the limits of the machine

    What the active jobs may use, and how [PackNextJob] keeps them within the
    limits when it runs alone, and does not when its calls overlap. *)

From Stdlib Require Import Strings.Byte Strings.String.
From S2P Require Import Prelude.
From S2P Require Import Arbiter.
From S2P Require Import JobDirs.
From S2P Require Import ClusterJobs.
From S2P Require Import ClusterQueue.
From S2P Require Import ClusterContainer.
From S2P Require Import ClusterPool.
From S2P Require Import ClusterPacker.
From S2P Require Import ClusterExamples.

(** ** Sums *)

Definition Zsum (l : list Z) : Z := foldr Z.add 0 l.

#[export] Instance Zsum_perm : Proper ((≡ₚ) ==> eq) Zsum.
Proof. intros l l' H. unfold Zsum. induction H; simpl; lia. Qed.

Lemma Zsum_nonneg l : Forall (λ z, 0 ≤ z) l → 0 ≤ Zsum l.
Proof. unfold Zsum. induction 1; simpl; lia. Qed.

(** What the active jobs may use in one dimension. *)
Definition demand (lim : Image → Z) (h : list Job) (p : loc) : Z := lim (JImage (deref h p)).
Definition usage (lim : Image → Z) (q : Jobs) : Z :=
  Zsum (demand lim (heap q) <$> (map_to_list (active q)).*2).

Definition nonneg (q : Jobs) : Prop :=
  ∀ p, 0 ≤ demand NanoCPULimit (heap q) p ∧ 0 ≤ demand MemoryBytesLimit (heap q) p.

(** A queue that some run leads to, with limits that are not negative. *)
Definition sound (q : Jobs) : Prop := (∃ m, QR q m) ∧ nonneg q.

Definition within (limits : Z * Z) (q : Jobs) : Prop :=
  usage NanoCPULimit q ≤ limits.1 ∧ usage MemoryBytesLimit q ≤ limits.2.

Definition lighter (q q' : Jobs) : Prop :=
  usage NanoCPULimit q' ≤ usage NanoCPULimit q ∧
  usage MemoryBytesLimit q' ≤ usage MemoryBytesLimit q.

Lemma usage_nonneg q : nonneg q → 0 ≤ usage NanoCPULimit q ∧ 0 ≤ usage MemoryBytesLimit q.
Proof.
  intros Hn. split; apply Zsum_nonneg, Forall_fmap, Forall_forall; intros p _; apply Hn.
Qed.

Lemma add_limits_exact h l : ∀ c m,
  (∀ p, 0 ≤ demand NanoCPULimit h p ∧ 0 ≤ demand MemoryBytesLimit h p) →
  0 ≤ c → 0 ≤ m →
  c + Zsum (demand NanoCPULimit h <$> l) < 2 ^ 63 →
  m + Zsum (demand MemoryBytesLimit h <$> l) < 2 ^ 63 →
  add_limits h l (c, m) =
    (c + Zsum (demand NanoCPULimit h <$> l), m + Zsum (demand MemoryBytesLimit h <$> l)).
Proof.
  induction l as [|p l IH]; intros c m Hn Hc Hm Hc' Hm'; [unfold Zsum; simpl; f_equal; lia|].
  assert (0 ≤ Zsum (demand NanoCPULimit h <$> l) ∧ 0 ≤ Zsum (demand MemoryBytesLimit h <$> l)) as [].
  { split; apply Zsum_nonneg, Forall_fmap, Forall_forall; intros q _; apply Hn. }
  destruct (Hn p) as [H1 H2]. change (Zsum (demand ?lim h <$> p :: l)) with
    (demand lim h p + Zsum (demand lim h <$> l)) in *.
  unfold add_limits in *. cbn [foldl]. fold (demand NanoCPULimit h p) (demand MemoryBytesLimit h p).
  rewrite !wrap64_id by (unfold int64_ok; lia).
  rewrite IH by (done || lia). f_equal; lia.
Qed.

Lemma ActiveUtilization_exact ord q limits :
  nonneg q → within limits q → int64_ok limits.1 → int64_ok limits.2 →
  ActiveUtilization ord q = (usage NanoCPULimit q, usage MemoryBytesLimit q).
Proof.
  intros Hn [H1 H2] Hc Hm. unfold ActiveUtilization, usage, int64_ok in *.
  assert (∀ lim, Zsum (demand lim (heap q) <$> (range ord (active q)).*2) =
    Zsum (demand lim (heap q) <$> (map_to_list (active q)).*2)) as He
    by (intros lim; by rewrite range_perm).
  rewrite add_limits_exact; rewrite ?He; try done; lia.
Qed.

(** ** What changes the usage *)

Lemma usage_write f p lim q :
  keeps_rank f → usage lim (write f p q) = usage lim q.
Proof.
  intros Hf. unfold usage, write. cbn [heap set_heap active]. f_equal.
  apply list_fmap_ext. intros _ x _. unfold demand.
  by destruct (deref_written f p (heap q) x Hf) as (_ & _ & ->).
Qed.

Lemma nonneg_write f p q : keeps_rank f → nonneg q → nonneg (write f p q).
Proof.
  intros Hf Hn x. unfold write, demand. cbn [heap set_heap].
  destruct (deref_written f p (heap q) x Hf) as (_ & _ & ->). apply Hn.
Qed.

Lemma usage_insert lim q i p :
  active q !! i = None →
  usage lim (set_active (<[i := p]> (active q)) q) = demand lim (heap q) p + usage lim q.
Proof.
  intros Hi. unfold usage. cbn [active set_active heap].
  by rewrite (map_to_list_insert _ _ _ Hi).
Qed.

(** ** The choice of the packer *)

Lemma NextBestJob_active names c m q p q' :
  NextBestJob names c m q = (Some p, q') →
  ∃ pq, q' = activate p (set_pending pq q).
Proof.
  unfold NextBestJob.
  destruct (PopBestFitHeuristic _ _ _ _ _) as [[h|] pq1];
    destruct (PopBestFit _ _ _ pq1) as [[g|] pq2]; [destruct (_ >? _)| | |];
    intros E; simplify_eq; by eexists.
Qed.

Lemma NextBestJob_quiet names c m q q' :
  NextBestJob names c m q = (None, q') → ∃ pq, q' = set_pending pq q.
Proof.
  unfold NextBestJob.
  destruct (PopBestFitHeuristic _ _ _ _ _) as [[h|] pq1];
    destruct (PopBestFit _ _ _ pq1) as [[g|] pq2]; [destruct (_ >? _)| | |];
    intros E; simplify_eq; by eexists.
Qed.

Lemma NextBestJob_within names c m q r q' :
  sound q → NextBestJob names c m q = (r, q') →
  sound q' ∧ usage NanoCPULimit q' ≤ usage NanoCPULimit q + Z.max 0 c ∧
  usage MemoryBytesLimit q' ≤ usage MemoryBytesLimit q + Z.max 0 m.
Proof.
  intros [[mm HR] Hn] E. pose proof (NextBestJob_spec _ _ _ _ _ _ _ HR E) as Hs.
  destruct r as [p|].
  - destruct Hs as (i & Hid & Hi & HR' & Hf & _). destruct (NextBestJob_active _ _ _ _ _ _ E) as [pq ->].
    assert (active q !! i = None) as Ha.
    { apply eq_None_not_Some. rewrite (Q_active _ _ HR).
      assert (mm !! i = Some PPending) as -> by (apply (Q_pending _ _ HR); eauto). done. }
    assert (∀ lim, usage lim (activate p (set_pending pq q)) = demand lim (heap q) p + usage lim q)
      as Hu.
    { intros lim. unfold activate. rewrite usage_insert.
      - rewrite usage_write by auto with hive. unfold write, demand. cbn [heap set_pending set_heap].
        by destruct (deref_written (with_container packing) p (heap q) p (keeps_container _))
          as (_ & _ & ->).
      - unfold write. cbn [heap set_heap set_pending active]. rewrite written_Id by auto with hive.
        by rewrite Hid. }
    unfold fits in Hf. bool_to_prop. rewrite !Hu. unfold demand. simpl in *. split; [|lia].
    split; [by eexists|]. by apply (nonneg_write (with_container packing) p (set_pending pq q));
      auto with hive.
  - destruct Hs as [HR' _]. destruct (NextBestJob_quiet _ _ _ _ _ E) as [pq ->].
    split; [|unfold usage; cbn [heap active set_pending]; lia]. split; [by eexists | exact Hn].
Qed.

(** ** A call of the packer *)

Section pack.
Context {P : Type} `{!ContainerPool P}.
Implicit Types s : P * Jobs.

Lemma on_pool_queue {A} (m : io CError P A) s r s' : on_pool m s = Some (r, s') → s'.2 = s.2.
Proof. unfold on_pool, lift_io. destruct (m s.1). by intros [= <- <-]. Qed.

Lemma launch_queue p s r s' : launch p s = Some (r, s') → s'.2 = s.2.
Proof.
  unfold launch. destruct (pool_TrackedLaunch p s.1) as [[]|]; [|done]. by intros [= <- <-].
Qed.

Lemma add_container_queue image s r s' : add_container image s = Some (r, s') → s'.2 = s.2.
Proof.
  unfold add_container. intros (r1 & s1 & E1%on_pool_queue & E)%bio_bind_inv.
  destruct r1 as [p|e|]; [|by destruct E as [_ ->]..].
  apply bio_bind_inv in E as (r2 & s2 & E2%launch_queue & E).
  destruct r2 as [[]|e|]; [|destruct E as [_ ->]; congruence..].
  injection E as _ <-. congruence.
Qed.

Lemma place_queue image c m s r s' : place image c m s = Some (r, s') → s'.2 = s.2.
Proof.
  unfold place. destruct (pool_FindFreeContainer _ _) as [[p|e|] w]; [by intros [= _ <-]| |].
  - destruct e; try (by intros [= _ <-]);
      (destruct (_ || _); [by intros [= _ <-] | by intros E%add_container_queue]).
  - by intros [= _ <-].
Qed.

(** What others may do: anything that keeps the queue sound and does not make more
    jobs active. *)
Definition fair (meanwhile : pack_point → P * Jobs → P * Jobs) : Prop :=
  ∀ pt s, sound s.2 → sound (meanwhile pt s).2 ∧ lighter s.2 (meanwhile pt s).2.

Definition good (limits : Z * Z) (q : Jobs) : Prop := sound q ∧ within limits q.

Lemma fair_good mw pt s limits : fair mw → good limits s.2 → good limits (mw pt s).2.
Proof.
  intros Hf [Hs Hw]. destruct (Hf pt s Hs) as [Hs' Hl]. split; [done|].
  unfold within, lighter in *. lia.
Qed.

Lemma mark_good p job s r s' limits : good limits s.2 → mark p job s = Some (r, s') → good limits s'.2.
Proof.
  intros Hg. unfold mark, queue_call, MarkRunning.
  destruct (active s.2 !! _) as [x|]; intros [= _ <-]; [|done]. cbn [snd].
  destruct Hg as [[[m HR] Hn] Hw]. split; [split|].
  - exists m. apply QR_write; [auto with hive | done].
  - apply nonneg_write; [auto with hive | done].
  - unfold within. rewrite !usage_write by auto with hive. done.
Qed.

Lemma PackNextJob_good ord limits mw s r s' :
  int64_ok limits.1 → int64_ok limits.2 → fair mw → good limits s.2 →
  PackNextJob ord limits mw s = Some (r, s') → good limits s'.2.
Proof.
  intros Hi1 Hi2 Hf [Hs Hw] E. unfold PackNextJob in E.
  apply bio_bind_inv in E as (r1 & s1 & [= <- <-] & E). cbn [fst snd] in E.
  rewrite (ActiveUtilization_exact ord _ limits) in E by (done || apply Hs). cbn [fst snd] in E.
  destruct (usage_nonneg _ (proj2 Hs)) as [Hu1 Hu2]. destruct Hw as [Hw1 Hw2].
  rewrite !wrap64_id in E by (unfold int64_ok in *; lia).
  apply bio_bind_inv in E as (r2 & s2 & [= <- <-] & E).
  destruct (Hf BeforePick (s.1, s.2) Hs) as [Hs2 [Hl1 Hl2]]. set (s2 := mw _ _) in *.
  cbn [snd] in Hl1, Hl2.
  apply bio_bind_inv in E as (r3 & s3 & E3%on_pool_queue & E). rewrite <- E3 in *.
  assert (good limits s3.2) as Hg3 by (split; [done | split; lia]).
  destruct r3 as [names|e|]; [|by destruct E as [-> ->]..].
  apply bio_bind_inv in E as (r4 & s4 & E4 & E). unfold on_queue in E4.
  destruct (NextBestJob names _ _ s3.2) as [job q] eqn:Eq. injection E4 as <- <-.
  apply NextBestJob_within in Eq as (Hs4 & H1 & H2); [|done].
  assert (good limits q) as Hg4 by (split; [done | split; lia]).
  destruct job as [job|]; [|by injection E as <- <-].
  apply bio_bind_inv in E as (r5 & s5 & [= <- <-] & E).
  pose proof (fair_good _ BeforePlace (s3.1, q) limits Hf Hg4) as Hg5. set (s5 := mw _ (_, q)) in *.
  apply bio_bind_inv in E as (r6 & s6 & [= <- <-] & E).
  apply bio_bind_inv in E as (r7 & s7 & E7%place_queue & E). cbn [snd] in E7. rewrite <- E7 in Hg5.
  destruct r7 as [[p|]|e|]; [|by injection E as <- <-|by destruct E as [-> ->]..].
  apply bio_bind_inv in E as (r8 & s8 & [= <- <-] & E).
  pose proof (fair_good _ BeforeMark s7 limits Hf Hg5) as Hg8. set (s8 := mw _ s7) in *.
  apply bio_bind_inv in E as (r9 & s9 & E9 & E). apply mark_good with (limits := limits) in E9; [|done].
  destruct r9 as [[]|e|]; [by injection E as <- <-|by destruct E as [-> ->]..].
Qed.

(** ** Properties *)

(** C16: the packer keeps the machine within its limits: when the active jobs may
    use no more than the limits, then neither may they after a call of
    [PackNextJob], whatever the pool answers and whatever others do meanwhile, as
    long as they make no further jobs active. No subtraction or sum wraps. *)
Theorem PackNextJob_within_limits ord limits mw s r s' :
  int64_ok limits.1 → int64_ok limits.2 → fair mw → good limits s.2 →
  PackNextJob ord limits mw s = Some (r, s') →
  within limits s'.2 ∧
  ActiveUtilization ord s'.2 = (usage NanoCPULimit s'.2, usage MemoryBytesLimit s'.2).
Proof.
  intros H1 H2 Hf Hg E. pose proof (PackNextJob_good _ _ _ _ _ _ H1 H2 Hf Hg E) as [Hs Hw].
  split; [done|]. apply (ActiveUtilization_exact _ _ limits); [apply Hs|done..].
Qed.

(** A job whose container cannot be had is lost. When the pool answers with
    neither a container nor one of the two errors that lead to a new one - as
    [FindFreeContainer] does when every container of the image is occupied and one
    of another image is free, see the witness - [PackNextJob] returns the error but
    leaves the job active: it is not pending and no goroutine runs it, so nothing
    will complete it or roll it back, and what it may use stays counted. *)
Theorem PackNextJob_strands ord limits s names w p q e :
  let used := ActiveUtilization ord s.2 in
  pool_AvailableImageNames s.1 = (Ok names, w) →
  NextBestJob names (wrap64 (limits.1 - used.1)) (wrap64 (limits.2 - used.2)) s.2 = (Some p, q) →
  (∃ m, QR s.2 m) →
  (pool_FindFreeContainer (Alias (JImage (deref (heap q) p))) w).1 = Err e →
  e ≠ ErrAllOccupied → e ≠ ErrImageNotFound →
  ∃ w', PackNextJob ord limits (λ _ s, s) s = Some (Err e, (w', q)) ∧
    active q !! Id (deref (heap q) p) = Some p ∧
    items (pending q) !! Id (deref (heap q) p) = None.
Proof.
  intros used Hn Hq [m HR] Hf He1 He2. unfold used in *.
  pose proof (NextBestJob_spec _ _ _ _ _ _ _ HR Hq) as (i & Hi & _ & HR' & _).
  destruct (NextBestJob_active _ _ _ _ _ _ Hq) as [pq Heq].
  assert (Id (deref (heap q) p) = i) as Hid.
  { rewrite Heq. unfold activate, write. cbn [heap set_heap set_active set_pending].
    rewrite written_Id by auto with hive. exact Hi. }
  destruct (pool_FindFreeContainer (Alias (JImage (deref (heap q) p))) w) as [r w'] eqn:Ef.
  cbn [fst] in Hf. subst r. exists w'. split.
  - unfold PackNextJob, on_queue, on_pool, lift_io, others, mbind, bio_bind. cbn [fst snd].
    rewrite Hn. cbn [fst snd]. rewrite Hq. cbn [fst snd]. unfold place. cbn [fst snd].
    rewrite Ef. destruct e; done.
  - rewrite Hid. split.
    + rewrite Heq. unfold activate, write. cbn [heap set_heap set_active set_pending active].
      rewrite written_Id by auto with hive. rewrite Hi. apply lookup_insert_eq.
    + apply eq_None_not_Some. rewrite (Q_pending _ _ HR'), lookup_insert_eq. done.
Qed.
End pack.

(** ** Witnesses *)

(** Two jobs of two CPUs each. *)
Definition pair_run : list op :=
  [OAdd (example_job "a" "echo" 5); OAdd (example_job "b" "echo" 5)].
Definition pair_queue : Jobs := do_ops pair_run CreateJobsQueue.

Lemma pair_queue_sound : sound pair_queue.
Proof.
  split.
  - destruct (QR_do_ops pair_run _ _ QR_new) as (m & _ & HR); [|by exists m].
    refine (bool_decide_unpack _ _). vm_compute. exact I.
  - intros [|[|[|p]]]; vm_compute; split; congruence.
Qed.

Lemma pair_queue_good limits :
  0 ≤ limits.1 → 0 ≤ limits.2 → good limits pair_queue.
Proof. intros H1 H2. split; [apply pair_queue_sound|]. split; vm_compute; [apply H1 | apply H2]. Qed.

Lemma no_others_fair : fair no_others.
Proof. intros pt s Hs. split; [done | split; done]. Qed.

Lemma PackNextJob_within_limits_witness :
  match PackNextJob default_order (3, 1000) no_others (toy_world, pair_queue) with
  | Some (Ok (Some (p, j)), s') => p = 0%nat ∧ Id j = "a" ∧ within (3, 1000) s'.2 ∧
      ActiveUtilization default_order s'.2 = (usage NanoCPULimit s'.2, usage MemoryBytesLimit s'.2)
  | _ => False
  end.
Proof.
  destruct (PackNextJob default_order (3, 1000) no_others (toy_world, pair_queue)) as [[r s']|] eqn:E.
  - pose proof (PackNextJob_within_limits default_order (3, 1000) no_others (toy_world, pair_queue) r s'
      (bool_decide_unpack (int64_ok 3) I) (bool_decide_unpack (int64_ok 1000) I) no_others_fair
      (pair_queue_good (3, 1000) ltac:(done) ltac:(done)) E) as H.
    assert (match PackNextJob default_order (3, 1000) no_others (toy_world, pair_queue) with
            | Some (Ok (Some (p, j)), _) => p = 0%nat ∧ Id j = "a" | _ => False end) as Hc
      by (vm_compute; split; reflexivity).
    rewrite E in Hc. destruct r as [[[p j]|]|e|]; try contradiction.
    destruct Hc. split; [assumption|]. split; [assumption | exact H].
  - exfalso. assert (is_Some (PackNextJob default_order (3, 1000) no_others (toy_world, pair_queue)))
      as [? Hc] by (vm_compute; eexists; reflexivity).
    rewrite E in Hc. discriminate.
Defined.

(** A container of the image runs a job, one of another image is free. *)
Definition busy_world : World Toy :=
  let c i a s := mkContainer ("con_" +:+ i) 2 64 EmptyString (example_image a) ("docker-" +:+ i)
                   "jobs" [] [] false 1 s 0 EmptyString [] in
  mkWorld [c "a" "echo" Running; c "b" "sum" Free] [0%nat; 1%nat]
    {["docker-a" := true; "docker-b" := true]} empty_disk 0 [Some 4000] O (Some []).

Lemma PackNextJob_strands_witness :
  ∃ w', PackNextJob default_order (10, 1000) (λ _ s, s) (busy_world, pair_queue)
    = Some (Err (ErrNotFound "echo"), (w', (NextBestJob ["sum"] 10 1000 pair_queue).2)) ∧
    active (NextBestJob ["sum"] 10 1000 pair_queue).2 !! "a" = Some 0%nat ∧
    items (pending (NextBestJob ["sum"] 10 1000 pair_queue).2) !! "a" = None.
Proof.
  refine (PackNextJob_strands default_order (10, 1000) (busy_world, pair_queue) ["sum"]
    (AvailableImageNames busy_world).2 0%nat (NextBestJob ["sum"] 10 1000 pair_queue).2
    (ErrNotFound "echo") _ _ _ _ _ _).
  - apply run_eq. vm_compute. reflexivity.
  - apply run_eq. vm_compute. reflexivity.
  - apply pair_queue_sound.
  - vm_compute. reflexivity.
  - discriminate.
  - discriminate.
Defined.

(** ** Overlapping calls *)

(** Another call of the packer, from its start to its end. *)
Definition another_pack (limits : Z * Z) (s : World Toy * Jobs) : World Toy * Jobs :=
  match PackNextJob default_order limits no_others s with Some (_, s') => s' | None => s end.

(** Two calls of the packer that overlap overcommit the machine. The program
    starts a call every 250 ms without waiting for the last one; when a second call
    runs between the moment a first has read the utilization and the moment it
    takes a job, both pack into the same free room: two jobs of two CPUs each become
    active on a machine of three. *)
Theorem overlapping_packs_overcommit :
  let limits := (3, 1000) in
  let mw pt s := match pt with BeforePick => another_pack limits s | _ => s end in
  good limits pair_queue ∧
  match PackNextJob default_order limits mw (toy_world, pair_queue) with
  | Some (Ok (Some (_, j)), s') =>
      Id j = "b" ∧ is_Some (active s'.2 !! "a") ∧ is_Some (active s'.2 !! "b") ∧
      usage NanoCPULimit s'.2 = 4
  | _ => False
  end.
Proof.
  split; [by apply pair_queue_good|]. vm_compute.
  split_and!; [reflexivity | eexists; reflexivity | eexists; reflexivity | reflexivity].
Qed.
