(* ===== verification/ClusterRun.v ===== *)
(** * Running a job in a container

    What [AssignJob] leaves in the directory that the container reads, and how the
    goroutine [assignJob] ends. *)

From Stdlib Require Import Strings.Byte Strings.String.
From S2P Require Import Prelude.
From S2P Require Import Arbiter.
From S2P Require Import JobDirs.
From S2P Require Import ClusterJobs.
From S2P Require Import ClusterQueue.
From S2P Require Import ClusterContainer.
From S2P Require Import ClusterPool.
From S2P Require Import ClusterPacker.
From S2P Require Import ClusterExamples.
From S2P Require Import ClusterSafety.

(** The directory holds one file of this content and nothing else. *)
Definition holds_only (t : gmap (list string) node) (k : list string) (name : string)
    (c : list byte) : Prop :=
  ∀ x n, t !! (k ++ [x]) = Some n ↔ x = name ∧ n = Reg c.

Definition job_file (jobId ext : string) : string := "job-" +:+ jobId +:+ ext.

Lemma string_app_inj_l s a b : s +:+ a = s +:+ b → a = b.
Proof. induction s as [|c s IH]; [done|]. simpl. intros [= H]. auto. Qed.

Lemma job_file_plain jobId ext :
  no_slash jobId → no_slash ext → plain (job_file jobId ext).
Proof.
  intros Hj He. split_and!; try done. unfold job_file.
  apply split_slash_app; [done|]. by apply split_slash_app.
Qed.

Lemma job_file_ne jobId : job_file jobId ".tmp" ≠ job_file jobId ".json".
Proof. intros H%string_app_inj_l%string_app_inj_l. done. Qed.

Section run.
Context {D : Type} `{!Docker D}.
Implicit Types w : World D.

Lemma on_disk_Ok {A} c (m : osio A) w a w' :
  on_disk c m w = (Ok a, w') → ∃ d, m (disk w) = (Ok a, d) ∧ w' = set_disk d w.
Proof.
  unfold on_disk. destruct (m (disk w)) as [[b|e|] d]; [|done..]. intros [= -> <-]. eauto.
Qed.

(** ** Emptying the payload directory *)

Lemma clear_entries p l : ∀ w w',
  Forall (λ e, plain e.1) l → for_each (clear_entry p) l w = (Ok tt, w') →
  ∃ d, w' = set_disk d w ∧ cwd d = cwd (disk w) ∧
    (∀ q n, tree d !! q = Some n → tree (disk w) !! q = Some n) ∧
    ∀ x n, (x, n) ∈ l → tree d !! (resolve (disk w) p ++ [x]) = None.
Proof.
  induction l as [|[x n] l IH]; intros w w' Hp; cbn [for_each].
  { intros [= <-]. exists (disk w). split_and!; try done; [by destruct w|].
    intros x n []%not_elem_of_nil. }
  apply Forall_cons in Hp as [Hx Hl]. cbn [fst] in Hx.
  destruct (clear_entry p (x, n) w) as [[[]|e|] w1] eqn:E; [|done..].
  apply on_disk_Ok in E as (d1 & E & ->). apply os_RemoveAll_Ok in E as [Hc1 Ht1].
  rewrite resolve_sub in Ht1 by done. set (k := resolve (disk w) p) in *.
  intros E. apply IH in E as (d & -> & Hc & Hsub & Hgone); [|done]. cbn [disk set_disk] in *.
  rewrite (resolve_cwd (disk w)) in Hgone by done. fold k in Hgone.
  exists d. split_and!; [done | congruence | |].
  - intros q m Hq%Hsub. rewrite Ht1 in Hq. by destruct (below _ q).
  - intros y m [[= <- <-]|Hin]%elem_of_cons; [|by eapply Hgone].
    destruct (tree d !! (k ++ [y])) eqn:Eq; [|done]. apply Hsub in Eq.
    by rewrite Ht1, below_self in Eq.
Qed.

Lemma cleared_empty p l w w' :
  tree_ok (tree (disk w)) → l = children (tree (disk w)) (resolve (disk w) p) →
  for_each (clear_entry p) l w = (Ok tt, w') →
  ∃ d, w' = set_disk d w ∧ cwd d = cwd (disk w) ∧
    ∀ x, tree d !! (resolve (disk w) p ++ [x]) = None.
Proof.
  intros Hok -> E. apply clear_entries in E as (d & -> & Hc & Hsub & Hgone).
  - exists d. split_and!; [done..|]. intros x.
    destruct (tree d !! _) as [n|] eqn:Eq; [|done].
    pose proof (elem_of_children _ _ _ _ (Hsub _ _ Eq)) as Hin. by rewrite (Hgone x n Hin) in Eq.
  - apply Forall_forall. intros [x n] Hin. cbn. apply children_elem in Hin. by eapply Hok.
Qed.

(** ** The payload *)

(** A write followed by the rename leaves one file. *)
Lemma place_file k x y data t :
  x ≠ y → (∀ z, t !! (k ++ [z]) = None) →
  holds_only (<[k ++ [y] := Reg data]> (delete (k ++ [x]) (<[k ++ [x] := Reg data]> t))) k y data.
Proof.
  intros Hxy Ht z n. destruct (decide (z = y)) as [->|Hzy].
  - rewrite lookup_insert_eq. naive_solver.
  - rewrite lookup_insert_ne by (by intros ?%app_inv_head; simplify_eq).
    destruct (decide (z = x)) as [->|Hzx]; [rewrite lookup_delete_eq; naive_solver|].
    rewrite lookup_delete_ne, lookup_insert_ne by (by intros ?%app_inv_head; simplify_eq).
    rewrite Ht. naive_solver.
Qed.

(** ** Assigning *)

Definition same_conts w w' : Prop := conts w' = conts w.

#[local] Instance same_conts_preorder : PreOrder same_conts.
Proof. split; [done|]. unfold same_conts. intros w1 w2 w3. congruence. Qed.

#[local] Instance keeps_conts_disk {A} c (m : osio A) : Keeps same_conts (on_disk (D:=D) c m).
Proof. intros w. unfold on_disk. by destruct (m (disk w)) as [[]]. Qed.

#[local] Instance keeps_conts_list p : Keeps same_conts (list_payload (D:=D) p).
Proof.
  intros w. unfold list_payload, on_disk. by destruct (os_ReadDir p (disk w)) as [[|[]|]].
Qed.

#[local] Instance keeps_conts_finalize p q : Keeps same_conts (finalize (D:=D) p q).
Proof.
  intros w. unfold finalize. pose proof (keeps (Keeps:=keeps_conts_disk "finalize payload"
    (os_Rename p q)) w) as H. destruct (on_disk _ _ w) as [[a|e|] w1]; [done| |done].
  etrans; [exact H|]. apply (keeps (R:=same_conts)).
Qed.

#[local] Instance keeps_conts_entry p e : Keeps same_conts (clear_entry (D:=D) p e).
Proof. destruct e. apply _. Qed.

#[local] Instance keeps_conts_write p j pl : Keeps same_conts (write_payload (D:=D) p j pl).
Proof. unfold write_payload. keeps_by fail. Qed.

(** The listing of a directory that is there. *)
Lemma list_payload_Ok p w es w' :
  lookup_node (tree (disk w)) (resolve (disk w) p) = Some Dir → list_payload p w = (Ok es, w') →
  ∃ d, w' = set_disk d w ∧ cwd d = cwd (disk w) ∧ tree d = tree (disk w) ∧
    es = children (tree (disk w)) (resolve (disk w) p).
Proof.
  intros Hd. unfold list_payload, on_disk.
  destruct (os_ReadDir p (disk w)) as [[es'|[]|] d] eqn:E; [| |done..].
  - intros [= <- <-]. apply os_ReadDir_Ok in E as (Ht & Hc & ->). exists d. auto.
  - revert E. unfold os_ReadDir. os_start (disk w); [done|].
    by rewrite Ht, (resolve_cwd (disk w)), Hd by done.
Qed.

Lemma finalize_Ok p q w w' :
  finalize p q w = (Ok tt, w') →
  ∃ d n, w' = set_disk d w ∧ tree (disk w) !! resolve (disk w) p = Some n ∧
    tree d = <[resolve (disk w) q := n]> (delete (resolve (disk w) p) (tree (disk w))).
Proof.
  unfold finalize, on_disk. destruct (os_Rename p q (disk w)) as [[[]|e|] d] eqn:E; [| |done].
  - intros [= <-]. apply os_Rename_Ok in E as (n & Hn & _ & Ht). by exists d, n.
  - unfold mbind, io_bind, throw. by destruct (ignore _ _) as [[]].
Qed.

Lemma write_payload_Ok p j pl w w' :
  no_slash j → Forall plain (resolve (disk w) p) → tree_ok (tree (disk w)) →
  write_payload p j pl w = (Ok tt, w') →
  holds_only (tree (disk w')) (resolve (disk w) p) (job_file j ".json") pl.
Proof.
  intros Hj Hp Hok. unfold write_payload. set (k := resolve (disk w) p) in *.
  unfold mbind at 1, io_bind at 1.
  destruct (on_disk _ (os_MkdirAll p) w) as [[[]|e|] w1] eqn:E; [|done..].
  apply on_disk_Ok in E as (d1 & E & ->). pose proof (os_MkdirAll_dir _ _ _ E) as Hdir. fold k in Hdir.
  apply os_MkdirAll_ok in E as [Hok1 Hc1]; [|done..]. pose proof (resolve_cwd _ _ p Hc1) as Hk1; fold k in Hk1.
  unfold mbind at 1, io_bind at 1.
  destruct (list_payload p _) as [[es|e|] w2] eqn:E; [|done..].
  apply list_payload_Ok in E as (d2 & -> & Hc2 & Ht2 & ->); [|cbn; by rewrite Hk1].
  cbn [disk set_disk] in Hc2, Ht2 |- *. pose proof (resolve_cwd _ _ p Hc2) as Hk2; fold k in Hk2.
  unfold mbind at 1, io_bind at 1.
  destruct (for_each _ _ _) as [[[]|e|] w3] eqn:E; [|done..].
  apply cleared_empty in E as (d3 & -> & Hc3 & Hempty); cbn [disk set_disk] in *;
    [|by rewrite Ht2 | by rewrite Ht2, Hk2]. pose proof (resolve_cwd _ _ p Hc3) as Hk3; fold k in Hk3.
  unfold mbind at 1, io_bind at 1. fold (job_file j ".tmp") (job_file j ".json").
  destruct (on_disk _ (os_WriteFile _ _) _) as [[[]|e|] w4] eqn:E; [|done..].
  apply on_disk_Ok in E as (d4 & E & ->). apply os_WriteFile_Ok in E as [Ht4 Hc4].
  cbn [disk set_disk] in *. pose proof (resolve_cwd _ _ p Hc4) as Hk4; fold k in Hk4.
  intros (d5 & n & -> & Hn & Ht5)%finalize_Ok. cbn [disk set_disk] in *.
  assert (∀ d ext, no_slash ext → resolve d (sub p (job_file j ext)) = resolve d p ++ [job_file j ext])
    as Hsub by (intros; by apply resolve_sub, job_file_plain).
  rewrite Hsub in Hn, Ht4 by done. rewrite !(Hsub d4) in Ht5 by done.
  rewrite Hk4, Hk3, Hk2, Hk1 in *.
  rewrite Ht4, lookup_insert_eq in Hn. injection Hn as <-. rewrite Ht5, Ht4.
  apply place_file; [apply job_file_ne | done].
Qed.

Lemma AssignJob_spec p j pl w r w' :
  AssignJob p j pl w = (r, w') →
  match r with
  | Ok _ => ∃ c w1, conts w !! p = Some c ∧ c_dockerID c ≠ EmptyString ∧ c_state c ≠ Running ∧
      write_payload (Join [c_payloadLocation c; c_id c; "payload"]) j pl w = (Ok tt, w1) ∧
      disk w' = disk w1 ∧
      conts w' = alter (with_change (clock w1) ∘ count_job ∘ with_job j ∘ with_state Running) p
                   (conts w)
  | _ => conts w' = conts w
  end.
Proof.
  unfold AssignJob. unfold mbind at 1, io_bind at 1, self.
  destruct (conts w !! p) as [c|] eqn:Hc; [|by intros [= <- <-]].
  case_bool_decide as Hd; [by intros [= <- <-]|]. case_bool_decide as Hs; [by intros [= <- <-]|].
  unfold mbind at 1, io_bind at 1.
  destruct (write_payload _ j pl w) as [[[]|e|] w1] eqn:E; pose proof (keeps_run _ _ _ _ _ E) as Hk.
  - intros [= <- <-]. exists c, w1. cbn. by rewrite Hk.
  - by intros [= <- <-].
  - by intros [= <- <-].
Qed.
End run.

(** ** How the goroutine of a job ends *)

Section assign.
Context {D : Type} `{!Docker D}.
Abbreviation csys := (World D * Jobs)%type.
Implicit Types s : csys.

(** The job is active and the goroutine has its container. *)
Definition mine (i : string) (x p : loc) s : Prop :=
  (∃ m, QR s.2 m) ∧ active s.2 !! i = Some x ∧ closed s.2 = false ∧ is_Some (conts s.1 !! p).

(** The job has left the queue with its result. *)
Definition gone (i : string) (x : loc) (payload : list byte) s : Prop :=
  absent s.2 i ∧ closed s.2 = false ∧
  Payload (deref (heap s.2) x) = payload ∧ Succeeded (deref (heap s.2) x) = true.

(** What the code that runs meanwhile may not do: take this job or this container
    away, close the channel, or change the result of a finished job. *)
Definition discreet (i : string) (x p : loc) (mw : assign_point → csys → csys) : Prop :=
  (∀ pt s, pt ≠ BeforeSend → mine i x p s → mine i x p (mw pt s)) ∧
  (∀ payload s, gone i x payload s → gone i x payload (mw BeforeSend s)).

(** How it ends: back in the queue, running for good, or completed with this payload. *)
Definition settled (i : string) (x p : loc) (job : Job) (payload : list byte) s : Prop :=
  (items (pending s.2) !! i = Some x ∧ active s.2 !! i = None ∧
   AssignedContainerID (deref (heap s.2) x) = EmptyString) ∨
  (Persistent (JImage job) = true ∧ active s.2 !! i = Some x ∧
   ∃ c, conts s.1 !! p = Some c ∧ c_state c = Running ∧ c_assignedJobID c = i) ∨
  (Persistent (JImage job) = false ∧
   ∃ l, gone i x payload s ∧ completed s.2 = l ++ [x]).

(** The state in which the goroutine waits for the result, when everything before
    goes well: the container has come up, the job is marked and handed over. *)
Definition waiting sleeps (mw : assign_point → csys → csys) (p : loc) (job : Job) s : csys :=
  let s1 := ((WaitUntilReady sleeps p s.1).2, s.2) in
  let s2 := mw BeforeRunning s1 in
  let s3 := (s2.1, (MarkRunning (Id job) (id_of p s2.1) s2.2).2) in
  let s4 := mw BeforeAssign s3 in
  mw BeforeResult ((AssignJob p (Id job) (Payload job) s4.1).2, s4.2).

(** What arrives there: nothing when the context ends or the channel is closed and
    empty, else the oldest result on the container's channel. *)
Definition answer (done : bool) (p : loc) s : list byte :=
  if done then [] else
  match conts s.1 !! p with
  | Some c => match c_results c with r :: _ => r | [] => [] end
  | None => []
  end.

Lemma mine_world i x p s w : is_Some (conts w !! p) → mine i x p s → mine i x p (w, s.2).
Proof. intros Hp (H1 & H2 & H3 & _). done. Qed.

Lemma rollback_done i x p s :
  mine i x p s →
  let q := (RollbackJob i s.2).2 in
  items (pending q) !! i = Some x ∧ active q !! i = None ∧
  AssignedContainerID (deref (heap q) x) = EmptyString.
Proof.
  intros ([m HR] & Ha & _). unfold RollbackJob.
  rewrite Ha. destruct (Q_heap _ _ HR _ _ Ha) as [Hid Hl]. cbn [fst snd].
  assert (∀ h, Id (deref (alter (with_container EmptyString) x h) x) = Id (deref h x)) as Hw
    by (intros h; apply written_Id; auto with hive).
  unfold write. cbn [pending set_pending active set_active heap set_heap accs].
  rewrite Push_items. unfold accs. cbn [heap set_heap set_active idFn job_accessors].
  rewrite Hw, Hid. split_and!; [apply lookup_insert_eq | apply lookup_delete_eq |].
  unfold deref. rewrite list_lookup_alter_eq.
  apply lookup_lt_is_Some_2 in Hl as [j ->]. by destruct j.
Qed.

Lemma rollback_settled i x p job pl s r s' :
  mine i x p s → rollback i s = Some (r, s') → r = Ok tt ∧ settled i x p job pl s'.
Proof. intros Hm [= <- <-]. split; [done|]. left. by apply (rollback_done i x p). Qed.

Lemma undo_settled i x p job pl s r s' :
  mine i x p s → undo p i s = Some (r, s') → r = Ok tt ∧ settled i x p job pl s'.
Proof. intros Hm [= <- <-]. split; [done|]. left. by apply (rollback_done i x p). Qed.

Lemma attempt_on_world {A} (m : io CError (World D) A) s r s' :
  attempt (on_world m) s = Some (r, s') →
  s'.2 = s.2 ∧ s'.1 = (m s.1).2 ∧
  match (m s.1).1 with
  | Ok a => r = Ok (inl a)
  | Err e => r = Ok (inr e)
  | Panic => r = Panic
  end.
Proof.
  unfold attempt, on_world, on_pool, lift_io. destruct (m s.1) as [[a|e|] w]; by intros [= <- <-].
Qed.

Lemma attempt_on_world_state {A} (m : io CError (World D) A) s r s' :
  attempt (on_world m) s = Some (r, s') → s' = ((m s.1).2, s.2).
Proof. intros (Hq & Hw & _)%attempt_on_world. destruct s'. cbn in *. by subst. Qed.

(** ** The container during the run *)

Lemma no_panic_disk {A} c (m : osio A) : NoPanic m → NoPanic (on_disk (D:=D) c m).
Proof. intros Hm w. unfold on_disk. specialize (Hm (disk w)). by destruct (m (disk w)) as [[]]. Qed.

Lemma no_panic_write_payload p j pl : NoPanic (write_payload (D:=D) p j pl).
Proof.
  unfold write_payload.
  assert (∀ p, NoPanic (list_payload (D:=D) p)).
  { intros q w. unfold list_payload, on_disk. pose proof (no_panic (m:=os_ReadDir q) (disk w)) as Hd.
    by destruct (os_ReadDir q (disk w)) as [[|[]|]]. }
  assert (∀ q r, NoPanic (finalize (D:=D) q r)).
  { intros q r w. unfold finalize.
    pose proof (no_panic_disk "finalize payload" (os_Rename q r) _ w) as Hd.
    destruct (on_disk _ _ w) as [[a|e|] w1]; [done| |done].
    apply (no_panic_bind _ _); [|done]. apply no_panic_ignore, no_panic_disk, _. }
  assert (∀ q e, NoPanic (clear_entry (D:=D) q e)) by (intros q []; apply no_panic_disk, _).
  no_panic_by ltac:(apply no_panic_disk).
Qed.

Definition valid (p : loc) (w : World D) : Prop := is_Some (conts w !! p).

Lemma AssignJob_valid p j pl w r w' :
  valid p w → AssignJob p j pl w = (r, w') → r ≠ Panic ∧ valid p w'.
Proof.
  intros [c Hc] E. split.
  - intros ->. revert E. unfold AssignJob. unfold mbind at 1, io_bind at 1, self. rewrite Hc.
    case_bool_decide; [done|]. case_bool_decide; [done|]. unfold mbind at 1, io_bind at 1.
    pose proof (no_panic_write_payload (Join [c_payloadLocation c; c_id c; "payload"]) j pl w) as H1.
    by destruct (write_payload _ j pl w) as [[[]|e|] w1].
  - apply AssignJob_spec in E. unfold valid. destruct r as [[]|e|]; [|rewrite E; eauto..].
    destruct E as (c' & w1 & _ & _ & _ & _ & _ & ->). rewrite list_lookup_alter_eq, Hc. by eexists.
Qed.

Lemma FreeJob_valid p w r w' :
  valid p w → FreeJob p w = (r, w') → r ≠ Panic ∧ valid p w'.
Proof.
  intros [c Hc]. unfold FreeJob, mbind, io_bind, self, valid. rewrite Hc.
  case_bool_decide; [by intros [= <- <-]; eauto|]. intros [= <- <-]. split; [done|].
  cbn. rewrite list_lookup_alter_eq, Hc. by eexists.
Qed.

Lemma WaitUntilReady_valid sleeps p : ∀ w r w',
  Forall (λ m : World D → World D, ∀ w, valid p w → valid p (m w)) sleeps →
  valid p w → WaitUntilReady sleeps p w = (r, w') → r ≠ Panic ∧ valid p w'.
Proof.
  induction sleeps as [|m sleeps IH]; intros w r w' Hs [c Hc]; cbn [WaitUntilReady];
    unfold mbind at 1, io_bind at 1, self; rewrite Hc;
    unfold mbind at 1, io_bind at 1, docker;
    destruct (ContainerInspect (c_dockerID c) (daemon w)) as [[data|] d];
    try (intros [= <- <-]; split; [done | by exists c]);
    (destruct (ready data); [intros [= <- <-]; split; [done | by exists c]|]).
  - intros [= <- <-]. split; [done | by exists c].
  - apply Forall_cons in Hs as [Hm Hs]. unfold mbind at 1, io_bind at 1, modify.
    apply IH; [done|]. apply Hm. by exists c.
Qed.

(** ** The end *)

Lemma mark_completed_settled mw i x p job pl s r s' :
  Persistent (JImage job) = false → discreet i x p mw → mine i x p s →
  mark_completed (mw BeforeSend) i pl true s = Some (r, s') →
  r = Ok tt ∧ settled i x p job pl s'.
Proof.
  intros Hper [_ Hsend] ([m HR] & Ha & Hc & Hv). unfold mark_completed, complete. rewrite Ha.
  set (q := write _ x _). set (s1 := mw BeforeSend (s.1, q)).
  assert (gone i x pl (s.1, q)) as Hg.
  { destruct (Q_heap _ _ HR _ _ Ha) as [_ Hl]. apply lookup_lt_is_Some_2 in Hl as [j Hj].
    unfold gone, absent, q, write, deref. cbn [snd pending active heap closed set_heap set_active].
    rewrite list_lookup_alter_eq, Hj, lookup_delete_eq. split_and!; try done; try by destruct j.
    apply eq_None_not_Some. rewrite (Q_pending _ _ HR).
    by rewrite (proj1 (Q_active _ _ HR i) (ex_intro _ _ Ha)). }
  apply Hsend in Hg. fold s1 in Hg. unfold send. rewrite (proj1 (proj2 Hg)).
  destruct (_ <? _)%nat; [|done]. intros [= <- <-]. split; [done|]. right. right.
  split; [done|]. exists (completed s1.2). split; [exact Hg | done].
Qed.

Lemma mine_attempt {A} (m : io CError (World D) A) i x p s r s' :
  (∀ r w, m s.1 = (r, w) → r ≠ Panic ∧ valid p w) → mine i x p s →
  attempt (on_world m) s = Some (r, s') →
  mine i x p s' ∧ ∃ o, r = Ok o ∧
    match o with inl a => m s.1 = (Ok a, s'.1) | inr e => m s.1 = (Err e, s'.1) end.
Proof.
  intros Hv Hm (Hq & Hw & Hr)%attempt_on_world. destruct (m s.1) as [r0 w] eqn:E.
  destruct (Hv _ _ eq_refl) as [Hp Hval]. cbn [fst snd] in *. split.
  - destruct s' as [w' q']. cbn [fst snd] in *. subst w' q'. by apply mine_world.
  - destruct r0 as [a|e|]; [| |done]; eexists; (split; [done|]); by rewrite Hw.
Qed.

Lemma finish_settled mw done i x p job s r s' :
  Id job = i → Persistent (JImage job) = false → discreet i x p mw → mine i x p s →
  finish mw done p job s = Some (r, s') →
  r = Ok tt ∧ settled i x p job (answer done p (mw BeforeResult s)) s'.
Proof.
  intros Hi Hper Hmw Hm. unfold finish.
  intros (r1 & s1 & [= <- <-] & E)%bio_bind_inv.
  apply (proj1 Hmw BeforeResult) in Hm; [|done]. set (s1 := mw BeforeResult s) in *.
  apply bio_bind_inv in E as (r2 & s2 & E2 & E).
  assert (mine i x p s2 ∧ r2 = Ok (answer done p s1)) as [Hm2 ->].
  { revert E2. unfold wait_result, WaitForJobResult, receive, answer.
    destruct Hm as (H1 & H2 & H3 & [c Hc]). rewrite Hc.
    destruct done; [|destruct (c_results c); [destruct (c_closed c); [|done]|]];
      intros [= <- <-]; (split; [|done]); split_and!; try done; [by exists c..|].
    cbn [fst conts set_conts]. rewrite list_lookup_alter_eq, Hc. by eexists. }
  apply bio_bind_inv in E as (r3 & s3 & [= <- <-] & E).
  apply (proj1 Hmw BeforeFree) in Hm2; [|done]. set (s3 := mw BeforeFree s2) in *.
  apply bio_bind_inv in E as (r4 & s4 & E4 & E).
  apply (mine_attempt _ i x p) in E4 as (Hm4 & o & -> & _); [|intros ? ?; apply FreeJob_valid, Hm2|done].
  apply bio_bind_inv in E as (r5 & s5 & E5 & E). unfold attempt in E5.
  destruct (mark_completed _ _ _ _ s4) as [[r6 s6]|] eqn:E6; [|done]. rewrite Hi in E6.
  apply (mark_completed_settled _ i x p job) in E6 as [-> Hs]; [|done..].
  injection E5 as <- <-. injection E as <- <-. done.
Qed.

Lemma assignJob_end sleeps mw done i x p job s r s' :
  Id job = i → discreet i x p mw →
  Forall (λ m : World D → World D, ∀ w, valid p w → valid p (m w)) sleeps → mine i x p s →
  assignJob sleeps mw done p job s = Some (r, s') →
  r = Ok tt ∧ settled i x p job (answer done p (waiting sleeps mw p job s)) s'.
Proof.
  intros Hi Hmw Hsl Hm. unfold assignJob. rewrite Hi.
  intros (r1 & s1 & E1 & E)%bio_bind_inv. pose proof (attempt_on_world_state _ _ _ _ E1) as Hs1.
  apply (mine_attempt _ i x p) in E1 as (Hm1 & o & -> & _);
    [|intros ? ?; by apply WaitUntilReady_valid, Hm|done].
  destruct o as [[]|e]; [|by eapply undo_settled].
  apply bio_bind_inv in E as (r2 & s2 & [= <- <-] & E).
  apply (proj1 Hmw BeforeRunning) in Hm1; [|done]. set (s2 := mw BeforeRunning s1) in *.
  apply bio_bind_inv in E as (r3 & s3 & E3 & E).
  assert (mine i x p s3 ∧ r3 = Ok (inl tt) ∧ s3 = (s2.1, (MarkRunning i (id_of p s2.1) s2.2).2)) as (Hm3 & -> & Hs3).
  { revert E3. unfold attempt, queue_call, MarkRunning.
    destruct Hm1 as ([m HR] & Ha & Hc & Hv). rewrite Ha. intros [= <- <-].
    split; [|done]. split_and!; try done. exists m. by apply QR_write; [auto with hive|]. }
  apply bio_bind_inv in E as (r4 & s4 & [= <- <-] & E).
  apply (proj1 Hmw BeforeAssign) in Hm3; [|done]. set (s4 := mw BeforeAssign s3) in *.
  apply bio_bind_inv in E as (r5 & s5 & E5 & E). pose proof (attempt_on_world_state _ _ _ _ E5) as Hs5.
  assert (waiting sleeps mw p job s = mw BeforeResult s5) as Hwait
    by (by rewrite Hs5; unfold s4; rewrite Hs3; unfold s2; rewrite Hs1, <- Hi).
  apply (mine_attempt _ i x p) in E5 as (Hm5 & o & -> & Ho);
    [|intros ? ?; apply AssignJob_valid, Hm3|done].
  destruct o as [[]|e]; [|exact (rollback_settled i x p job _ _ _ _ Hm5 E)].
  destruct (Persistent (JImage job)) eqn:Hper; [|rewrite Hwait; exact (finish_settled mw done i x p job _ _ _ Hi Hper Hmw Hm5 E)].
  injection E as <- <-. split; [done|]. right. left. split_and!; [done | apply Hm5 |].
  apply AssignJob_spec in Ho as (c & w1 & Hc & _ & _ & _ & _ & ->).
  eexists. rewrite list_lookup_alter_eq, Hc. split; [done|]. by destruct c.
Qed.
End assign.

(** ** Properties *)

Section properties.
Context {D : Type} `{!Docker D}.
Implicit Types (w : World D) (s : World D * Jobs).

#[local] Instance no_panic_docker {A} (call : D → A * D) : NoPanic (docker call).
Proof. intros w. unfold docker. by destruct (call (daemon w)). Qed.

Lemma Health_no_panic p w c : conts w !! p = Some c → (Health p w).1 ≠ Panic.
Proof.
  intros Hc. unfold Health. rewrite (io_bind_Ok _ _ _ c w) by (unfold self; by rewrite Hc).
  match goal with |- (?m w).1 ≠ Panic => assert (NoPanic m) as Hn by no_panic_by fail end. apply Hn.
Qed.

(** [AssignJob] is all or nothing for the container. When it succeeds, on
    whatever faults the disk had to offer, the container was created and not
    occupied, its payload directory holds the job's payload in one complete file and
    nothing else - no payload of an earlier job, no temporary file - and the
    container is occupied by this job. When it fails, no container has changed. *)
Theorem AssignJob_delivers p j pl w r w' :
  no_slash j → tree_ok (tree (disk w)) → Forall plain (cwd (disk w)) →
  AssignJob p j pl w = (r, w') →
  match r with
  | Ok _ => ∃ c c', conts w !! p = Some c ∧ c_dockerID c ≠ EmptyString ∧ c_state c ≠ Running ∧
      holds_only (tree (disk w'))
        (resolve (disk w) (Join [c_payloadLocation c; c_id c; "payload"]))
        (job_file j ".json") pl ∧
      conts w' = <[p := c']> (conts w) ∧
      c_state c' = Running ∧ c_assignedJobID c' = j ∧ c_totalJobs c' = wrap64 (c_totalJobs c + 1)
  | _ => conts w' = conts w
  end.
Proof.
  intros Hj Hok Hcwd E%AssignJob_spec. destruct r as [[]|e|]; [|done..].
  destruct E as (c & w1 & Hc & Hd & Hs & Hw & -> & ->).
  eexists c, _. split_and!; try done.
  - apply (write_payload_Ok _ _ _ w w1); try done. by apply resolve_Join_plain.
  - apply list_eq. intros q. destruct (decide (q = p)) as [->|Hne].
    + rewrite list_lookup_alter_eq, list_lookup_insert_eq by (by eapply lookup_lt_Some).
      by rewrite Hc.
    + by rewrite list_lookup_alter_ne, list_lookup_insert_ne.
  - by destruct c.
  - by destruct c.
  - by destruct c.
Qed.

(** No job disappears in the goroutine that runs it: for every behaviour of the
    daemon and the disk, and whatever runs beside it but leaves this job and its
    container alone, [assignJob] - when it ends - ends without an error or a panic,
    and the job is back in the queue, or (a persistent one) runs for good in its
    container, or has left the queue and is the newest on the channel of completed
    jobs, with the result that the goroutine received from the container. *)
Theorem assignJob_settles sleeps mw done i x p job s r s' :
  Id job = i → discreet i x p mw →
  Forall (λ m : World D → World D, ∀ w, valid p w → valid p (m w)) sleeps → mine i x p s →
  assignJob sleeps mw done p job s = Some (r, s') →
  r = Ok tt ∧ settled i x p job (answer done p (waiting sleeps mw p job s)) s'.
Proof. apply assignJob_end. Qed.

(** A container whose job could not be handed over is lost. When [AssignJob]
    fails, [assignJob] puts the job back but does not release the container, as it
    does after the other errors: the container stays reserved, so that
    [FindFreeContainer] never returns it and [HealthRuleUnresponsive] never deletes
    it. *)
Theorem assignJob_leaks_container p x job s e w' c :
  mine (Id job) x p s → conts s.1 !! p = Some c → c_state c = Reserved →
  WaitUntilReady [] p s.1 = (Ok tt, s.1) →
  AssignJob p (Id job) (Payload job) s.1 = (Err e, w') →
  ∃ s', assignJob [] (λ _ s, s) false p job s = Some (Ok tt, s') ∧
    items (pending s'.2) !! Id job = Some x ∧ conts s'.1 = conts s.1 ∧
    (∀ a q w2, FindFreeContainer a s'.1 = (Ok q, w2) → q ≠ p) ∧
    (∀ h s2, HealthRuleUnresponsive p s' = Some (h, s2) → h = Ok HealthContinue).
Proof.
  intros Hm Hc Hst Hw Ha. set (i := Id job) in *.
  set (q1 := write (with_container (id_of p s.1)) x s.2).
  assert (mine i x p (w', q1)) as Hm1.
  { destruct Hm as ([m HR] & Hact & Hcl & Hv). split_and!; try done.
    - exists m. by apply QR_write; [auto with hive|].
    - cbn [fst]. apply AssignJob_spec in Ha. by rewrite Ha. }
  exists (w', (RollbackJob i q1).2). split.
  { unfold assignJob, attempt, on_world, on_pool, lift_io, others, queue_call, mbind, bio_bind.
    rewrite Hw. cbn [fst snd]. unfold MarkRunning. fold i. rewrite (proj1 (proj2 Hm)).
    cbn [fst snd]. rewrite Ha. done. }
  apply AssignJob_spec in Ha. cbn [fst snd].
  split; [by apply (rollback_done i x p (w', q1))|]. split; [done|]. split.
  - intros a q w2 E%FindFreeContainer_spec. destruct E as (_ & c' & Hq & Hf & _).
    rewrite Ha in Hq. intros ->. congruence.
  - intros h s2. unfold HealthRuleUnresponsive, container.
    intros (r1 & s1 & E1 & E)%bio_bind_inv. apply attempt_on_world in E1 as (_ & H1 & Hr).
    destruct (Health p w') as [r0 w0] eqn:Eh. cbn [fst snd] in H1, Hr. rewrite Eh in H1, Hr.
    pose proof (Health_daemon _ _ _ _ Eh) as [d ->]. cbn [fst snd] in H1, Hr.
    assert (conts s1.1 !! p = Some c) as Hc1 by (rewrite H1; cbn; by rewrite Ha).
    assert (r0 ≠ Panic) as Hnp.
    { intros ->. apply (Health_no_panic p w' c); [by rewrite Ha | by rewrite Eh]. }
    assert (∃ o, r1 = Ok o) as [o ->] by (destruct r0; eauto; done).
    apply bio_bind_inv in E as (r2 & s3 & E2 & E). unfold on_world, on_pool, lift_io, self in E2.
    rewrite Hc1 in E2. injection E2 as <- <-. injection E as <- <-.
    destruct o; [|done]. by rewrite bool_decide_eq_true_2, orb_true_r by done.
Qed.

Lemma Delete_spec p w w' :
  Delete p w = (Ok tt, w') →
  ∃ c, conts w !! p = Some c ∧ c_dockerID c ≠ EmptyString ∧ c_closed c = false ∧
    conts w' = alter (with_payloadLocation EmptyString ∘ (with_closed ∘ with_dockerID EmptyString)) p
                 (conts w).
Proof.
  unfold Delete. unfold mbind at 1, io_bind at 1, self at 1.
  destruct (conts w !! p) as [c|] eqn:Hc; [|done]. case_bool_decide as Hd; [done|].
  unfold mbind at 1, io_bind at 1, docker. destruct (ContainerRemove _ _) as [[] d]; [|done].
  cbn [negb]. unfold mbind at 1, io_bind at 1, assign at 1, modify at 1.
  unfold mbind at 1, io_bind at 1, close_results. unfold mbind at 1, io_bind at 1, self at 1.
  cbn [conts set_conts set_daemon]. rewrite list_lookup_alter_eq, Hc. cbn [fmap option_fmap option_map].
  assert (c_closed (with_dockerID EmptyString c) = c_closed c) as -> by by destruct c.
  destruct (c_closed c) eqn:Hcl; [done|]. unfold assign at 1, modify at 1.
  unfold mbind at 1, io_bind at 1. destruct (on_disk _ _ _) as [[[]|e|] w1] eqn:E; [|done..].
  apply on_disk_Ok in E as (d1 & _ & ->). intros [= <-]. exists c. split_and!; [done..|].
  cbn [conts set_conts set_disk]. by rewrite !list_alter_alter_eq.
Qed.

(** C28: a killed job is reported as completed. [Delete] closes the channel of
    results, and the goroutine that waits there takes the close for a result: when
    the container is deleted under it - as [DestroyAll] does as soon as the
    scheduler has been silent for five seconds - the job is marked completed,
    successful, with an empty payload. *)
Theorem deleted_job_reported_completed x p job s w' c :
  mine (Id job) x p s → Persistent (JImage job) = false →
  conts s.1 !! p = Some c → c_results c = [] → Delete p s.1 = (Ok tt, w') →
  (length (completed s.2) < capacity)%nat →
  ∃ s', finish (λ pt s, match pt with BeforeResult => (w', s.2) | _ => s end) false p job s
      = Some (Ok tt, s') ∧
    completed s'.2 = completed s.2 ++ [x] ∧
    Succeeded (deref (heap s'.2) x) = true ∧ Payload (deref (heap s'.2) x) = [].
Proof.
  intros ([m HR] & Ha & Hcl & _) Hper Hc Hres Hdel Hlen.
  apply Delete_spec in Hdel as (c' & Hc' & Hd & Hnc & Hw). rewrite Hc in Hc'. injection Hc' as <-.
  destruct (Q_heap _ _ HR _ _ Ha) as [_ [j Hj]%lookup_lt_is_Some_2].
  assert (conts w' !! p = Some (with_payloadLocation EmptyString
    (with_closed (with_dockerID EmptyString c)))) as Hp by (by rewrite Hw, list_lookup_alter_eq, Hc).
  eexists. split.
  - unfold finish, others, wait_result, WaitForJobResult, receive, mbind, bio_bind. cbn [fst snd].
    rewrite Hp. destruct c as [i1 n1 m1 l1 im1 d1 pl1 a1 rs1 cl1 t1 st1 ls1 j1 v1]. cbn in Hres.
    subst rs1. cbn [c_results with_payloadLocation with_closed
      with_dockerID c_closed]. unfold attempt, on_world, on_pool, lift_io, FreeJob, self,
      mbind, io_bind. cbn [fst snd]. rewrite Hp. cbn [c_dockerID with_payloadLocation with_closed
      with_dockerID]. rewrite bool_decide_eq_true_2 by done. cbn [fst snd throw].
    unfold mark_completed, complete. cbn [fst snd]. rewrite Ha. unfold send, write.
    cbn [closed completed set_heap set_active snd fst]. rewrite Hcl.
    apply Nat.ltb_lt in Hlen. rewrite Hlen. reflexivity.
  - unfold deref. cbn [completed heap set_heap set_active set_completed snd].
    rewrite list_lookup_alter_eq, Hj. split_and!; [done | by destruct j | by destruct j].
Qed.
End properties.

(** ** Witnesses *)

Definition run_container : Container :=
  mkContainer "con_a" 2 64 EmptyString (example_image "echo") "docker-a" "jobs" [] [] false 0
    Reserved 0 EmptyString [].

(** One container that runs and is reserved. *)
Definition run_world : World Toy :=
  mkWorld [run_container] [0%nat] {["docker-a" := true]} empty_disk 0 [] O (Some []).

Lemma AssignJob_delivers_witness :
  let w' := (AssignJob 0%nat "a" [x7b; x7d] run_world).2 in
  ∃ c c', conts run_world !! 0%nat = Some c ∧ c_dockerID c ≠ EmptyString ∧ c_state c ≠ Running ∧
    holds_only (tree (disk w'))
      (resolve (disk run_world) (Join [c_payloadLocation c; c_id c; "payload"]))
      (job_file "a" ".json") [x7b; x7d] ∧
    conts w' = <[0%nat := c']> (conts run_world) ∧
    c_state c' = Running ∧ c_assignedJobID c' = "a" ∧ c_totalJobs c' = wrap64 (c_totalJobs c + 1).
Proof.
  apply (AssignJob_delivers 0%nat "a" [x7b; x7d] run_world (Ok tt)).
  - reflexivity.
  - intros k x n Hn. exfalso. revert Hn. cbn. rewrite lookup_empty. discriminate.
  - refine (bool_decide_unpack _ _). vm_compute. exact I.
  - apply run_eq. vm_compute. reflexivity.
Defined.

(** The first job of the run is active. *)
Definition run_ops : list op :=
  [OAdd (example_job "a" "echo" 5); OAdd (example_job "b" "echo" 5); ONext ["echo"] 10 1000].
Definition run_queue : Jobs := do_ops run_ops CreateJobsQueue.
Definition run_job : Job := deref (heap run_queue) O.

Lemma mine_from_ops os i x p (w : World Toy) q :
  disciplined_run os CreateJobsQueue → do_ops os CreateJobsQueue = q →
  active q !! i = Some x → closed q = false → is_Some (conts w !! p) → mine i x p (w, q).
Proof.
  intros Hd <- Ha Hc Hp. destruct (QR_do_ops os _ _ QR_new Hd) as (m & _ & HR).
  split_and!; [by exists m | done..].
Qed.

Lemma run_mine (w : World Toy) : is_Some (conts w !! 0%nat) → mine "a" 0%nat 0%nat (w, run_queue).
Proof.
  apply (mine_from_ops run_ops); [|reflexivity..].
  refine (bool_decide_unpack _ _). vm_compute. exact I.
Qed.

(** The container answers. *)
Definition answers (pt : assign_point) (s : World Toy * Jobs) : World Toy * Jobs :=
  match pt with
  | BeforeResult => (set_conts (alter (with_results [[x34; x32]]) 0%nat (conts s.1)) s.1, s.2)
  | _ => s
  end.

Lemma answers_discreet i x : discreet i x 0%nat answers.
Proof.
  split; [|done]. intros pt s _ Hm. destruct pt; try done.
  apply mine_world; [|done]. destruct Hm as (_ & _ & _ & [c Hc]). cbn.
  rewrite list_lookup_alter_eq, Hc. by eexists.
Qed.

Lemma assignJob_settles_witness :
  match assignJob [] answers false 0%nat run_job (run_world, run_queue) with
  | Some (r, s') => r = Ok tt ∧ settled "a" 0%nat 0%nat run_job [x34; x32] s' ∧
      (completed s'.2 = [0%nat] ∧ Payload (deref (heap s'.2) 0%nat) = [x34; x32])
  | None => False
  end.
Proof.
  destruct (assignJob [] answers false 0%nat run_job (run_world, run_queue)) as [[r s']|] eqn:E.
  - destruct (assignJob_settles [] answers false "a" 0%nat 0%nat run_job (run_world, run_queue) r s'
      eq_refl (answers_discreet "a" 0%nat) (Forall_nil_2 _) (run_mine run_world (ex_intro _ run_container eq_refl)) E)
      as [Hr Hs].
    split; [exact Hr|]. split; [exact Hs|].
    assert (match assignJob [] answers false 0%nat run_job (run_world, run_queue) with
            | Some (_, s') => completed s'.2 = [0%nat] ∧
                Payload (deref (heap s'.2) 0%nat) = [x34; x32]
            | None => False end) as Hc by (vm_compute; split; reflexivity).
    rewrite E in Hc. exact Hc.
  - assert (is_Some (assignJob [] answers false 0%nat run_job (run_world, run_queue))) as [? Hc]
      by (vm_compute; eexists; reflexivity).
    rewrite E in Hc. discriminate.
Defined.

(** The disk refuses the first directory. *)
Definition full_world : World Toy := set_disk (mkDisk ∅ ["srv"] [FailAfter 0]) run_world.

Lemma assignJob_leaks_container_witness :
  ∃ s', assignJob [] (λ _ s, s) false 0%nat run_job (full_world, run_queue) = Some (Ok tt, s') ∧
    items (pending s'.2) !! "a" = Some 0%nat ∧ conts s'.1 = conts full_world ∧
    (∀ a q w2, FindFreeContainer a s'.1 = (Ok q, w2) → q ≠ 0%nat) ∧
    (∀ h s2, HealthRuleUnresponsive 0%nat s' = Some (h, s2) → h = Ok HealthContinue).
Proof.
  apply (assignJob_leaks_container 0%nat 0%nat run_job (full_world, run_queue)
    (ErrDisk "mkdir payload" ErrOS)
    (AssignJob 0%nat "a" [] full_world).2 run_container).
  - apply run_mine. eexists. reflexivity.
  - reflexivity.
  - reflexivity.
  - vm_compute. reflexivity.
  - apply run_eq. vm_compute. reflexivity.
Defined.

Lemma deleted_job_reported_completed_witness :
  ∃ s', finish (λ pt s, match pt with
                        | BeforeResult => ((Delete 0%nat run_world).2, s.2)
                        | _ => s
                        end) false 0%nat run_job (run_world, run_queue) = Some (Ok tt, s') ∧
    completed s'.2 = completed run_queue ++ [0%nat] ∧
    Succeeded (deref (heap s'.2) 0%nat) = true ∧ Payload (deref (heap s'.2) 0%nat) = [].
Proof.
  apply (deleted_job_reported_completed 0%nat 0%nat run_job (run_world, run_queue)
    (Delete 0%nat run_world).2 run_container).
  - apply run_mine. eexists. reflexivity.
  - vm_compute. reflexivity.
  - reflexivity.
  - reflexivity.
  - apply run_eq. vm_compute. reflexivity.
  - vm_compute. lia.
Defined.
