(* ===== verification/ClusterResults.v ===== *)
(** * The results of a container

    The goroutine [monitorForResults] of [container/monitor.go] over all its ticks,
    and the end of [Launch]: the result files of a container reach the channel in
    the order of their names, each once, and are removed; one file that is not
    JSON ends the goroutine, which nobody notices while the container runs. *)

From Stdlib Require Import Strings.Byte Strings.String.
From S2P Require Import Prelude.
From S2P Require Import Bytes.
From S2P Require Import Json.
From S2P Require Import Models.
From S2P Require Import Arbiter.
From S2P Require Import JobDirs.
From S2P Require Import EnvWalk.
From S2P Require Import ClusterJobs.
From S2P Require Import ClusterQueue.
From S2P Require Import ClusterContainer.
From S2P Require Import ClusterPacker.
From S2P Require Import ClusterExamples.

Section results.
Context {D : Type} `{!Docker D}.

(** What the [select] of the loop finds: the context done, or a tick, with what
    others did before it and what they do until each send goes through. *)
Inductive awaited := CtxDone | Tick (before : World D → World D) (waits : list (World D → World D)).

(** src/internal/cluster/container/monitor.go:135-173 (Container.monitorForResults)

    [None]: the goroutine waits, for a tick or in a send. *)
Fixpoint monitorForResults (events : list awaited) (p : loc) (resultsPath : path) (w : World D)
    : option (outcome CError unit * World D) :=
  match events with
  | [] => None
  | CtxDone :: _ => Some (Ok tt, w)
  | Tick before waits :: events =>
      match monitor_tick waits p resultsPath (before w) with
      | Some (Ok _, w) => monitorForResults events p resultsPath w
      | r => r
      end
  end.

(** src/internal/cluster/container/monitor.go:139-139 (Container.monitorForResults, the path) *)
Definition results_path (c : Container) : path := Join [c_payloadLocation c; c_id c; "results"].

(** src/internal/cluster/container/container.go:184-211 (Container.Launch, the end)

    [wait] is what ends [ContainerWait]: an error, or that the container has
    stopped; [ends] are the results of the goroutines, the first to end first.
    They are looked at only when the container has stopped. *)
Definition Launch_end (wait : option CError) (ends : list (outcome CError unit))
    : outcome CError unit :=
  match wait with
  | Some e => Err e
  | None => default (Ok tt) (head (filter (λ r, is_ok r = false) ends))
  end.

(** ** One file *)

Definition calm (w : World D) : Prop := dfaults (disk w) = [].

Definition with_tree (t : gmap (list string) node) (w : World D) : World D :=
  set_disk (set_tree t (disk w)) w.

Lemma readWithRetry_calm w p c :
  calm w → tree (disk w) !! resolve (disk w) p = Some (Reg c) → readWithRetry 5 p w = (Ok c, w).
Proof.
  intros Hf Hc. unfold readWithRetry, on_disk, os_ReadFile, next_fault, settle_fault, mbind, io_bind, get.
  rewrite Hf. cbn. rewrite Hc. by destruct w.
Qed.

Lemma processAndDeleteFile_valid w p c :
  calm w → tree (disk w) !! resolve (disk w) p = Some (Reg c) → is_Some (parse_json c) →
  processAndDeleteFile p w = (Ok c, with_tree (delete (resolve (disk w) p) (tree (disk w))) w).
Proof.
  intros Hf Hc Hj. unfold processAndDeleteFile. rewrite (io_bind_Ok _ _ _ _ _ (readWithRetry_calm _ _ _ Hf Hc)).
  rewrite bool_decide_eq_true_2 by done.
  unfold on_disk, os_Remove, next_fault, settle_fault, mbind, io_bind, get. rewrite Hf. cbn. by rewrite Hc.
Qed.

Lemma processAndDeleteFile_invalid w p c :
  calm w → tree (disk w) !! resolve (disk w) p = Some (Reg c) → parse_json c = None →
  processAndDeleteFile p w = (Err ErrInvalidJSON, w).
Proof.
  intros Hf Hc Hj. unfold processAndDeleteFile. rewrite (io_bind_Ok _ _ _ _ _ (readWithRetry_calm _ _ _ Hf Hc)).
  by rewrite Hj.
Qed.

(** ** The files of a tick *)

(** The container with some results in its channel, open. *)
Definition buffers (p : loc) (rs : list (list byte)) (w : World D) : Prop :=
  ∃ c, conts w !! p = Some c ∧ c_results c = rs ∧ c_closed c = false.

(** A receiver that takes [rs] out of the channel; on anything else it may do as
    it likes. *)
Definition takes (p : loc) (rs : list (list byte)) (f : World D → World D) : Prop :=
  ∀ w, buffers p rs w → buffers p [] (f w) ∧ disk (f w) = disk w.

Fixpoint receivers (p : loc) (prev : list (list byte)) (rs : list (list byte))
    (waits : list (World D → World D)) : Prop :=
  match rs, waits with
  | [], _ => True
  | r :: rs, f :: waits => takes p prev f ∧ receivers p [r] rs waits
  | _, [] => False
  end.

Definition content (e : string * node) : option (list byte) :=
  if is_result e then match e.2 with Reg c => Some c | Dir => None end else None.

(** The files of the listing that are taken are gone. *)
Definition taken (k : list string) (es : list (string * node)) (t : gmap (list string) node)
    : gmap (list string) node :=
  foldl (λ t e, if is_result e then delete (k ++ [e.1]) t else t) t es.

Definition last_or (prev rs : list (list byte)) : list (list byte) :=
  match last rs with Some r => [r] | None => prev end.

Lemma send_result_free p r w :
  buffers p [] w → ∃ w', send_result p r w = Some (Ok tt, w') ∧ buffers p [r] w' ∧ disk w' = disk w.
Proof.
  intros (c & Hc & Hr & Hcl). unfold send_result. rewrite Hc, Hcl, Hr.
  eexists. split; [reflexivity|]. split; [|done].
  exists (with_results [r] c). cbn. rewrite list_lookup_alter_eq, Hc. by destruct c.
Qed.

(** The entries of a listing are in the tree, each once, under plain names. *)
Record listed (k : list string) (es : list (string * node)) (t : gmap (list string) node) : Prop := {
  ls_names : NoDup es.*1;
  ls_plain : ∀ x n, (x, n) ∈ es → plain x;
  ls_there : ∀ x n, (x, n) ∈ es → t !! (k ++ [x]) = Some n
}.

Lemma listed_tail k e es t : listed k (e :: es) t → listed k es t.
Proof.
  intros [H1 H2 H3]. apply NoDup_cons in H1 as [_ H1].
  split; [done|intros; eapply H2; by right | intros; apply H3; by right].
Qed.

Lemma listed_delete k x n es t : listed k ((x, n) :: es) t → listed k es (delete (k ++ [x]) t).
Proof.
  intros H. pose proof (ls_names _ _ _ H) as Hnd. apply NoDup_cons in Hnd as [Hx _].
  destruct (listed_tail _ _ _ _ H) as [H1 H2 H3]. split; [done|done|].
  intros y m Hin. rewrite lookup_delete_ne; [by apply H3|]. intros Heq.
  apply app_inj_2 in Heq as [_ [= ->]]; [|done]. apply Hx. by apply (list_elem_of_fmap_2' fst _ (y, m)).
Qed.

Lemma is_result_content x n : is_result (x, n) = true → ∃ c, n = Reg c.
Proof. unfold is_result. cbn. destruct n; [eauto|done]. Qed.

Lemma take_results_all p dir es : ∀ waits prev (w : World D),
  calm w → listed (resolve (disk w) dir) es (tree (disk w)) →
  (∀ e c, e ∈ es → content e = Some c → is_Some (parse_json c)) →
  buffers p prev w → receivers p prev (omap content es) waits →
  ∀ rest, ∃ waits' w', take_results waits p dir (es ++ rest) w = take_results waits' p dir rest w' ∧
    disk w' = set_tree (taken (resolve (disk w) dir) es (tree (disk w))) (disk w) ∧
    buffers p (last_or prev (omap content es)) w'.
Proof using.
  induction es as [|[x n] es IH]; intros waits prev w Hf Hls Hj Hb Hr rest.
  { exists waits, w. split_and!; [done|by destruct w as [? ? ? [] ]|done]. }
  cbn [app take_results]. destruct (is_result (x, n)) eqn:Er; cbn [negb].
  - destruct (is_result_content _ _ Er) as [c ->].
    assert (content (x, Reg c) = Some c) as Hc by (unfold content; by rewrite Er).
    cbn [omap list_omap] in Hr |- *. rewrite Hc in Hr |- *. cbn [fst].
    destruct waits as [|f waits]; [done|]. destruct Hr as [Ht Hr].
    assert (plain x) as Hx by (eapply (ls_plain _ _ _ Hls); left).
    assert (tree (disk w) !! resolve (disk w) (sub dir x) = Some (Reg c)) as Hfile.
    { rewrite resolve_sub by done. apply (ls_there _ _ _ Hls). left. }
    rewrite (processAndDeleteFile_valid w _ c) by (try done; by eapply Hj; [left|]).
    rewrite resolve_sub by done. set (w1 := with_tree _ w). change (default (λ w, w) (head (f :: waits))) with f.
    destruct (Ht w1) as [Hb1 Hd1]; [exact Hb|].
    destruct (send_result_free p c (f w1) Hb1) as (w2 & Hs & Hb2 & Hd2). rewrite Hs. change (tail (f :: waits)) with waits.
    assert (disk w2 = disk w1) as Hd by congruence.
    destruct (IH waits [c] w2) with (rest := rest) as (waits' & w' & Ht' & Hd' & Hb').
    + unfold calm. by rewrite Hd.
    + rewrite Hd. cbn. by apply listed_delete in Hls.
    + intros e c' Hin. apply Hj. by right.
    + done.
    + done.
    + exists waits', w'. split; [done|]. split.
      * rewrite Hd', Hd. cbn [taken foldl]. by rewrite Er.
      * unfold last_or in *. rewrite last_cons. by destruct (last (omap content es)).
  - assert (content (x, n) = None) as Hc by (unfold content; by rewrite Er).
    cbn [omap list_omap] in Hr |- *. rewrite Hc in Hr |- *.
    destruct (IH waits prev w) with (rest := rest) as (waits' & w' & Ht' & Hd' & Hb'); try done.
    + by apply listed_tail in Hls.
    + intros e c' Hin. apply Hj. by right.
    + exists waits', w'. split; [done|]. split; [|done]. rewrite Hd'. cbn [taken foldl]. by rewrite Er.
Qed.

Lemma taken_lookup k es : ∀ t q,
  taken k es t !! q =
    if decide (Exists (λ e, is_result e = true ∧ q = k ++ [e.1]) es) then None else t !! q.
Proof using.
  induction es as [|e es IH]; intros t q; cbn [taken foldl].
  - rewrite decide_False; [done|]. by intros ?%Exists_nil.
  - fold (taken k es (if is_result e then delete (k ++ [e.1]) t else t)). rewrite IH.
    destruct (decide (Exists _ es)) as [He|He].
    + rewrite decide_True; [done|]. by apply Exists_cons_tl.
    + destruct (is_result e) eqn:Er; [destruct (decide (q = k ++ [e.1])) as [->|Hq]|].
      * rewrite decide_True by (by apply Exists_cons_hd). apply lookup_delete_eq.
      * rewrite decide_False by (intros [[_ ?]|?]%Exists_cons; done). by apply lookup_delete_ne.
      * rewrite decide_False by (intros [[? _]|?]%Exists_cons; congruence || done). done.
Qed.

(** The directory of the results, whose names are plain. *)
Record results_dir (dir : path) (es : list (string * node)) (w : World D) : Prop := {
  rd_calm : calm w;
  rd_dir : lookup_node (tree (disk w)) (resolve (disk w) dir) = Some Dir;
  rd_names : tree_ok (tree (disk w));
  rd_entries : children (tree (disk w)) (resolve (disk w) dir) = es
}.

Lemma results_listed dir es w :
  results_dir dir es w → listed (resolve (disk w) dir) es (tree (disk w)).
Proof using.
  intros [_ _ Hn <-]. split; [apply children_names|..]; intros x n Hin%children_elem; [|done].
  by eapply Hn.
Qed.

Lemma monitor_tick_listing waits p dir es w :
  results_dir dir es w → monitor_tick waits p dir w = take_results waits p dir es w.
Proof using.
  intros [Hf Hd _ <-]. unfold monitor_tick, on_disk. rewrite os_ReadDir_calm by done.
  by destruct w as [? ? ? [] ].
Qed.
End results.

(** A tick whose results are all taken. *)
Lemma monitor_delivers {D} p dir es before waits events prev (w : World D) :
  results_dir dir es (before w) → buffers p prev (before w) →
  (∀ e c, e ∈ es → content e = Some c → is_Some (parse_json c)) →
  receivers p prev (omap content es) waits →
  ∃ w', monitorForResults (Tick before waits :: events) p dir w = monitorForResults events p dir w' ∧
    buffers p (last_or prev (omap content es)) w' ∧
    ∀ q, tree (disk w') !! q =
      if decide (Exists (λ e, is_result e = true ∧ q = resolve (disk (before w)) dir ++ [e.1]) es)
      then None else tree (disk (before w)) !! q.
Proof.
  intros Hd Hb Hj Hr. cbn [monitorForResults]. rewrite (monitor_tick_listing _ _ _ es) by done.
  destruct (take_results_all p dir es waits prev (before w) (rd_calm _ _ _ Hd)
    (results_listed _ _ _ Hd) Hj Hb Hr []) as (waits' & w' & Ht & Hdisk & Hb').
  rewrite app_nil_r in Ht. rewrite Ht. cbn [take_results]. exists w'.
  split_and!; [done|done|]. intros q. rewrite Hdisk. cbn [tree set_tree]. apply taken_lookup.
Qed.

(** The results of a container are delivered. A tick that finds the directory
    of results with only JSON in its result files, and a receiver that takes what
    the tick before left in the channel and then every result in turn, sends the
    contents of the files in the order of their names, each once, removes exactly
    these files, and the loop goes on. *)
Theorem results_delivered {D} p dir es before waits events prev (w : World D) :
  results_dir dir es (before w) → buffers p prev (before w) →
  (∀ e c, e ∈ es → content e = Some c → is_Some (parse_json c)) →
  receivers p prev (omap content es) waits →
  ∃ w', monitorForResults (Tick before waits :: events) p dir w = monitorForResults events p dir w' ∧
    buffers p (last_or prev (omap content es)) w' ∧
    ∀ q, tree (disk w') !! q =
      if decide (Exists (λ e, is_result e = true ∧ q = resolve (disk (before w)) dir ++ [e.1]) es)
      then None else tree (disk (before w)) !! q.
Proof. apply monitor_delivers. Qed.

(** One result file that is not JSON ends the collection. The tick that finds
    it sends what comes before it and returns with an error, whatever the later
    ticks would have found: the file and all that come after it stay where they are. *)
Theorem invalid_result_ends_monitor {D} p dir pre x bad post before waits events prev (w : World D) :
  results_dir dir (pre ++ (x, Reg bad) :: post) (before w) → buffers p prev (before w) →
  (∀ e c, e ∈ pre → content e = Some c → is_Some (parse_json c)) →
  receivers p prev (omap content pre) waits →
  is_result (x, Reg bad) = true → parse_json bad = None →
  ∃ w', monitorForResults (Tick before waits :: events) p dir w = Some (Err ErrInvalidJSON, w') ∧
    buffers p (last_or prev (omap content pre)) w' ∧
    ∀ e, e ∈ (x, Reg bad) :: post →
      tree (disk w') !! (resolve (disk (before w)) dir ++ [e.1]) = Some e.2.
Proof.
  intros Hd Hb Hj Hr Hx Hbad. cbn [monitorForResults]. rewrite (monitor_tick_listing _ _ _ _ _ Hd).
  pose proof (results_listed _ _ _ Hd) as Hls. pose proof (rd_calm _ _ _ Hd) as Hc.
  set (w0 := before w) in *. set (k := resolve (disk w0) dir) in *.
  assert (listed k pre (tree (disk w0))) as Hpre.
  { destruct Hls as [H1 H2 H3]. rewrite fmap_app in H1. apply NoDup_app in H1 as (H1 & _).
    split; [done|..]; intros y n Hin; [eapply H2|apply H3]; apply elem_of_app; by left. }
  destruct (take_results_all p dir pre waits prev w0 Hc Hpre Hj Hb Hr ((x, Reg bad) :: post))
    as (waits' & w' & -> & Hdisk & Hb').
  assert (resolve (disk w') dir = k) as Hk by (rewrite Hdisk; by destruct w0 as [? ? ? [] ]).
  assert (∀ e, e ∈ (x, Reg bad) :: post → tree (disk w') !! (k ++ [e.1]) = Some e.2) as Hstay.
  { intros [y n] Hin. rewrite Hdisk. cbn [tree set_tree fst snd]. rewrite taken_lookup, decide_False.
    - apply (ls_there _ _ _ Hls). apply elem_of_app. by right.
    - intros ([z m] & Hz & _ & Heq)%Exists_exists. apply app_inj_2 in Heq as [_ [= <-]]; [|done].
      pose proof (ls_names _ _ _ Hls) as Hnd. rewrite fmap_app in Hnd.
      apply NoDup_app in Hnd as (_ & Hnd & _). apply (Hnd y).
      + by apply (list_elem_of_fmap_2' fst _ (y, m)).
      + by apply (list_elem_of_fmap_2' fst _ (y, n)). }
  exists w'. split_and!; [|done|done].
  cbn [take_results]. rewrite Hx. cbn [negb fst].
  rewrite (processAndDeleteFile_invalid w' _ bad); [done| | |done].
  - unfold calm. by rewrite Hdisk.
  - rewrite resolve_sub, Hk.
    + apply (Hstay (x, Reg bad)). left.
    + eapply (ls_plain _ _ _ Hls). apply elem_of_app. right. left.
Qed.

(** ** Witnesses *)

Definition drain {D} (p : loc) (w : World D) : World D :=
  set_conts (alter (with_results []) p (conts w)) w.

Lemma drain_takes {D} p rs : takes (D:=D) p rs (drain p).
Proof.
  intros w (c & Hc & _ & Hcl). split; [|done]. exists (with_results [] c). cbn.
  rewrite list_lookup_alter_eq, Hc. by destruct c.
Qed.

Lemma drain_receivers {D} p rs : ∀ prev, receivers (D:=D) p prev rs (replicate (length rs) (drain p)).
Proof. induction rs as [|r rs IH]; intros prev; [done|]. split; [apply drain_takes | apply IH]. Qed.

Definition result_container : Container :=
  mkContainer "con_a" 2 64 EmptyString (ClusterQueue.example_image "echo") "docker-a" "jobs" [] [] false 1
    Running 0 "a" [].

Definition results_files (files : list (string * list byte)) : gmap (list string) node :=
  list_to_map (((λ f, (["srv"; "jobs"; "con_a"; "results"; f.1], Reg f.2)) <$> files) ++
    ((λ k, (k, Dir)) <$> [["srv"]; ["srv"; "jobs"]; ["srv"; "jobs"; "con_a"];
                          ["srv"; "jobs"; "con_a"; "results"]])).

Definition result_world (files : list (string * list byte)) : World Toy :=
  mkWorld [result_container] [0%nat] {["docker-a" := true]} (mkDisk (results_files files) ["srv"] [])
    0 [] O (Some []).

Definition good_files : list (string * list byte) :=
  [("2.json", [x32]); ("1.JSON", [x31]); ("note.txt", [x61])].
Definition bad_files : list (string * list byte) := [("1.json", [x31]); ("2.json", [x7b]); ("3.json", [x33])].

Lemma result_world_dir files :
  well_formed (results_files files) →
  lookup_node (results_files files) ["srv"; "jobs"; "con_a"; "results"] = Some Dir →
  results_dir (results_path result_container)
    (children (results_files files) ["srv"; "jobs"; "con_a"; "results"]) (result_world files).
Proof. intros [Hok _]%well_formed_ok Hdir. by split. Qed.

Lemma result_world_buffers files : buffers 0%nat [] (result_world files).
Proof. by exists result_container. Qed.

Definition valid_entry (e : string * node) : bool :=
  match content e with Some c => bool_decide (is_Some (parse_json c)) | None => true end.

Lemma entries_valid es :
  forallb valid_entry es = true → ∀ e c, e ∈ es → content e = Some c → is_Some (parse_json c).
Proof.
  intros H e c Hin Hc. rewrite forallb_forall in H. specialize (H e). unfold valid_entry in H.
  rewrite Hc in H. eapply bool_decide_eq_true_1, H. by apply list_elem_of_In.
Qed.

Lemma results_delivered_witness : ∃ w',
  monitorForResults [Tick (λ w, w) [drain 0%nat; drain 0%nat]; CtxDone] 0%nat
    (results_path result_container) (result_world good_files) = Some (Ok tt, w') ∧
  buffers 0%nat [[x32]] w'.
Proof.
  destruct (results_delivered 0%nat (results_path result_container)
    (children (results_files good_files) ["srv"; "jobs"; "con_a"; "results"])
    (λ w, w) [drain 0%nat; drain 0%nat] [CtxDone] [] (result_world good_files)) as (w' & Hm & Hb & _).
  - apply result_world_dir; [refine (bool_decide_unpack _ _); vm_compute; exact I | reflexivity].
  - apply result_world_buffers.
  - apply entries_valid. vm_compute. reflexivity.
  - apply (drain_receivers 0%nat [[x31]; [x32]]).
  - exists w'. split; [exact Hm | exact Hb].
Defined.

Lemma invalid_result_ends_monitor_witness : ∃ w',
  monitorForResults [Tick (λ w, w) [drain 0%nat]; Tick (drain 0%nat) [drain 0%nat]; CtxDone] 0%nat
    (results_path result_container) (result_world bad_files) = Some (Err ErrInvalidJSON, w') ∧
  tree (disk w') !! ["srv"; "jobs"; "con_a"; "results"; "3.json"] = Some (Reg [x33]).
Proof.
  destruct (invalid_result_ends_monitor 0%nat (results_path result_container)
    [("1.json", Reg [x31])] "2.json" [x7b] [("3.json", Reg [x33])]
    (λ w, w) [drain 0%nat] [Tick (drain 0%nat) [drain 0%nat]; CtxDone] [] (result_world bad_files))
    as (w' & Hm & _ & Hstay).
  - replace ([("1.json", Reg [x31])] ++ ("2.json", Reg [x7b]) :: [("3.json", Reg [x33])])
      with (children (results_files bad_files) ["srv"; "jobs"; "con_a"; "results"])
      by (vm_compute; reflexivity).
    apply result_world_dir; [refine (bool_decide_unpack _ _); vm_compute; exact I | reflexivity].
  - apply result_world_buffers.
  - apply entries_valid. vm_compute. reflexivity.
  - apply (drain_receivers 0%nat [[x31]]).
  - vm_compute. reflexivity.
  - vm_compute. reflexivity.
  - exists w'. split; [exact Hm|]. specialize (Hstay ("3.json", Reg [x33])).
    apply Hstay. right. left.
Defined.
