(* ===== verification/ClusterService.v ===== *)
(** * The service of a cluster

    [internal/cluster/service]: admission of jobs, the status a scheduler polls,
    the stream of completed jobs and the watch on the scheduler. The messages are
    those of [SchedService], which has the scheduler's end of the connection. *)

From Stdlib Require Import Strings.Byte Strings.String.
From S2P Require Import Prelude.
From S2P Require Import Models.
From S2P Require Import SchedState.
From S2P Require Import SchedJobs.
From S2P Require Import SchedService.
From S2P Require Import Arbiter.
From S2P Require Import JobDirs.
From S2P Require Import ClusterJobs.
From S2P Require Import ClusterQueue.
From S2P Require Import ClusterContainer.
From S2P Require Import ClusterPool.
From S2P Require Import ClusterPacker.
From S2P Require Import ClusterExamples.

(** src/internal/cluster/service/node.go:17-33 (ClusterServer)

    Without the queue and the pool, which are shared: they are the state. *)
Record ClusterServer := mkClusterServer {
  nodeID : string;
  nodeAddress : string;
  totalCPU : Z;
  totalMemory : Z;
  lastContactFromScheduler : Z;
  images : list Image
}.

(** src/api/proto/cluster/v1/cluster.proto:34-39 (JobResponse) *)
Record AppendResponse := mkAppendResponse {
  ar_JobId : string; ar_Accept : bool; ar_NodeId : string; ar_NodePort : string
}.

(** src/internal/cluster/service/node.go:54-57 (NewClusterServer, the interceptor)

    Every unary call counts as a contact. *)
Definition contact (now : Z) (s : ClusterServer) : ClusterServer :=
  mkClusterServer (nodeID s) (nodeAddress s) (totalCPU s) (totalMemory s) now (images s).

(** The first image of the alias. *)
Fixpoint find_image (imgs : list Image) (alias : string) : option Image :=
  match imgs with
  | [] => None
  | img :: imgs => if bool_decide (Alias img = alias) then Some img else find_image imgs alias
  end.

Section service.
Context {D : Type} `{!Docker D}.

Abbreviation csys := (World D * Jobs)%type.

Definition reject (req : ClusterJobRequest) : AppendResponse :=
  mkAppendResponse (cj_JobId req) false EmptyString EmptyString.

(** [AddJob] on a new job. *)
Definition add_new (job : Job) (q : Jobs) : outcome QueueError unit * Jobs :=
  let '(p, q) := ClusterJobs.allocate job q in AddJob p q.

(** src/internal/cluster/service/append.go:13-55 (ClusterServer.AppendJob) *)
Definition AppendJob (srv : ClusterServer) (req : ClusterJobRequest) (s : csys)
    : AppendResponse * csys :=
  let '(up, d) := DockerPing (daemon s.1) in
  let w := set_daemon d s.1 in
  if negb up then (reject req, (w, s.2)) else
  match find_image (images srv) (cj_ImageAlias req) with
  | None => (reject req, (w, s.2))
  | Some targetImage =>
      let job := NewJob (cj_JobId req) targetImage (cj_Priority req) (cj_Payload req) in
      match add_new job s.2 with
      | (Ok _, q) | (Err (ErrAlreadyPending | ErrAlreadyRunning), q) =>
          (mkAppendResponse (cj_JobId req) true (nodeID srv) (nodeAddress srv), (w, q))
      | (_, q) => (reject req, (w, q))
      end
  end.

(** src/internal/cluster/service/state.go:12-30 (ClusterServer.ClusterStatus) *)
Definition ClusterStatus (ord : MapOrder) (srv : ClusterServer) (q : Jobs)
    : ClusterStatusResponse :=
  let '(usedCPU, usedMem) := QueueUtilization ord q in
  mkClusterStatusResponse (nodeID srv) (nodeAddress srv) (totalCPU srv) (totalMemory srv)
    (wrap64 (totalCPU srv - usedCPU)) (wrap64 (totalMemory srv - usedMem))
    ((λ p, Id (ClusterJobs.deref (heap q) p)) <$> ActiveJobs ord q).

(** src/internal/cluster/service/state.go:48-60 (ClusterServer.ListJobs, the message) *)
Definition status_message (job : Job) : ClusterJobStatus :=
  mkClusterJobStatus (Id job) (if Succeeded job then 2 else 3) (wrap32 (Priority job))
    (Alias (JImage job)) (Some (Payload job)).

(** src/internal/cluster/service/state.go:33-70 (ClusterServer.ListJobs, one job)

    [statusCh] holds the jobs the stream is to report; [sent] is whether the send
    goes through. The message that arrives, whether the stream goes on, and what is
    left on the channel. *)
Definition ListJobs_step (sent : bool) (h : list Job) (statusCh : list loc)
    : option ClusterJobStatus * bool * list loc :=
  match statusCh with
  | [] => (None, true, [])
  | job :: l =>
      let resp := status_message (ClusterJobs.deref h job) in
      if sent then (Some resp, true, l) else (None, false, l)
  end.

(** src/internal/cluster/service/node.go:90-99 (ClusterServer.MonitorConnection, a tick) *)
Definition MonitorConnection_tick (schedule : list loc → list loc) (srv : ClusterServer)
    : io CError (World D) unit :=
  w ← get;
  if wrap64 (clock w - lastContactFromScheduler srv) >? 5000000000 then
    if Len w =? 0 then ret tt else ignore (DestroyAll schedule)
  else ret tt.


(** ** Admission *)

Definition new_job (img : Image) (req : ClusterJobRequest) : Job :=
  NewJob (cj_JobId req) img (cj_Priority req) (cj_Payload req).

(** The daemon answers and the image is known. *)
Definition admissible (srv : ClusterServer) (req : ClusterJobRequest) (s : csys) : bool :=
  (DockerPing (daemon s.1)).1 && bool_decide (is_Some (find_image (images srv) (cj_ImageAlias req))).

Lemma add_new_accepts job q :
  ∃ r, add_new job q = (r, do_op (OAdd job) q) ∧ (r = Ok tt ∨ r = Err ErrAlreadyRunning).
Proof.
  cbn [do_op ClusterJobs.allocate]. unfold add_new. cbn [ClusterJobs.allocate]. unfold AddJob.
  destruct (active _ !! _); eexists; split; [done | by right | done | by left].
Qed.

Lemma AppendJob_eq srv req s :
  AppendJob srv req s =
    if admissible srv req s then
      (mkAppendResponse (cj_JobId req) true (nodeID srv) (nodeAddress srv),
       (set_daemon (DockerPing (daemon s.1)).2 s.1,
        do_op (OAdd (new_job (default zero_image (find_image (images srv) (cj_ImageAlias req))) req))
          s.2))
    else (reject req, (set_daemon (DockerPing (daemon s.1)).2 s.1, s.2)).
Proof.
  unfold AppendJob, admissible. destruct (DockerPing (daemon s.1)) as [[] d]; [|done].
  cbn [fst snd negb andb]. destruct (find_image _ _) as [img|]; [|done].
  rewrite bool_decide_eq_true_2 by eauto. cbn [default].
  destruct (add_new_accepts (NewJob (cj_JobId req) img (cj_Priority req) (cj_Payload req)) s.2)
    as (r & -> & [-> | ->]); done.
Qed.

(** The entry of a pending job. *)
Definition pending_job (q : Jobs) (i : string) : option Job :=
  ClusterJobs.deref (heap q) <$> items (pending q) !! i.

Lemma do_add_pending job q :
  active q !! Id job = None → pending_job (do_op (OAdd job) q) (Id job) = Some job.
Proof.
  intros Ha. cbn [do_op ClusterJobs.allocate]. unfold AddJob, pending_job.
  cbn [heap set_heap active]. rewrite deref_new_job, Ha. cbn [snd pending set_pending heap set_heap].
  rewrite Push_items. unfold accs. cbn [heap set_heap idFn job_accessors].
  rewrite deref_new_job, lookup_insert_eq. cbn. by rewrite deref_new_job.
Qed.

Lemma find_image_Some imgs a img : find_image imgs a = Some img → img ∈ imgs ∧ Alias img = a.
Proof.
  induction imgs as [|x imgs IH]; [done|]. cbn [find_image]. case_bool_decide as H.
  - intros [= ->]. split; [by left | done].
  - intros [? ?]%IH. split; [by right | done].
Qed.

(** An id that is not in the slice of the queue. *)
Definition fresh_in (i : string) (q : Jobs) : Prop :=
  i ∉ (λ p, Id (ClusterJobs.deref (heap q) p)) <$> order (pending q).

(** What an accepted request leaves in the queue. *)
Definition admitted (srv : ClusterServer) (req : ClusterJobRequest) (q q' : Jobs) : Prop :=
  (active q !! cj_JobId req = None → held q' (cj_JobId req) PPending ∧
     ∃ img, img ∈ images srv ∧ Alias img = cj_ImageAlias req ∧
       pending_job q' (cj_JobId req) = Some (new_job img req)) ∧
  (is_Some (active q !! cj_JobId req) → held q' (cj_JobId req) PActive) ∧
  ∀ k ph, k ≠ cj_JobId req → held q k ph → held q' k ph.

Lemma add_admitted srv req q m img :
  QR q m → fresh_in (cj_JobId req) q → find_image (images srv) (cj_ImageAlias req) = Some img →
  admitted srv req q (do_op (OAdd (new_job img req)) q).
Proof.
  intros HR Hf Hi. set (i := cj_JobId req) in *. apply find_image_Some in Hi as [Hin Ha].
  assert (QR (do_op (OAdd (new_job img req)) q)
    (match m !! i with None => <[i := PPending]> m | Some _ => m end)) as HR'
    by exact (QR_AddJob _ _ (new_job img req) HR Hf).
  split; [|split].
  - intros Hact. assert (m !! i = None) as Hm.
    { destruct (m !! i) as [[]|] eqn:E; [| |done].
      - destruct (QR_pending_order _ _ _ HR E) as (p & Hp & Hid). destruct Hf.
        rewrite <- Hid. by apply (list_elem_of_fmap_2 (λ p, Id (ClusterJobs.deref (heap q) p))).
      - by apply (QR_not_active _ _ _ HR) in Hact. }
    rewrite Hm in HR'. split.
    + eapply QR_held; [exact HR' | apply lookup_insert_eq].
    + exists img. split_and!; [done..|]. by apply (do_add_pending (new_job img req)).
  - intros Hact%(Q_active _ _ HR). fold i in Hact. rewrite Hact in HR'. by eapply QR_held.
  - intros k ph Hk Hh%(held_QR _ _ _ _ HR). eapply QR_held; [exact HR'|].
    destruct (m !! i); [done|]. by rewrite lookup_insert_ne.
Qed.

Lemma AppendJob_admitted srv req s m resp s' :
  QR s.2 m → fresh_in (cj_JobId req) s.2 → AppendJob srv req s = (resp, s') →
  ar_JobId resp = cj_JobId req ∧ ar_Accept resp = admissible srv req s ∧
  if ar_Accept resp then admitted srv req s.2 s'.2 else s'.2 = s.2.
Proof.
  intros HR Hf. rewrite AppendJob_eq. destruct (admissible srv req s) eqn:Ha; intros [= <- <-]; [|done].
  split_and!; [done..|]. unfold admissible in Ha. apply andb_true_iff in Ha as [_ Ha].
  apply bool_decide_eq_true_1 in Ha as [img Hi]. cbn [ar_Accept snd]. rewrite Hi.
  cbn [default]. by eapply add_admitted.
Qed.
End service.

(** ** Properties *)

(** A cluster accepts exactly the jobs it can run: the answer is yes when the
    daemon answers and the image is known, and then the job is pending with the
    request's priority and payload, or was active already and stays so; a rejected
    request, and the other jobs in any case, leave the queue as it was. *)
Theorem AppendJob_admits {D : Type} `{!Docker D} srv req (s : World D * Jobs) m resp s' :
  QR s.2 m → fresh_in (cj_JobId req) s.2 → AppendJob srv req s = (resp, s') →
  ar_JobId resp = cj_JobId req ∧ ar_Accept resp = admissible srv req s ∧
  if ar_Accept resp then admitted srv req s.2 s'.2 else s'.2 = s.2.
Proof. apply AppendJob_admitted. Qed.

(** C20: a dispatched job is held by the cluster. The call of the scheduler's
    [DispatchJob] that is answered by [AppendJob] of a cluster - whatever other
    goroutines do to the scheduler meanwhile - returns true only when the cluster
    holds the job, pending with the scheduler's priority, payload and image unless it
    was active already; when it returns false the cluster's queue is unchanged. *)
Theorem dispatch_reaches_cluster {D : Type} `{!Docker D} srv (s : World D * Jobs) m c mw job st b st' :
  let j := SchedState.deref (jobHeap st) job in
  let rpc req := Some (ar_Accept (AppendJob srv req s).1) in
  QR s.2 m → fresh_in (j_Id j) s.2 → DispatchJob c rpc mw job st = (Some b, st') →
  ∃ req, dispatch_request c j = Some req ∧ cj_JobId req = j_Id j ∧ cj_Priority req = j_Priority j ∧
    cj_Payload req = j_Payload j ∧ cj_ImageAlias req = j_ImageAlias j ∧
    let q' := (AppendJob srv req s).2.2 in
    if b then admitted srv req s.2 q' else q' = s.2.
Proof.
  intros j rpc HR Hf. unfold DispatchJob. fold j.
  destruct (dispatch_request c j) as [req|] eqn:Er; [|done].
  assert (cj_JobId req = j_Id j ∧ cj_Priority req = j_Priority j ∧ cj_Payload req = j_Payload j ∧
    cj_ImageAlias req = j_ImageAlias j) as (H1 & H2 & H3 & H4).
  { unfold dispatch_request in Er. destruct (negb _); [done|]. do 2 (case_bool_decide; [done|]).
    destruct (_ || _); [done|]. by injection Er as <-. }
  intros E. exists req. split_and!; try done. rewrite <- H1 in Hf.
  destruct (AppendJob srv req s) as [resp s'] eqn:Ea. pose proof Ea as Ea'.
  apply (AppendJob_admitted _ _ _ m) in Ea' as (_ & _ & Ha); [|done..].
  unfold rpc in E. rewrite Ea in E. cbn [fst snd] in *.
  destruct (ar_Accept resp); injection E as <- <-; exact Ha.
Qed.

(** A completion arrives as it was reported. When a cluster completes a job, the
    event that its stream sends for it makes the scheduler complete the job of the
    same id, with the same result and the same verdict. *)
Theorem completion_travels i pl ok q m x q' st :
  QR q m → complete i pl ok q = (Ok x, q') →
  status_event (Some (status_message (ClusterJobs.deref (heap q') x))) st =
    settle st (SchedState.CompleteJob i pl ok st).
Proof.
  intros HR. unfold complete. destruct (active q !! i) as [y|] eqn:Ha; [|done].
  intros [= -> <-]. destruct (Q_heap _ _ HR _ _ Ha) as [Hid [j Hj]%lookup_lt_is_Some_2].
  unfold ClusterJobs.deref in *. rewrite Hj in Hid. cbn [heap set_heap set_active write].
  rewrite list_lookup_alter_eq, Hj. destruct j as [i' im c pr pl' r su]. cbn in Hid. subst i'.
  unfold status_event, status_message, ParseJobEvent, settle. cbn.
  destruct ok; cbn; by destruct (SchedState.CompleteJob i pl _ st).
Qed.

(** ** Witnesses *)

Definition example_server : ClusterServer :=
  mkClusterServer "c1" ":50060" 10 1000 0 [ClusterQueue.example_image "echo"].

Definition example_request : ClusterJobRequest := mkClusterJobRequest "c" 2 64 "echo" 7 [x7b; x7d].

(** A queue with an active and a pending job. *)
Definition server_ops : list ClusterQueue.op :=
  [OAdd (ClusterQueue.example_job "a" "echo" 5); OAdd (ClusterQueue.example_job "b" "echo" 5);
   ClusterQueue.ONext ["echo"] 10 1000].
Definition server_queue : Jobs := ClusterQueue.do_ops server_ops CreateJobsQueue.

Lemma server_queue_QR : ∃ m, QR server_queue m.
Proof.
  destruct (QR_do_ops server_ops _ _ QR_new) as (m & _ & HR); [|by exists m].
  refine (bool_decide_unpack _ _). vm_compute. exact I.
Qed.

Lemma AppendJob_admits_witness :
  let r := AppendJob example_server example_request (toy_world, server_queue) in
  ar_Accept r.1 = true ∧ admitted example_server example_request server_queue r.2.2.
Proof.
  destruct server_queue_QR as [m HR].
  pose proof (AppendJob_admits example_server example_request (toy_world, server_queue) m
    (AppendJob example_server example_request (toy_world, server_queue)).1
    (AppendJob example_server example_request (toy_world, server_queue)).2 HR) as H.
  assert (ar_Accept (AppendJob example_server example_request (toy_world, server_queue)).1 = true)
    as Ha by (vm_compute; reflexivity).
  rewrite Ha in H. split; [exact Ha|]. apply H.
  - apply (bool_decide_unpack (fresh_in "c" server_queue)). vm_compute. exact I.
  - apply surjective_pairing.
Defined.

Definition dispatch_result : option bool * State :=
  DispatchJob (mkClusterConn "c1" true)
    (λ req, Some (ar_Accept (AppendJob example_server req (toy_world, CreateJobsQueue)).1))
    (λ s, s) 1%nat packed_state.

Lemma dispatch_reaches_cluster_witness :
  ∃ req, dispatch_request (mkClusterConn "c1" true) (SchedState.deref (jobHeap packed_state) 1%nat)
      = Some req ∧
    cj_JobId req = "b" ∧ cj_Priority req = 9 ∧ cj_Payload req = [] ∧ cj_ImageAlias req = "echo" ∧
    admitted example_server req CreateJobsQueue
      (AppendJob example_server req (toy_world, CreateJobsQueue)).2.2.
Proof.
  apply (dispatch_reaches_cluster example_server (toy_world, CreateJobsQueue) ∅
    (mkClusterConn "c1" true) (λ s, s) 1%nat packed_state true dispatch_result.2).
  - apply QR_new.
  - apply not_elem_of_nil.
  - apply run_eq. vm_compute. reflexivity.
Defined.

Lemma completion_travels_witness :
  status_event (Some (status_message
      (ClusterJobs.deref (heap (complete "a" [x34; x32] true server_queue).2) 0%nat)))
    SchedJobs.example_state =
  settle SchedJobs.example_state (SchedState.CompleteJob "a" [x34; x32] true SchedJobs.example_state).
Proof.
  destruct server_queue_QR as [m HR].
  apply (completion_travels "a" [x34; x32] true server_queue m).
  - exact HR.
  - apply run_eq. vm_compute. reflexivity.
Defined.
