(* ===== verification/StatusStream.v ===== *)
(** * Completed jobs on their way to the scheduler

    The stream of [ListJobs] between one cluster and its scheduler: the channel of
    completed jobs, the handler that empties it into the stream, the messages under
    way, and the goroutine of [SchedStream] that hands them to the state. Without
    faults every completed job arrives, once and in order; when the stream breaks,
    a job taken from the channel is gone. *)

From Stdlib Require Import Strings.Byte Strings.String.
From S2P Require Import Prelude.
From S2P Require Import Models.
From S2P Require Import SchedState.
From S2P Require Import SchedJobs.
From S2P Require Import SchedService.
From S2P Require Import SchedStream.
From S2P Require Import ClusterJobs.
From S2P Require Import ClusterQueue.
From S2P Require Import ClusterService.

Section link.
(** The jobs of the cluster, as they are once they are done. *)
Context (h : list ClusterJobs.Job).

Definition message (job : loc) : ClusterJobStatus := status_message (ClusterJobs.deref h job).

(** The channel from [StreamCompleted] to the handlers, the messages sent and not
    yet received, the monitor; and what was reported and what has arrived so far. *)
Record link := mkLink {
  statusCh : list loc;
  wire : list ClusterJobStatus;
  monitor : position * State;
  reported : list loc;
  handled : list ClusterJobStatus
}.

(** [statusCh] is made with this capacity in [main]. *)
Definition status_capacity : nat := 100.

(** What the monitor sees when nothing goes wrong: it may still find the
    connection not up yet. *)
Definition healthy (o : seen) : bool :=
  match o with Looked cancelled _ => negb cancelled | Woke c => negb c | Opened ok => ok | Recv _ => false end.

Inductive link_step (faults : bool) : link → link → Prop :=
| lk_report job ch w m r l :
    (length ch < status_capacity)%nat →
    link_step faults (mkLink ch w m r l) (mkLink (ch ++ [job]) w m (r ++ [job]) l)
| lk_send ch msg ch' w s r l :
    ListJobs_step true h ch = (Some msg, true, ch') →
    link_step faults (mkLink ch w (Receiving, s) r l) (mkLink ch' (w ++ [msg]) (Receiving, s) r l)
| lk_receive msg m' ch w m r l :
    monitorJobStatuses (Recv (Message (Some msg))) m = Some m' →
    link_step faults (mkLink ch (msg :: w) m r l) (mkLink ch w m' r (l ++ [msg]))
| lk_see o m m' ch w r l :
    healthy o = true → monitorJobStatuses o m = Some m' →
    link_step faults (mkLink ch w m r l) (mkLink ch w m' r l)
(** A handler whose stream is broken, and which does not know it yet. *)
| lk_lose sent ch x go ch' w m r l :
    faults = true → ListJobs_step sent h ch = (x, go, ch') →
    link_step faults (mkLink ch w m r l) (mkLink ch' w m r l)
(** The stream ends for the monitor, or any other fault that it sees. *)
| lk_break o m m' ch w r l :
    faults = true → (∀ msg, o ≠ Recv (Message msg)) → monitorJobStatuses o m = Some m' →
    link_step faults (mkLink ch w m r l) (mkLink ch [] m' r l).

Definition fresh_link (s : State) : link := mkLink [] [] (AtTop, s) [] [].

(** What the messages make of the state. *)
Definition handle (s : State) (l : list ClusterJobStatus) : State :=
  foldl (λ s m, status_event (Some m) s) s l.

Lemma handle_snoc s l m : handle s (l ++ [m]) = status_event (Some m) (handle s l).
Proof. unfold handle. by rewrite foldl_app. Qed.

(** ** Without faults *)

Record flowing (s0 : State) (x : link) : Prop := {
  fl_all : handled x ++ wire x ++ (message <$> statusCh x) = message <$> reported x;
  fl_state : (monitor x).2 = handle s0 (handled x);
  fl_alive : (monitor x).1 ≠ Returned;
  fl_wire : (monitor x).1 ≠ Receiving → wire x = []
}.

Lemma flowing_step s0 x y : link_step false x y → flowing s0 x → flowing s0 y.
Proof using.
  intros Hst [F1 F2 F3 F4].
  destruct Hst as [job ch w m r l Hc | ch msg ch' w s r l Hs | msg m' ch w m r l Hm
    | o m m' ch w r l Ho Hm | |]; cbn [handled wire statusCh reported monitor] in *; try done.
  - split; cbn; try done. by rewrite !fmap_app, !app_assoc, <- F1, !app_assoc.
  - destruct ch as [|job ch]; [done|]. cbn in Hs. injection Hs as <- <-.
    split; cbn; try done. rewrite <- F1. by rewrite <- !app_assoc.
  - destruct m as [p s]. destruct p; try done. cbn in Hm. injection Hm as <-.
    split; cbn in *; try done.
    + by rewrite <- F1, <- !app_assoc.
    + by rewrite handle_snoc, F2.
  - destruct m as [p s]. split; cbn in *; try done.
    all: destruct p, o as [[] []|[]|[]|]; cbn in *; simplify_eq; cbn; try done; auto.
Qed.

Lemma flowing_run s0 x y : rtc (link_step false) x y → flowing s0 x → flowing s0 y.
Proof using. induction 1; eauto using flowing_step. Qed.

Lemma flowing_fresh s0 : flowing s0 (fresh_link s0).
Proof using. by split. Qed.

(** ** Everything arrives *)

(** The messages under way arrive, then the jobs in the channel are sent and
    arrive. *)
Lemma drain_wire w : ∀ ch s r l, ∃ s',
  rtc (link_step false) (mkLink ch w (Receiving, s) r l) (mkLink ch [] (Receiving, s') r (l ++ w)).
Proof using.
  induction w as [|m w IH]; intros ch s r l.
  - exists s. rewrite app_nil_r. apply rtc_refl.
  - destruct (IH ch (status_event (Some m) s) r (l ++ [m])) as [s' H]. exists s'.
    rewrite <- app_assoc in H. eapply rtc_l; [|exact H]. by apply lk_receive.
Qed.

Lemma drain_channel ch : ∀ s r l, ∃ s',
  rtc (link_step false) (mkLink ch [] (Receiving, s) r l)
    (mkLink [] [] (Receiving, s') r (l ++ (message <$> ch))).
Proof using.
  induction ch as [|job ch IH]; intros s r l.
  - exists s. rewrite app_nil_r. apply rtc_refl.
  - destruct (IH (status_event (Some (message job)) s) r (l ++ [message job])) as [s' H].
    exists s'. rewrite <- app_assoc in H.
    eapply rtc_l; [by apply (lk_send _ (job :: ch) (message job) ch)|].
    eapply rtc_l; [by apply lk_receive|]. exact H.
Qed.

Lemma reach_stream ch w p s r l :
  p ≠ Returned → rtc (link_step false) (mkLink ch w (p, s) r l) (mkLink ch w (Receiving, s) r l).
Proof using.
  intros Hp.
  assert (∀ m m' o, healthy o = true → monitorJobStatuses o m = Some m' →
    rtc (link_step false) (mkLink ch w m' r l) (mkLink ch w (Receiving, s) r l) →
    rtc (link_step false) (mkLink ch w m r l) (mkLink ch w (Receiving, s) r l)) as Hsee.
  { intros m m' o Ho Hm Hr. eapply rtc_l; [|exact Hr]. by apply (lk_see _ o). }
  assert (rtc (link_step false) (mkLink ch w (Opening, s) r l) (mkLink ch w (Receiving, s) r l)) as Ho.
  { apply (Hsee _ (Receiving, s) (Opened true)); [done|done|]. apply rtc_refl. }
  assert (rtc (link_step false) (mkLink ch w (AtTop, s) r l) (mkLink ch w (Receiving, s) r l)) as Ht.
  { by apply (Hsee _ (Opening, s) (Looked false true)). }
  destruct p as [| d | | |]; try done.
  by apply (Hsee _ (AtTop, s) (Woke false)).
Qed.
End link.

(** C21: completed jobs arrive. As long as the stream does not break, at any moment
    of any interleaving of the cluster, the handler and the monitor, what the
    scheduler has handled is a prefix of what the cluster has reported, in order
    and without repetition, and its state is what those events make of it; and
    from there a run leads to where everything reported has been handled. *)
Theorem statuses_arrive h s0 x :
  rtc (link_step h false) (fresh_link s0) x →
  handled x `prefix_of` (message h <$> reported x) ∧ (monitor x).2 = handle s0 (handled x) ∧
  ∃ y, rtc (link_step h false) x y ∧ reported y = reported x ∧
    handled y = message h <$> reported x ∧ (monitor y).2 = handle s0 (message h <$> reported x).
Proof.
  intros Hr. pose proof (flowing_run h s0 _ _ Hr (flowing_fresh h s0)) as HF.
  split_and!; [eexists; symmetry; apply (fl_all _ _ _ HF) | apply (fl_state _ _ _ HF) |].
  destruct x as [ch w [p s] r l]. pose proof (fl_alive _ _ _ HF) as Hp. cbn in Hp.
  pose proof (reach_stream h ch w p s r l Hp) as H1.
  destruct (drain_wire h w ch s r l) as [s1 H2].
  destruct (drain_channel h ch s1 r (l ++ w)) as [s2 H3].
  eexists. assert (rtc (link_step h false) (mkLink ch w (p, s) r l) (mkLink [] [] (Receiving, s2) r ((l ++ w) ++ (message h <$> ch)))) as H
    by (etrans; [exact H1|]; etrans; [exact H2|exact H3]).
  split; [exact H|]. pose proof (flowing_run h s0 _ _ H HF) as HF'.
  pose proof (fl_all _ _ _ HF') as Ha. pose proof (fl_state _ _ _ HF') as Hs. cbn in *.
  rewrite app_nil_r in Ha. by rewrite Ha in *.
Qed.

(** ** A broken stream *)

Section lost.
Context (h : list ClusterJobs.Job) (i : string).

(** From now on the cluster does not report the job again. *)
Definition later_step (x y : link) : Prop :=
  link_step h true x y ∧ ∀ job, reported y = reported x ++ [job] → Id (ClusterJobs.deref h job) ≠ i.

(** Nothing under way is about the job, and the scheduler waits for it. *)
Record waiting_for (x : link) : Prop := {
  wf_channel : ∀ job, job ∈ statusCh x → Id (ClusterJobs.deref h job) ≠ i;
  wf_wire : ∀ msg, msg ∈ wire x → js_JobId msg ≠ i;
  wf_state : ∃ m, R (monitor x).2 m ∧ m !! i = Some Assigned
}.

Lemma status_event_frame resp s m :
  R s m → m !! i = Some Assigned → (∀ msg, resp = Some msg → js_JobId msg ≠ i) →
  ∃ m', R (status_event resp s) m' ∧ m' !! i = Some Assigned.
Proof using.
  intros HR Hm Hne. destruct resp as [msg|]; [|by exists m]. specialize (Hne msg eq_refl).
  unfold status_event. destruct (ParseJobEvent (Some msg)) as [e|] eqn:Ee; [|by exists m].
  assert (e_JobID e = js_JobId msg) as Hid by (cbn in Ee; by injection Ee as <-).
  destruct (_ || _); [|by exists m].
  destruct (SchedJobs.do_op_refines s m (SchedJobs.OComplete (e_JobID e) (e_Payload e)
    (bool_decide (e_Status e = Completed))) HR I) as (m' & Hst & HR').
  cbn in Hst, HR'. unfold settle in HR'. exists m'. split.
  - by destruct (SchedState.CompleteJob _ _ _ s).
  - rewrite Hst, Hid. clear -Hm Hne. case_decide; [by rewrite lookup_insert_ne | done].
Qed.

Lemma monitor_frame o m m' :
  (∃ a, R m.2 a ∧ a !! i = Some Assigned) → monitorJobStatuses o m = Some m' →
  (∀ msg, o = Recv (Message (Some msg)) → js_JobId msg ≠ i) →
  ∃ a, R m'.2 a ∧ a !! i = Some Assigned.
Proof using.
  intros (a & HR & Ha) Hm Ho. destruct m as [p s].
  destruct p, o as [[] []|[]|[]|[resp| |[]]]; cbn in *; simplify_eq; cbn; eauto.
  apply (status_event_frame _ _ a); [done|done|]. intros msg ->. by apply Ho.
Qed.

Lemma sent_or_not sent ch x go ch' :
  ListJobs_step sent h ch = (x, go, ch') →
  (∀ job, job ∈ ch' → job ∈ ch) ∧
  ∀ msg, x = Some msg → ∃ job, job ∈ ch ∧ js_JobId msg = Id (ClusterJobs.deref h job).
Proof using.
  destruct ch as [|job ch]; cbn; [intros; by simplify_eq|].
  destruct sent; intros; simplify_eq; split; try (intros; by right); try done.
  intros msg [= <-]. exists job. split; [by left | done].
Qed.

Lemma waiting_step x y : later_step x y → waiting_for x → waiting_for y.
Proof using.
  intros [Hst Hl] [H1 H2 H3].
  destruct Hst as [job ch w m r l Hc | ch msg ch' w s r l Hs | msg m' ch w m r l Hm
    | o m m' ch w r l Ho Hm | sent ch x go ch' w m r l _ Hs | o m m' ch w r l _ Ho Hm];
    cbn [handled wire statusCh reported monitor] in *; split; cbn; try done.
  - intros job' [?|Hj]%elem_of_app; [by apply H1 | apply list_elem_of_singleton in Hj as ->; by apply Hl].
  - intros job Hin. apply sent_or_not in Hs as [Hs _]. auto.
  - intros msg' [?|Hj]%elem_of_app; [by apply H2|apply list_elem_of_singleton in Hj as ->].
    apply sent_or_not in Hs as [_ Hs]. destruct (Hs _ eq_refl) as (job & Hin & ->). by apply H1.
  - intros msg' Hin. apply H2. by right.
  - apply (monitor_frame _ _ _ H3 Hm). intros msg' [= ->]. apply H2. by left.
  - apply (monitor_frame _ _ _ H3 Hm). by intros msg' ->.
  - intros job Hin. apply sent_or_not in Hs as [Hs _]. auto.
  - by intros msg' ?%elem_of_nil.
  - apply (monitor_frame _ _ _ H3 Hm). intros msg' ->. by destruct (Ho (Some msg')).
Qed.
End lost.

(** A break of the stream loses a completed job. When the handler of a stream
    that is already broken takes the only report of a job from the channel, no
    later step of the stream - the monitor opens it again, other jobs complete -
    ever makes the scheduler complete it: the job stays assigned. *)
Theorem status_lost h ch job sent x go w m r l a z :
  let i := Id (ClusterJobs.deref h job) in
  (∀ job', job' ∈ ch → Id (ClusterJobs.deref h job') ≠ i) →
  (∀ msg, msg ∈ w → js_JobId msg ≠ i) →
  R m.2 a → a !! i = Some Assigned →
  ListJobs_step sent h (job :: ch) = (x, go, ch) →
  link_step h true (mkLink (job :: ch) w m r l) (mkLink ch w m r l) ∧
  (rtc (later_step h i) (mkLink ch w m r l) z → in_phase (monitor z).2 i Assigned).
Proof.
  intros i Hch Hw HR Ha Hs. split; [by eapply lk_lose|]. intros Hr.
  assert (waiting_for h i (mkLink ch w m r l)) as Hwf by (split; cbn; eauto).
  assert (waiting_for h i z) as [_ _ (b & HRb & Hb)].
  { induction Hr; eauto using waiting_step. }
  by eapply R_in_phase.
Qed.

(** ** Witnesses *)

(** The cluster has run job ["b"], which the scheduler of [packed_state] waits for. *)
Definition done_jobs : list ClusterJobs.Job :=
  [ClusterQueue.example_job "b" "echo" 9; ClusterQueue.example_job "a" "echo" 1].

Definition streaming : link :=
  mkLink [0%nat] [] (Receiving, packed_state) [0%nat] [].

Lemma statuses_arrive_witness :
  ∃ y, rtc (link_step done_jobs false) streaming y ∧ reported y = [0%nat] ∧
    handled y = [message done_jobs 0%nat] ∧
    (monitor y).2 = status_event (Some (message done_jobs 0%nat)) packed_state.
Proof.
  apply (statuses_arrive done_jobs packed_state streaming).
  eapply rtc_l; [apply (lk_see _ _ (Looked false true) _ (Opening, packed_state)); reflexivity|].
  eapply rtc_l; [apply (lk_see _ _ (Opened true) _ (Receiving, packed_state)); reflexivity|].
  eapply rtc_l; [apply (lk_report _ _ 0%nat); apply Nat.ltb_lt; reflexivity|]. apply rtc_refl.
Defined.

Lemma packed_R : ∃ m, R packed_state m ∧ m !! "b" = Some Assigned.
Proof.
  destruct (SchedJobs.do_ops_refines (take 4 SchedJobs.example_run) _ _ (R_new "s1" "50050")) as (m & _ & HR).
  { refine (bool_decide_unpack _ _). vm_compute. exact I. }
  exists m. split; [exact HR|].
  destruct (proj1 (R_assigned _ _ HR "b")) as [?|Hm]; [vm_compute; by eexists|done|].
  assert (is_Some (completedJobs packed_state !! "b")) as Hc by (apply (R_done _ _ HR); by right).
  vm_compute in Hc. by destruct Hc.
Qed.

(** The monitor opens the stream again, and the next job arrives. *)
Lemma status_lost_witness : ∃ z,
  rtc (later_step done_jobs "b") (mkLink [] [] (Receiving, packed_state) [0%nat] []) z ∧
  handled z = [message done_jobs 1%nat] ∧ in_phase (monitor z).2 "b" Assigned.
Proof.
  destruct packed_R as (m & HR & Hm).
  assert (rtc (later_step done_jobs "b") (mkLink [] [] (Receiving, packed_state) [0%nat] [])
    (mkLink [] [] (Receiving, status_event (Some (message done_jobs 1%nat)) packed_state)
       [0%nat; 1%nat] [message done_jobs 1%nat])) as Hr.
  { assert (∀ o p p', healthy o = true → monitorJobStatuses o (p, packed_state) = Some (p', packed_state) →
      later_step done_jobs "b" (mkLink [] [] (p, packed_state) [0%nat] [])
        (mkLink [] [] (p', packed_state) [0%nat] [])) as Hsee.
    { intros o p p' Ho Hp. split; [by apply (lk_see _ _ o)|]. intros job [=]. }
    eapply rtc_l. { split; [eapply (lk_break _ _ (Recv (Interrupted false))); reflexivity || discriminate|]. intros job [=]. }
    eapply rtc_l; [apply (Hsee (Woke false)); reflexivity|].
    eapply rtc_l; [apply (Hsee (Looked false true)); reflexivity|].
    eapply rtc_l; [apply (Hsee (Opened true)); reflexivity|].
    eapply rtc_l. { split; [apply (lk_report _ _ 1%nat); apply Nat.ltb_lt; reflexivity|]. by intros job [= <-]. }
    eapply rtc_l. { split; [by apply (lk_send _ _ [1%nat])|]. intros job [=]. }
    eapply rtc_l. { split; [by apply lk_receive|]. intros job [=]. }
    apply rtc_refl. }
  eexists. split; [exact Hr|]. split; [reflexivity|].
  apply (status_lost done_jobs [] 0%nat true (Some (message done_jobs 0%nat)) true [] (Receiving, packed_state)
    [0%nat] [] m); [| | exact HR | exact Hm | reflexivity | exact Hr].
  - intros job' []%not_elem_of_nil.
  - intros msg []%not_elem_of_nil.
Defined.
