(* ===== verification/MirrorWorker.v ===== *)
(** * The workload of a container

    [build/simple_go_echo/mirror_worker.go]: the program that runs in an image of
    the repository and answers every job with its own payload. It shares two
    directories with the node: the bind mount of the container. *)

From Stdlib Require Import Strings.Byte Strings.String.
From S2P Require Import Prelude.
From S2P Require Import Bytes.
From S2P Require Import Json.
From S2P Require Import JsonAny.
From S2P Require Import Models.
From S2P Require Import Arbiter.
From S2P Require Import JobDirs.
From S2P Require Import Environment.
From S2P Require Import Paths.
From S2P Require Import EnvWalk.
From S2P Require Import ClusterJobs.
From S2P Require Import ClusterQueue.
From S2P Require Import ClusterContainer.
From S2P Require Import ClusterPool.
From S2P Require Import ClusterPacker.
From S2P Require Import ClusterExamples.
From S2P Require Import ClusterSafety.
From S2P Require Import ClusterRun.
From S2P Require Import ClusterResults.

(** ** Files written through a handle *)

(** [os.Create]: the file is there and empty. *)
Definition os_Create (p : path) : osio unit :=
  f ← next_fault;
  settle_fault f ;;
  d ← get;
  let k := resolve d p in
  if is_dir (tree d) k then throw ErrOS
  else if is_dir (tree d) (parent k) then modify (set_tree (<[k := Reg []]> (tree d)))
  else throw ErrNotExist.

(** [File.Write] at the end of a file that was created as [p]. *)
Definition file_Write (p : path) (data : list byte) : osio unit :=
  f ← next_fault;
  d ← get;
  match tree d !! resolve d p with
  | Some (Reg c) => modify (set_tree (<[resolve d p := Reg (c ++ limit f data)]> (tree d)))
  | _ => ret tt
  end ;;
  settle_fault f.

(** [File.Sync]. *)
Definition file_Sync : osio unit := f ← next_fault; settle_fault f.

(** [strings.HasSuffix]. *)
Fixpoint HasSuffix (s suffix : string) : bool :=
  bool_decide (s = suffix) || match s with EmptyString => false | String _ r => HasSuffix r suffix end.

(** ** The worker *)

Inductive MirrorError := MOs (e : OsError) | MUnmarshal.
Abbreviation mio := (io MirrorError Disk).

Definition os {A} (m : osio A) : mio A := λ d,
  match m d with
  | (Ok a, d) => (Ok a, d)
  | (Err e, d) => (Err (MOs e), d)
  | (Panic, d) => (Panic, d)
  end.

Section worker.
(** What is mounted as [/job] in the container. *)
Context (job : path).

(** src/build/simple_go_echo/mirror_worker.go:14-14 (payloadDir) *)
Definition payloadDir : path := sub job "payload".
(** src/build/simple_go_echo/mirror_worker.go:15-15 (resultsDir) *)
Definition resultsDir : path := sub job "results".

(** src/build/simple_go_echo/mirror_worker.go:79-92 (processSingleJob, the write)

    A handle always closes. *)
Definition write_result (tmpResultPath : path) (rawBytes : list byte) : mio unit :=
  os (os_Create tmpResultPath) ;;
  os (file_Write tmpResultPath rawBytes) ;;
  os file_Sync.

(** src/build/simple_go_echo/mirror_worker.go:93-97 (processSingleJob, the rename) *)
Definition publish (tmpResultPath finalResultPath : path) : mio unit := λ d,
  match os (os_Rename tmpResultPath finalResultPath) d with
  | (Err e, d) => (ignore (os (os_Remove tmpResultPath)) ;; throw e) d
  | r => r
  end.

(** src/build/simple_go_echo/mirror_worker.go:64-106 (processSingleJob) *)
Definition processSingleJob (payloadPath : path) (filename : string) : mio unit :=
  rawBytes ← os (os_ReadFile payloadPath);
  if negb (unmarshal_map rawBytes) then
    ignore (os (os_Remove payloadPath)) ;; throw MUnmarshal
  else
  let tmpResultPath := sub resultsDir (filename +:+ ".tmp") in
  let finalResultPath := sub resultsDir filename in
  write_result tmpResultPath rawBytes ;;
  publish tmpResultPath finalResultPath ;;
  os (os_Remove payloadPath).

(** src/build/simple_go_echo/mirror_worker.go:52-61 (processAvailableJobs, one entry) *)
Definition process_entry (entry : string * node) : mio unit :=
  if match entry.2 with Dir => true | Reg _ => false end || negb (HasSuffix entry.1 ".json")
  then ret tt
  else ignore (processSingleJob (sub payloadDir entry.1) entry.1).

(** src/build/simple_go_echo/mirror_worker.go:46-62 (processAvailableJobs) *)
Definition processAvailableJobs : mio unit := λ d,
  match os (os_ReadDir payloadDir) d with
  | (Ok entries, d) => for_each process_entry entries d
  | (Err _, d) => (Ok tt, d)
  | (Panic, d) => (Panic, d)
  end.

(** src/build/simple_go_echo/mirror_worker.go:18-44 (main)

    [ticks]: what others do to the disk before each tick. *)
Definition main (ticks : list (Disk → Disk)) : mio unit :=
  ignore (os (os_MkdirAll payloadDir)) ;;
  ignore (os (os_MkdirAll resultsDir)) ;;
  for_each (λ others, modify others ;; processAvailableJobs) ticks.
End worker.

(** ** Names *)

(** The last component decides the extension when it has a dot. *)
Lemma Ext_suffix s t : (∀ acc, Ext_from t acc = t) → Ext (s +:+ t) = t.
Proof.
  unfold Ext. intros Ht. generalize EmptyString as acc. induction s as [|c s IH]; intros acc; [apply Ht|].
  change (String c s +:+ t) with (String c (s +:+ t)). cbn [Ext_from]. repeat case_bool_decide; apply IH.
Qed.

Lemma Ext_tmp s : Ext (s +:+ ".tmp") = ".tmp".
Proof. by apply Ext_suffix. Qed.

Lemma HasSuffix_spec s t : HasSuffix s t = true ↔ ∃ u, s = u +:+ t.
Proof.
  split.
  - induction s as [|c s IH]; cbn; intros [H|H]%orb_true_iff; bool_to_prop; try done.
    + by exists EmptyString.
    + by exists EmptyString.
    + destruct (IH H) as [u ->]. by exists (String c u).
  - intros [u ->]. induction u as [|c u IH].
    + change (EmptyString +:+ t) with t. destruct t; cbn [HasSuffix]; by rewrite bool_decide_eq_true_2.
    + change (String c u +:+ t) with (String c (u +:+ t)). cbn [HasSuffix]. rewrite IH. apply orb_true_r.
Qed.

(** A name that the collector of results takes. *)
Definition result_name (x : string) : bool := bool_decide (ToLower (Ext x) = ".json").

Lemma result_name_tmp x : result_name (x +:+ ".tmp") = false.
Proof. unfold result_name. by rewrite Ext_tmp. Qed.

Lemma result_name_json x : HasSuffix x ".json" = true → result_name x = true.
Proof. intros [u ->]%HasSuffix_spec. unfold result_name. rewrite Ext_suffix; done. Qed.

Lemma plain_tmp x : plain x → plain (x +:+ ".tmp").
Proof.
  intros (H1 & H2 & _). split_and!; [by apply split_slash_app|..];
    intros H; destruct x as [|c [|c' x]]; try done; by destruct x.
Qed.

(** ** What a reader of the results can find *)

Section atomic.
Context (job : path).

(** The file [x] of a directory of the job. *)
Definition slot (d : Disk) (dir : path) (x : string) : option node := tree d !! (resolve d dir ++ [x]).

(** From [d] to [d']: the payloads are those that were there; a result is one
    that was there, or a whole payload of the same name that could be decoded. *)
Record mirrors (d d' : Disk) : Prop := {
  mi_cwd : cwd d' = cwd d;
  mi_payload : ∀ x n, slot d' (payloadDir job) x = Some n → slot d (payloadDir job) x = Some n;
  mi_result : ∀ x n, result_name x = true → slot d' (resultsDir job) x = Some n →
    slot d (resultsDir job) x = Some n ∨
    ∃ c, n = Reg c ∧ slot d (payloadDir job) x = Some (Reg c) ∧ unmarshal_map c = true
}.

#[export] Instance mirrors_preorder : PreOrder mirrors.
Proof using.
  split; [by split; auto|]. intros d1 d2 d3 [A1 A2 A3] [B1 B2 B3].
  split; [congruence | auto |]. intros x n Hx Hn.
  destruct (B3 x n Hx Hn) as [?|(c & -> & Hc & Hu)]; [auto|]. right. exists c. auto.
Qed.

Lemma dirs_differ d x y : resolve d (payloadDir job) ++ [x] ≠ resolve d (resultsDir job) ++ [y].
Proof using.
  unfold payloadDir, resultsDir. rewrite !resolve_sub by (refine (bool_decide_unpack _ _); vm_compute; exact I).
  intros [H _]%app_inj_2; [|done]. by apply app_inj_2 in H as [_ [=]].
Qed.

(** Only one file changes, and it is not one a reader looks at. *)
Lemma mirrors_hidden d d' k :
  cwd d' = cwd d → (∀ q, q ≠ k → tree d' !! q = tree d !! q) →
  (∀ x, k ≠ resolve d (payloadDir job) ++ [x]) →
  (∀ x, result_name x = true → k ≠ resolve d (resultsDir job) ++ [x]) → mirrors d d'.
Proof using.
  intros Hc Hq Hp Hr. split; [done|..]; unfold slot; rewrite (resolve_cwd _ _ _ Hc).
  - intros x n. rewrite Hq; [done|]. intros Hk. by apply (Hp x).
  - intros x n Hx. rewrite Hq; [by left|]. intros Hk. by apply (Hr x).
Qed.

(** A file disappears. *)
Lemma mirrors_delete d d' k : cwd d' = cwd d → tree d' = delete k (tree d) → mirrors d d'.
Proof using.
  intros Hc Ht. split; [done|..]; unfold slot; rewrite (resolve_cwd _ _ _ Hc), Ht;
    intros x n; [|intros _]; intros [_ ?]%lookup_delete_Some; auto.
Qed.

(** ** The calls *)

Lemma os_run {A} (m : osio A) d : (os m d).2 = (m d).2.
Proof using. unfold os. by destruct (m d) as [[a|e|] d']. Qed.

Lemma keeps_os {A} (m : osio A) : (∀ d, mirrors d (m d).2) → Keeps mirrors (os m).
Proof using. intros Hm d. rewrite os_run. apply Hm. Qed.

Lemma mirrors_same d d' : tree d' = tree d → cwd d' = cwd d → mirrors d d'.
Proof using.
  intros Ht Hc. split; [done|..]; unfold slot; rewrite (resolve_cwd _ _ _ Hc), Ht; auto.
Qed.

#[export] Instance keeps_ReadFile p : Keeps mirrors (os (os_ReadFile p)).
Proof using.
  apply keeps_os. intros d. unfold os_ReadFile. os_start d; [by apply mirrors_same|].
  destruct (tree _ !! _) as [[]|]; by apply mirrors_same.
Qed.

#[export] Instance keeps_Remove p : Keeps mirrors (os (os_Remove p)).
Proof using.
  apply keeps_os. intros d. unfold os_Remove. os_start d; [by apply mirrors_same|].
  rewrite Ht, (resolve_cwd d) by done.
  assert (mirrors d (set_tree (delete (resolve d p) (tree d)) d0)) by (eapply mirrors_delete; done).
  destruct (tree d !! _) as [[c|]|]; [done| |by apply mirrors_same].
  destruct (children _ _); [done | by apply mirrors_same].
Qed.

#[export] Instance keeps_Sync : Keeps mirrors (os file_Sync).
Proof using. apply keeps_os. intros d. unfold file_Sync. os_start d; by apply mirrors_same. Qed.

(** A file that no reader looks at. *)
Definition hidden (d : Disk) (p : path) : Prop :=
  (∀ x, resolve d p ≠ resolve d (payloadDir job) ++ [x]) ∧
  (∀ x, result_name x = true → resolve d p ≠ resolve d (resultsDir job) ++ [x]).

Lemma hidden_tmp d x : plain x → hidden d (sub (resultsDir job) (x +:+ ".tmp")).
Proof using.
  intros Hx. unfold hidden. rewrite resolve_sub by (by apply plain_tmp). split.
  - intros y Hy. by apply (dirs_differ d y (x +:+ ".tmp")).
  - intros y Hy [_ [= <-]]%app_inj_2; [|done]. by rewrite result_name_tmp in Hy.
Qed.

Lemma mirrors_write d d1 p n :
  hidden d p → tree d1 = tree d → cwd d1 = cwd d →
  mirrors d (set_tree (<[resolve d1 p := n]> (tree d1)) d1).
Proof using.
  intros [Hp Hr] Ht Hc. rewrite (resolve_cwd _ _ _ Hc). eapply (mirrors_hidden _ _ (resolve d p)); try done.
  intros q Hq. cbn. by rewrite lookup_insert_ne, Ht.
Qed.

Lemma mirrors_Create d p : hidden d p → mirrors d (os_Create p d).2.
Proof using.
  intros Hp. unfold os_Create. os_start d; [by apply mirrors_same|].
  destruct (is_dir _ _); [by apply mirrors_same|].
  destruct (is_dir _ _); [by apply mirrors_write | by apply mirrors_same].
Qed.

Lemma mirrors_Write d p c : hidden d p → mirrors d (file_Write p c d).2.
Proof using.
  intros Hp. unfold file_Write. os_start d;
    (destruct (tree _ !! _) as [[]|]; [by apply mirrors_write | by apply mirrors_same..]).
Qed.

Lemma mirrors_publish d d1 d2 x raw :
  mirrors d d1 → plain x → slot d (payloadDir job) x = Some (Reg raw) → unmarshal_map raw = true →
  tree d1 !! resolve d1 (sub (resultsDir job) (x +:+ ".tmp")) = Some (Reg raw) →
  os_Rename (sub (resultsDir job) (x +:+ ".tmp")) (sub (resultsDir job) x) d1 = (Ok tt, d2) →
  mirrors d d2.
Proof using.
  intros Hm Hx Hs Hu Htmp Hr. apply os_Rename_Ok in Hr as (n & Hn & Hc & Ht). simplify_eq.
  pose proof (mi_cwd _ _ Hm) as Hc1. rewrite !(resolve_cwd d d1) in * by done.
  rewrite !resolve_sub in * by (done || by apply plain_tmp).
  split; [congruence|..]; unfold slot; rewrite (resolve_cwd d d2), Ht by congruence.
  - intros y n Hy. rewrite lookup_insert_ne in Hy by (intros Heq; by apply (dirs_differ d y x)).
    apply lookup_delete_Some in Hy as [_ Hy]. apply (mi_payload _ _ Hm).
    unfold slot. by rewrite (resolve_cwd d d1).
  - intros y n Hy. destruct (decide (y = x)) as [->|Hne].
    + rewrite lookup_insert_eq. intros [= <-]. right. by exists raw.
    + rewrite lookup_insert_ne by (by intros [_ [= ->]]%app_inj_2). intros [_ Hl]%lookup_delete_Some.
      apply (mi_result _ _ Hm); [done|]. unfold slot. by rewrite (resolve_cwd d d1).
Qed.

Lemma os_inv {A} (m : osio A) d r d' :
  os m d = (r, d') → (m d).2 = d' ∧
    match r with Ok a => m d = (Ok a, d') | _ => ∃ r', m d = (r', d') ∧ is_ok r' = false end.
Proof using. unfold os. destruct (m d) as [[a|e|] d1]; intros [= <- <-]; naive_solver. Qed.

Lemma os_ReadFile_Ok p d c d' :
  os_ReadFile p d = (Ok c, d') → tree d' = tree d ∧ cwd d' = cwd d ∧ tree d !! resolve d p = Some (Reg c).
Proof using.
  unfold os_ReadFile. os_start d; [done|]. rewrite Ht, (resolve_cwd d) by done.
  destruct (tree d !! _) as [[]|]; [|done..]. by intros [= <- <-].
Qed.

Lemma os_Rename_fails p q d r d' :
  os_Rename p q d = (r, d') → is_ok r = false → mirrors d d'.
Proof using.
  unfold os_Rename. os_start d; [intros [= <- <-] _; by apply mirrors_same|].
  destruct (tree _ !! _); [|intros [= <- <-] _; by apply mirrors_same].
  destruct (is_dir _ _); [intros [= <- <-] _; by apply mirrors_same|].
  destruct (is_dir _ _); intros [= <- <-]; [done | intros _; by apply mirrors_same].
Qed.

Lemma os_Create_Ok p d d' :
  os_Create p d = (Ok tt, d') → tree d' = <[resolve d p := Reg []]> (tree d) ∧ cwd d' = cwd d.
Proof using.
  unfold os_Create. os_start d; [done|]. rewrite Ht, (resolve_cwd d) by done.
  destruct (is_dir _ _); [done|]. destruct (is_dir _ _); [|done]. by intros [= <-].
Qed.

Lemma file_Write_Ok p c c0 d d' :
  tree d !! resolve d p = Some (Reg c0) → file_Write p c d = (Ok tt, d') →
  tree d' = <[resolve d p := Reg (c0 ++ c)]> (tree d) ∧ cwd d' = cwd d.
Proof using.
  intros Hk. unfold file_Write. os_start d; rewrite Ht, (resolve_cwd d), Hk by done; [done|].
  by intros [= <-].
Qed.

Lemma file_Sync_same d r d' : file_Sync d = (r, d') → tree d' = tree d ∧ cwd d' = cwd d.
Proof using. unfold file_Sync. os_start d; by intros [= _ <-]. Qed.

(** The temporary file is written: in full, or the reader has not noticed. *)
Lemma write_tmp d x raw r d' :
  plain x →
  write_result (sub (resultsDir job) (x +:+ ".tmp")) raw d = (r, d') →
  mirrors d d' ∧ (∀ u, r = Ok u →
    tree d' = <[resolve d (sub (resultsDir job) (x +:+ ".tmp")) := Reg raw]> (tree d)).
Proof using.
  intros Hx. set (p := sub _ _). unfold write_result. unfold mbind at 1, io_bind at 1.
  destruct (os (os_Create p) d) as [r1 d1] eqn:E1. apply os_inv in E1 as [H1 H1'].
  pose proof (mirrors_Create d p (hidden_tmp d x Hx)) as M1. rewrite H1 in M1.
  destruct r1 as [[]|e|]; [|intros [= <- <-]; by split..].
  destruct (os_Create_Ok _ _ _ H1') as [T1 C1].
  pose proof (resolve_cwd _ _ p C1) as R1.
  unfold mbind at 1, io_bind at 1. destruct (os (file_Write p raw) d1) as [r2 d2] eqn:E2.
  apply os_inv in E2 as [H2 H2'].
  pose proof (mirrors_Write d1 p raw (hidden_tmp d1 x Hx)) as M2. rewrite H2 in M2.
  destruct r2 as [[]|e|]; [|intros [= <- <-]; split; [by etrans|done]..].
  destruct (file_Write_Ok p raw [] d1 d2) as [T2 C2]; [by rewrite T1, R1, lookup_insert_eq|done|].
  intros E3. apply os_inv in E3 as [H3 _]. destruct (file_Sync d2) as [r4 d4] eqn:E4.
  destruct (file_Sync_same _ _ _ E4) as [T3 C3]. cbn [snd] in H3. subst d4.
  split; [etrans; [exact M1|]; etrans; [exact M2|]; by apply mirrors_same|].
  intros _ _. by rewrite T3, T2, R1, T1, insert_insert_eq.
Qed.

#[export] Instance keeps_processSingleJob x :
  plain x → Keeps mirrors (processSingleJob job (sub (payloadDir job) x) x).
Proof using.
  intros Hx d. unfold processSingleJob. unfold mbind at 1, io_bind at 1.
  pose proof (keeps (m:=os (os_ReadFile (sub (payloadDir job) x))) d) as M1.
  destruct (os (os_ReadFile _) d) as [[raw|e|] d1] eqn:E1; [|done..]. cbn [snd] in M1.
  apply os_inv in E1 as [_ E1]. destruct (os_ReadFile_Ok _ _ _ _ E1) as (T1 & C1 & S1).
  rewrite resolve_sub in S1 by done. destruct (unmarshal_map raw) eqn:Hu; cbn [negb].
  2: { etrans; [exact M1|]. assert (Keeps mirrors
         (ignore (os (os_Remove (sub (payloadDir job) x))) ;; throw (A:=unit) MUnmarshal)) as Hk by keeps_by fail.
       apply Hk. }
  set (tmp := sub (resultsDir job) (x +:+ ".tmp")). unfold mbind at 1, io_bind at 1.
  destruct (write_result tmp raw d1) as [r2 d2] eqn:E2.
  destruct (write_tmp _ _ _ _ _ Hx E2) as [M2 T2].
  assert (mirrors d d2) as M by (by etrans). destruct r2 as [u|e|]; [|done..].
  specialize (T2 u eq_refl). unfold mbind at 1, io_bind at 1, publish.
  destruct (os (os_Rename tmp _) d2) as [r3 d3] eqn:E3. apply os_inv in E3 as [H3 E3].
  destruct r3 as [[]|e|].
  { etrans; [|apply (keeps (R:=mirrors))].
    eapply (mirrors_publish d d2 d3 x raw); [done|done| |done| |exact E3].
    - exact S1.
    - fold tmp. rewrite T2, (resolve_cwd d1 d2) by apply (mi_cwd _ _ M2). apply lookup_insert_eq. }
  all: destruct E3 as (r3 & E3 & Hr3); apply os_Rename_fails in E3; [|done].
  - etrans; [exact M|]. etrans; [exact E3|].
    assert (Keeps mirrors (ignore (os (os_Remove tmp)) ;; throw (A:=unit) e)) as Hk by keeps_by fail.
    specialize (Hk d3). match goal with |- context [match ?x with _ => _ end] => destruct x as [[u'|e'|] d4] end;
      [etrans; [exact Hk|]; apply (keeps (R:=mirrors)) | done..].
  - by etrans.
Qed.

#[export] Instance keeps_process_entry e : plain e.1 → Keeps mirrors (process_entry job e).
Proof using. intros He. unfold process_entry. pose proof (keeps_processSingleJob e.1 He). keeps_by fail. Qed.

Lemma os_ReadDir_same p d : tree (os_ReadDir p d).2 = tree d ∧ cwd (os_ReadDir p d).2 = cwd d.
Proof using.
  destruct (os_ReadDir p d) as [r d'] eqn:E. revert E. unfold os_ReadDir. os_start d; [by intros [= _ <-]|].
  destruct (lookup_node _ _) as [[]|]; by intros [= _ <-].
Qed.

Lemma mirrors_processAvailableJobs d :
  tree_ok (tree d) → mirrors d (processAvailableJobs job d).2.
Proof using.
  intros Hok. unfold processAvailableJobs.
  destruct (os (os_ReadDir (payloadDir job)) d) as [r d1] eqn:E. apply os_inv in E as [E1 E2].
  assert (mirrors d d1) as M.
  { rewrite <- E1. apply mirrors_same; by apply os_ReadDir_same. }
  destruct r as [es|e|]; [|done..]. apply os_ReadDir_Ok in E2 as (_ & _ & ->). etrans; [exact M|].
  assert (Forall (λ e, plain e.1) (children (tree d) (resolve d (payloadDir job)))) as Hes.
  { apply Forall_forall. intros [x n] Hin%children_elem. by eapply Hok. }
  clear -Hes. revert d1. induction Hes as [|e es He _ IH]; intros d1; [reflexivity|].
  cbn [for_each]. pose proof (keeps_process_entry e He d1) as H.
  destruct (process_entry job e d1) as [[u|er|] d2]; [|done..]. etrans; [exact H | apply IH].
Qed.
End atomic.

(** C19: a result appears whole. Whatever calls of a tick fail, and however much of
    its work a failing call has done - which covers every moment at which a reader
    can look - each result file is one that was there before the tick, or a complete
    copy of the payload of the same name, which is one that can be decoded. *)
Theorem results_whole job d x n :
  tree_ok (tree d) → result_name x = true →
  slot (processAvailableJobs job d).2 (resultsDir job) x = Some n →
  slot d (resultsDir job) x = Some n ∨
  ∃ c, n = Reg c ∧ slot d (payloadDir job) x = Some (Reg c) ∧ unmarshal_map c = true.
Proof. intros Hok. apply (mi_result _ _ _ (mirrors_processAvailableJobs job d Hok)). Qed.

(** ** The bind mount *)


(** ** A tick on a disk without faults *)

Section calm_tick.
Context (d : Disk) (Hf : dfaults d = []).

Ltac calm_call := intros; unfold os, next_fault, settle_fault, mbind, io_bind, get, modify, ret; rewrite ?Hf; cbn.

Lemma ReadFile_calm p c :
  tree d !! resolve d p = Some (Reg c) → os (os_ReadFile p) d = (Ok c, d).
Proof using Hf. unfold os_ReadFile. calm_call. by rewrite H. Qed.

Lemma Remove_calm p c :
  tree d !! resolve d p = Some (Reg c) →
  os (os_Remove p) d = (Ok tt, set_tree (delete (resolve d p) (tree d)) d).
Proof using Hf. unfold os_Remove. calm_call. by rewrite H. Qed.

Lemma write_result_calm p raw :
  is_dir (tree d) (resolve d p) = false → is_dir (tree d) (parent (resolve d p)) = true →
  write_result p raw d = (Ok tt, set_tree (<[resolve d p := Reg raw]> (tree d)) d).
Proof using Hf.
  intros H1 H2. unfold write_result, os_Create, file_Write, file_Sync. calm_call.
  rewrite H1, H2. cbn. rewrite ?Hf. cbn.
  change (resolve (mkDisk ?t (cwd d) ?l) p) with (resolve d p). rewrite lookup_insert_eq. cbn.
  rewrite ?Hf. cbn. by rewrite insert_insert_eq.
Qed.

Lemma publish_calm p q n :
  tree d !! resolve d p = Some n → is_dir (tree d) (resolve d q) = false →
  is_dir (tree d) (parent (resolve d q)) = true →
  publish p q d = (Ok tt, set_tree (<[resolve d q := n]> (delete (resolve d p) (tree d))) d).
Proof using Hf.
  intros H1 H2 H3. unfold publish, os_Rename. calm_call. by rewrite H1, H2, H3.
Qed.
End calm_tick.

Lemma children_one t k x c : holds_only t k x c → children t k = [(x, Reg c)].
Proof.
  intros H. pose proof (children_names t k) as Hnd.
  assert (∀ e, e ∈ children t k ↔ e = (x, Reg c)) as He.
  { intros [y n]. split.
    - intros Hin%children_elem. apply H in Hin as [-> ->]. done.
    - intros [= -> ->]. apply elem_of_children, H. done. }
  destruct (children t k) as [|a l].
  { exfalso. apply (not_elem_of_nil (x, Reg c)). by apply He. }
  assert (a = (x, Reg c)) as -> by (apply He; left). f_equal.
  destruct l as [|b l]; [done|]. exfalso. assert (b = (x, Reg c)) as -> by (apply He; right; left).
  apply NoDup_cons in Hnd as [Hn _]. apply Hn. left.
Qed.

Lemma parent_snoc k x : parent (k ++ [x]) = k.
Proof. unfold parent. apply removelast_last. Qed.

(** The disk of a node: no call fails, names are plain, directories are there. *)
Record settled_disk (d : Disk) : Prop := {
  sk_calm : dfaults d = [];
  sk_names : tree_ok (tree d);
  sk_closed : EnvWalk.closed (tree d)
}.

(** The directory of results, with nothing to collect. *)
Definition nothing_yet (job : path) (d : Disk) : Prop :=
  lookup_node (tree d) (resolve d (resultsDir job)) = Some Dir ∧
  ∀ x n, slot d (resultsDir job) x = Some n → result_name x = false ∧ n ≠ Dir.

Section one_job.
Context (job : path) (d : Disk) (x : string) (raw : list byte).
Context (Hd : settled_disk d) (Hr : nothing_yet job d).
Context (Hx : plain x) (Hjson : HasSuffix x ".json" = true).
Context (Hp : holds_only (tree d) (resolve d (payloadDir job)) x raw).

Abbreviation kp := (resolve d (payloadDir job)).
Abbreviation kr := (resolve d (resultsDir job)).

Lemma payload_file : tree d !! resolve d (sub (payloadDir job) x) = Some (Reg raw).
Proof using Hx Hp. rewrite resolve_sub by done. by apply Hp. Qed.

Lemma payload_dir : lookup_node (tree d) kp = Some Dir.
Proof using Hd Hp.
  assert (tree d !! (kp ++ [x]) = Some (Reg raw)) as H by by apply Hp.
  by eapply (proj2 (sk_closed _ Hd)).
Qed.

Lemma tick_one_job r d' :
  processSingleJob job (sub (payloadDir job) x) x d = (r, d') → r ≠ Panic →
  processAvailableJobs job d = (Ok tt, d').
Proof using Hd Hx Hjson Hp.
  intros E Hnp. unfold processAvailableJobs, os.
  rewrite os_ReadDir_calm; [|apply Hd | apply payload_dir].
  rewrite (children_one _ _ _ _ Hp). cbn [for_each]. unfold process_entry. cbn [fst snd].
  rewrite Hjson. cbn [orb negb]. unfold ignore. rewrite E. by destruct r as [u|e|].
Qed.

(** The trees after a job that was mirrored and after one that was refused. *)
Definition mirrored_tree : gmap (list string) node :=
  delete (kp ++ [x]) (<[kr ++ [x] := Reg raw]> (delete (kr ++ [x +:+ ".tmp"])
    (<[kr ++ [x +:+ ".tmp"] := Reg raw]> (tree d)))).
Definition refused_tree : gmap (list string) node := delete (kp ++ [x]) (tree d).

Lemma is_dir_slot y : is_dir (tree d) (kr ++ [y]) = false ↔ slot d (resultsDir job) y ≠ Some Dir.
Proof using.
  unfold is_dir. rewrite lookup_node_snoc. unfold slot. destruct (tree d !! _) as [[]|]; naive_solver.
Qed.

Lemma tmp_ne : x +:+ ".tmp" ≠ x.
Proof using Hjson.
  intros H. apply result_name_json in Hjson. rewrite <- H, result_name_tmp in Hjson. done.
Qed.

Lemma results_is_dir t y :
  lookup_node (tree d) kr = Some Dir → (∀ q, q ≠ kr ++ [y] → t !! q = tree d !! q) → is_dir t kr = true.
Proof using.
  intros H Ht. unfold is_dir. destruct kr as [|a k] eqn:E; [done|]. cbn [lookup_node] in *.
  rewrite Ht, H; [done|]. intros Heq. apply (f_equal length) in Heq. rewrite length_app in Heq. cbn in Heq. lia.
Qed.

Lemma mirror_accepted :
  unmarshal_map raw = true → processAvailableJobs job d = (Ok tt, set_tree mirrored_tree d).
Proof using Hd Hr Hx Hjson Hp.
  intros Hu. eapply (tick_one_job (Ok tt)); [|done]. pose proof (sk_calm _ Hd) as Hf. destruct Hr as [Hrd Hrn].
  unfold processSingleJob. rewrite (io_bind_Ok _ _ _ _ _ (ReadFile_calm d Hf _ _ payload_file)).
  rewrite Hu. cbn [negb].
  assert (resolve d (sub (resultsDir job) (x +:+ ".tmp")) = kr ++ [x +:+ ".tmp"]) as Ktmp
    by (apply resolve_sub, plain_tmp, Hx).
  assert (resolve d (sub (resultsDir job) x) = kr ++ [x]) as Kfin by by apply resolve_sub.
  assert (resolve d (sub (payloadDir job) x) = kp ++ [x]) as Kpay by by apply resolve_sub.
  assert (∀ y, is_dir (tree d) (kr ++ [y]) = false) as Hnd.
  { intros y. apply is_dir_slot. intros H. by apply Hrn in H as [_ ?]. }
  pose proof (write_result_calm d Hf (sub (resultsDir job) (x +:+ ".tmp")) raw) as W. rewrite Ktmp in W.
  rewrite parent_snoc in W. set (t1 := <[_ := Reg raw]> (tree d)) in W.
  rewrite (io_bind_Ok _ _ _ _ _ (W (Hnd _) (results_is_dir _ x Hrd (λ _ _, eq_refl)))). clear W.
  pose proof (publish_calm (set_tree t1 d) Hf (sub (resultsDir job) (x +:+ ".tmp"))
    (sub (resultsDir job) x) (Reg raw)) as P.
  change (resolve (set_tree t1 d)) with (resolve d) in P. rewrite Ktmp, Kfin, parent_snoc in P.
  cbn [tree set_tree] in P. set (t2 := <[_ := Reg raw]> (delete _ t1)) in P.
  rewrite (io_bind_Ok _ _ _ _ _ (P ltac:(apply lookup_insert_eq) ltac:(
    unfold t1, is_dir; rewrite lookup_node_snoc, lookup_insert_ne, <- lookup_node_snoc;
      [apply Hnd | intros [_ [= H]]%app_inj_2; [by apply tmp_ne | done]])
    ltac:(apply (results_is_dir _ (x +:+ ".tmp") Hrd); intros q Hq; unfold t1; by apply lookup_insert_ne))).
  pose proof (Remove_calm (set_tree t2 d) Hf (sub (payloadDir job) x) raw) as R.
  change (resolve (set_tree t2 d)) with (resolve d) in R. rewrite Kpay in R. cbn [tree set_tree] in R.
  apply R. unfold t2, t1.
  rewrite lookup_insert_ne, lookup_delete_ne, lookup_insert_ne
    by (intros H; symmetry in H; by apply dirs_differ in H). by apply Hp.
Qed.

Lemma mirrored_lookup q :
  mirrored_tree !! q =
    if decide (q = kp ++ [x]) then None else
    if decide (q = kr ++ [x]) then Some (Reg raw) else
    if decide (q = kr ++ [x +:+ ".tmp"]) then None else tree d !! q.
Proof using Hjson.
  unfold mirrored_tree. destruct (decide (q = kp ++ [x])) as [->|H1]; [apply lookup_delete_eq|].
  rewrite lookup_delete_ne by done.
  destruct (decide (q = kr ++ [x])) as [->|H2]; [apply lookup_insert_eq|].
  rewrite lookup_insert_ne by done.
  destruct (decide (q = kr ++ [x +:+ ".tmp"])) as [->|H3]; [apply lookup_delete_eq|].
  by rewrite lookup_delete_ne, lookup_insert_ne by done.
Qed.

Lemma results_not_below_payload y : kr ≠ kp ++ [y].
Proof using.
  unfold payloadDir, resultsDir. rewrite !resolve_sub by (refine (bool_decide_unpack _ _); vm_compute; exact I).
  intros Heq. apply (f_equal length) in Heq. rewrite !length_app in Heq. cbn in Heq. lia.
Qed.

Lemma mirrored_results_dir : lookup_node (tree d) kr = Some Dir → lookup_node mirrored_tree kr = Some Dir.
Proof using Hjson.
  destruct kr as [|b k] eqn:E; [done|]. rewrite <- E. intros Hl.
  assert (∀ t : gmap (list string) node, lookup_node t kr = t !! kr) as Hn by (intros t; by rewrite E).
  rewrite Hn in *. rewrite mirrored_lookup. rewrite !decide_False; [done|..].
  - intros Heq. apply (f_equal length) in Heq. rewrite length_app in Heq. cbn in Heq. lia.
  - intros Heq. apply (f_equal length) in Heq. rewrite length_app in Heq. cbn in Heq. lia.
  - apply results_not_below_payload.
Qed.

Lemma refused_results_dir : lookup_node (tree d) kr = Some Dir → lookup_node refused_tree kr = Some Dir.
Proof using.
  unfold refused_tree. intros Hl. destruct kr as [|b k] eqn:E; [done|]. cbn [lookup_node] in *.
  rewrite <- E in *. rewrite lookup_delete_ne; [done|]. intros Heq. symmetry in Heq. by apply results_not_below_payload in Heq.
Qed.

Lemma mirrored_names : tree_ok mirrored_tree.
Proof using Hd Hx Hjson.
  intros k a n. rewrite mirrored_lookup. case_decide as H1; [done|]. case_decide as H2.
  - apply app_inj_2 in H2 as [_ [= ->]]; [|done]. done.
  - case_decide; [done|]. apply (sk_names _ Hd).
Qed.

Lemma mirror_refused :
  unmarshal_map raw = false → processAvailableJobs job d = (Ok tt, set_tree refused_tree d).
Proof using Hd Hx Hjson Hp.
  intros Hu. eapply (tick_one_job (Err MUnmarshal)); [|done]. pose proof (sk_calm _ Hd) as Hf.
  unfold processSingleJob. rewrite (io_bind_Ok _ _ _ _ _ (ReadFile_calm d Hf _ _ payload_file)).
  rewrite Hu. cbn [negb].
  unfold ignore, mbind, io_bind. rewrite (Remove_calm d Hf _ raw) by apply payload_file.
  unfold refused_tree. by rewrite resolve_sub.
Qed.
End one_job.

(** The worker on a directory of payloads without files. *)
Lemma worker_idle job d :
  dfaults d = [] → lookup_node (tree d) (resolve d (payloadDir job)) = Some Dir →
  (∀ x, slot d (payloadDir job) x = None) → processAvailableJobs job d = (Ok tt, d).
Proof.
  intros Hf Hd Hn. unfold processAvailableJobs, os. rewrite os_ReadDir_calm by done.
  destruct (children _ _) as [|[y n] l] eqn:E; [done|].
  assert ((y, n) ∈ children (tree d) (resolve d (payloadDir job))) as Hin by (rewrite E; left).
  apply children_elem in Hin. specialize (Hn y). unfold slot in Hn. congruence.
Qed.

(** ** A job through a container *)

(** No call of the disk changes the working directory. *)
Definition same_cwd : relation Disk := λ d d', cwd d' = cwd d.
#[local] Instance same_cwd_preorder : PreOrder same_cwd.
Proof. split; [done|]. unfold same_cwd. intros d1 d2 d3. congruence. Qed.

#[local] Instance cwd_fault : Keeps same_cwd next_fault.
Proof. intros d. unfold next_fault. by destruct (dfaults d) as [|[|k] l]. Qed.
#[local] Instance cwd_settle f : Keeps same_cwd (settle_fault f).
Proof. by destruct f. Qed.
#[local] Instance cwd_tree t : Keeps same_cwd (modify (E:=OsError) (set_tree t)).
Proof. done. Qed.
#[local] Instance cwd_MkdirAll p : Keeps same_cwd (os_MkdirAll p).
Proof. unfold os_MkdirAll. keeps_by fail. Qed.
#[local] Instance cwd_ReadDir p : Keeps same_cwd (os_ReadDir p).
Proof. unfold os_ReadDir. keeps_by fail. Qed.
#[local] Instance cwd_RemoveAll p : Keeps same_cwd (os_RemoveAll p).
Proof. unfold os_RemoveAll. keeps_by fail. Qed.
#[local] Instance cwd_WriteFile p data : Keeps same_cwd (os_WriteFile p data).
Proof. unfold os_WriteFile. keeps_by fail. Qed.
#[local] Instance cwd_Rename p q : Keeps same_cwd (os_Rename p q).
Proof. unfold os_Rename. keeps_by fail. Qed.
#[local] Instance cwd_Remove p : Keeps same_cwd (os_Remove p).
Proof. unfold os_Remove. keeps_by fail. Qed.

Section echo.
Context {D : Type} `{!Docker D}.
Implicit Types w : World D.

Definition world_cwd : relation (World D) := λ w w', cwd (disk w') = cwd (disk w).
#[local] Instance world_cwd_preorder : PreOrder world_cwd.
Proof. split; [done|]. unfold world_cwd. intros w1 w2 w3. congruence. Qed.

#[local] Instance cwd_on_disk {A} c (m : osio A) : Keeps same_cwd m → Keeps world_cwd (on_disk (D:=D) c m).
Proof. intros Hm w. unfold on_disk. specialize (Hm (disk w)). by destruct (m (disk w)) as [[]]. Qed.

#[local] Instance cwd_list_payload p : Keeps world_cwd (list_payload (D:=D) p).
Proof.
  intros w. unfold list_payload, on_disk. pose proof (keeps (m:=os_ReadDir p) (disk w)) as H.
  by destruct (os_ReadDir p (disk w)) as [[|[]|]].
Qed.

#[local] Instance cwd_finalize p q : Keeps world_cwd (finalize (D:=D) p q).
Proof.
  intros w. unfold finalize. pose proof (keeps (m:=on_disk (D:=D) "finalize payload" (os_Rename p q)) w) as H.
  destruct (on_disk _ _ w) as [[a|e|] w1]; [done| |done]. etrans; [exact H|]. apply (keeps (R:=world_cwd)).
Qed.

#[local] Instance cwd_clear_entry p e : Keeps world_cwd (clear_entry (D:=D) p e).
Proof. destruct e. apply _. Qed.

Lemma write_payload_cwd p j pl w r w' : write_payload p j pl w = (r, w') → world_cwd w w'.
Proof.
  assert (Keeps world_cwd (write_payload (D:=D) p j pl)) as Hk by (unfold write_payload; keeps_by fail).
  apply (keeps_run _ _).
Qed.

(** What [Init] mounts as the job directory of a container, and what the workload
    does there when it wakes up. *)
Definition mounted (c : Container) (w : World D) : path :=
  Abs (disk w) (Join [c_payloadLocation c; c_id c]).
Definition worker_tick (job : path) (w : World D) : World D :=
  set_disk (processAvailableJobs job (disk w)).2 w.

Lemma mounted_dirs c w d :
  cwd d = cwd (disk w) →
  resolve d (payloadDir (mounted c w)) = resolve d (Join [c_payloadLocation c; c_id c; "payload"]) ∧
  resolve d (resultsDir (mounted c w)) = resolve d (results_path c).
Proof.
  intros Hc. assert (plain "payload" ∧ plain "results") as [P1 P2]
    by (split; refine (bool_decide_unpack _ _); vm_compute; exact I).
  assert (resolve d (mounted c w) = resolve d (Join [c_payloadLocation c; c_id c])) as Hm
    by (change (resolve (disk w) (Join [c_payloadLocation c; c_id c]) = resolve d (Join [c_payloadLocation c; c_id c]));
        symmetry; by apply resolve_cwd).
  unfold payloadDir, resultsDir, results_path. split; rewrite resolve_sub, Hm by done.
  - symmetry. by apply (resolve_Join_snoc d [c_payloadLocation c; c_id c] "payload").
  - symmetry. by apply (resolve_Join_snoc d [c_payloadLocation c; c_id c] "results").
Qed.
(** A job that [AssignJob] has handed to a container whose channel is empty, on a
    disk that works; the container's directory of results holds no result. *)
Record handed (p : loc) (j : string) (pl : list byte) (c : Container) (w w1 : World D) : Prop := {
  hd_job : no_slash j;
  hd_names : tree_ok (tree (disk w));
  hd_cwd : Forall plain (cwd (disk w));
  hd_cont : conts w !! p = Some c;
  hd_channel : c_results c = [] ∧ c_closed c = false;
  hd_assign : AssignJob p j pl w = (Ok tt, w1);
  hd_disk : settled_disk (disk w1);
  hd_results : nothing_yet (mounted c w1) (disk w1)
}.

Lemma handed_payload p j pl c w w1 :
  handed p j pl c w w1 →
  holds_only (tree (disk w1)) (resolve (disk w1) (payloadDir (mounted c w1))) (job_file j ".json") pl.
Proof using.
  intros H. pose proof (hd_assign _ _ _ _ _ _ H) as E. apply AssignJob_spec in E as (c' & w2 & Hc & _ & _ & Hw & Hdk & _).
  rewrite (hd_cont _ _ _ _ _ _ H) in Hc. injection Hc as <-. pose proof (write_payload_cwd _ _ _ _ _ _ Hw) as Hcwd.
  unfold world_cwd in Hcwd.
  rewrite (proj1 (mounted_dirs c w1 (disk w1) eq_refl)), Hdk, (resolve_cwd (disk w)) by done.
  eapply write_payload_Ok; [apply H| |apply H|exact Hw]. by apply resolve_Join_plain, H.
Qed.

Lemma handed_buffers p j pl c w w1 : handed p j pl c w w1 → buffers p [] w1.
Proof using.
  intros H. pose proof (hd_assign _ _ _ _ _ _ H) as E. apply AssignJob_spec in E as (c' & w2 & Hc & _ & _ & _ & _ & Hcs).
  rewrite (hd_cont _ _ _ _ _ _ H) in Hc. injection Hc as <-. destruct (hd_channel _ _ _ _ _ _ H) as [H1 H2].
  eexists. rewrite Hcs, list_lookup_alter_eq, (hd_cont _ _ _ _ _ _ H). split; [done|]. by destruct c.
Qed.

Lemma job_file_name j : no_slash j → plain (job_file j ".json") ∧ HasSuffix (job_file j ".json") ".json" = true.
Proof using.
  intros Hj. split; [by apply job_file_plain|]. apply HasSuffix_spec. exists ("job-" +:+ j).
  unfold job_file. by rewrite append_assoc.
Qed.

Lemma omap_unique (x : string) raw es :
  NoDup es.*1 → (x, Reg raw) ∈ es → result_name x = true →
  (∀ y n, (y, n) ∈ es → y = x ∨ result_name y = false) → omap content es = [raw].
Proof using.
  intros Hnd Hin Hx. assert (∀ l, (∀ y n, (y, n) ∈ l → result_name y = false) → omap content l = []) as Hno.
  { induction l as [|[y n] l IH]; intros Hl; [done|]. cbn [omap list_omap].
    assert (content (y, n) = None) as ->.
    { unfold content, is_result. cbn [fst snd]. specialize (Hl y n ltac:(left)). unfold result_name in Hl.
      rewrite Hl. by destruct n. }
    apply IH. intros z m Hz. apply (Hl z m). by right. }
  induction es as [|[y n] es IH]; intros Hes; [by apply not_elem_of_nil in Hin|].
  apply NoDup_cons in Hnd as [Hy Hnd]. cbn [fst] in Hy. cbn [omap list_omap].
  apply elem_of_cons in Hin as [[= <- <-]|Hin].
  - assert (content (x, Reg raw) = Some raw) as ->.
    { unfold content, is_result. cbn [fst snd]. unfold result_name in Hx. by rewrite Hx. }
    f_equal. apply Hno. intros z m Hz. destruct (Hes z m) as [->|?]; [by right| |done].
    exfalso. apply Hy. by apply (list_elem_of_fmap_2' fst _ (x, m)).
  - assert (content (y, n) = None) as ->.
    { unfold content, is_result. cbn [fst snd]. destruct (Hes y n ltac:(left)) as [->|Hf].
      - exfalso. apply Hy. by apply (list_elem_of_fmap_2' fst _ (x, Reg raw)).
      - unfold result_name in Hf. rewrite Hf. by destruct n. }
    apply IH; [done..|]. intros z m Hz. apply (Hes z m). by right.
Qed.
Section job.
Context (p : loc) (j : string) (pl : list byte) (c : Container) (w w1 : World D).
Context (H : handed p j pl c w w1).
Abbreviation job := (mounted c w1).
Abbreviation d := (disk w1).
Abbreviation x := (job_file j ".json").

Lemma results_dir_kept t :
  tree_ok t → lookup_node t (resolve d (results_path c)) = Some Dir →
  results_dir (results_path c) (children t (resolve d (results_path c))) (set_disk (set_tree t d) w1).
Proof using H. intros Hn Hr. split; [apply (hd_disk _ _ _ _ _ _ H) | done..]. Qed.

Lemma results_dir_there :
  lookup_node (tree d) (resolve d (results_path c)) = Some Dir.
Proof using H.
  rewrite <- (proj2 (mounted_dirs c w1 d eq_refl)). apply (hd_results _ _ _ _ _ _ H).
Qed.

(** The worker's answer, as the collector finds it. *)
Lemma mirrored_results :
  let t := mirrored_tree job d x pl in
  results_dir (results_path c) (children t (resolve d (results_path c))) (set_disk (set_tree t d) w1) ∧
  omap content (children t (resolve d (results_path c))) = [pl].
Proof using H.
  intros t. destruct (job_file_name j (hd_job _ _ _ _ _ _ H)) as [Hx Hjs].
  pose proof (proj2 (mounted_dirs c w1 d eq_refl)) as Hk.
  assert (∀ q, t !! q = _) as Ht by (intros q; apply (mirrored_lookup job d x pl Hjs)).
  assert (∀ a, t !! (resolve d (resultsDir job) ++ [a]) =
    if decide (a = x) then Some (Reg pl) else if decide (a = x +:+ ".tmp") then None
    else tree d !! (resolve d (resultsDir job) ++ [a])) as Hs.
  { intros a. rewrite Ht, decide_False by (intros Heq; symmetry in Heq; by apply dirs_differ in Heq).
    repeat case_decide; simplify_list_eq; done. }
  split.
  - apply results_dir_kept.
    + by apply mirrored_names; [apply H|..].
    + rewrite <- Hk. apply mirrored_results_dir; [done|]. apply (hd_results _ _ _ _ _ _ H).
  - rewrite <- Hk. apply (omap_unique x); [apply children_names| |by apply result_name_json|].
    + apply elem_of_children. rewrite Hs. by rewrite decide_True.
    + intros y n Hin%children_elem. rewrite Hs in Hin. case_decide as Hy; [by left|]. right.
      case_decide; [done|]. by apply (hd_results _ _ _ _ _ _ H) in Hin as [? _].
Qed.

Lemma worker_mirrors :
  unmarshal_map pl = true →
  worker_tick job w1 = set_disk (set_tree (mirrored_tree job d x pl) d) w1.
Proof using H.
  intros Hu. destruct (job_file_name j (hd_job _ _ _ _ _ _ H)) as [Hx Hjs]. unfold worker_tick.
  erewrite mirror_accepted; [done|apply H|apply H|done|done|by eapply handed_payload|done].
Qed.

Lemma worker_refuses :
  unmarshal_map pl = false → worker_tick job w1 = set_disk (set_tree (refused_tree job d x) d) w1.
Proof using H.
  intros Hu. destruct (job_file_name j (hd_job _ _ _ _ _ _ H)) as [Hx Hjs]. unfold worker_tick.
  erewrite mirror_refused; [done|apply H|done|done|by eapply handed_payload|done].
Qed.

Abbreviation mirrored := (set_disk (set_tree (mirrored_tree job d x pl) d) w1).
Abbreviation refused := (set_disk (set_tree (refused_tree job d x) d) w1).

(** Nothing is left of the payload. *)
Lemma mirrored_payloads a : mirrored_tree job d x pl !! (resolve d (payloadDir job) ++ [a]) = None.
Proof using H.
  destruct (job_file_name j (hd_job _ _ _ _ _ _ H)) as [_ Hjs]. rewrite mirrored_lookup by done.
  case_decide as Ha; [done|]. rewrite !decide_False by (intros Heq; by apply dirs_differ in Heq).
  destruct (tree d !! _) eqn:E; [|done]. apply (handed_payload _ _ _ _ _ _ H) in E as [-> _]. done.
Qed.

Lemma refused_payloads a : slot (disk refused) (payloadDir job) a = None.
Proof using H.
  change (refused_tree job d x !! (resolve d (payloadDir job) ++ [a]) = None). unfold refused_tree.
  destruct (delete _ _ !! _) eqn:E; [|done]. apply lookup_delete_Some in E as [Hne E].
  apply (handed_payload _ _ _ _ _ _ H) in E as [-> _]. done.
Qed.

(** The only result is the echo. *)
Lemma mirrored_result a n :
  mirrored_tree job d x pl !! (resolve d (resultsDir job) ++ [a]) = Some n →
  a = x ∧ n = Reg pl ∨ result_name a = false.
Proof using H.
  destruct (job_file_name j (hd_job _ _ _ _ _ _ H)) as [_ Hjs]. rewrite mirrored_lookup by done.
  rewrite decide_False by (intros Heq; symmetry in Heq; by apply dirs_differ in Heq).
  case_decide as Ha.
  - apply app_inj_2 in Ha as [_ [= ->]]; [|done]. intros [= <-]. by left.
  - case_decide; [done|]. intros Hn. right. by apply (hd_results _ _ _ _ _ _ H) in Hn as [? _].
Qed.

(** The worker finds nothing more to do. *)
Lemma refused_idle : worker_tick job refused = refused.
Proof using H.
  unfold worker_tick. rewrite worker_idle; [done|apply (hd_disk _ _ _ _ _ _ H)| |apply refused_payloads].
  change (lookup_node (refused_tree job d x) (resolve d (payloadDir job)) = Some Dir). unfold refused_tree.
  pose proof (payload_dir job d x pl (hd_disk _ _ _ _ _ _ H) (handed_payload _ _ _ _ _ _ H)) as Hpd.
  destruct (resolve d (payloadDir job)) as [|b l] eqn:E; [done|]. cbn [lookup_node] in *.
  rewrite lookup_delete_ne; [done|]. intros Heq. apply (f_equal length) in Heq.
  rewrite length_app in Heq. cbn in Heq. lia.
Qed.

Lemma refused_results :
  let es := children (tree (disk refused)) (resolve (disk refused) (results_path c)) in
  results_dir (results_path c) es refused ∧ Forall (λ e, result_name e.1 = false) es.
Proof using H.
  pose proof (proj2 (mounted_dirs c w1 d eq_refl)) as Hk. destruct (hd_results _ _ _ _ _ _ H) as [Hrd Hre].
  split.
  - apply results_dir_kept.
    + intros q a n Hq. unfold refused_tree in Hq. apply lookup_delete_Some in Hq as [_ Hq].
      by eapply (sk_names _ (hd_disk _ _ _ _ _ _ H)).
    + change (lookup_node (refused_tree job d x) (resolve d (results_path c)) = Some Dir).
      rewrite <- Hk. by apply refused_results_dir.
  - apply Forall_forall. intros [a n] Hin%children_elem.
    change (refused_tree job d x !! (resolve d (results_path c) ++ [a]) = Some n) in Hin.
    unfold refused_tree in Hin. apply lookup_delete_Some in Hin as [_ Hin]. rewrite <- Hk in Hin.
    by apply Hre in Hin as [? _].
Qed.
End job.

(** ** Ticks without work *)

Lemma take_nothing p dir es (v : World D) :
  Forall (λ e, result_name e.1 = false) es → take_results [] p dir es v = Some (Ok tt, v).
Proof using.
  induction 1 as [|[y n] es Hy _ IH]; [done|]. cbn [take_results].
  assert (is_result (y, n) = false) as ->; [|exact IH].
  unfold is_result. cbn [fst snd] in *. unfold result_name in Hy. rewrite Hy. by destruct n.
Qed.

Lemma idle_ticks (f : World D → World D) p dir k v :
  f v = v → results_dir dir (children (tree (disk v)) (resolve (disk v) dir)) v →
  Forall (λ e, result_name e.1 = false) (children (tree (disk v)) (resolve (disk v) dir)) →
  monitorForResults (replicate k (Tick f []) ++ [CtxDone]) p dir v = Some (Ok tt, v).
Proof using.
  intros Hf Hd Hn. induction k as [|k IH]; [done|]. cbn [replicate app monitorForResults].
  rewrite Hf, (monitor_tick_listing _ _ _ _ _ Hd), take_nothing by done. exact IH.
Qed.
End echo.

(** C18: a job goes round. [AssignJob] has put the payload of a job into the directory
    of a container, on a disk that works. The next tick of the workload and of the
    collector of results, and the wait for the result of the job returns exactly the
    payload - when it is one that a map can be decoded from; nothing is left in the
    container's directories of payloads and results. *)
Theorem job_echoed {D} `{!Docker D} p j pl c (w w1 : World D) events :
  handed p j pl c w w1 → unmarshal_map pl = true →
  let job := mounted c w1 in
  ∃ w2 w3, monitorForResults (Tick (worker_tick job) [λ w, w] :: events) p (results_path c) w1 =
      monitorForResults events p (results_path c) w2 ∧
    WaitForJobResult (λ w, w) false p w2 = Some (pl, w3) ∧ disk w3 = disk w2 ∧
    (∀ x, slot (disk w3) (payloadDir job) x = None) ∧
    (∀ x n, slot (disk w3) (resultsDir job) x = Some n → result_name x = false).
Proof.
  intros H Hu. cbv zeta. destruct (mirrored_results p j pl c w w1 H) as [Hd Ho].
  pose proof (handed_buffers _ _ _ _ _ _ H) as Hb. pose proof (worker_mirrors p j pl c w w1 H Hu) as Hw.
  destruct (job_file_name j (hd_job _ _ _ _ _ _ H)) as [Hx Hjs].
  set (job := mounted c w1) in *. set (d := disk w1) in *. set (x := job_file j ".json") in *.
  destruct (monitor_delivers p (results_path c) _ (worker_tick job) [λ w, w] events [] w1
    ltac:(rewrite Hw; exact Hd) ltac:(rewrite Hw; exact Hb)) as (w2 & Hm & (c2 & Hc2 & Hr2 & _) & Ht).
  - intros e b He Hc. assert (b ∈ omap content (children (mirrored_tree job d x pl) (resolve d (results_path c)))) as Hin
      by (apply list_elem_of_omap; by exists e).
    rewrite Ho in Hin. apply list_elem_of_singleton in Hin as ->. revert Hu. unfold unmarshal_map.
    by destruct (parse_json pl).
  - rewrite Ho. split; [by intros ? ?|done].
  - rewrite Ho in Hr2. cbn in Hr2. eexists w2, _. split; [exact Hm|].
    split; [unfold WaitForJobResult, receive; by rewrite Hc2, Hr2|]. split; [done|].
    cbn [disk set_conts]. unfold slot.
    assert (∀ d' dir, dir = payloadDir job ∨ dir = resultsDir job → resolve d' dir = resolve d dir) as Hres
      by (intros d' dir [-> | ->]; done).
    assert (∀ q, tree (disk w2) !! q = if decide (Exists (λ e, is_result e = true ∧
      q = resolve d (results_path c) ++ [e.1])
      (children (mirrored_tree job d x pl) (resolve d (results_path c)))) then None
      else mirrored_tree job d x pl !! q) as Ht2 by (intros q; rewrite Ht, Hw; done).
    split.
    + intros a. rewrite Hres by by left. rewrite Ht2. case_decide; [done|]. by apply (mirrored_payloads p j pl c w w1 H).
    + intros a n. rewrite Hres by by right. rewrite Ht2. case_decide as He; [done|].
      intros Hin. destruct (mirrored_result p j pl c w w1 H a n Hin) as [[-> ->]|?]; [|done].
      exfalso. apply He, Exists_exists. exists (x, Reg pl).
      rewrite <- (proj2 (mounted_dirs c w1 d eq_refl) : resolve d (resultsDir job) = _).
      split; [by apply elem_of_children|]. split; [|done].
      unfold is_result. cbn [fst snd]. apply result_name_json in Hjs. exact Hjs.
Qed.

(** C35: a payload that is no object is never answered. When it cannot be decoded
    into a map - an array, a number, an object with a number beyond the floats -
    the workload removes it and keeps quiet. However often workload and collector
    wake up, the directory of payloads stays empty and the wait for the result of
    the job goes on, while the container stays occupied by it. *)
Theorem refused_never_answered {D} `{!Docker D} p j pl c (w w1 : World D) k :
  handed p j pl c w w1 → unmarshal_map pl = false →
  let job := mounted c w1 in
  ∃ w2, monitorForResults (replicate (S k) (Tick (worker_tick job) []) ++ [CtxDone]) p (results_path c) w1 =
      Some (Ok tt, w2) ∧
    WaitForJobResult (λ w, w) false p w2 = None ∧
    (∀ x, slot (disk w2) (payloadDir job) x = None) ∧
    ∃ c', conts w2 !! p = Some c' ∧ c_state c' = Running ∧ c_assignedJobID c' = j.
Proof.
  intros H Hu. cbv zeta. pose proof (handed_buffers _ _ _ _ _ _ H) as (c1 & Hc1 & Hr1 & Hcl1).
  destruct (refused_results p j pl c w w1 H) as [Hd Hno].
  pose proof (refused_idle p j pl c w w1 H) as Hidle.
  eexists. split_and!.
  - cbn [replicate app monitorForResults]. rewrite (worker_refuses p j pl c w w1 H Hu).
    rewrite (monitor_tick_listing _ _ _ _ _ Hd), take_nothing by done. by apply idle_ticks.
  - unfold WaitForJobResult, receive. cbn [conts set_disk]. by rewrite Hc1, Hr1, Hcl1.
  - by apply (refused_payloads p j pl c w w1 H).
  - pose proof (hd_assign _ _ _ _ _ _ H) as (c' & w' & Hc' & _ & _ & _ & _ & Hcs)%AssignJob_spec.
    eexists. cbn [conts set_disk]. rewrite Hcs, list_lookup_alter_eq, Hc'. split; [done|]. by destruct c'.
Qed.

(** ** Witnesses *)

Lemma nothing_yet_empty job d :
  lookup_node (tree d) (resolve d (resultsDir job)) = Some Dir →
  children (tree d) (resolve d (resultsDir job)) = [] → nothing_yet job d.
Proof.
  intros H1 H2. split; [done|]. intros x n Hn. apply elem_of_children in Hn. rewrite H2 in Hn.
  by apply not_elem_of_nil in Hn.
Qed.

(** The directories that [Init] makes. *)
Definition job_tree : gmap (list string) node :=
  list_to_map ((λ k, (k, Dir)) <$> [["srv"]; ["srv"; "jobs"]; ["srv"; "jobs"; "con_a"];
    ["srv"; "jobs"; "con_a"; "payload"]; ["srv"; "jobs"; "con_a"; "results"]]).

Definition job_world (faults : list fault) : World Toy :=
  set_disk (mkDisk job_tree ["srv"] faults) run_world.

Definition assigned (pl : list byte) : World Toy := (AssignJob 0%nat "a" pl (job_world [])).2.

Lemma assigned_handed pl :
  bool_decide (dfaults (disk (assigned pl)) = []) && bool_decide (well_formed (tree (disk (assigned pl)))) = true →
  is_ok (AssignJob 0%nat "a" pl (job_world [])).1 = true →
  let job := mounted run_container (assigned pl) in
  let d := disk (assigned pl) in
  lookup_node (tree d) (resolve d (resultsDir job)) = Some Dir →
  children (tree d) (resolve d (resultsDir job)) = [] →
  handed 0%nat "a" pl run_container (job_world []) (assigned pl).
Proof.
  intros Hb Ha job d H1 H2. apply andb_true_iff in Hb as [Hf Hw].
  apply bool_decide_eq_true_1 in Hf, Hw. apply well_formed_ok in Hw as [Hn Hc].
  apply Build_handed.
  - vm_compute. reflexivity.
  - apply (proj1 (well_formed_ok job_tree ltac:(refine (bool_decide_unpack _ _); vm_compute; exact I))).
  - refine (bool_decide_unpack _ _). vm_compute. exact I.
  - reflexivity.
  - split; reflexivity.
  - unfold assigned in *. destruct (AssignJob 0%nat "a" pl (job_world [])) as [[[]|e|] w1]; [reflexivity|discriminate..].
  - split; assumption.
  - apply nothing_yet_empty; assumption.
Qed.

Lemma job_echoed_witness : ∃ w2 w3,
  monitorForResults [Tick (worker_tick (mounted run_container (assigned (text "{'n': 4}")))) [λ w, w]; CtxDone]
    0%nat (results_path run_container) (assigned (text "{'n': 4}")) = Some (Ok tt, w2) ∧
  WaitForJobResult (λ w, w) false 0%nat w2 = Some (text "{'n': 4}", w3).
Proof.
  destruct (job_echoed 0%nat "a" (text "{'n': 4}") run_container (job_world []) (assigned (text "{'n': 4}"))
    [CtxDone]) as (w2 & w3 & H1 & H2 & _).
  - apply assigned_handed; vm_compute; reflexivity.
  - vm_compute. reflexivity.
  - exists w2, w3. split; [exact H1 | exact H2].
Defined.

Lemma refused_never_answered_witness : ∃ w2,
  monitorForResults (replicate 4 (Tick (worker_tick (mounted run_container (assigned (text "[1]")))) []) ++ [CtxDone])
    0%nat (results_path run_container) (assigned (text "[1]")) = Some (Ok tt, w2) ∧
  WaitForJobResult (λ w, w) false 0%nat w2 = None.
Proof.
  destruct (refused_never_answered 0%nat "a" (text "[1]") run_container (job_world []) (assigned (text "[1]")) 3)
    as (w2 & H1 & H2 & _).
  - apply assigned_handed; vm_compute; reflexivity.
  - vm_compute. reflexivity.
  - exists w2. split; [exact H1 | exact H2].
Defined.

(** The write of the result stops after three bytes. *)
Definition torn_disk : Disk :=
  mkDisk (<[["job"; "payload"; "job-a.json"] := Reg (text "{'n': 4}")]>
    (list_to_map ((λ k, (k, Dir)) <$> [["job"]; ["job"; "payload"]; ["job"; "results"]]))) []
    [NoFault; NoFault; NoFault; FailAfter 3].

Lemma results_whole_witness :
  slot (processAvailableJobs (Clean "/job") torn_disk).2 (resultsDir (Clean "/job")) "job-a.json.tmp" =
    Some (Reg (take 3 (text "{'n': 4}"))) ∧
  ∀ n, slot (processAvailableJobs (Clean "/job") (set_tree (tree torn_disk) (mkDisk ∅ [] []))).2
         (resultsDir (Clean "/job")) "job-a.json" = Some n →
  slot torn_disk (resultsDir (Clean "/job")) "job-a.json" = Some n ∨
  ∃ c, n = Reg c ∧ slot torn_disk (payloadDir (Clean "/job")) "job-a.json" = Some (Reg c) ∧ unmarshal_map c = true.
Proof.
  split; [vm_compute; reflexivity|]. intros n.
  apply (results_whole (Clean "/job") (set_tree (tree torn_disk) (mkDisk ∅ [] [])) "job-a.json").
  - apply (proj1 (well_formed_ok (tree torn_disk) ltac:(refine (bool_decide_unpack _ _); vm_compute; exact I))).
  - vm_compute. reflexivity.
Defined.
