(* ===== verification/TestClient.v ===== *)
(** * The test client of the consensus group

    [cmd/consensus_test/main.go]: a client that submits jobs to the node it was
    given, follows the leader's address and counts the jobs it got through. The
    nodes answer as [RaftClient.v] says. *)

From Stdlib Require Import Strings.Byte Strings.String.
From S2P Require Import Prelude.
From S2P Require Import Bytes.
From S2P Require Import Json.
From S2P Require Import JsonTheory.
From S2P Require Import Models.
From S2P Require Import Fs.
From S2P Require Import JsonEncode.
From S2P Require Import JsonCompact.
From S2P Require Import Payloads.
From S2P Require Import RaftState.
From S2P Require Import RaftNode.
From S2P Require Import RaftClient.

(** ** The client and what it sends *)

(** src/cmd/consensus_test/main.go:19-23 (Client)

    The connection and the stub over it are an index into the connections that
    were dialled. *)
Record Client := mkClient { conn : option nat; grpcClient : nat; address : string }.

(** src/api/proto/consensus/v1/consensus.proto:47-54 (AppendResponseStatus, the numbers) *)
Definition status_number (s : AppendResponseStatus) : Z :=
  match s with
  | SUCCESS => 0 | BAD_PAYLOAD => 1 | BAD_ORIGIN_ID => 2
  | NEEDS_SNAPSHOT => 3 | FAILED_CONSENSUS => 4 | CONCURRENT_CLAIM => 5
  end.

(** The errors of [SendJob]. *)
Inductive send_error :=
| MarshalFailed | NetworkError | UnsupportedStatus (status : Z) | AttemptsExhausted.

(** src/cmd/consensus_test/main.go:141-146 (main, jobsToSend) *)
Record test_job := mkTestJob { tj_ID : string; tj_Image : string; tj_Priority : Z; tj_Command : string }.

(** src/cmd/consensus_test/main.go:48-67 (SendJob, the payload)

    Marshalling a map of strings cannot fail. *)
Definition job_payload (j : test_job) : option (list byte) :=
  let rawTask := encode_struct [("command"%string, encode_text (tj_Command j))] in
  marshal_job (mkJobPayload (tj_ID j) Pending (tj_Image j) (tj_Priority j) 250 100 rawTask).

(** src/cmd/consensus_test/main.go:69-74 (SendJob, the request) *)
Definition job_request (now : Z) (j : test_job) (payload : list byte) : RawAppendRequest :=
  mkRawAppendRequest "consensus-test-client"
    ("req-" +:+ tj_ID j +:+ "-" +:+ string_of_list_byte (sprint_int now))
    "test-client-scheduler-example" payload.

Section client.
(** The world of the nodes; which addresses [grpc.NewClient] accepts; and a
    call of [ClientAppend] at an address, without an answer where it fails. *)
Context {W : Type} (dials : string → bool)
  (call : string → RawAppendRequest → W → option AppendResponse * W).

(** The connections dialled so far, with whether each is open, and the nodes. *)
Record net := mkNet { dialled : list (string * bool); nodes : W }.

(** src/cmd/consensus_test/main.go:26-37 (NewClient) *)
Definition NewClient (addr : string) (t : net) : option Client * net :=
  if dials addr
  then (Some (mkClient (Some (length (dialled t))) (length (dialled t)) addr),
        mkNet (dialled t ++ [(addr, true)]) (nodes t))
  else (None, t).

(** src/cmd/consensus_test/main.go:40-44 (Close) *)
Definition Close (c : Client) (t : net) : net :=
  match conn c with
  | Some k => mkNet (alter (λ '(a, _), (a, false)) k (dialled t)) (nodes t)
  | None => t
  end.

(** A call over a connection reaches the address it was dialled to, if it is open. *)
Definition invoke (c : Client) (req : RawAppendRequest) (t : net) : option AppendResponse * net :=
  match dialled t !! grpcClient c with
  | Some (addr, true) => let '(r, w) := call addr req (nodes t) in (r, mkNet (dialled t) w)
  | _ => (None, t)
  end.

(** src/cmd/consensus_test/main.go:95-118 (SendJob, redirected) *)
Definition redirect (leader : string) (c : Client) (t : net) : Client * net :=
  if bool_decide (leader = EmptyString) then (c, t) else
  match NewClient leader t with
  | (None, t) => (c, t)
  | (Some newClient, t) =>
      let t := Close c t in
      (mkClient (conn newClient) (grpcClient newClient) (address newClient), t)
  end.

(** src/cmd/consensus_test/main.go:76-126 (SendJob, the attempts) *)
Fixpoint attempts (tries : nat) (req : RawAppendRequest) (c : Client) (t : net)
    : option send_error * Client * net :=
  match tries with
  | O => (Some AttemptsExhausted, c, t)
  | S tries =>
      match invoke c req t with
      | (None, t) => (Some NetworkError, c, t)
      | (Some resp, t) =>
          let status := status_number (AStatus resp) in
          if status =? 1 then (None, c, t)
          else if status =? 2 then
            let '(c, t) := redirect (LeaderAddress resp) c t in attempts tries req c t
          else (Some (UnsupportedStatus status), c, t)
      end
  end.

Definition maxRetries : nat := 3.

(** src/cmd/consensus_test/main.go:47-127 (SendJob) *)
Definition SendJob (now : Z) (j : test_job) (c : Client) (t : net) : option send_error * Client * net :=
  match job_payload j with
  | None => (Some MarshalFailed, c, t)
  | Some payload => attempts maxRetries (job_request now j payload) c t
  end.

(** src/cmd/consensus_test/main.go:158-168 (main, the batch)

    Each job with the time at which it is sent. *)
Fixpoint dispatch (jobs : list (Z * test_job)) (sent : nat) (c : Client) (t : net) : nat * Client * net :=
  match jobs with
  | [] => (sent, c, t)
  | (now, j) :: jobs =>
      let '(e, c, t) := SendJob now j c t in
      dispatch jobs (match e with None => S sent | Some _ => sent end) c t
  end.

(** src/cmd/consensus_test/main.go:129-172 (main)

    The number of jobs reported as dispatched; [None] when the first node cannot be dialled. *)
Definition main (targetNode : string) (jobs : list (Z * test_job)) (t : net) : option nat * net :=
  match NewClient targetNode t with
  | (None, t) => (None, t)
  | (Some client, t) =>
      let '(sent, client, t) := dispatch jobs 0 client t in (Some sent, Close client t)
  end.
End client.

(** src/cmd/consensus_test/main.go:146-151 (main, the jobs) *)
Definition jobsToSend : list test_job :=
  [mkTestJob "job-001" "ubuntu:latest" 3 "echo 'Initializing Kubernetes Engine'";
   mkTestJob "job-002" "golang:1.22-alpine" 5 "go test -v ./...";
   mkTestJob "job-003" "redis:alpine" 1 "redis-server --protected-mode no";
   mkTestJob "job-004" "nginx:latest" 2 "nginx -g 'daemon off;'"].

(** ** Every job can be marshalled *)

Lemma any_text_field_ok d k s :
  valid_utf8 (list_byte_of_string k) → ∃ v, field_ok d (k, encode_text s, v).
Proof.
  intros Hk. eexists. split; [done|]. intros x _. cbn [fst snd].
  destruct (encode_string_reads (list_byte_of_string s) x) as (q & Hq & Hstr).
  unfold encode_text. rewrite Hq. split; [by eapply rd_string|done].
Qed.

Lemma job_payload_total j : is_Some (job_payload j).
Proof.
  destruct (any_text_field_ok (pred maxNestingDepth) "command" (tj_Command j)
    ltac:(by vm_compute)) as [v Hv].
  unfold job_payload, marshal_job. cbn [jp_Payload].
  assert (is_Some (encode_raw (encode_struct [("command"%string, encode_text (tj_Command j))])))
    as [p ->]; [|by eexists].
  unfold encode_raw, compact.
  pose proof (encode_struct_parses [("command"%string, encode_text (tj_Command j), v)]) as Hparse.
  cbn [fmap list_fmap fst] in Hparse. rewrite Hparse by (done || by apply Forall_singleton).
  by eexists.
Qed.

(** ** The client against the nodes *)

Section group.
(** What a node does while an append waits, as in [ClientAppend], and which
    answers do not arrive in time. *)
Context (dials : string → bool) (before after : RawAppendRequest → Node → Node)
  (lost : RawAppendRequest → bool).

Definition serve (addr : string) (req : RawAppendRequest) (w : gmap string Node)
    : option AppendResponse * gmap string Node :=
  match w !! addr with
  | None => (None, w)
  | Some n =>
      let '(r, n) := ClientAppend (before req) (after req) req n in
      (if lost req then None else r, <[addr := n]> w)
  end.

(** The answers of one node to the jobs, in their order. *)
Fixpoint answers (addr : string) (jobs : list (Z * test_job)) (w : gmap string Node)
    : list (option AppendResponseStatus) * gmap string Node :=
  match jobs with
  | [] => ([], w)
  | (now, j) :: jobs =>
      let '(r, w) := serve addr (job_request now j (default [] (job_payload j))) w in
      let '(rs, w) := answers addr jobs w in ((AStatus <$> r) :: rs, w)
  end.

(** No answer to a client's append has the number the client redirects on. *)
Lemma serve_status addr req w r w' :
  serve addr req w = (Some r, w') → AStatus r ≠ BAD_ORIGIN_ID.
Proof using Type.
  unfold serve, ClientAppend, clientAppend_guard. intros H.
  repeat case_match; simplify_eq; try done;
    unfold clientAppend_answer; by repeat case_match.
Qed.

Definition told (s : option AppendResponseStatus) : option send_error :=
  match s with
  | None => Some NetworkError
  | Some BAD_PAYLOAD => None
  | Some s => Some (UnsupportedStatus (status_number s))
  end.

(** One attempt, whatever its answer. *)
Lemma SendJob_once now j c addr cs w :
  cs !! grpcClient c = Some (addr, true) →
  let '(r, w') := serve addr (job_request now j (default [] (job_payload j))) w in
  SendJob dials serve now j c (mkNet cs w) = (told (AStatus <$> r), c, mkNet cs w').
Proof using Type.
  intros Hc. destruct (job_payload_total j) as [p Hp]. unfold SendJob. rewrite Hp. change (default [] (Some p)) with p.
  destruct (serve _ _ _) as [r w'] eqn:Hs. unfold maxRetries. cbn [attempts].
  unfold invoke. cbn [dialled nodes]. rewrite Hc, Hs.
  destruct r as [r|]; [|done]. apply serve_status in Hs. cbn [fmap option_fmap option_map].
  by destruct (AStatus r).
Qed.

Definition refusals (rs : list (option AppendResponseStatus)) : nat :=
  length (filter (λ s, s = Some BAD_PAYLOAD) rs).

Lemma told_refusals s rs :
  refusals (s :: rs) = (match told s with None => S (refusals rs) | Some _ => refusals rs end).
Proof using Type. unfold refusals. rewrite filter_cons. by destruct s as [[]|]. Qed.

Lemma dispatch_answers jobs n c addr cs w :
  cs !! grpcClient c = Some (addr, true) →
  dispatch dials serve jobs n c (mkNet cs w) =
    ((n + refusals (answers addr jobs w).1)%nat, c, mkNet cs (answers addr jobs w).2).
Proof using Type.
  intros Hc. revert n w. induction jobs as [|[now j] jobs IH]; intros n w; cbn [dispatch answers].
  - by rewrite Nat.add_0_r.
  - pose proof (SendJob_once now j c addr cs w Hc) as H1.
    destruct (serve _ _ _) as [r w']. rewrite H1, IH.
    destruct (answers addr jobs w') as [rs w'']. cbn [fst snd]. rewrite told_refusals.
    destruct (told _); [done|]. by rewrite <- Nat.add_succ_comm.
Qed.

(** C40: the test client counts the refusals. Whatever the nodes do and whichever
    answers are lost, the number of jobs it reports as dispatched is the number
    of its appends that were answered by [BAD_PAYLOAD], the answer of a follower
    and of an undecided append; an append that was committed, [SUCCESS], counts
    as a failure. It never leaves the node it was given, whatever leader the
    answers name: it dials one connection, sends each job once, over this
    connection, and closes it. *)
Theorem main_counts_refusals targetNode jobs t :
  dials targetNode = true →
  main dials serve targetNode jobs t =
    (Some (refusals (answers targetNode jobs (nodes t)).1),
     mkNet (dialled t ++ [(targetNode, false)]) (answers targetNode jobs (nodes t)).2).
Proof using Type.
  intros Hd. unfold main, NewClient. rewrite Hd. erewrite dispatch_answers.
  - unfold Close. cbn [conn dialled nodes].
    rewrite alter_app_r_alt, Nat.sub_diag by lia. done.
  - cbn [grpcClient]. by rewrite list_lookup_middle.
Qed.
End group.

(** A leader that commits every entry and its follower. *)
Definition test_group : gmap string Node :=
  {[ "leader:1" := lone_leader; "follower:1" := set_state (set_role Follower (state lone_leader)) lone_leader ]}.
Definition commits (req : RawAppendRequest) (n : Node) : Node :=
  set_registry (Resolve (raw_RequestId req) true (reqRegistry n)) n.
Definition test_run (target : string) : option nat * net :=
  main (λ _, true) (serve (λ _ n, n) commits (λ _, false)) target
    ((λ j, (0, j)) <$> jobsToSend) (mkNet [] test_group).

Lemma main_counts_refusals_witness :
  (test_run "leader:1").1 = Some 0%nat ∧ (test_run "follower:1").1 = Some 4%nat ∧
  nodes (test_run "follower:1").2 = test_group.
Proof.
  unfold test_run. rewrite !main_counts_refusals by reflexivity.
  split_and!; vm_compute; reflexivity.
Defined.
