(* ===== verification/JobTest.v ===== *)
(** * The test of the schedulers

    [cmd/job_scheduling_test/main.go]: a program that submits jobs to a scheduler,
    polls all schedulers for completed jobs and collects each of them. Its
    goroutines share the two sets of ids and the counters; each uses them in steps
    of the map's and the counters' own operations, and the steps of all goroutines
    interleave in any order. *)

From Stdlib Require Import Strings.Byte Strings.String.
From S2P Require Import Prelude.
From S2P Require Import Bytes.
From S2P Require Import Json.
From S2P Require Import SchedService.

(** ** The state the goroutines share *)

(** src/cmd/job_scheduling_test/main.go:141-147 (main, the shared variables)

    [collecting] are the goroutines that ask for the status of a job and are not
    done: the index of the scheduler and the job's id. *)
Record Test := mkTest {
  activeJobIDs : gset string; totalSubmitted : Z; submitErrors : Z;
  cleanedUpJobs : gset string; totalCleanedUp : Z; totalFailed : Z;
  cumulativeCleanedUp : list Z; collecting : list (nat * string)
}.

Definition new_test (clients : nat) : Test := mkTest ∅ 0 0 ∅ 0 0 (replicate clients 0) [].

(** The payload, with its quotes inside a string. *)
Definition payload : list byte :=
  text "{'command': '" ++ list_byte_of_string "echo 'Hello from the test client!'" ++ text "'}".

(** src/cmd/job_scheduling_test/main.go:67-78 (main, the request) *)
Definition req : JobRequest :=
  mkJobRequest 250000000 104857600 (Some "go-echo-test"%string) (Some 1) (Some payload).

(** src/cmd/job_scheduling_test/main.go:102-122 (main, one submission)

    [None] is an error of the call. *)
Definition submitted (resp : option JobResponse) (d : Test) : Test :=
  match resp with
  | None =>
      mkTest (activeJobIDs d) (totalSubmitted d) (wrap32 (submitErrors d + 1)) (cleanedUpJobs d)
        (totalCleanedUp d) (totalFailed d) (cumulativeCleanedUp d) (collecting d)
  | Some resp =>
      if rs_Accept resp && negb (bool_decide (rs_JobId resp = EmptyString))
      then mkTest ({[rs_JobId resp]} ∪ activeJobIDs d) (wrap32 (totalSubmitted d + 1)) (submitErrors d)
             (cleanedUpJobs d) (totalCleanedUp d) (totalFailed d) (cumulativeCleanedUp d) (collecting d)
      else d
  end.

(** src/cmd/job_scheduling_test/main.go:137-138 (main, the ticker)

    The interval in nanoseconds; [None]: a division by zero, or a ticker that is
    not positive, which panics. *)
Definition tickerInterval (pollRate : Z) : option Z :=
  if pollRate =? 0 then None
  else let interval := Z.quot 1000000000 pollRate in if 0 <? interval then Some interval else None.

(** src/cmd/job_scheduling_test/main.go:153-155 (main, the end of the loop) *)
Definition finished (actualSubmitted : Z) (d : Test) : bool := actualSubmitted <=? totalCleanedUp d.

(** src/cmd/job_scheduling_test/main.go:188-192 (main, one completed job of a list) *)
Definition claim (idx : nat) (jobID : string) (d : Test) : Test :=
  if bool_decide (jobID ∈ activeJobIDs d) && negb (bool_decide (jobID ∈ cleanedUpJobs d))
  then mkTest (activeJobIDs d) (totalSubmitted d) (submitErrors d) ({[jobID]} ∪ cleanedUpJobs d)
         (totalCleanedUp d) (totalFailed d) (cumulativeCleanedUp d) ((idx, jobID) :: collecting d)
  else d.

(** src/cmd/job_scheduling_test/main.go:193-216 (main, the status of one job)

    [None] is an error of the call. *)
Definition collected (idx : nat) (jid : string) (statusResp : option JobStatusResponse) (d : Test) : Test :=
  let rest := filter (λ x, x ≠ (idx, jid)) (collecting d) in
  match statusResp with
  | None =>
      mkTest (activeJobIDs d) (totalSubmitted d) (submitErrors d) (cleanedUpJobs d ∖ {[jid]})
        (totalCleanedUp d) (totalFailed d) (cumulativeCleanedUp d) rest
  | Some r =>
      let failed := negb (bool_decide (default [] (st_Result r) = payload)) in
      mkTest (activeJobIDs d) (totalSubmitted d) (submitErrors d) (cleanedUpJobs d)
        (wrap32 (totalCleanedUp d + 1)) (totalFailed d + Z.b2z failed)
        (alter (λ n, wrap32 (n + 1)) idx (cumulativeCleanedUp d)) rest
  end.

(** ** Rows of the dashboard *)

(** src/cmd/job_scheduling_test/main.go:23-31 (schedStats) *)
Record schedStats := mkStats {
  addr : string; pending : Z; running : Z; completed : Z; cleanedUp : Z; total : Z; err : bool
}.

(** src/cmd/job_scheduling_test/main.go:170-182 (main, the row of a scheduler) *)
Definition stats (idx : nat) (a : string) (listResp : option JobList) (d : Test) : schedStats :=
  match listResp with
  | None => mkStats a 0 0 0 0 0 true
  | Some l =>
      mkStats a (Z.of_nat (length (PendingJobId l))) (Z.of_nat (length (RunningJobId l)))
        (Z.of_nat (length (CompletedJobId l))) (default 0 (cumulativeCleanedUp d !! idx)) (TotalJobs l) false
  end.

(** ** Any interleaving of the goroutines *)

Inductive poll_event :=
| Claims (idx : nat) (jid : string)
| Collects (idx : nat) (jid : string) (resp : option JobStatusResponse).

(** A goroutine runs for a scheduler that is connected, and collects what it has claimed. *)
Definition poll (d : Test) (e : poll_event) : option Test :=
  match e with
  | Claims idx jid =>
      if (idx <? length (cumulativeCleanedUp d))%nat then Some (claim idx jid d) else None
  | Collects idx jid resp =>
      if bool_decide ((idx, jid) ∈ collecting d) then Some (collected idx jid resp d) else None
  end.

Fixpoint polls (es : list poll_event) (d : Test) : option Test :=
  match es with
  | [] => Some d
  | e :: es => match poll d e with Some d => polls es d | None => None end
  end.

(** src/cmd/job_scheduling_test/main.go:160-223 (main, a step of the goroutines of a tick)

    Next to the shared state, for each scheduler the part of its list of completed
    jobs that its goroutine has not gone through. The goroutine claims the jobs of
    the list in turn; what it has claimed is collected at any later point. *)
Definition tick_step (s : Test * list (list string)) (e : poll_event) : option (Test * list (list string)) :=
  match e with
  | Claims idx jid =>
      match s.2 !! idx with
      | Some (j :: js) =>
          if bool_decide (j = jid) then (λ d, (d, <[idx := js]> s.2)) <$> poll s.1 e else None
      | _ => None
      end
  | Collects _ _ _ => (λ d, (d, s.2)) <$> poll s.1 e
  end.

Fixpoint tick_steps (es : list poll_event) (s : Test * list (list string)) : option (Test * list (list string)) :=
  match es with
  | [] => Some s
  | e :: es => match tick_step s e with Some s => tick_steps es s | None => None end
  end.

(** src/cmd/job_scheduling_test/main.go:165-187 (main, the lists of a tick)

    [None]: the call for the list failed, and the goroutine ends. *)
Definition todo (listed : list (option JobList)) : list (list string) :=
  (λ l, match l with Some l => CompletedJobId l | None => [] end) <$> listed.

(** src/cmd/job_scheduling_test/main.go:221-227 (main, the end of a tick)

    The wait for all goroutines is over. *)
Definition over (s : Test * list (list string)) : bool :=
  forallb (λ js, bool_decide (js = [])) s.2 && bool_decide (collecting s.1 = []).

(** ** The invariant *)

Definition accepted (resp : option JobResponse) : option string :=
  match resp with
  | Some r => if rs_Accept r && negb (bool_decide (rs_JobId r = EmptyString)) then Some (rs_JobId r) else None
  | None => None
  end.

Definition collects (e : poll_event) : option string :=
  match e with Collects _ jid (Some _) => Some jid | _ => None end.

(** The jobs [ids] were submitted, those of [got] have been collected. *)
Record test_ok (ids got : list string) (d : Test) : Prop := {
  to_ids : NoDup ids;
  to_small : Z.of_nat (length ids) < 2 ^ 31;
  to_active : activeJobIDs d = list_to_set ids;
  to_total : totalSubmitted d = Z.of_nat (length ids);
  to_once : NoDup (got ++ (collecting d).*2);
  to_cleaned : cleanedUpJobs d = list_to_set (got ++ (collecting d).*2);
  to_ours : got ++ (collecting d).*2 ⊆ ids;
  to_count : totalCleanedUp d = Z.of_nat (length got);
  to_nonneg : Forall (Z.le 0) (cumulativeCleanedUp d);
  to_sum : foldr Z.add 0 (cumulativeCleanedUp d) = Z.of_nat (length got);
  to_failed : 0 ≤ totalFailed d ≤ Z.of_nat (length got);
  to_clients : Forall (λ x, (x.1 < length (cumulativeCleanedUp d))%nat) (collecting d)
}.

Lemma wrap32_small z : 0 ≤ z < 2 ^ 31 → wrap32 z = z.
Proof. intros H. unfold wrap32. rewrite Z.mod_small; lia. Qed.

Lemma sum_replicate n : foldr Z.add 0 (replicate n 0) = 0.
Proof. induction n; simpl; lia. Qed.

Lemma sum_member l i x : Forall (Z.le 0) l → l !! i = Some x → 0 ≤ x ≤ foldr Z.add 0 l.
Proof.
  intros Hl. revert i. induction Hl as [|y l Hy Hl IH]; intros i Hi; [done|].
  assert (0 ≤ foldr Z.add 0 l) by (clear -Hl; induction Hl; simpl; lia).
  destruct i as [|i]; simplify_eq/=; [lia|]. apply IH in Hi. lia.
Qed.

Lemma sum_increment l i :
  Forall (Z.le 0) l → (i < length l)%nat → foldr Z.add 0 l < 2 ^ 31 - 1 →
  foldr Z.add 0 (alter (λ n, wrap32 (n + 1)) i l) = foldr Z.add 0 l + 1 ∧
  Forall (Z.le 0) (alter (λ n, wrap32 (n + 1)) i l).
Proof.
  intros Hl Hi Hs. apply lookup_lt_is_Some in Hi as [x Hx].
  pose proof (sum_member l i x Hl Hx).
  assert (wrap32 (x + 1) = x + 1) as Hw by (apply wrap32_small; lia).
  clear Hs. revert i Hx. induction Hl as [|y l Hy Hl IH]; intros i Hx; [done|].
  destruct i as [|i]; simplify_eq/=.
  - rewrite Hw. split; [lia|]. constructor; [lia|done].
  - assert (0 ≤ foldr Z.add 0 l) by (clear -Hl; induction Hl; simpl; lia).
    destruct (sum_member l i x Hl Hx).
    destruct (IH ltac:(lia) i Hx) as [-> ?]. split; [lia|by constructor].
Qed.

Lemma filter_keeps {A} (P : A → Prop) `{∀ x, Decision (P x)} l : Forall P l → filter P l = l.
Proof. induction 1; [done|]. rewrite filter_cons_True by done. by f_equal. Qed.

Lemma filter_out {A} `{EqDecision A} (x : A) l :
  NoDup l → x ∈ l → l ≡ₚ x :: filter (λ y, y ≠ x) l.
Proof.
  intros Hl [k Hk]%elem_of_Permutation. rewrite Hk in Hl |- *. apply NoDup_cons in Hl as [Hx _].
  rewrite filter_cons_False by (by intros ?). by rewrite filter_keeps by (apply Forall_forall; naive_solver).
Qed.

Lemma test_ok_start ids clients :
  NoDup ids → Z.of_nat (length ids) < 2 ^ 31 →
  test_ok ids [] (mkTest (list_to_set ids) (Z.of_nat (length ids)) 0 ∅ 0 0 (replicate clients 0) []).
Proof.
  intros. split; simpl; try done.
  all: (by constructor) || (by apply Forall_replicate) || (by apply sum_replicate) || set_solver.
Qed.

Lemma omap_length_le {A B} (f : A → option B) l : (length (omap f l) ≤ length l)%nat.
Proof.
  induction l as [|x l IH]; [done|].
  change (omap f (x :: l)) with (from_option (λ y, y :: omap f l) (omap f l) (f x)).
  destruct (f x); cbn [from_option length]; lia.
Qed.

(** The submissions. *)
Lemma submissions rs clients :
  NoDup (omap accepted rs) → Z.of_nat (length rs) < 2 ^ 31 →
  test_ok (omap accepted rs) [] (foldl (λ d r, submitted r d) (new_test clients) rs) ∧
  cumulativeCleanedUp (foldl (λ d r, submitted r d) (new_test clients) rs) = replicate clients 0.
Proof.
  induction rs as [|r rs IH] using rev_ind; intros Hn Hs.
  - split; [|done]. apply (test_ok_start [] clients); [constructor|done].
  - rewrite length_app in Hs. cbn [length] in Hs. rewrite omap_app in *.
    apply NoDup_app in Hn as (Hn & Hd & Hr). rewrite foldl_snoc.
    destruct IH as [IH Hc]; [done|lia|]. set (d := foldl _ _ rs) in *.
    destruct r as [r|]; cbn [omap list_omap accepted submitted] in *.
    2: { rewrite app_nil_r. split; [|done]. by destruct IH; split. }
    destruct (rs_Accept r && _) eqn:E; cbn [omap list_omap] in *; [|by rewrite app_nil_r].
    split; [|done]. pose proof (omap_length_le accepted rs) as Hlen. set (ids := omap accepted rs) in *.
    assert (rs_JobId r ∉ ids) as Hnew by (intros ?; eapply Hd; [done|left]).
    destruct IH. split; simpl; try done.
    + apply NoDup_app. split_and!; [done| |apply NoDup_singleton].
      intros x Hx ->%list_elem_of_singleton. done.
    + rewrite length_app. cbn [length]. lia.
    + rewrite to_active0. set_solver.
    + rewrite to_total0, length_app. cbn [length]. rewrite wrap32_small by lia. lia.
    + set_solver.
Qed.

(** The steps of the goroutines. *)
Lemma test_ok_claim ids got idx j d :
  test_ok ids got d → (idx < length (cumulativeCleanedUp d))%nat → test_ok ids got (claim idx j d).
Proof.
  intros H Hi. unfold claim. destruct (_ && _) eqn:E; [|done]. bool_to_prop.
  destruct H. split; simpl; try done.
  - rewrite <- Permutation_middle. apply NoDup_cons. split; [|done]. set_solver.
  - rewrite to_cleaned0. set_solver.
  - set_solver.
  - by constructor.
Qed.

Lemma test_ok_collected ids got idx j resp d :
  test_ok ids got d → (idx, j) ∈ collecting d →
  test_ok ids (match resp with Some _ => j :: got | None => got end) (collected idx j resp d).
Proof.
  intros H Hin. unfold collected. destruct H.
  assert (NoDup (collecting d)) as Hnd by (apply NoDup_app in to_once0 as (_ & _ & ?); by eapply NoDup_fmap_1).
  pose proof (filter_out (idx, j) _ Hnd Hin) as Hp.
  set (rest := filter _ (collecting d)) in *.
  assert (got ++ (collecting d).*2 ≡ₚ j :: got ++ rest.*2) as Hg
    by (rewrite Hp; cbn [fmap list_fmap snd]; by rewrite Permutation_middle).
  rewrite Hg in to_once0, to_ours0.
  assert (list_to_set (got ++ (collecting d).*2) =@{gset string} {[j]} ∪ list_to_set (got ++ rest.*2)) as Hset
    by (rewrite Hg; done).
  rewrite Hset in to_cleaned0.
  assert ((idx < length (cumulativeCleanedUp d))%nat) as Hi
    by (rewrite Forall_forall in to_clients0; by apply (to_clients0 (idx, j))).
  assert (length got < length ids)%nat as Hlen.
  { apply NoDup_submseteq, submseteq_length in to_ours0; [|done].
    cbn [length] in to_ours0. rewrite length_app in to_ours0. lia. }
  destruct resp as [r|].
  - destruct (sum_increment (cumulativeCleanedUp d) idx) as [Hsum Hnn]; [done..|lia|].
    split; cbn; try done.
    + rewrite to_count0, wrap32_small by lia. lia.
    + rewrite Hsum. lia.
    + destruct (negb _); cbn; lia.
    + rewrite length_alter. apply Forall_forall. intros x [_ Hx]%list_elem_of_filter.
      rewrite Forall_forall in to_clients0. by apply to_clients0.
  - split; cbn; try done.
    + by apply NoDup_cons in to_once0 as [_ ?].
    + rewrite to_cleaned0. apply NoDup_cons in to_once0 as [? _]. set_solver.
    + set_solver.
    + apply Forall_forall. intros x [_ Hx]%list_elem_of_filter.
      rewrite Forall_forall in to_clients0. by apply to_clients0.
Qed.

Lemma test_ok_polls ids es got d d' :
  test_ok ids got d → polls es d = Some d' →
  ∃ got', test_ok ids got' d' ∧ got' ≡ₚ omap collects es ++ got.
Proof.
  revert got d. induction es as [|e es IH]; intros got d H Hp; [simplify_eq/=; by eexists|].
  cbn [polls] in Hp. destruct (poll d e) as [d1|] eqn:He; [|done].
  destruct e as [idx j|idx j resp]; cbn [poll] in He; case_match eqn:Hc; simplify_eq; bool_to_prop.
  - eapply IH; [|done]. apply test_ok_claim; [done|by apply Nat.ltb_lt].
  - destruct (IH _ _ (test_ok_collected _ _ _ _ resp _ H Hc) Hp) as (got' & Hok & Hg).
    exists got'. split; [done|]. rewrite Hg. destruct resp; cbn; [|done]. by rewrite <- Permutation_middle.
Qed.

(** The loop ends exactly when everything has been collected. *)
Lemma finished_iff ids got d :
  test_ok ids got d → finished (totalSubmitted d) d = true ↔ got ≡ₚ ids.
Proof.
  intros H. destruct H. unfold finished. rewrite Z.leb_le, to_total0, to_count0. split.
  - intros Hle. apply NoDup_app in to_once0 as [? _].
    apply submseteq_length_Permutation; [|lia]. apply NoDup_submseteq; [done|].
    intros x Hx. apply to_ours0, elem_of_app. by left.
  - intros ->. lia.
Qed.

(** ** A whole tick *)

Lemma claim_clients idx j d : cumulativeCleanedUp (claim idx j d) = cumulativeCleanedUp d.
Proof. unfold claim. by case_match. Qed.

Lemma collected_clients idx j resp d :
  length (cumulativeCleanedUp (collected idx j resp d)) = length (cumulativeCleanedUp d).
Proof. destruct resp; cbn; [by rewrite length_alter|done]. Qed.

Lemma polls_clients es d d' :
  polls es d = Some d' → length (cumulativeCleanedUp d') = length (cumulativeCleanedUp d).
Proof.
  revert d. induction es as [|e es IH]; intros d Hp; [by simplify_eq/=|].
  cbn [polls] in Hp. destruct (poll d e) as [d1|] eqn:He; [|done]. rewrite (IH _ Hp).
  destruct e; cbn [poll] in He; case_match; simplify_eq; [by rewrite claim_clients|by rewrite collected_clients].
Qed.

Lemma claim_cleaned idx j d : cleanedUpJobs d ⊆ cleanedUpJobs (claim idx j d).
Proof. unfold claim. case_match; [cbn; set_solver | done]. Qed.

(** A job of the test that is claimed, now or by an earlier goroutine, counts as cleaned. *)
Lemma claim_claimed idx j d : j ∈ activeJobIDs d → j ∈ cleanedUpJobs (claim idx j d).
Proof.
  intros Hj. unfold claim. rewrite (bool_decide_eq_true_2 _ Hj). cbn.
  case_bool_decide; [done | cbn; set_solver].
Qed.

(** No call for a status fails. *)
Definition answered (e : poll_event) : Prop :=
  match e with Collects _ _ resp => is_Some resp | Claims _ _ => True end.

(** The work that a tick has left: two steps for a listed job, one for a claimed one. *)
Definition work (s : Test * list (list string)) : nat :=
  (2 * length (concat s.2) + length (collecting s.1))%nat.

Lemma tick_step_poll s e s' : tick_step s e = Some s' → poll s.1 e = Some s'.1.
Proof.
  unfold tick_step. destruct e as [idx jid|idx jid r].
  - destruct (s.2 !! idx) as [[|j js]|]; [done| |done]. case_bool_decide; [|done].
    by intros (d & -> & ->)%fmap_Some.
  - by intros (d & -> & ->)%fmap_Some.
Qed.

Lemma tick_steps_polls es : ∀ s s', tick_steps es s = Some s' → polls es s.1 = Some s'.1.
Proof.
  induction es as [|e es IH]; intros s s' H; [by simplify_eq/=|]. cbn [tick_steps polls] in *.
  destruct (tick_step s e) as [s1|] eqn:E; [|done]. apply tick_step_poll in E as ->. by apply IH.
Qed.

Lemma length_concat_insert {A} (l : list (list A)) i x xs :
  l !! i = Some (x :: xs) → length (concat l) = S (length (concat (<[i := xs]> l))).
Proof.
  revert i. induction l as [|y l IH]; intros [|i] H; simplify_eq/=; rewrite ?length_app; [done|].
  rewrite (IH _ H). lia.
Qed.

Lemma elem_of_concat_insert {A} (l : list (list A)) i x xs y :
  l !! i = Some (x :: xs) → y ∈ concat l → y = x ∨ y ∈ concat (<[i := xs]> l).
Proof.
  revert i. induction l as [|z l IH]; intros [|i] H Hy; simplify_eq/=.
  - by apply elem_of_cons in Hy.
  - rewrite elem_of_app in Hy |- *. destruct Hy as [Hy|Hy]; [tauto|]. destruct (IH _ H Hy); tauto.
Qed.

Lemma elem_of_concat {A} (l : list (list A)) x : x ∈ concat l ↔ ∃ y, y ∈ l ∧ x ∈ y.
Proof. rewrite list_elem_of_In, in_concat. by setoid_rewrite list_elem_of_In. Qed.

Lemma filter_shorter {A} (P : A → Prop) `{∀ x, Decision (P x)} l x :
  x ∈ l → ¬ P x → (length (filter P l) < length l)%nat.
Proof.
  induction l as [|y l IH]; intros Hx Hp; [by apply not_elem_of_nil in Hx|]. rewrite filter_cons.
  pose proof (length_filter P l) as Hl. apply elem_of_cons in Hx as [<-|Hx].
  - rewrite decide_False by done. cbn. lia.
  - specialize (IH Hx Hp). case_decide; cbn; lia.
Qed.

(** Every step of a tick has less left to do. *)
Lemma tick_step_work s e s' : tick_step s e = Some s' → (work s' < work s)%nat.
Proof.
  destruct s as [d td]. unfold tick_step, work. destruct e as [idx jid|idx jid r]; cbn [fst snd].
  - destruct (td !! idx) as [[|j js]|] eqn:Hi; [done| |done]. case_bool_decide; [|done].
    intros (d' & Hp & ->)%fmap_Some. rewrite (length_concat_insert _ _ _ _ Hi). cbn [poll fst snd] in *.
    destruct (_ <? _)%nat; [|done]. injection Hp as <-.
    unfold claim. case_match; cbn [collecting length]; lia.
  - intros (d' & Hp & ->)%fmap_Some. cbn [poll fst snd] in *. case_bool_decide as Hin; [|done].
    injection Hp as <-.
    assert ((length (filter (λ x, x ≠ (idx, jid)) (collecting d)) < length (collecting d))%nat)
      as Hl by (eapply filter_shorter; [exact Hin | by intros ?]).
    destruct r; cbn [collected collecting]; lia.
Qed.

Lemma tick_steps_work es : ∀ s s', tick_steps es s = Some s' → (length es + work s' ≤ work s)%nat.
Proof.
  induction es as [|e es IH]; intros s s' H; [by simplify_eq/=|]. cbn [tick_steps length] in *.
  destruct (tick_step s e) as [s1|] eqn:E; [|done]. apply tick_step_work in E. specialize (IH _ _ H). lia.
Qed.

(** Without failed calls no listed job of the test gets lost. *)
Definition in_hand (ids js : list string) (s : Test * list (list string)) : Prop :=
  activeJobIDs s.1 = list_to_set ids ∧
  ∀ j, j ∈ js → j ∈ ids → j ∈ cleanedUpJobs s.1 ∨ j ∈ concat s.2.

Lemma tick_step_in_hand ids js s e s' :
  answered e → in_hand ids js s → tick_step s e = Some s' → in_hand ids js s'.
Proof.
  destruct s as [d td]. intros He [Ha H]. unfold tick_step, in_hand.
  destruct e as [idx jid|idx jid r]; cbn [fst snd] in *.
  - destruct (td !! idx) as [[|k ks]|] eqn:Hi; [done| |done]. case_bool_decide as Hk; [subst k|done].
    intros (d' & Hp & ->)%fmap_Some. cbn [poll fst snd] in *.
    destruct (_ <? _)%nat; [|done]. injection Hp as <-. split.
    { unfold claim. by case_match. }
    intros j Hj Hids. destruct (H j Hj Hids) as [Hc|Hc]; [left; by apply claim_cleaned|].
    destruct (elem_of_concat_insert _ _ _ _ _ Hi Hc) as [->|?]; [left | by right].
    apply claim_claimed. rewrite Ha. by apply elem_of_list_to_set.
  - intros (d' & Hp & ->)%fmap_Some. cbn [poll fst snd] in *. case_bool_decide; [|done].
    injection Hp as <-. by destruct He as [r' ->].
Qed.

Lemma tick_steps_in_hand ids js es : ∀ s s',
  Forall answered es → in_hand ids js s → tick_steps es s = Some s' → in_hand ids js s'.
Proof.
  induction es as [|e es IH]; intros s s' He H Hs; [by simplify_eq/=|]. cbn [tick_steps] in Hs.
  apply Forall_cons in He as [He Hes]. destruct (tick_step s e) as [s1|] eqn:E; [|done].
  eapply IH; [done | by eapply tick_step_in_hand | done].
Qed.

Lemma tick_steps_length es : ∀ s s', tick_steps es s = Some s' → length s'.2 = length s.2.
Proof.
  induction es as [|e es IH]; intros s s' H; [by simplify_eq/=|]. cbn [tick_steps] in H.
  destruct (tick_step s e) as [s1|] eqn:E; [|done]. rewrite (IH _ _ H). revert E. unfold tick_step.
  destruct e as [idx jid|idx jid r]; [|by intros (? & _ & ->)%fmap_Some].
  destruct (_ !! _) as [[|k ks]|]; [done| |done]. case_bool_decide; [|done].
  intros (? & _ & ->)%fmap_Some. apply length_insert.
Qed.

(** While a tick is not over, one of its goroutines can go on. *)
Lemma tick_goes_on s :
  length s.2 = length (cumulativeCleanedUp s.1) → over s = false →
  ∃ e s', answered e ∧ tick_step s e = Some s'.
Proof.
  destruct s as [d td]. unfold over. cbn [fst snd]. intros Hl Ho.
  destruct (collecting d) as [|[idx jid] rest] eqn:Hc.
  - rewrite andb_true_r in Ho. assert (∃ i j js, td !! i = Some (j :: js)) as (i & j & js & Hi).
    { clear Hl Hc. induction td as [|[|j js] td IH]; [done | | by exists O, j, js].
      destruct (IH Ho) as (i & j & js & Hi). by exists (S i), j, js. }
    exists (Claims i j). unfold tick_step. cbn [fst snd]. rewrite Hi, bool_decide_eq_true_2 by done.
    apply lookup_lt_Some in Hi. cbn [poll]. rewrite (proj2 (Nat.ltb_lt _ _)) by lia.
    by eexists.
  - exists (Collects idx jid (Some (mkJobStatusResponse jid EmptyString 0 EmptyString None None))).
    unfold tick_step. cbn [fst snd poll]. rewrite bool_decide_eq_true_2 by (rewrite Hc; left).
    eexists. split; [by eexists | done].
Qed.

(** C30: the test ends when all its jobs are collected, and not before. When the
    accepted submissions got distinct ids, and whatever the schedulers answered and
    however the goroutines that poll them interleaved: each job that was collected -
    its status answered and counted - is one of the test's and was collected once,
    the counters of the schedulers add up to their number, and the loop ends exactly
    when every accepted job has been collected. *)
Theorem test_ends_complete rs clients es d :
  let d0 := foldl (λ d r, submitted r d) (new_test clients) rs in
  NoDup (omap accepted rs) → Z.of_nat (length rs) < 2 ^ 31 → polls es d0 = Some d →
  NoDup (omap collects es) ∧ omap collects es ⊆ omap accepted rs ∧
  foldr Z.add 0 (cumulativeCleanedUp d) = Z.of_nat (length (omap collects es)) ∧
  (finished (totalSubmitted d0) d = true ↔ omap collects es ≡ₚ omap accepted rs).
Proof.
  intros d0 Hn Hs Hp. destruct (submissions rs clients Hn Hs) as [H0 _]. fold d0 in H0.
  destruct (test_ok_polls _ _ _ _ _ H0 Hp) as (got & Hok & Hg). rewrite app_nil_r in Hg.
  assert (totalSubmitted d0 = totalSubmitted d) as -> by (destruct H0, Hok; congruence).
  rewrite (finished_iff _ _ _ Hok), <- Hg. destruct Hok. split_and!; [| |done..].
  - by apply NoDup_app in to_once0 as [? _].
  - intros x Hx. apply to_ours0, elem_of_app. by left.
Qed.

(** C31: a tick that sees all outstanding jobs ends the test. After any submissions
    with distinct ids and any polls, between two ticks, let every job that was not
    collected yet be in the list of completed jobs that some scheduler answers, and
    let no call for a status fail in this tick. However the goroutines of the tick
    interleave - those of the schedulers, each going through its list, and those
    that collect - the tick ends: it takes at most two steps for each listed job, and
    until it is over one of its goroutines can go on; and when it is over, so is the
    test, also when calls of earlier ticks failed, whose jobs are asked for again. *)
Theorem tick_finishes rs clients es d listed es' s :
  let d0 := foldl (λ d r, submitted r d) (new_test clients) rs in
  NoDup (omap accepted rs) → Z.of_nat (length rs) < 2 ^ 31 → polls es d0 = Some d →
  collecting d = [] → length listed = clients →
  (∀ j, j ∈ omap accepted rs → j ∉ omap collects es → ∃ l, Some l ∈ listed ∧ j ∈ CompletedJobId l) →
  Forall answered es' → tick_steps es' (d, todo listed) = Some s →
  (length es' ≤ 2 * length (concat (todo listed)))%nat ∧
  (over s = false → ∃ e s', answered e ∧ tick_step s e = Some s') ∧
  (over s = true → finished (totalSubmitted d0) s.1 = true).
Proof.
  intros d0 Hn Hs Hp Hc Hlen Hlist He Hes. destruct (submissions rs clients Hn Hs) as [H0 Hcl].
  fold d0 in H0, Hcl. destruct (test_ok_polls _ _ _ _ _ H0 Hp) as (got & Hok & Hg).
  rewrite app_nil_r in Hg. pose proof (tick_steps_polls _ _ _ Hes) as Hp2. cbn [fst] in Hp2.
  destruct (test_ok_polls _ _ _ _ _ Hok Hp2) as (got' & Hok' & Hg').
  split_and!.
  - pose proof (tick_steps_work _ _ _ Hes) as Hw. unfold work in Hw. cbn [fst snd] in Hw.
    rewrite Hc in Hw. cbn [length] in Hw. lia.
  - apply tick_goes_on. rewrite (tick_steps_length _ _ _ Hes), (polls_clients _ _ _ Hp2),
      (polls_clients _ _ _ Hp), Hcl, length_replicate. unfold todo. cbn [snd]. by rewrite length_fmap.
  - intros [Ho Hcol]%andb_true_iff. apply bool_decide_eq_true in Hcol.
    assert (in_hand (omap accepted rs) (omap accepted rs) (d, todo listed)) as Hin.
    { split; [apply (to_active _ _ _ Hok)|]. intros j Hj _.
      destruct (decide (j ∈ omap collects es)) as [Hd|Hd].
      - left. cbn [fst]. rewrite (to_cleaned _ _ _ Hok). apply elem_of_list_to_set, elem_of_app. left.
        by rewrite Hg.
      - right. destruct (Hlist j Hj Hd) as (l & Hl & Hjl). cbn [snd].
        apply elem_of_concat. exists (CompletedJobId l). split; [|done].
        unfold todo. apply list_elem_of_fmap. by exists (Some l). }
    destruct (tick_steps_in_hand _ _ _ _ _ He Hin Hes) as [_ Hin'].
    assert (totalSubmitted d0 = totalSubmitted s.1) as ->
      by (rewrite (to_total _ _ _ H0); by rewrite (to_total _ _ _ Hok')).
    apply (finished_iff _ _ _ Hok'). pose proof (to_cleaned _ _ _ Hok') as Hcu.
    rewrite Hcol in Hcu. cbn in Hcu. rewrite app_nil_r in Hcu.
    destruct Hok'. apply NoDup_app in to_once0 as [Hng _].
    apply NoDup_Permutation; [done..|]. intros j. split.
    + intros Hj. apply to_ours0, elem_of_app. by left.
    + intros Hj. destruct (Hin' j Hj Hj) as [Hcl'|Hin2].
      * rewrite Hcu in Hcl'. by apply elem_of_list_to_set in Hcl'.
      * exfalso. apply elem_of_concat in Hin2 as (l & Hl & Hjl).
        rewrite forallb_forall in Ho. apply list_elem_of_In, Ho, bool_decide_eq_true in Hl. subst l.
        by apply not_elem_of_nil in Hjl.
Qed.

(** ** Witnesses: two jobs, two schedulers; the first status call fails, both lists
    name the first job *)

Definition two_answers : list (option JobResponse) :=
  [Some (mkJobResponse "job-a" true); None; Some (mkJobResponse "job-b" true)].
Definition echoed (j : string) : option JobStatusResponse :=
  Some (mkJobStatusResponse j "Completed" 1 EmptyString (Some payload) (Some payload)).
Definition first_polls : list poll_event :=
  [Claims 0 "job-a"; Claims 1 "job-a"; Collects 0 "job-a" None; Claims 1 "job-a";
   Claims 0 "job-c"; Collects 1 "job-a" (echoed "job-a")].
(** Both schedulers list "job-b"; the second one is first. *)
Definition second_lists : list (option JobList) :=
  [Some (mkJobList 1 [] [] ["job-a"%string; "job-b"%string]); Some (mkJobList 1 [] [] ["job-b"%string])].
Definition second_steps : list poll_event :=
  [Claims 0 "job-a"; Claims 1 "job-b"; Collects 1 "job-b" (echoed "job-b"); Claims 0 "job-b"].
Definition after_first : Test :=
  default (new_test 2) (polls first_polls (foldl (λ d r, submitted r d) (new_test 2) two_answers)).

Lemma test_ends_complete_witness :
  omap collects first_polls = ["job-a"%string] ∧ finished 2 after_first = false.
Proof.
  destruct (test_ends_complete two_answers 2 first_polls after_first) as (_ & _ & _ & Hf).
  - refine (bool_decide_unpack _ _). vm_compute. exact I.
  - reflexivity.
  - vm_compute. reflexivity.
  - split; [reflexivity|]. apply not_true_iff_false. intros Hd.
    assert (omap collects first_polls ≡ₚ omap accepted two_answers) as Hl%Permutation_length
      by (apply Hf; exact Hd).
    discriminate Hl.
Defined.

Definition second_tick : Test * list (list string) :=
  default (after_first, []) (tick_steps second_steps (after_first, todo second_lists)).

Lemma tick_finishes_witness : over second_tick = true ∧ finished 2 second_tick.1 = true.
Proof.
  split; [vm_compute; reflexivity|].
  destruct (tick_finishes two_answers 2 first_polls after_first second_lists second_steps second_tick)
    as (_ & _ & Hf).
  - refine (bool_decide_unpack _ _). vm_compute. exact I.
  - reflexivity.
  - vm_compute. reflexivity.
  - vm_compute. reflexivity.
  - reflexivity.
  - intros j Hj Hno. eexists. split; [left|].
    revert Hj Hno. change (omap accepted two_answers) with ["job-a"%string; "job-b"%string].
    change (omap collects first_polls) with ["job-a"%string]. cbn [CompletedJobId]. set_solver.
  - repeat constructor. by eexists.
  - vm_compute. reflexivity.
  - apply Hf. vm_compute. reflexivity.
Defined.
