(* ===== verification/ClusterNode.v ===== *)
(** * The process of a cluster

    [cmd/cluster_node]: the components that [init] makes of the configuration, the
    ticks of the two loops, the shutdown; and what a health check with the rules of
    this process does to the containers. *)

From Stdlib Require Import Strings.Byte Strings.String.
From S2P Require Import Prelude.
From S2P Require Import Arbiter.
From S2P Require Import JobDirs.
From S2P Require Import ClusterJobs.
From S2P Require Import ClusterConfig.
From S2P Require Import ClusterQueue.
From S2P Require Import ClusterContainer.
From S2P Require Import ClusterPool.
From S2P Require Import ClusterPacker.
From S2P Require Import ClusterExamples.
From S2P Require Import ClusterSafety.
From S2P Require Import ClusterLimits.
From S2P Require Import ClusterRun.
From S2P Require Import ClusterService.

(** ** The start *)

(** src/internal/cluster/service/node.go:36-64 (NewClusterServer) *)
Definition NewClusterServer (now : Z) (nodeID address : string) (cpu mem : Z) (images : list Image)
    : ClusterServer :=
  mkClusterServer nodeID address cpu mem now images.

(** src/cmd/cluster_node/main.go:114-123 (main, the server)

    [None]: the limits are missing, which is a nil dereference. *)
Definition node_server (now : Z) (env : Machine) (images : list Image) : option ClusterServer :=
  limits ← MLimits env;
  Some (NewClusterServer now (MachineName env) (":" +:+ SchedulerPort env)
    (MaxNanoCPULimit limits) (MaxMemoryBytesLimit limits) images).

Section node.
Context {D : Type} `{!Docker D} (env : PoolEnv).

Abbreviation csys := (World D * Jobs)%type.
Abbreviation sio := (bio CError csys).

#[local] Instance node_pool : ContainerPool (World D) := Containers_pool env.

(** What goes on around one tick of the packer and the goroutine that it starts. *)
Record pack_run := mkPackRun {
  pr_pack : pack_point → csys → csys;
  pr_sleeps : list (World D → World D);
  pr_assign : assign_point → csys → csys;
  pr_done : bool
}.

(** src/cmd/cluster_node/main.go:150-169 (packJobs, a tick)

    The goroutine of the tick, to the end of the job it has started, if any; an
    error of [PackNextJob] is logged. *)
Definition packJobs (ord : MapOrder) (limits : Z * Z) (run : pack_run) : sio unit := λ s,
  match PackNextJob ord limits (pr_pack run) s with
  | Some (Ok (Some (p, job)), s) => assignJob (pr_sleeps run) (pr_assign run) (pr_done run) p job s
  | Some (Panic, s) => Some (Panic, s)
  | Some (_, s) => Some (Ok tt, s)
  | None => None
  end.

(** src/cmd/cluster_node/main.go:175-180 (healthChecks, healthRules) *)
Definition healthRules (ord : MapOrder) : list (HealthRule (D:=D)) :=
  [HealthRuleUnresponsive; HealthRuleTimedOut; HealthRuleExceededJobLimits; HealthRuleNoMoreJobs ord].

(** src/cmd/cluster_node/main.go:182-191 (healthChecks, a tick) *)
Definition healthChecks (ord : MapOrder) (meanwhile : health_point → csys → csys) : sio unit := λ s,
  match RunHealthRule meanwhile (healthRules ord) s with
  | Some (Panic, s) => Some (Panic, s)
  | Some (_, s) => Some (Ok tt, s)
  | None => None
  end.

(** src/cmd/cluster_node/main.go:88-101 (main, the shutdown)

    The queue, then the containers, whose error is logged; the server's and the
    logger's closing are theirs. [None]: a completed job nobody takes. *)
Definition shutdown (ord : MapOrder) (schedule : list loc → list loc) (done : bool) : sio unit := λ s,
  match ClusterJobs.Close ord s.2 with
  | Some (Ok _, q) =>
      match Close env schedule done s.1 with
      | (Panic, w) => Some (Panic, (w, q))
      | (_, w) => Some (Ok tt, (w, q))
      end
  | Some (Err e, q) => Some (Err (ErrQueueCall e), (s.1, q))
  | Some (Panic, q) => Some (Panic, (s.1, q))
  | None => None
  end.

(** ** What the rules say of a container *)

Implicit Types (s : csys) (w : World D).

(** The answer of the daemon about a container makes it a healthy or a starting
    one, or is an error. *)
Definition responsive (h : outcome CError Z) : bool :=
  match h with Ok h => (h =? 0) || (h =? 1) | _ => true end.

Definition timed_out (w : World D) (c : Container) : bool :=
  negb (Timeout (c_image c) <=? 0) &&
  ((c_totalJobs c >? 0) && bool_decide (c_state c = Free) &&
   (since c w >? wrap64 (1000000000 * Timeout (c_image c)))).
Definition worn_out (c : Container) : bool :=
  (c_totalJobs c >? MaxJobs (c_image c)) && bool_decide (c_state c = Free).
Definition out_of_work (ord : MapOrder) (w : World D) (q : Jobs) (c : Container) : bool :=
  bool_decide (c_state c = Free) && (since c w <? 5000000000) &&
  (default 0 (PendingJobTypes ord q !! Alias (c_image c)) =? 0).

Definition doomed (ord : MapOrder) (h : outcome CError Z) (w : World D) (q : Jobs) (c : Container) : bool :=
  negb (responsive h || bool_decide (c_state c = Reserved)) ||
  (timed_out w c || (worn_out c || out_of_work ord w q c)).

Lemma bio_bind_Some {A B} (m : sio A) (f : A → sio B) s a s' :
  m s = Some (Ok a, s') → (m ≫= f) s = f a s'.
Proof using Type. intros H. unfold mbind, bio_bind. by rewrite H. Qed.

Lemma container_at p s c : conts s.1 !! p = Some c → container p s = Some (Ok c, s).
Proof using Type.
  intros Hc. unfold container, on_world, on_pool, lift_io, self. rewrite Hc. by destruct s.
Qed.

Lemma when_at cond p s c :
  conts s.1 !! p = Some c →
  when cond p s = Some (Ok (if cond s.1 s.2 c then HealthDelete else HealthContinue), s).
Proof using Type.
  intros Hc. unfold when. by rewrite (bio_bind_Some _ _ _ _ _ (container_at p s c Hc)).
Qed.

Lemma unresponsive_at p s c :
  conts s.1 !! p = Some c →
  HealthRuleUnresponsive p s =
    Some (Ok (if responsive (Health p s.1).1 || bool_decide (c_state c = Reserved)
              then HealthContinue else HealthDelete), ((Health p s.1).2, s.2)) ∧
  conts (Health p s.1).2 !! p = Some c.
Proof using Type.
  intros Hc. pose proof (Health_no_panic p s.1 c Hc) as Hn.
  destruct (Health p s.1) as [r w] eqn:E. cbn [fst snd] in *.
  assert (conts w !! p = Some c) as Hw by (by apply Health_daemon in E as [d ->]). split; [|done].
  assert (∃ o, attempt (on_world (Health p)) s = Some (Ok o, (w, s.2)) ∧
    responsive r = match o with inl h => (h =? 0) || (h =? 1) | inr _ => true end) as (o & Ho & Hr).
  { unfold attempt, on_world, on_pool, lift_io. rewrite E. destruct r; [| |done]; by eexists. }
  unfold HealthRuleUnresponsive. rewrite (bio_bind_Some _ _ _ _ _ Ho).
  rewrite (bio_bind_Some _ _ _ _ _ (container_at p (w, s.2) c Hw)), Hr. by destruct o.
Qed.

(** One visit: the rules together, for any interference in the deletion. *)
Lemma visit_eq mw ord p s c :
  conts s.1 !! p = Some c →
  let '(h, w) := Health p s.1 in
  run_rules mw (healthRules ord) p s =
    if doomed ord h w s.2 c then (i ← condemn mw p; mret (Some i)) (w, s.2)
    else Some (Ok None, (w, s.2)).
Proof using Type.
  intros Hc. destruct (unresponsive_at p s c Hc) as [Hu Hw].
  destruct (Health p s.1) as [h w]. cbn [fst snd] in *. unfold healthRules. cbn [run_rules].
  rewrite (bio_bind_Some _ _ _ _ _ Hu). unfold doomed.
  destruct (responsive h || _); [|done]. cbn [negb orb run_rules].
  unfold HealthRuleTimedOut. rewrite (bio_bind_Some _ _ _ _ _ (when_at _ p (w, s.2) c Hw)).
  cbn [fst snd]. fold (timed_out w c). destruct (timed_out w c); [done|]. cbn [orb].
  unfold HealthRuleExceededJobLimits. rewrite (bio_bind_Some _ _ _ _ _ (when_at _ p (w, s.2) c Hw)).
  cbn [fst snd]. fold (worn_out c). destruct (worn_out c); [done|]. cbn [orb].
  unfold HealthRuleNoMoreJobs. rewrite (bio_bind_Some _ _ _ _ _ (when_at _ p (w, s.2) c Hw)).
  cbn [fst snd]. fold (out_of_work ord w s.2 c). by destruct (out_of_work ord w s.2 c).
Qed.

(** ** A busy container and the daemon it runs on *)

(** As long as the daemon is in one of these states, the container runs and is not
    unhealthy; neither inspections nor the removal of another container changes that. *)
Record steady (c : Container) (good : D → Prop) : Prop := {
  sd_inspect : ∀ i d, good d → good (ContainerInspect i d).2;
  sd_remove : ∀ i d, good d → i ≠ c_dockerID c → good (ContainerRemove i d).2;
  sd_answer : ∀ d data, good d → (ContainerInspect (c_dockerID c) d).1 = Some data →
    i_Running data = true ∧ i_Health data ≠ Some "unhealthy"%string ∧ i_Health data ≠ Some "none"%string
}.

(** The container [c] is at [p], tracked, and none of the others of [L] has its
    ids. *)
Record undisturbed (good : D → Prop) (p : loc) (c : Container) (L : list loc) (w : World D) : Prop := {
  ud_here : conts w !! p = Some c;
  ud_tracked : p ∈ tracked w;
  ud_known : tracked w ⊆ L;
  ud_good : good (daemon w);
  ud_others : ∀ q c', q ∈ L → q ≠ p → conts w !! q = Some c' →
    c_id c' ≠ c_id c ∧ (c_dockerID c' ≠ EmptyString → c_dockerID c' ≠ c_dockerID c)
}.

Lemma find_id_Some l i w q :
  find_id l i w = Some q → q ∈ l ∧ ∃ x, conts w !! q = Some x ∧ c_id x = i.
Proof using Type.
  induction l as [|q' l IH]; [done|]. cbn [find_id]. destruct (conts w !! q') as [x|] eqn:Hx.
  - case_bool_decide as Hi.
    + intros [= <-]. split; [left|by exists x].
    + intros (? & ?)%IH. split; [by right|done].
  - intros (? & ?)%IH. split; [by right|done].
Qed.

Lemma remove1_other q x l : q ≠ x → x ∈ l → x ∈ remove1 q l.
Proof using Type.
  intros Hq. induction l as [|y l IH]; cbn [remove1]; [done|]. case_bool_decide as Hy.
  - intros [->|?]%elem_of_cons; [by destruct Hq|done].
  - intros [->|?]%elem_of_cons; [left|right; auto].
Qed.

Lemma remove1_sub q l : remove1 q l ⊆ l.
Proof using Type.
  induction l as [|y l IH]; cbn [remove1]; [done|]. case_bool_decide; set_solver.
Qed.

Section busy.
Context (good : D → Prop) (p : loc) (c : Container) (L : list loc).
Context (Hsteady : steady c good).

Abbreviation I := (undisturbed good p c L).
Definition tends (w w' : World D) : Prop := I w → I w'.

#[local] Instance tends_preorder : PreOrder tends.
Proof using Type. split; [by intros w H|]. intros w1 w2 w3 H1 H2 H. by apply H2, H1. Qed.

#[local] Instance tends_self q : Keeps tends (self (D:=D) q).
Proof using Type. intros w. unfold self. by destruct (conts w !! q). Qed.
#[local] Instance tends_now : Keeps tends (now (D:=D)).
Proof using Type. by intros w. Qed.
#[local] Instance tends_disk {A} e (m : osio A) : Keeps tends (on_disk (D:=D) e m).
Proof using Type. intros w. unfold on_disk. destruct (m (disk w)) as [[]]; intros []; by split. Qed.

Lemma tends_daemon d w : (good (daemon w) → good d) → tends w (set_daemon d w).
Proof using Type. intros Hd []. split; auto. Qed.

#[local] Instance tends_inspect i : Keeps tends (docker (ContainerInspect i)).
Proof using Hsteady.
  intros w. unfold docker. pose proof (sd_inspect _ _ Hsteady i (daemon w)) as H.
  destruct (ContainerInspect i (daemon w)) as [a d]. by apply tends_daemon.
Qed.

#[local] Instance tends_Health q : Keeps tends (Health q).
Proof using Hsteady. unfold Health. keeps_by fail. Qed.

Lemma tends_assign q (f : Container → Container) :
  q ≠ p → (∀ x, c_id (f x) = c_id x ∧ (c_dockerID (f x) = c_dockerID x ∨ c_dockerID (f x) = EmptyString)) →
  Keeps tends (assign (D:=D) q f).
Proof using Type.
  intros Hq Hf w []. unfold assign, modify. split; cbn; try done; [by rewrite list_lookup_alter_ne|].
  intros q' c' HL Hne. destruct (decide (q' = q)) as [->|Hqq].
  - rewrite list_lookup_alter_eq. destruct (conts w !! q) as [x|] eqn:Hx; [|done].
    intros [= <-]. destruct (Hf x) as [-> Hd]. destruct (ud_others0 q x HL Hne Hx) as [? Ho].
    split; [done|]. destruct Hd as [->| ->]; [done|]. by intros [].
  - rewrite list_lookup_alter_ne by done. by apply ud_others0.
Qed.

Ltac tends := keeps_by ltac:(apply tends_assign; [done|by intros []; auto]).

#[local] Instance tends_close q : q ≠ p → Keeps tends (close_results (D:=D) q).
Proof using Type. intros Hq. unfold close_results. tends. Qed.

#[local] Instance tends_Cleanup q : q ≠ p → Keeps tends (Cleanup_begin (D:=D) q).
Proof using Type. intros Hq. unfold Cleanup_begin. tends. Qed.

#[local] Instance tends_Delete q : q ≠ p → q ∈ L → Keeps tends (Delete q).
Proof using Hsteady.
  intros Hq HL w HI. unfold Delete. unfold mbind at 1, io_bind at 1, self at 1.
  destruct (conts w !! q) as [x|] eqn:Hx; [|done]. case_bool_decide as Hd; [done|].
  unfold mbind at 1, io_bind at 1, docker at 1.
  assert (I (set_daemon (ContainerRemove (c_dockerID x) (daemon w)).2 w)) as H1.
  { apply tends_daemon, HI. intros Hg. apply (sd_remove _ _ Hsteady); [done|].
    by apply (ud_others _ _ _ _ _ HI q x). }
  destruct (ContainerRemove _ _) as [removed d]. cbn [snd] in H1.
  destruct removed; cbn [negb]; [|done].
  match goal with |- I (?m ?w1).2 => assert (Keeps tends m) as Hk by tends; by apply (Hk w1) end.
Qed.

Lemma tends_Remove i : i ≠ c_id c → Keeps tends (Remove (D:=D) i).
Proof using Hsteady.
  intros Hi w HI. unfold Remove. unfold mbind at 1, io_bind at 1, get.
  destruct (find_id (tracked w) i w) as [q|] eqn:Hf; [|done].
  apply find_id_Some in Hf as (Hin & x & Hx & Hid).
  assert (q ≠ p) as Hq.
  { intros ->. rewrite (ud_here _ _ _ _ _ HI) in Hx. by injection Hx as <-. }
  unfold mbind at 1, io_bind at 1, modify. cbn [snd].
  apply (tends_Delete q Hq (ud_known _ _ _ _ _ HI q Hin)).
  destruct HI. split; cbn; try done.
  - by apply remove1_other.
  - intros y Hy. by apply ud_known0, (remove1_sub q).
Qed.

(** The same of code that may wait. *)
Definition tame {A} (m : sio A) : Prop := ∀ s r s', I s.1 → m s = Some (r, s') → I s'.1.

Lemma tame_bind {A B} (m : sio A) (f : A → sio B) :
  tame m → (∀ a, tame (f a)) → tame (m ≫= f).
Proof using Type.
  intros Hm Hf s r s' HI (r1 & s1 & E1 & E)%bio_bind_inv. apply (Hm _ _ _ HI) in E1.
  destruct r1 as [a|e|]; [by eapply Hf|destruct E as [_ ->]..]; done.
Qed.

Lemma tame_ret {A} (a : A) : tame (mret a).
Proof using Type. by intros s r s' HI [= _ <-]. Qed.

Lemma tame_world {A} (m : io CError (World D) A) : Keeps tends m → tame (on_world m).
Proof using Type.
  intros Hm s r s' HI. unfold on_world, on_pool, lift_io. pose proof (Hm s.1 HI) as H.
  destruct (m s.1) as [r1 w]. by intros [= _ <-].
Qed.

Lemma tame_container q : tame (container q).
Proof using Type. apply tame_world, _. Qed.

Lemma tame_attempt {A} (m : sio A) : tame m → tame (attempt m).
Proof using Type.
  intros Hm s r s' HI. unfold attempt. destruct (m s) as [[r1 s1]|] eqn:E; [|done].
  apply (Hm _ _ _ HI) in E. destruct r1; by intros [= _ <-].
Qed.

Lemma tame_mark_completed mw i payload ok :
  (∀ s, I s.1 → I (mw s).1) → tame (mark_completed mw i payload ok).
Proof using Type.
  intros Hmw s r s' HI. unfold mark_completed.
  destruct (complete i payload ok s.2) as [[job|e|] q]; [|by intros [= _ <-]..].
  specialize (Hmw (s.1, q) HI). destruct (send job _) as [[[] q']|]; [..|done]; by intros [= _ <-].
Qed.

Section tick.
Context (mw : health_point → csys → csys) (ord : MapOrder).
Context (Hmw : ∀ pt s, I s.1 → I (mw pt s).1).

Lemma tame_others pt : tame (others (mw pt)).
Proof using Hmw. intros s r s' HI [= _ <-]. by apply Hmw. Qed.

(** The deletion of another container; the id that is to be untracked is not ours. *)
Lemma condemn_other q s r s' :
  q ≠ p → q ∈ L → I s.1 → condemn mw q s = Some (r, s') →
  I s'.1 ∧ ∀ i, r = Ok i → i ≠ c_id c.
Proof using Hsteady Hmw.
  intros Hq HL HI (r1 & s1 & E1 & E)%bio_bind_inv. unfold condemn in *.
  apply (tame_container q _ _ _ HI) in E1 as H1.
  destruct r1 as [x|e|]; [|by destruct E as [-> ->]..].
  apply bio_bind_inv in E as (r2 & s2 & E2 & E).
  assert (I s2.1) as H2.
  { revert E2. case_bool_decide; [|by intros [= _ <-]].
    apply tame_bind; [|intros; apply tame_ret|done]. apply tame_attempt, tame_mark_completed.
    intros s0. apply Hmw. }
  destruct r2 as [u|e|]; [|by destruct E as [-> ->]..].
  apply bio_bind_inv in E as (r3 & s3 & E3 & E).
  apply (tame_container q _ _ _ H2) in E3 as H3.
  destruct r3 as [y|e|]; [|by destruct E as [-> ->]..].
  assert (c_id y ≠ c_id c) as Hid.
  { revert E3. unfold container, on_world, on_pool, lift_io, self.
    destruct (conts s2.1 !! q) as [y'|] eqn:Hy; [|done]. intros [= <- _].
    by apply (ud_others _ _ _ _ _ H2 q). }
  split.
  - revert E. apply tame_bind; [by apply tame_world, tends_Cleanup| |done]. intros _.
    apply tame_bind; [apply tame_others|]. intros _.
    apply tame_bind; [by apply tame_world, tends_Delete|intros; apply tame_ret].
  - intros i ->. apply bio_bind_inv in E as ([?|?|] & s4 & _ & E); [|by destruct E..].
    apply bio_bind_inv in E as ([?|?|] & s5 & _ & E); [|by destruct E..].
    apply bio_bind_inv in E as ([?|?|] & s6 & _ & E); [|by destruct E..]. by injection E as <- _.
Qed.

Lemma busy_not_doomed w q : c_state c ≠ Free → I w → doomed ord (Health p w).1 (Health p w).2 q c = false.
Proof using Hsteady.
  intros Hbusy HI. unfold doomed, timed_out, worn_out, out_of_work.
  rewrite (bool_decide_eq_false_2 (c_state c = Free)) by done.
  rewrite !andb_false_r, !orb_false_r, ?andb_false_l, ?andb_false_r, ?orb_false_r.
  assert (responsive (Health p w).1 = true) as ->; [|done].
  unfold Health. rewrite (io_bind_Ok _ _ _ c w) by (unfold self; by rewrite (ud_here _ _ _ _ _ HI)).
  case_bool_decide; [done|]. unfold mbind, io_bind, docker.
  pose proof (sd_answer _ _ Hsteady (daemon w)) as Ha.
  destruct (ContainerInspect _ _) as [[data|] d]; [|done].
  destruct (Ha data (ud_good _ _ _ _ _ HI) eq_refl) as (Hr & Hu & Hno). rewrite Hr. cbn [negb].
  destruct (i_Health data) as [st|]; [|done].
  repeat (case_bool_decide; [by subst|]). by subst.
Qed.

Lemma visit_spares q s r s' :
  c_state c ≠ Free → q ∈ L → I s.1 → run_rules mw (healthRules ord) q s = Some (r, s') →
  I s'.1 ∧ ∀ i, r = Ok (Some i) → i ≠ c_id c.
Proof using Hsteady Hmw.
  intros Hbusy HL HI. destruct (conts s.1 !! q) as [x|] eqn:Hx.
  - pose proof (visit_eq mw ord q s x Hx) as Hv. pose proof (tends_Health q s.1 HI) as H1.
    destruct (decide (q = p)) as [->|Hq].
    + rewrite (ud_here _ _ _ _ _ HI) in Hx. injection Hx as <-.
      pose proof (busy_not_doomed s.1 s.2 Hbusy HI) as Hd.
      destruct (Health p s.1) as [h w]. cbn [fst snd] in *. rewrite Hv, Hd. by intros [= <- <-].
    + destruct (Health q s.1) as [h w]. cbn [fst snd] in *. rewrite Hv.
      destruct (doomed ord h w s.2 x); [|by intros [= <- <-]].
      intros (r1 & s1 & E1 & E)%bio_bind_inv. apply condemn_other in E1 as [HI1 Hi]; [|done..].
      destruct r1 as [i|e|]; [|by destruct E as [-> ->]..].
      injection E as <- <-. split; [done|]. intros j [= <-]. by apply Hi.
  - cbn [healthRules run_rules]. unfold HealthRuleUnresponsive, Health.
    unfold mbind, bio_bind, attempt, on_world, on_pool, lift_io, io_bind, self. rewrite Hx.
    by intros [= <- <-].
Qed.

Lemma check_all_spares l s r s' :
  c_state c ≠ Free → l ⊆ L → I s.1 → check_all mw (healthRules ord) l s = Some (r, s') →
  I s'.1 ∧ ∀ ids, r = Ok ids → c_id c ∉ ids.
Proof using Hsteady Hmw.
  intros Hbusy. revert s r s'. induction l as [|q l IH]; intros s r s' HL HI.
  - intros [= <- <-]. split; [done|]. intros ids [= <-]. apply not_elem_of_nil.
  - cbn [check_all]. intros (r1 & s1 & E1 & E)%bio_bind_inv.
    apply visit_spares in E1 as [HI1 Hi]; [|done|apply HL; left|done].
    destruct r1 as [o|e|]; [|by destruct E as [-> ->]..].
    apply bio_bind_inv in E as (r2 & s2 & E2 & E).
    apply IH in E2 as [HI2 Hids]; [|intros x Hx; apply HL; by right|done].
    destruct r2 as [ids|e|]; [|by destruct E as [-> ->]..].
    injection E as <- <-. split; [done|]. intros ids' [= <-]. destruct o as [i|]; [|by apply Hids].
    apply not_elem_of_cons. split; [|by apply Hids]. intros He. by apply (Hi i).
Qed.

Lemma remove_all_spares ids : c_id c ∉ ids → tame (remove_all_ids ids).
Proof using Hsteady.
  induction ids as [|i ids IH]; cbn [remove_all_ids]; [intros _; apply tame_ret|].
  intros [Hi Hids]%not_elem_of_cons. apply tame_bind; [|intros; by apply IH].
  by apply tame_attempt, tame_world, tends_Remove.
Qed.

Lemma RunHealthRule_spares s r s' :
  c_state c ≠ Free → tracked s.1 ⊆ L → I s.1 →
  RunHealthRule mw (healthRules ord) s = Some (r, s') → I s'.1.
Proof using Hsteady Hmw.
  intros Hbusy HL HI (r1 & s1 & E1 & E)%bio_bind_inv.
  apply check_all_spares in E1 as [HI1 Hids]; [|done..].
  destruct r1 as [ids|e|]; [|by destruct E as [-> ->]..].
  by eapply remove_all_spares; [apply Hids|exact HI1|exact E].
Qed.
End tick.
End busy.
End node.

(** ** A container that is out of work *)

Section idle.
Context {D : Type} `{!Docker D}.
Implicit Types (w : World D) (s : World D * Jobs).

(** A free container that nothing else speaks against, and no job for its image. *)
Record idle (ord : MapOrder) (p : loc) (c : Container) s : Prop := {
  id_here : conts s.1 !! p = Some c;
  id_tracked : tracked s.1 = [p];
  id_free : c_state c = Free;
  id_responsive : responsive (Health p s.1).1 = true;
  id_timeout : Timeout (c_image c) ≤ 0;
  id_jobs : c_totalJobs c ≤ MaxJobs (c_image c);
  id_work : default 0 (PendingJobTypes ord s.2 !! Alias (c_image c)) = 0
}.

Lemma idle_doomed ord p c s d :
  idle ord p c s → doomed ord (Health p s.1).1 (set_daemon d s.1) s.2 c = (since c s.1 <? 5000000000).
Proof.
  intros []. unfold doomed, timed_out, worn_out, out_of_work.
  rewrite id_responsive0, id_work0, (proj2 (Z.leb_le _ _) id_timeout0).
  rewrite (bool_decide_eq_true_2 (c_state c = Free)) by done.
  rewrite !Z.gtb_ltb, (proj2 (Z.ltb_ge _ _) id_jobs0). cbn. by rewrite andb_true_r.
Qed.

Lemma find_id_one p c w : conts w !! p = Some c → find_id [p] (c_id c) w = Some p.
Proof. intros Hc. cbn. rewrite Hc. by rewrite bool_decide_eq_true_2. Qed.

(** Untracking a container that is deleted already. *)
Lemma remove_deleted p c s :
  conts s.1 !! p = Some c → c_dockerID c = EmptyString → tracked s.1 = [p] →
  remove_all_ids [c_id c] s = Some (Ok tt, (set_tracked [] s.1, s.2)).
Proof.
  intros Hc Hd Ht. cbn [remove_all_ids].
  assert (Remove (c_id c) s.1 = (Err (ErrNotCreated (c_id c)), set_tracked [] s.1)) as Hr.
  { unfold Remove. unfold mbind, io_bind, get. rewrite Ht, (find_id_one p c s.1 Hc). cbn [remove1].
    rewrite bool_decide_eq_true_2 by done. unfold modify, Delete, mbind, io_bind, self.
    cbn [conts set_tracked]. rewrite Hc. by rewrite bool_decide_eq_true_2. }
  unfold mbind, bio_bind, attempt, on_world, on_pool, lift_io. rewrite Hr. done.
Qed.

(** The deletion of a free container that succeeds. *)
Lemma condemn_free (p : loc) (c : Container) s w' :
  conts s.1 !! p = Some c → c_state c = Free →
  Delete p (Cleanup_begin p s.1).2 = (Ok tt, w') →
  condemn (λ _ s, s) p s = Some (Ok (c_id c), (w', s.2)).
Proof.
  intros Hc Hf Hd. unfold condemn. rewrite (bio_bind_Some _ _ _ _ _ (container_at p s c Hc)).
  rewrite bool_decide_eq_false_2 by (by rewrite Hf).
  rewrite (bio_bind_Some _ _ _ tt s) by done.
  rewrite (bio_bind_Some _ _ _ _ _ (container_at p s c Hc)).
  assert (on_world (Cleanup_begin p) s = Some (Ok tt, ((Cleanup_begin p s.1).2, s.2))) as E1 by done.
  rewrite (bio_bind_Some _ _ _ _ _ E1), (bio_bind_Some _ _ _ tt ((Cleanup_begin p s.1).2, s.2)) by done.
  assert (on_world (Delete p) ((Cleanup_begin p s.1).2, s.2) = Some (Ok tt, (w', s.2))) as E2
    by (unfold on_world, on_pool, lift_io; cbn [fst snd]; by rewrite Hd).
  by rewrite (bio_bind_Some _ _ _ _ _ E2).
Qed.

Lemma Delete_tracked p w r w' : Delete p w = (r, w') → tracked w' = tracked w.
Proof.
  assert (Keeps (λ w w', tracked w' = tracked w) (Delete (D:=D) p)) as Hk; [|intros E; specialize (Hk w); by rewrite E in Hk].
  assert (PreOrder (λ w w' : World D, tracked w' = tracked w)) as Hp
    by (split; [by intros ?|by intros ??? -> ->]).
  unfold Delete, close_results, assign. keeps_by ltac:(first [apply keeps_modify; by intros ?
    | intros w0; unfold docker; by destruct (ContainerRemove _ _)
    | intros w0; unfold self; by destruct (conts w0 !! _)
    | intros w0; unfold on_disk; by destruct (os_RemoveAll _ _) as [[]] ]).
Qed.

Lemma idle_check ord p c s :
  idle ord p c s →
  check_all (λ _ s, s) (healthRules ord) (tracked s.1) s =
    (r ← (if since c s.1 <? 5000000000 then (i ← condemn (λ _ s, s) p; mret (Some i)) else mret None);
     mret (match r with Some i => [i] | None => [] end)) ((Health p s.1).2, s.2).
Proof.
  intros H. rewrite (id_tracked _ _ _ _ H). cbn [check_all].
  pose proof (visit_eq (λ _ s, s) ord p s c (id_here _ _ _ _ H)) as Hv.
  destruct (Health p s.1) as [h w] eqn:E. pose proof (Health_daemon _ _ _ _ E) as [d ->].
  pose proof (idle_doomed ord p c s d H) as Hd. rewrite E in Hd. cbn [fst] in Hd. rewrite Hd in Hv.
  unfold mbind at 1, bio_bind at 1. rewrite Hv. cbn [snd].
  destruct (since c s.1 <? 5000000000); [|done].
  unfold mbind at 3, bio_bind at 3.
  by destruct ((i ← condemn (λ _ s, s) p; mret (Some i)) _) as [[[]]|].
Qed.
End idle.

(** ** A tick of the packer *)

Section pack.
Context {D : Type} `{!Docker D} (env : PoolEnv).
Implicit Types (w : World D) (s : World D * Jobs).

#[local] Instance tick_pool : ContainerPool (World D) := Containers_pool env.
#[local] Instance tick_laws : PoolLaws (World D) := Containers_laws env.

(** A queue that some run leads to and that is not closed. *)
Definition healthy (q : Jobs) : Prop := (∃ m, QR q m) ∧ closed q = false.
Definition orderly (mw : pack_point → World D * Jobs → World D * Jobs) : Prop :=
  ∀ pt s, healthy s.2 → healthy (mw pt s).2.

Lemma NextBestJob_healthy names c m q r q' : healthy q → NextBestJob names c m q = (r, q') → healthy q'.
Proof.
  intros [[mm HR] Hc] E. pose proof (NextBestJob_spec _ _ _ _ _ _ _ HR E) as Hs. destruct r as [p|].
  - destruct Hs as (i & _ & _ & HR' & _). destruct (NextBestJob_active _ _ _ _ _ _ E) as [pq ->].
    split; [by eexists|done].
  - destruct Hs as [HR' _]. destruct (NextBestJob_quiet _ _ _ _ _ E) as [pq ->]. split; [by eexists|done].
Qed.

Lemma mark_mine (p job : loc) s r s' :
  healthy s.2 → mark p job s = Some (r, s') →
  healthy s'.2 ∧ (r = Ok tt → is_Some (active s'.2 !! Id (deref (heap s'.2) job))).
Proof.
  intros Hh. unfold mark, queue_call, MarkRunning.
  destruct (active s.2 !! _) as [x|] eqn:Ha; intros [= <- <-]; [|done]. destruct Hh as [[m HR] Hc].
  split; [split; [exists m; by apply QR_write; auto with hive|done]|]. intros _.
  unfold write. cbn [snd active set_heap heap]. rewrite written_Id by auto with hive. by exists x.
Qed.

(** The job that a goroutine is started with is active, its container exists. *)
Lemma PackNextJob_mine ord limits mw s p job s' :
  orderly mw → polite mw → healthy s.2 →
  PackNextJob ord limits mw s = Some (Ok (Some (p, job)), s') → ∃ x, mine (Id job) x p s'.
Proof.
  intros Ho Hp Hh E0. pose proof (PackNextJob_yields ord limits mw s _ s' Hp E0) as [_ Hy].
  destruct (Hy p eq_refl) as [_ (c & Hc & _)]. clear Hy.
  unfold PackNextJob in E0. apply bio_bind_inv in E0 as (r1 & s1 & [= <- <-] & E).
  apply bio_bind_inv in E as (r2 & s2 & [= <- <-] & E).
  pose proof (Ho BeforePick (s.1, s.2) Hh) as H2. set (s2 := mw _ _) in *.
  apply bio_bind_inv in E as (r3 & s3 & E3%on_pool_queue & E). rewrite <- E3 in H2.
  destruct r3 as [names|e|]; [|by destruct E..].
  apply bio_bind_inv in E as (r4 & s4 & E4 & E). unfold on_queue in E4.
  destruct (NextBestJob names _ _ s3.2) as [o q] eqn:Eq. injection E4 as <- <-.
  apply NextBestJob_healthy in Eq; [|done]. destruct o as [x|]; [|done].
  apply bio_bind_inv in E as (r5 & s5 & [= <- <-] & E).
  pose proof (Ho BeforePlace (s3.1, q) Eq) as H5. set (s5 := mw _ (_, q)) in *.
  apply bio_bind_inv in E as (r6 & s6 & [= <- <-] & E).
  apply bio_bind_inv in E as (r7 & s7 & E7%place_queue & E). cbn [snd] in E7. rewrite <- E7 in H5.
  destruct r7 as [[p'|]|e|]; [|done|by destruct E..].
  apply bio_bind_inv in E as (r8 & s8 & [= <- <-] & E).
  pose proof (Ho BeforeMark s7 H5) as H8. set (s8 := mw _ s7) in *.
  apply bio_bind_inv in E as (r9 & s9 & E9 & E). apply mark_mine in E9 as [[HR Hcl] Ha]; [|done].
  destruct r9 as [[]|e|]; [|by destruct E..]. destruct (Ha eq_refl) as [y Hy].
  unfold copy in E. injection E as -> <- <-. exists y. by split_and!.
Qed.
End pack.

(** ** Properties *)

Section properties.
Context {D : Type} `{!Docker D}.
Implicit Types (w : World D) (s : World D * Jobs).

(** C29: a health check does not touch a container that is busy and runs. Whatever
    the other containers are, whichever of them the tick deletes and whatever errors
    it meets - as long as the daemon keeps the container running and healthy while
    it is asked about containers and removes others, and the goroutines that run
    meanwhile leave it alone - a container that is reserved or runs a job is after
    the tick as it was before, and still tracked. *)
Theorem health_check_spares_busy good p c ord mw s r s' :
  let I := undisturbed good p c (tracked s.1) in
  steady c good → c_state c ≠ Free → (∀ pt s0, I s0.1 → I (mw pt s0).1) → I s.1 →
  healthChecks ord mw s = Some (r, s') →
  conts s'.1 !! p = Some c ∧ p ∈ tracked s'.1.
Proof.
  intros I Hs Hb Hmw HI. unfold healthChecks.
  destruct (RunHealthRule mw (healthRules ord) s) as [[r1 s1]|] eqn:E; [|done].
  apply (RunHealthRule_spares good p c (tracked s.1) Hs mw ord Hmw) in E; [|done..].
  intros H. assert (s' = s1) as -> by (by destruct r1; injection H).
  split; [apply (ud_here _ _ _ _ _ E)|apply (ud_tracked _ _ _ _ _ E)].
Qed.

(** C39: the rule about idle containers is the wrong way round. Take a pool with one
    container, which is free and responsive, below its limit of jobs, of an image
    without a timeout and without pending jobs. When it has been free for five
    seconds or longer, a health check keeps it: it goes on being tracked, however
    long it stays idle. When it has been free for less - a job has just finished -
    the check deletes it, and it is gone from the pool. *)
Theorem idle_rule_inverted ord p c s :
  idle ord p c s →
  (5000000000 ≤ since c s.1 → ∃ w, healthChecks ord (λ _ s, s) s = Some (Ok tt, (w, s.2)) ∧
    conts w = conts s.1 ∧ tracked w = [p]) ∧
  (since c s.1 < 5000000000 → ∀ w, Delete p (Cleanup_begin p (Health p s.1).2).2 = (Ok tt, w) →
    healthChecks ord (λ _ s, s) s = Some (Ok tt, (set_tracked [] w, s.2)) ∧
    c_dockerID <$> conts w !! p = Some EmptyString).
Proof.
  intros H. pose proof (id_here _ _ _ _ H) as Hc. pose proof (idle_check ord p c s H) as Hk.
  assert (∃ d, (Health p s.1).2 = set_daemon d s.1) as [d Hw].
  { destruct (Health p s.1) as [h w] eqn:E. apply (Health_daemon _ _ _ _ E). }
  rewrite Hw in *. unfold healthChecks, RunHealthRule. split.
  - intros Hs. rewrite (proj2 (Z.ltb_ge _ _) Hs) in Hk.
    rewrite (bio_bind_Some _ _ _ _ _ Hk). eexists. split_and!; [done|done|apply (id_tracked _ _ _ _ H)].
  - intros Hs w Hd. rewrite (proj2 (Z.ltb_lt _ _) Hs) in Hk.
    pose proof (Delete_spec _ _ _ Hd) as (x & Hx & _ & _ & Hcs).
    pose proof (Delete_tracked _ _ _ _ Hd) as Ht.
    assert (x = with_change (clock s.1) (with_state Reserved c)) as ->.
    { change (conts (Cleanup_begin p (set_daemon d s.1)).2) with
        (alter (with_change (clock s.1) ∘ with_state Reserved) p (conts s.1)) in Hx.
      rewrite list_lookup_alter_eq, Hc in Hx. by injection Hx as <-. }
    assert (conts w !! p = Some (with_payloadLocation EmptyString (with_closed (with_dockerID EmptyString
      (with_change (clock s.1) (with_state Reserved c)))))) as Hp
      by (rewrite Hcs, list_lookup_alter_eq, Hx; done).
    pose proof (condemn_free p c (set_daemon d s.1, s.2) w Hc (id_free _ _ _ _ H) Hd) as Hcond.
    rewrite (bio_bind_Some _ _ _ (Some (c_id c)) (w, s.2)) in Hk
      by (by rewrite (bio_bind_Some _ _ _ _ _ Hcond)).
    rewrite (bio_bind_Some _ _ _ _ _ Hk). rewrite Hp. split; [|by destruct c].
    assert (c_id c = c_id (with_payloadLocation EmptyString (with_closed (with_dockerID EmptyString
      (with_change (clock s.1) (with_state Reserved c)))))) as Hid by (by destruct c).
    rewrite Hid. erewrite remove_deleted; [done|exact Hp|by destruct c|].
    cbn [fst]. rewrite Ht. apply (id_tracked _ _ _ _ H).
Qed.

(** C15: what a tick of the packer starts, it brings to an end. Let the queue be one
    that its operations lead to, and let the code that runs beside the tick keep it so,
    respect reservations, leave the tick's job and container to it and not close the
    channel of completed jobs. When
    [PackNextJob] starts a goroutine, the job it is started with is active, and the
    container is its own: nobody had reserved it before, and it is reserved now. When
    the goroutine ends, the tick has met no error, and the job is pending again
    without a container, or (a persistent one) runs for good in this container, or is
    the newest completed job, with the payload that the goroutine received: the
    oldest result on this container's channel when, after the job was handed over,
    it stopped waiting there - nothing if the context ended or the channel was
    closed. (A tick may wait forever, for a result or for room among the completed
    jobs; this is about those that end.) *)
Theorem packJobs_settles env ord limits run s p job s1 r s' :
  healthy s.2 → orderly (pr_pack run) → polite (ContainerPool0 := Containers_pool env) (pr_pack run) →
  PackNextJob (ContainerPool0 := Containers_pool env) ord limits (pr_pack run) s =
    Some (Ok (Some (p, job)), s1) →
  (∀ x, discreet (Id job) x p (pr_assign run)) →
  Forall (λ m : World D → World D, ∀ w, valid p w → valid p (m w)) (pr_sleeps run) →
  packJobs env ord limits run s = Some (r, s') →
  ¬ owned s.1 p ∧ owned s1.1 p ∧ r = Ok tt ∧
  ∃ x, mine (Id job) x p s1 ∧
    settled (Id job) x p job
      (answer (pr_done run) p (waiting (pr_sleeps run) (pr_assign run) p job s1)) s'.
Proof.
  intros Hh Ho Hp Hpack Hd Hs E. unfold packJobs, node_pool in E. rewrite Hpack in E.
  pose proof (PackNextJob_yields (ContainerPool0 := Containers_pool env)
    (PoolLaws0 := Containers_laws env) _ _ _ _ _ _ Hp Hpack) as [_ Hy].
  destruct (Hy p eq_refl) as [Hfree Hmine].
  destruct (PackNextJob_mine env _ _ _ _ _ _ _ Ho Hp Hh Hpack) as [x Hm].
  pose proof (assignJob_end _ _ _ _ x p job s1 r s' eq_refl (Hd x) Hs Hm E) as [Hr Hset].
  split_and!; [exact Hfree | exact Hmine | exact Hr |]. by exists x.
Qed.
End properties.

(** ** Witnesses: a container that runs a job, beside a free one *)

Definition checked_image : Image := mkImage "echo" "echo" [] [] 2 64 false ∅ 5 0.
Definition checked (i : string) (st : ContainerState) (changed : Z) : Container :=
  mkContainer i 2 64 "localhost:1" checked_image ("docker-" +:+ i) "jobs" [] [] false 1 st changed
    EmptyString [].
Definition check_world (changed : Z) : World Toy :=
  mkWorld [checked "f" Free changed; checked "b" Running 0] [0%nat; 1%nat]
    {[ "docker-f" := true; "docker-b" := true ]} empty_disk 9000000000 [] O (Some []).
Definition idle_world (changed : Z) : World Toy :=
  mkWorld [checked "f" Free changed] [0%nat] {[ "docker-f" := true ]} empty_disk 9000000000 [] O (Some []).

Definition runs_b (d : Toy) : Prop := d !! "docker-b" = Some true.

Lemma runs_b_steady : steady (checked "b" Running 0) runs_b.
Proof.
  split.
  - by intros i d H.
  - intros i d H Hi. unfold runs_b. cbn. by rewrite lookup_delete_ne.
  - unfold runs_b. intros d data H. cbn [ContainerInspect toy_docker fst].
    change (c_dockerID (checked "b" Running 0)) with "docker-b"%string. rewrite H. by intros [= <-].
Defined.

Definition check_state (w : World Toy) : World Toy * Jobs := (w, CreateJobsQueue).
Definition checked_state : World Toy * Jobs :=
  (default (Ok tt, check_state (check_world 8000000000))
    (healthChecks default_order (λ _ s, s) (check_state (check_world 8000000000)))).2.

Lemma health_check_spares_busy_witness :
  conts checked_state.1 !! 1%nat = Some (checked "b" Running 0) ∧ 1%nat ∈ tracked checked_state.1.
Proof.
  assert (undisturbed runs_b 1%nat (checked "b" Running 0) [0%nat; 1%nat] (check_world 8000000000)) as HI.
  { apply Build_undisturbed.
    - reflexivity.
    - right. left.
    - by intros x Hx.
    - reflexivity.
    - intros q c' [->|[->|[]%elem_of_nil]%elem_of_cons]%elem_of_cons Hq; [|done].
      intros [= <-]. split; [|intros _]; discriminate. }
  apply (health_check_spares_busy runs_b 1%nat _ default_order (λ _ s, s)
    (check_state (check_world 8000000000)) (Ok tt) checked_state).
  - exact runs_b_steady.
  - discriminate.
  - by intros pt s0 H0.
  - exact HI.
  - vm_compute. reflexivity.
Defined.

Lemma idle_rule_inverted_witness :
  (∃ w, healthChecks default_order (λ _ s, s) (check_state (idle_world 3000000000)) =
     Some (Ok tt, (w, CreateJobsQueue)) ∧ tracked w = [0%nat]) ∧
  ∃ w, healthChecks default_order (λ _ s, s) (check_state (idle_world 8000000000)) =
     Some (Ok tt, (w, CreateJobsQueue)) ∧ tracked w = [].
Proof.
  assert (∀ changed, idle default_order 0%nat (checked "f" Free changed) (check_state (idle_world changed)))
    as Hi by (intros changed; apply Build_idle; by vm_compute).
  split.
  - destruct (idle_rule_inverted default_order 0%nat _ _ (Hi 3000000000)) as [H _].
    destruct H as (w & Hw & _ & Ht); [by vm_compute|]. by exists w.
  - destruct (idle_rule_inverted default_order 0%nat _ _ (Hi 8000000000)) as [_ H].
    eexists. split; [apply H|].
    + reflexivity.
    + apply run_eq. vm_compute. reflexivity.
    + reflexivity.
Defined.

(** The first tick of a fresh pool starts a container for the job; while the goroutine
    sleeps the container comes up, while it waits the result arrives. *)
Definition start_state : World Toy * Jobs := (toy_world, run_queue).
Definition comes_up (w : World Toy) : World Toy :=
  set_daemon (<["docker-con_u" := true]> (daemon w)) w.
Definition first_tick : pack_run := mkPackRun no_others [comes_up] answers false.

Definition packed : (loc * Job) * (World Toy * Jobs) :=
  match PackNextJob default_order (10, 1000) no_others start_state with
  | Some (Ok (Some r), s) => (r, s)
  | _ => ((O, run_job), start_state)
  end.
Definition ticked : World Toy * Jobs :=
  match packJobs toy_env default_order (10, 1000) first_tick start_state with
  | Some (_, s) => s
  | None => start_state
  end.

Lemma start_healthy : healthy start_state.2.
Proof.
  split; [|reflexivity].
  destruct (QR_do_ops run_ops _ _ QR_new) as (m & _ & HR); [|by exists m].
  refine (bool_decide_unpack _ _). vm_compute. exact I.
Defined.

Lemma packJobs_settles_witness :
  packed.1.1 = 0%nat ∧ Id packed.1.2 = "b" ∧ completed ticked.2 = [1%nat] ∧
  ¬ owned toy_world 0%nat ∧ owned packed.2.1 0%nat ∧
  ∃ x, settled "b" x 0%nat packed.1.2 [x34; x32] ticked.
Proof.
  split; [vm_compute; reflexivity|]. split; [vm_compute; reflexivity|].
  split; [vm_compute; reflexivity|].
  destruct (packJobs_settles toy_env default_order (10, 1000) first_tick start_state packed.1.1
    packed.1.2 packed.2 (Ok tt) ticked) as (Hf & Hm & _ & x & _ & Hs).
  - exact start_healthy.
  - by intros pt s Hs.
  - by intros pt s q Hq.
  - vm_compute. reflexivity.
  - intros x. apply answers_discreet.
  - apply Forall_singleton. by intros w Hw.
  - vm_compute. reflexivity.
  - split; [exact Hf|]. split; [exact Hm|]. exists x.
    assert (answer (pr_done first_tick) packed.1.1 (waiting (pr_sleeps first_tick)
      (pr_assign first_tick) packed.1.1 packed.1.2 packed.2) = [x34; x32]) as Ha
      by (vm_compute; reflexivity).
    rewrite Ha in Hs. exact Hs.
Defined.
